(** * Spliit: backup / JSON import, version reconciliation and restore

    A shallow embedding of the import side of the application:

    - [lib/json-import.ts]  (lightweight JSON format): [mapSplitMode],
      [mapRecurrenceRule], [compareJSONVersions], [calculateJSONDifferences],
      [restoreGroupFromJSON];
    - [lib/backup.ts] (full zip backup format): [compareVersions],
      [calculateDifferences], [restoreGroupFromBackup];
    - the two import route handlers ([POST]) and the undo-import handler.

    Conventions of the embedding.

    - A JavaScript [Date] is its time value, an integer number of
      milliseconds since the epoch ([Z]); date strings of a snapshot are
      represented by the time value [new Date(s).getTime()] they denote.
      Invalid dates (NaN time values) are outside the model.
    - [d.toISOString().split('T')[0]] is the UTC calendar day of [d]; it is
      determined by, and determines, the quotient of the time value by
      86 400 000 rounded down, which is what [isoDay] returns.
    - The key [`${d.toISOString()}:${title}`] is a pair (time value, title):
      [toISOString] is injective and its output has a length fixed by its
      first character, so the concatenation determines both components.
    - A JavaScript [Set] of strings is a [gset]; tables of the database are
      lists of rows in insertion order.
    - [async] code runs in the monad [Tx] (state of one transaction plus
      exceptions); [throw] is [raise].
    - A decimal number is held as the text it was built from; whether the
      decimal constructor takes a text is [Decimal.accepts]. *)

From Stdlib Require Import Ascii.
From stdpp Require Import base gmap sets list strings pretty sorting.

Local Open Scope string_scope.
Local Open Scope Z_scope.

(** ** Scalars and enumerations *)

Definition Date := Z.

Inductive SplitMode := EVENLY | BY_SHARES | BY_PERCENTAGE | BY_AMOUNT.
Inductive RecurrenceRule := NONE | DAILY | WEEKLY | MONTHLY.

Inductive Mode := create | update | rollback.

Definition Mode_text (m : Mode) : string :=
  match m with create => "create" | update => "update" | rollback => "rollback" end.

#[global] Instance SplitMode_eq_dec : EqDecision SplitMode.
Proof. solve_decision. Defined.
#[global] Instance RecurrenceRule_eq_dec : EqDecision RecurrenceRule.
Proof. solve_decision. Defined.
#[global] Instance Mode_eq_dec : EqDecision Mode.
Proof. solve_decision. Defined.

(** The double-quote character, for messages that quote an expense title. *)
Definition dquote : string := String (ascii_of_nat 34) EmptyString.

(** ** The persistent store *)

Module Group.
Record t := mk {
  id : string; name : string; information : option string;
  currency : string; currencyCode : option string; createdAt : Date }.
End Group.

Module Participant.
Record t := mk { id : string; groupId : string; name : string }.
End Participant.

Module Expense.
Record t := mk {
  id : string; groupId : string; expenseDate : Date; createdAt : Date;
  title : string; categoryId : Z; amount : Z;
  originalAmount : option Z; originalCurrency : option string;
  conversionRate : option string;
  paidById : string; isReimbursement : bool; splitMode : SplitMode;
  notes : option string; recurrenceRule : option RecurrenceRule }.
End Expense.

Module ExpensePaidFor.
Record t := mk { expenseId : string; participantId : string; shares : Z }.
End ExpensePaidFor.

Module Category.
Record t := mk { id : Z; grouping : string; name : string }.
End Category.

Module Activity.
Record t := mk {
  id : string; groupId : string; time : Date; activityType : string;
  participantId : option string; expenseId : option string;
  data : option string }.
End Activity.

Module ExpenseDocument.
Record t := mk {
  id : string; url : string; width : Z; height : Z; expenseId : string }.
End ExpenseDocument.

Module RecurringExpenseLink.
Record t := mk {
  id : string; groupId : string; currentFrameExpenseId : string;
  nextExpenseCreatedAt : option Date; nextExpenseDate : Date }.
End RecurringExpenseLink.

(** Modelled from the spec: the database schema (the Prisma schema file is
    not among the sources).  Section 3 of the specification lists the
    entities Group, Participant, Expense, ExpensePaidFor, Category and
    Activity with these fields, Documents and the recurring-expense link
    hanging off an Expense; the conversion-rate column keeps the decimal
    text (its numeric reading is not modelled). *)
Record Store := mkStore {
  groups : list Group.t;
  participants : list Participant.t;
  expenses : list Expense.t;
  expensePaidFors : list ExpensePaidFor.t;
  categories : list Category.t;
  activities : list Activity.t;
  expenseDocuments : list ExpenseDocument.t;
  recurringExpenseLinks : list RecurringExpenseLink.t }.

Definition emptyStore : Store := mkStore [] [] [] [] [] [] [] [].

Inductive Row :=
| GroupRow (r : Group.t)
| ParticipantRow (r : Participant.t)
| ExpenseRow (r : Expense.t)
| ExpensePaidForRow (r : ExpensePaidFor.t)
| CategoryRow (r : Category.t)
| ActivityRow (r : Activity.t)
| ExpenseDocumentRow (r : ExpenseDocument.t)
| RecurringExpenseLinkRow (r : RecurringExpenseLink.t).

Definition Row_table (r : Row) : string :=
  match r with
  | GroupRow _ => "Group" | ParticipantRow _ => "Participant"
  | ExpenseRow _ => "Expense" | ExpensePaidForRow _ => "ExpensePaidFor"
  | CategoryRow _ => "Category" | ActivityRow _ => "Activity"
  | ExpenseDocumentRow _ => "ExpenseDocument"
  | RecurringExpenseLinkRow _ => "RecurringExpenseLink"
  end.

(** Appending one row to its table. *)
Definition insertRow (r : Row) (s : Store) : Store :=
  match r with
  | GroupRow g =>
      mkStore (groups s ++ [g]) (participants s) (expenses s) (expensePaidFors s)
        (categories s) (activities s) (expenseDocuments s) (recurringExpenseLinks s)
  | ParticipantRow p =>
      mkStore (groups s) (participants s ++ [p]) (expenses s) (expensePaidFors s)
        (categories s) (activities s) (expenseDocuments s) (recurringExpenseLinks s)
  | ExpenseRow e =>
      mkStore (groups s) (participants s) (expenses s ++ [e]) (expensePaidFors s)
        (categories s) (activities s) (expenseDocuments s) (recurringExpenseLinks s)
  | ExpensePaidForRow pf =>
      mkStore (groups s) (participants s) (expenses s) (expensePaidFors s ++ [pf])
        (categories s) (activities s) (expenseDocuments s) (recurringExpenseLinks s)
  | CategoryRow c =>
      mkStore (groups s) (participants s) (expenses s) (expensePaidFors s)
        (categories s ++ [c]) (activities s) (expenseDocuments s) (recurringExpenseLinks s)
  | ActivityRow a =>
      mkStore (groups s) (participants s) (expenses s) (expensePaidFors s)
        (categories s) (activities s ++ [a]) (expenseDocuments s) (recurringExpenseLinks s)
  | ExpenseDocumentRow d =>
      mkStore (groups s) (participants s) (expenses s) (expensePaidFors s)
        (categories s) (activities s) (expenseDocuments s ++ [d]) (recurringExpenseLinks s)
  | RecurringExpenseLinkRow l =>
      mkStore (groups s) (participants s) (expenses s) (expensePaidFors s)
        (categories s) (activities s) (expenseDocuments s) (recurringExpenseLinks s ++ [l])
  end.

(** ** The environment of a run

    Everything the code reads from outside: [randomUUID()], the clock
    ([new Date()] and the store's default for [createdAt]), the reachability
    probe [checkUrlExists], the two text renderers used in activity payloads,
    and the constraints the database schema puts on an insertion.  Reads are
    indexed by a counter ([tick]) that advances at every read, so successive
    reads are independent. *)
Record Env := mkEnv {
  uuidAt : nat → string;
  clockAt : nat → Date;
  urlReachableAt : nat → string → bool;
  toISOString : Date → string;
  JSON_stringify : string → string;
  (** constraints of the schema (uniqueness, foreign keys, ...): whether the
      store in this state accepts the row.  The schema is not among the
      sources, so the development holds for every such policy. *)
  schemaAccepts : Store → Row → bool;
  (** the members of the schema's enumeration of activity types, of which
      the sources name two, ['UPDATE_GROUP'] and ['CREATE_EXPENSE'] *)
  isActivityType : string → bool }.

(** ** Errors and the transaction monad *)

Inductive Error :=
| InvalidPaidById (id title : string) (verbose : bool)
| InvalidParticipantId (id title : string) (verbose : bool)
| GroupNotFound
| RecordToUpdateNotFound
| ConstraintViolation (table : string)
| InvalidEnumValue (column value : string)
| DecimalError (value : string).

(** The text of [error.message]. *)
Definition Error_message (e : Error) : string :=
  match e with
  | InvalidPaidById id title verbose =>
      "Invalid paidById: " ++ id ++ " not found in participants for expense "
        ++ dquote ++ title ++ dquote ++
        (if verbose
         then ". This expense was paid by a participant that doesn't exist in the imported participant list."
         else EmptyString)
  | InvalidParticipantId id title verbose =>
      "Invalid participantId: " ++ id ++ " not found in participants for expense "
        ++ dquote ++ title ++ dquote ++
        (if verbose
         then ". This expense is shared with a participant that doesn't exist in the imported participant list."
         else EmptyString)
  | GroupNotFound => "Group not found"
  | RecordToUpdateNotFound => "Record to update not found."
  | ConstraintViolation table => "Constraint failed on " ++ table
  | InvalidEnumValue column value => "Invalid value for " ++ column ++ ": " ++ value
  | DecimalError value => "[DecimalError] Invalid argument: " ++ value
  end.

Inductive Result (A : Type) :=
| Ok (a : A)
| Err (e : Error).
Arguments Ok {A} a.
Arguments Err {A} e.

Record TxState := mkTx { db : Store; tick : nat }.

Definition Tx (A : Type) : Type := TxState → Result (A * TxState).

Definition ret {A} (a : A) : Tx A := λ s, Ok (a, s).

Definition bind {A B} (m : Tx A) (k : A → Tx B) : Tx B :=
  λ s, match m s with
       | Ok (a, s') => k a s'
       | Err e => Err e
       end.

Definition raise {A} (e : Error) : Tx A := λ _, Err e.

Notation "'let*' x := m 'in' k" := (bind m (λ x, k))
  (at level 10, x name, m at level 200, k at level 200,
   format "'[v' 'let*'  x  :=  m  'in'  '/' k ']'").
Notation "'run' m 'then' k" := (bind m (λ _, k))
  (at level 10, m at level 200, k at level 200,
   format "'[v' 'run'  m  'then'  '/' k ']'").

(** [for (const x of xs) { body }] *)
Fixpoint forOf {A} (xs : list A) (body : A → Tx unit) : Tx unit :=
  match xs with
  | [] => ret tt
  | x :: rest => run body x then forOf rest body
  end.

(** A [for ... of] loop that updates a local variable ([acc]) declared
    outside the loop. *)
Fixpoint forOfAcc {A B} (xs : list A) (acc : B) (body : B → A → Tx B) : Tx B :=
  match xs with
  | [] => ret acc
  | x :: rest => let* acc' := body acc x in forOfAcc rest acc' body
  end.

(** [prisma.$transaction(f)]: commits the store [f] leaves when it returns,
    keeps the store as it was when [f] throws (the exception propagates). *)
Definition transaction {A} (f : Tx A) (s : TxState) : Result A * TxState :=
  match f s with
  | Ok (a, s') => (Ok a, s')
  | Err e => (Err e, s)
  end.

(** ** The database client

    Modelled from the spec: the operations of the database client the code
    calls ([create], [findFirst], [findUnique], [update], [deleteMany],
    [upsert]).  An insertion is subject to the schema's constraints
    ([schemaAccepts]); [update] of a row that does not exist throws; deleting
    Expenses takes their ExpensePaidFor rows along (section 4.3: "deletes all
    of the Group's Expenses (and their ExpensePaidFor rows)"). *)
Module prisma.
Section Client.
Variable env : Env.

Definition nextTick : Tx nat :=
  λ s, Ok (tick s, mkTx (db s) (S (tick s))).

Definition randomUUID : Tx string :=
  let* n := nextTick in ret (uuidAt env n).

(** [new Date()], and the default [now()] of a [createdAt] column *)
Definition now : Tx Date :=
  let* n := nextTick in ret (clockAt env n).

(** [fetch(url, { method: 'HEAD' })], [false] on a network error *)
Definition checkUrlExists (url : string) : Tx bool :=
  let* n := nextTick in ret (urlReachableAt env n url).

Definition query {A} (f : Store → A) : Tx A :=
  λ s, Ok (f (db s), s).

Definition modify (f : Store → Store) : Tx unit :=
  λ s, Ok (tt, mkTx (f (db s)) (tick s)).

Definition create (r : Row) : Tx unit :=
  λ s, if schemaAccepts env (db s) r
       then Ok (tt, mkTx (insertRow r (db s)) (tick s))
       else Err (ConstraintViolation (Row_table r)).

(** [group.findUnique({ where: { id } })] *)
Definition group_findUnique (id : string) : Tx (option Group.t) :=
  query (λ s, List.find (λ g, bool_decide (Group.id g = id)) (groups s)).

(** [group.update({ where: { id }, data })] *)
Definition group_update (id : string) (data : Group.t → Group.t) : Tx unit :=
  let* found := group_findUnique id in
  match found with
  | None => raise RecordToUpdateNotFound
  | Some _ =>
      modify (λ s,
        mkStore ((λ g, if decide (Group.id g = id) then data g else g) <$> groups s)
          (participants s) (expenses s) (expensePaidFors s)
          (categories s) (activities s) (expenseDocuments s)
          (recurringExpenseLinks s))
  end.

(** [category.findFirst({ where: { grouping, name } })] *)
Definition category_findFirst (grouping name : string) : Tx (option Category.t) :=
  query (λ s, List.find
                (λ c, bool_decide (Category.grouping c = grouping ∧ Category.name c = name))
                (categories s)).

(** [category.create({ data: { grouping, name } })]; the identifier is
    auto-incremented. *)
Definition category_create (grouping name : string) : Tx Category.t :=
  let* nextId := query (λ s, 1 + foldr Z.max 0 (Category.id <$> categories s)) in
  let category := Category.mk nextId grouping name in
  run create (CategoryRow category) then
  ret category.

(** [participant.findMany({ where: { groupId } })] and the [include]s of a
    Group. *)
Definition participantsOf (groupId : string) (s : Store) : list Participant.t :=
  filter (λ p, Participant.groupId p = groupId) (participants s).
Definition expensesOf (groupId : string) (s : Store) : list Expense.t :=
  filter (λ e, Expense.groupId e = groupId) (expenses s).
Definition activitiesOf (groupId : string) (s : Store) : list Activity.t :=
  filter (λ a, Activity.groupId a = groupId) (activities s).

(** [expensePaidFor.deleteMany({ where: { expense: cond } })] *)
Definition expensePaidFor_deleteMany (cond : Expense.t → Prop)
    `{∀ e, Decision (cond e)} : Tx unit :=
  modify (λ s,
    mkStore (groups s) (participants s) (expenses s)
      (filter (λ pf, ¬ Exists (λ e, Expense.id e = ExpensePaidFor.expenseId pf ∧ cond e)
                        (expenses s))
              (expensePaidFors s))
      (categories s) (activities s) (expenseDocuments s) (recurringExpenseLinks s)).

(** [expense.deleteMany({ where: cond })] *)
Definition expense_deleteMany (cond : Expense.t → Prop)
    `{∀ e, Decision (cond e)} : Tx unit :=
  modify (λ s,
    mkStore (groups s) (participants s)
      (filter (λ e, ¬ cond e) (expenses s))
      (filter (λ pf, ¬ Exists (λ e, Expense.id e = ExpensePaidFor.expenseId pf ∧ cond e)
                        (expenses s))
              (expensePaidFors s))
      (categories s) (activities s) (expenseDocuments s) (recurringExpenseLinks s)).

(** [participant.deleteMany({ where: cond })] *)
Definition participant_deleteMany (cond : Participant.t → Prop)
    `{∀ p, Decision (cond p)} : Tx unit :=
  modify (λ s,
    mkStore (groups s) (filter (λ p, ¬ cond p) (participants s))
      (expenses s) (expensePaidFors s)
      (categories s) (activities s) (expenseDocuments s) (recurringExpenseLinks s)).

(** [activity.deleteMany({ where: cond })] *)
Definition activity_deleteMany (cond : Activity.t → Prop)
    `{∀ a, Decision (cond a)} : Tx unit :=
  modify (λ s,
    mkStore (groups s) (participants s) (expenses s) (expensePaidFors s)
      (categories s) (filter (λ a, ¬ cond a) (activities s))
      (expenseDocuments s) (recurringExpenseLinks s)).

(** [expenseDocument.upsert({ where: { id }, create, update })] *)
Definition expenseDocument_upsert (doc : ExpenseDocument.t) : Tx unit :=
  let* present := query (λ s,
    bool_decide (Exists (λ d, ExpenseDocument.id d = ExpenseDocument.id doc)
                   (expenseDocuments s))) in
  if present : bool
  then modify (λ s,
    mkStore (groups s) (participants s) (expenses s) (expensePaidFors s)
      (categories s) (activities s)
      ((λ d, if decide (ExpenseDocument.id d = ExpenseDocument.id doc) then doc else d)
         <$> expenseDocuments s)
      (recurringExpenseLinks s))
  else create (ExpenseDocumentRow doc).
End Client.
End prisma.

(** ** Snapshot formats *)

(** [{ participantId, shares }], in both formats *)
Module PaidFor.
Record t := mk { participantId : string; shares : Z }.
End PaidFor.

(** [{ id, name }], the participants of both formats *)
Module SnapshotParticipant.
Record t := mk { id : string; name : string }.
End SnapshotParticipant.

Module JSONCategory.
Record t := mk { grouping : string; name : string }.
End JSONCategory.

Module JSONExpense.
Record t := mk {
  createdAt : Date; expenseDate : Date; title : string;
  category : option JSONCategory.t;
  amount : Z; originalAmount : option Z; originalCurrency : option string;
  conversionRate : option string;
  paidById : string; paidFor : list PaidFor.t;
  isReimbursement : bool; splitMode : string; recurrenceRule : option string }.
End JSONExpense.

Module JSONImportData.
Record t := mk {
  id : string; name : string; currency : string; currencyCode : option string;
  expenses : list JSONExpense.t;
  participants : list SnapshotParticipant.t }.
End JSONImportData.

Inductive VersionComparisonResult := NEWER | OLDER | SAME | NOT_FOUND.

#[global] Instance VersionComparisonResult_eq_dec : EqDecision VersionComparisonResult.
Proof. solve_decision. Defined.

Module Differences.
Record t := mk {
  addedExpenses : nat; removedExpenses : nat; modifiedExpenses : nat;
  addedParticipants : nat; removedParticipants : nat }.
End Differences.

(** [Math.max(t, ...ts)] on a non-empty argument list *)
Definition Math_max (t : Z) (ts : list Z) : Z := foldl Z.max t ts.

(** [d.toISOString().split('T')[0]] *)
Definition isoDay (d : Date) : Z := d `div` 86400000.

(** [x ? f(x) : null] on a string: the empty string is falsy. *)
Definition truthy (x : option string) : option string :=
  match x with
  | Some s => if decide (s = EmptyString) then None else Some s
  | None => None
  end.

(** ** The decimal constructor

    [new Prisma.Decimal(text)] is the constructor of the decimal library,
    which is not among the sources.  It takes a numeral with an optional
    sign: a decimal numeral (digits with an optional fraction, or a fraction
    alone, then an optional exponent), [Infinity], [NaN], or a hexadecimal,
    binary or octal numeral with its prefix; an underscore between two digits
    is a separator.  On every other text it throws. *)
Module Decimal.

Definition isDigit (c : ascii) : bool :=
  (48 <=? nat_of_ascii c)%nat && (nat_of_ascii c <=? 57)%nat.

Definition isOctalDigit (c : ascii) : bool :=
  (48 <=? nat_of_ascii c)%nat && (nat_of_ascii c <=? 55)%nat.

Definition isBinaryDigit (c : ascii) : bool :=
  (48 <=? nat_of_ascii c)%nat && (nat_of_ascii c <=? 49)%nat.

(** [c.toLowerCase()] on a letter of the alphabet *)
Definition toLowerCase (c : ascii) : ascii :=
  if (65 <=? nat_of_ascii c)%nat && (nat_of_ascii c <=? 90)%nat
  then ascii_of_nat (nat_of_ascii c + 32)
  else c.

Definition isHexDigit (c : ascii) : bool :=
  isDigit c
  || (97 <=? nat_of_ascii (toLowerCase c))%nat && (nat_of_ascii (toLowerCase c) <=? 102)%nat.

(** What is left of [text] after its leading digits. *)
Fixpoint skip (digit : ascii → bool) (text : list ascii) : list ascii :=
  match text with
  | c :: rest => if digit c then skip digit rest else text
  | [] => []
  end.

Definition starts (digit : ascii → bool) (text : list ascii) : bool :=
  match text with
  | c :: _ => digit c
  | [] => false
  end.

(** Digits with an optional point and further digits, or a point and digits,
    at the head of [text]: what follows them. *)
Definition mantissa (digit : ascii → bool) (text : list ascii) : option (list ascii) :=
  if starts digit text
  then match skip digit text with
       | "."%char :: rest => Some (skip digit rest)
       | rest => Some rest
       end
  else match text with
       | "."%char :: rest => if starts digit rest then Some (skip digit rest) else None
       | _ => None
       end.

(** The end of the text, or the marker (in either case), an optional sign
    and digits up to the end of the text. *)
Definition exponent (marker : ascii) (text : list ascii) : bool :=
  match text with
  | [] => true
  | c :: rest =>
      let digits :=
        match rest with
        | sign :: rest' =>
            if bool_decide (sign = "+"%char ∨ sign = "-"%char) then rest' else rest
        | [] => []
        end in
      bool_decide (toLowerCase c = marker)
      && starts isDigit digits && bool_decide (skip isDigit digits = [])
  end.

Definition numeral (digit : ascii → bool) (marker : ascii) (text : list ascii) : bool :=
  match mantissa digit text with
  | Some rest => exponent marker rest
  | None => false
  end.

(** The test of a decimal numeral: a mantissa and an optional exponent
    after [e]. *)
Definition isDecimal (text : list ascii) : bool := numeral isDigit "e" text.

(** A numeral in another base: [0], the letter of the base (in either
    case), a mantissa in the digits of the base and an optional binary
    exponent after [p]. *)
Definition prefixed (letter : ascii) (digit : ascii → bool) (text : list ascii) : bool :=
  match text with
  | "0"%char :: c :: rest => bool_decide (toLowerCase c = letter) && numeral digit "p" rest
  | _ => false
  end.

Definition isHex (text : list ascii) : bool := prefixed "x" isHexDigit text.
Definition isBinary (text : list ascii) : bool := prefixed "b" isBinaryDigit text.
Definition isOctal (text : list ascii) : bool := prefixed "o" isOctalDigit text.

(** Removing the separators: each underscore that follows a digit and
    precedes one. *)
Fixpoint separators (text : list ascii) : list ascii :=
  match text with
  | [] => []
  | c :: rest =>
      c :: match rest with
           | u :: rest' =>
               if isDigit c && bool_decide (u = "_"%char) && starts isDigit rest'
               then separators rest'
               else separators rest
           | [] => []
           end
  end.

(** The texts other than decimal numerals. *)
Definition parseOther (text : list ascii) : bool :=
  if bool_decide ("_"%char ∈ text)
  then isDecimal (separators text)
       || isHex (separators text) || isBinary (separators text)
       || isOctal (separators text)
  else bool_decide (text = String.list_ascii_of_string "Infinity"
                    ∨ text = String.list_ascii_of_string "NaN")
       || isHex text || isBinary text || isOctal text.

(** Whether the constructor returns on [value]. *)
Definition accepts (value : string) : bool :=
  let text := String.list_ascii_of_string value in
  let unsigned :=
    match text with
    | c :: rest => if bool_decide (c = "-"%char ∨ c = "+"%char) then rest else text
    | [] => []
    end in
  isDecimal unsigned || parseOther unsigned.

End Decimal.

(** * lib/json-import.ts *)
Module JsonImport.

Module VersionComparison.
Record t := mk {
  result : VersionComparisonResult;
  existingGroupUpdatedAt : option Date;
  jsonExportedAt : Date }.
End VersionComparison.

Module ExistingExpense.
Record t := mk { id : string; createdAt : Date; expenseDate : Date }.
End ExistingExpense.

(** What the route passes for the live group.  The declared type of the
    parameter lists the three arrays; the object itself also carries the
    scalar columns of the Group row, of which [createdAt] is kept here. *)
Module ExistingGroup.
Record t := mk {
  createdAt : Date;
  participants : list string;         (* Array<{ id }> *)
  expenses : list ExistingExpense.t;
  activities : list Date }.           (* Array<{ time }> *)
End ExistingGroup.

Definition mapSplitMode (value : string) : SplitMode :=
  if decide (value = "BY_SHARES") then BY_SHARES
  else if decide (value = "BY_PERCENTAGE") then BY_PERCENTAGE
  else if decide (value = "BY_AMOUNT") then BY_AMOUNT
  else EVENLY.

Definition mapRecurrenceRule (value : option string) : RecurrenceRule :=
  match value with
  | Some v =>
      if decide (v = "DAILY") then DAILY
      else if decide (v = "WEEKLY") then WEEKLY
      else if decide (v = "MONTHLY") then MONTHLY
      else NONE
  | None => NONE
  end.

(** The "export date" of a JSON snapshot: its latest expense date. *)
Definition latestExpenseDate (jsonData : JSONImportData.t) : Date :=
  match JSONExpense.expenseDate <$> JSONImportData.expenses jsonData with
  | [] => 0
  | t :: ts => Math_max t ts
  end.

Definition latestExpense (existingGroup : ExistingGroup.t) : option Date :=
  match ExistingExpense.expenseDate <$> ExistingGroup.expenses existingGroup with
  | [] => None
  | t :: ts => Some (Math_max t ts)
  end.

Definition latestActivity (existingGroup : ExistingGroup.t) : option Date :=
  match ExistingGroup.activities existingGroup with
  | [] => None
  | t :: ts => Some (Math_max t ts)
  end.

Definition existingGroupUpdatedAt (existingGroup : ExistingGroup.t) : Date :=
  match latestExpense existingGroup, latestActivity existingGroup with
  | Some e, Some a => Math_max e [a]
  | Some e, None => e
  | None, Some a => a
  | None, None => 0
  end.

Definition compareJSONVersions (jsonData : JSONImportData.t)
    (existingGroup : option ExistingGroup.t) : VersionComparison.t :=
  let latestExpenseDate := latestExpenseDate jsonData in
  match existingGroup with
  | None => VersionComparison.mk NOT_FOUND None latestExpenseDate
  | Some existingGroup =>
      let existingGroupUpdatedAt := existingGroupUpdatedAt existingGroup in
      if decide (latestExpenseDate > existingGroupUpdatedAt)
      then VersionComparison.mk NEWER (Some existingGroupUpdatedAt) latestExpenseDate
      else if decide (latestExpenseDate < existingGroupUpdatedAt)
      then VersionComparison.mk OLDER (Some existingGroupUpdatedAt) latestExpenseDate
      else VersionComparison.mk SAME (Some existingGroupUpdatedAt) latestExpenseDate
  end.

Definition calculateJSONDifferences (jsonData : JSONImportData.t)
    (existingGroup : ExistingGroup.t) : Differences.t :=
  let existingParticipantIds : gset string :=
    list_to_set (ExistingGroup.participants existingGroup) in
  let existingExpenseDates : gset Z :=
    list_to_set ((λ e, isoDay (ExistingExpense.expenseDate e))
                   <$> ExistingGroup.expenses existingGroup) in
  let jsonExpenseDates : gset Z :=
    list_to_set ((λ e, isoDay (JSONExpense.expenseDate e))
                   <$> JSONImportData.expenses jsonData) in
  let addedExpenses :=
    length (filter (λ e, isoDay (JSONExpense.expenseDate e) ∉ existingExpenseDates)
              (JSONImportData.expenses jsonData)) in
  let removedExpenses :=
    length (filter (λ e, isoDay (ExistingExpense.expenseDate e) ∉ jsonExpenseDates)
              (ExistingGroup.expenses existingGroup)) in
  let addedParticipants :=
    length (filter (λ p, SnapshotParticipant.id p ∉ existingParticipantIds)
              (JSONImportData.participants jsonData)) in
  let removedParticipants :=
    length (filter (λ p, ¬ Exists (λ jp, SnapshotParticipant.id jp = p)
                              (JSONImportData.participants jsonData))
              (ExistingGroup.participants existingGroup)) in
  Differences.mk addedExpenses removedExpenses 0 addedParticipants removedParticipants.

Section Restore.
Variable env : Env.

(** [`JSON_IMPORT_START:${mode}:${n} expenses`] *)
Definition importStartMarker (mode : Mode) (n : nat) : string :=
  "JSON_IMPORT_START:" ++ Mode_text mode ++ ":" ++ pretty n ++ " expenses".

(** [JSON.stringify({ title, importDate: importTime.toISOString() })] *)
Definition importedExpensePayload (title : string) (importTime : Date) : string :=
  "{" ++ dquote ++ "title" ++ dquote ++ ":" ++ JSON_stringify env title
      ++ "," ++ dquote ++ "importDate" ++ dquote ++ ":"
      ++ dquote ++ toISOString env importTime ++ dquote ++ "}".

(** "Mark the start of JSON import" *)
Definition markImportStart (jsonData : JSONImportData.t) (mode : Mode)
    (importTime : Date) : Tx unit :=
  let* id := prisma.randomUUID env in
  prisma.create env (ActivityRow
    (Activity.mk id (JSONImportData.id jsonData) importTime "UPDATE_GROUP" None None
       (Some (importStartMarker mode (length (JSONImportData.expenses jsonData)))))).

(** The body of the expense loop: validation of the participant
    identifiers, category lookup-or-create, the Expense with its paidFor
    rows, and its activity record.  The source has this block three times,
    once per mode, identical except for the text of the two errors, which
    is longer in create mode ([verbose]). *)
Definition importExpense (verbose : bool) (jsonData : JSONImportData.t)
    (importTime : Date) (participantIds : gset string)
    (expense : JSONExpense.t) : Tx unit :=
  if decide (JSONExpense.paidById expense ∉ participantIds)
  then raise (InvalidPaidById (JSONExpense.paidById expense)
                (JSONExpense.title expense) verbose)
  else
  run forOf (JSONExpense.paidFor expense) (λ pf,
        if decide (PaidFor.participantId pf ∉ participantIds)
        then raise (InvalidParticipantId (PaidFor.participantId pf)
                      (JSONExpense.title expense) verbose)
        else ret tt) then
  let* categoryId :=
    match JSONExpense.category expense with
    | Some c =>
        let* found := prisma.category_findFirst
                        (JSONCategory.grouping c) (JSONCategory.name c) in
        let* category :=
          match found with
          | Some category => ret category
          | None => prisma.category_create env
                      (JSONCategory.grouping c) (JSONCategory.name c)
          end in
        ret (Some (Category.id category))
    | None => ret None
    end in
  let* expenseId := prisma.randomUUID env in
  let* createdAt := prisma.now env in
  run prisma.create env (ExpenseRow
        (Expense.mk expenseId (JSONImportData.id jsonData)
           (JSONExpense.expenseDate expense) createdAt
           (JSONExpense.title expense) (default 0 categoryId)
           (JSONExpense.amount expense) (JSONExpense.originalAmount expense)
           (JSONExpense.originalCurrency expense)
           (truthy (JSONExpense.conversionRate expense))
           (JSONExpense.paidById expense) (JSONExpense.isReimbursement expense)
           (mapSplitMode (JSONExpense.splitMode expense)) None
           (Some (mapRecurrenceRule (JSONExpense.recurrenceRule expense))))) then
  run forOf (JSONExpense.paidFor expense) (λ pf,
        prisma.create env (ExpensePaidForRow
          (ExpensePaidFor.mk expenseId (PaidFor.participantId pf) (PaidFor.shares pf)))) then
  let* activityId := prisma.randomUUID env in
  prisma.create env (ActivityRow
    (Activity.mk activityId (JSONImportData.id jsonData) importTime "CREATE_EXPENSE"
       None (Some expenseId)
       (Some (importedExpensePayload (JSONExpense.title expense) importTime)))).

Definition participantRow (groupId : string) (p : SnapshotParticipant.t) : Participant.t :=
  Participant.mk (SnapshotParticipant.id p) groupId (SnapshotParticipant.name p).

(** The heuristic key of update mode, [`${expenseDate.toISOString()}:${title}`] *)
Definition expenseKey (expenseDate : Date) (title : string) : Z * string :=
  (expenseDate, title).

Definition restoreGroupFromJSON (jsonData : JSONImportData.t) (mode : Mode) : Tx unit :=
  let groupId := JSONImportData.id jsonData in
  let* importTime := prisma.now env in
  match mode with
  | create =>
      let* createdAt := prisma.now env in
      run prisma.create env (GroupRow
            (Group.mk groupId (JSONImportData.name jsonData) None
               (JSONImportData.currency jsonData)
               (JSONImportData.currencyCode jsonData) createdAt)) then
      run forOf (JSONImportData.participants jsonData) (λ p,
            prisma.create env (ParticipantRow (participantRow groupId p))) then
      run markImportStart jsonData mode importTime then
      let participantIds : gset string :=
        list_to_set (SnapshotParticipant.id <$> JSONImportData.participants jsonData) in
      forOf (JSONImportData.expenses jsonData)
        (importExpense true jsonData importTime participantIds)
  | update =>
      let* existingGroup := prisma.group_findUnique groupId in
      let* existingParticipants := prisma.query (prisma.participantsOf groupId) in
      let* existingExpenses := prisma.query (prisma.expensesOf groupId) in
      match existingGroup with
      | None => raise GroupNotFound
      | Some _ =>
          run markImportStart jsonData mode importTime then
          run prisma.group_update groupId (λ g,
                Group.mk (Group.id g) (JSONImportData.name jsonData)
                  (Group.information g) (JSONImportData.currency jsonData)
                  (JSONImportData.currencyCode jsonData) (Group.createdAt g)) then
          let* existingParticipantIds :=
            forOfAcc (JSONImportData.participants jsonData)
              (list_to_set (Participant.id <$> existingParticipants) : gset string)
              (λ existingParticipantIds participant,
                 if decide (SnapshotParticipant.id participant ∉ existingParticipantIds)
                 then
                   run prisma.create env
                         (ParticipantRow (participantRow groupId participant)) then
                   ret ({[ SnapshotParticipant.id participant ]} ∪ existingParticipantIds)
                 else ret existingParticipantIds) in
          let existingExpenseKeys : gset (Z * string) :=
            list_to_set ((λ e, expenseKey (Expense.expenseDate e) (Expense.title e))
                           <$> existingExpenses) in
          forOf (JSONImportData.expenses jsonData) (λ expense,
            let expenseKey :=
              expenseKey (JSONExpense.expenseDate expense) (JSONExpense.title expense) in
            if decide (expenseKey ∉ existingExpenseKeys)
            then importExpense false jsonData importTime existingParticipantIds expense
            else ret tt)
      end
  | rollback =>
      run prisma.expensePaidFor_deleteMany (λ e, Expense.groupId e = groupId) then
      run prisma.expense_deleteMany (λ e, Expense.groupId e = groupId) then
      run prisma.participant_deleteMany (λ p, Participant.groupId p = groupId) then
      run prisma.activity_deleteMany (λ a, Activity.groupId a = groupId) then
      run prisma.group_update groupId (λ g,
            Group.mk (Group.id g) (JSONImportData.name jsonData)
              (Group.information g) (JSONImportData.currency jsonData)
              (JSONImportData.currencyCode jsonData) (Group.createdAt g)) then
      run markImportStart jsonData mode importTime then
      let* participantIds :=
        forOfAcc (JSONImportData.participants jsonData) (∅ : gset string)
          (λ participantIds participant,
             run prisma.create env
                   (ParticipantRow (participantRow groupId participant)) then
             ret ({[ SnapshotParticipant.id participant ]} ∪ participantIds)) in
      forOf (JSONImportData.expenses jsonData)
        (importExpense false jsonData importTime participantIds)
  end.
End Restore.
End JsonImport.

(** * lib/backup.ts *)

Module BackupCategory.
Record t := mk { id : Z; name : string; grouping : string }.
End BackupCategory.

Module BackupDocument.
Record t := mk { id : string; url : string; width : Z; height : Z }.
End BackupDocument.

Module BackupRecurringLink.
Record t := mk {
  id : string; nextExpenseCreatedAt : option Date; nextExpenseDate : Date }.
End BackupRecurringLink.

Module BackupExpense.
Record t := mk {
  id : string; expenseDate : Date; createdAt : Date; title : string;
  category : option BackupCategory.t;
  amount : Z; originalAmount : option Z; originalCurrency : option string;
  conversionRate : option string;
  paidById : string; paidFor : list PaidFor.t;
  isReimbursement : bool; splitMode : string; notes : option string;
  documents : list BackupDocument.t;
  recurrenceRule : option string;
  recurringExpenseLink : option BackupRecurringLink.t }.
End BackupExpense.

Module BackupActivity.
Record t := mk {
  id : string; time : Date; activityType : string;
  participantId : option string; expenseId : option string;
  data : option string }.
End BackupActivity.

Module BackupGroup.
Record t := mk {
  id : string; name : string; information : option string;
  currency : string; currencyCode : option string; createdAt : Date }.
End BackupGroup.

Module BackupData.
Record t := mk {
  version : string; exportedAt : Date;
  group : BackupGroup.t;
  participants : list SnapshotParticipant.t;
  expenses : list BackupExpense.t;
  activities : list BackupActivity.t }.
End BackupData.

Module Backup.

Module GroupComparison.
Record t := mk {
  result : VersionComparisonResult;
  existingGroupUpdatedAt : option Date;
  backupExportedAt : Date }.
End GroupComparison.

Module ExistingExpense.
Record t := mk { id : string; createdAt : Date }.
End ExistingExpense.

Module ExistingGroup.
Record t := mk {
  createdAt : Date;
  participants : list string;         (* Array<{ id }> *)
  expenses : list ExistingExpense.t;
  activities : list Date }.           (* Array<{ time }> *)
End ExistingGroup.

Module RestoreResult.
Record t := mk { success : bool; warnings : list string }.
End RestoreResult.

Definition latestExpenseTime (existingGroup : ExistingGroup.t) : Date :=
  match ExistingExpense.createdAt <$> ExistingGroup.expenses existingGroup with
  | [] => ExistingGroup.createdAt existingGroup
  | t :: ts => Math_max t ts
  end.

Definition latestActivityTime (existingGroup : ExistingGroup.t) : Date :=
  match ExistingGroup.activities existingGroup with
  | [] => ExistingGroup.createdAt existingGroup
  | t :: ts => Math_max t ts
  end.

Definition existingGroupUpdatedAt (existingGroup : ExistingGroup.t) : Date :=
  Math_max (latestExpenseTime existingGroup) [latestActivityTime existingGroup].

Definition compareVersions (backupData : BackupData.t)
    (existingGroup : option ExistingGroup.t) : GroupComparison.t :=
  let backupExportedAt := BackupData.exportedAt backupData in
  match existingGroup with
  | None => GroupComparison.mk NOT_FOUND None backupExportedAt
  | Some existingGroup =>
      let existingGroupUpdatedAt := existingGroupUpdatedAt existingGroup in
      if decide (backupExportedAt > existingGroupUpdatedAt)
      then GroupComparison.mk NEWER (Some existingGroupUpdatedAt) backupExportedAt
      else if decide (backupExportedAt < existingGroupUpdatedAt)
      then GroupComparison.mk OLDER (Some existingGroupUpdatedAt) backupExportedAt
      else GroupComparison.mk SAME (Some existingGroupUpdatedAt) backupExportedAt
  end.

Definition calculateDifferences (backupData : BackupData.t)
    (existingGroup : ExistingGroup.t) : Differences.t :=
  let backupExpenseIds : gset string :=
    list_to_set (BackupExpense.id <$> BackupData.expenses backupData) in
  let existingExpenseIds : gset string :=
    list_to_set (ExistingExpense.id <$> ExistingGroup.expenses existingGroup) in
  let backupParticipantIds : gset string :=
    list_to_set (SnapshotParticipant.id <$> BackupData.participants backupData) in
  let existingParticipantIds : gset string :=
    list_to_set (ExistingGroup.participants existingGroup) in
  Differences.mk
    (length (filter (λ e, BackupExpense.id e ∉ existingExpenseIds)
               (BackupData.expenses backupData)))
    (length (filter (λ e, ExistingExpense.id e ∉ backupExpenseIds)
               (ExistingGroup.expenses existingGroup)))
    0
    (length (filter (λ p, SnapshotParticipant.id p ∉ existingParticipantIds)
               (BackupData.participants backupData)))
    (length (filter (λ p, p ∉ backupParticipantIds)
               (ExistingGroup.participants existingGroup))).

(** [value as any] handed to an enumerated column: the text has to be one
    of the members. *)
Definition castSplitMode (value : string) : Tx SplitMode :=
  if decide (value = "EVENLY") then ret EVENLY
  else if decide (value = "BY_SHARES") then ret BY_SHARES
  else if decide (value = "BY_PERCENTAGE") then ret BY_PERCENTAGE
  else if decide (value = "BY_AMOUNT") then ret BY_AMOUNT
  else raise (InvalidEnumValue "splitMode" value).

Definition castRecurrenceRule (value : option string) : Tx (option RecurrenceRule) :=
  match value with
  | None => ret None
  | Some v =>
      if decide (v = "NONE") then ret (Some NONE)
      else if decide (v = "DAILY") then ret (Some DAILY)
      else if decide (v = "WEEKLY") then ret (Some WEEKLY)
      else if decide (v = "MONTHLY") then ret (Some MONTHLY)
      else raise (InvalidEnumValue "recurrenceRule" v)
  end.

(** [new Prisma.Decimal(value)] *)
Definition newDecimal (value : string) : Tx string :=
  if Decimal.accepts value then ret value else raise (DecimalError value).

(** [value ? new Prisma.Decimal(value) : null] *)
Definition decimalOrNull (value : option string) : Tx (option string) :=
  match truthy value with
  | Some text => let* rate := newDecimal text in ret (Some rate)
  | None => ret None
  end.

Section Restore.
Variable env : Env.

(** [activity.activityType as any] handed to its enumerated column *)
Definition castActivityType (value : string) : Tx string :=
  if isActivityType env value then ret value
  else raise (InvalidEnumValue "activityType" value).

Definition documentWarning (title url : string) : string :=
  "Document not found for expense " ++ dquote ++ title ++ dquote ++ ": " ++ url.

(** The Expense row, its paidFor rows and its documents; the source has
    this block twice (create / rollback, and update).  Returns the
    [warnings] array with the new entries pushed.  The conversion rate is
    built before the row is handed to the client, which then checks the two
    enumerated columns. *)
Definition createExpense (groupId : string) (expense : BackupExpense.t)
    (warnings : list string) : Tx (list string) :=
  let* conversionRate := decimalOrNull (BackupExpense.conversionRate expense) in
  let* splitMode := castSplitMode (BackupExpense.splitMode expense) in
  let* recurrenceRule := castRecurrenceRule (BackupExpense.recurrenceRule expense) in
  run prisma.create env (ExpenseRow
        (Expense.mk (BackupExpense.id expense) groupId
           (BackupExpense.expenseDate expense) (BackupExpense.createdAt expense)
           (BackupExpense.title expense)
           (default 0 (BackupCategory.id <$> BackupExpense.category expense))
           (BackupExpense.amount expense) (BackupExpense.originalAmount expense)
           (BackupExpense.originalCurrency expense)
           conversionRate
           (BackupExpense.paidById expense) (BackupExpense.isReimbursement expense)
           splitMode (BackupExpense.notes expense) recurrenceRule)) then
  run forOf (BackupExpense.paidFor expense) (λ paidFor,
        prisma.create env (ExpensePaidForRow
          (ExpensePaidFor.mk (BackupExpense.id expense)
             (PaidFor.participantId paidFor) (PaidFor.shares paidFor)))) then
  forOfAcc (BackupExpense.documents expense) warnings (λ warnings doc,
    let* urlExists := prisma.checkUrlExists env (BackupDocument.url doc) in
    if urlExists : bool
    then
      run prisma.expenseDocument_upsert env
            (ExpenseDocument.mk (BackupDocument.id doc) (BackupDocument.url doc)
               (BackupDocument.width doc) (BackupDocument.height doc)
               (BackupExpense.id expense)) then
      ret warnings
    else ret (warnings ++ [documentWarning (BackupExpense.title expense)
                             (BackupDocument.url doc)])%list).

Definition createRecurringExpenseLink (groupId : string)
    (expense : BackupExpense.t) : Tx unit :=
  match BackupExpense.recurringExpenseLink expense with
  | Some link =>
      prisma.create env (RecurringExpenseLinkRow
        (RecurringExpenseLink.mk (BackupRecurringLink.id link) groupId
           (BackupExpense.id expense)
           (BackupRecurringLink.nextExpenseCreatedAt link)
           (BackupRecurringLink.nextExpenseDate link)))
  | None => ret tt
  end.

Definition participantRow (groupId : string) (p : SnapshotParticipant.t) : Participant.t :=
  Participant.mk (SnapshotParticipant.id p) groupId (SnapshotParticipant.name p).

Definition restoreGroupFromBackup (backupData : BackupData.t) (mode : Mode)
    : Tx RestoreResult.t :=
  let group := BackupData.group backupData in
  let participants := BackupData.participants backupData in
  let expenses := BackupData.expenses backupData in
  let activities := BackupData.activities backupData in
  let groupId := BackupGroup.id group in
  let warnings : list string := [] in
  run match mode with
      | create =>
          prisma.create env (GroupRow
            (Group.mk groupId (BackupGroup.name group) (BackupGroup.information group)
               (BackupGroup.currency group) (BackupGroup.currencyCode group)
               (BackupGroup.createdAt group)))
      | rollback =>
          run prisma.activity_deleteMany (λ a, Activity.groupId a = groupId) then
          run prisma.expense_deleteMany (λ e, Expense.groupId e = groupId) then
          run prisma.participant_deleteMany (λ p, Participant.groupId p = groupId) then
          prisma.group_update groupId (λ g,
            Group.mk (Group.id g) (BackupGroup.name group) (BackupGroup.information group)
              (BackupGroup.currency group) (BackupGroup.currencyCode group)
              (Group.createdAt g))
      | update => ret tt
      end then
  run match mode with
      | create | rollback =>
          forOf participants (λ participant,
            prisma.create env (ParticipantRow (participantRow groupId participant)))
      | update =>
          let* existingParticipants := prisma.query (prisma.participantsOf groupId) in
          let existingIds : gset string :=
            list_to_set (Participant.id <$> existingParticipants) in
          forOf participants (λ participant,
            if decide (SnapshotParticipant.id participant ∉ existingIds)
            then prisma.create env (ParticipantRow (participantRow groupId participant))
            else ret tt)
      end then
  let* warnings :=
    match mode with
    | create | rollback =>
        forOfAcc expenses warnings (λ warnings expense,
          let* warnings := createExpense groupId expense warnings in
          run createRecurringExpenseLink groupId expense then
          ret warnings)
    | update =>
        let* existingExpenses := prisma.query (prisma.expensesOf groupId) in
        let existingIds : gset string :=
          list_to_set (Expense.id <$> existingExpenses) in
        forOfAcc expenses warnings (λ warnings expense,
          if decide (BackupExpense.id expense ∉ existingIds)
          then createExpense groupId expense warnings
          else ret warnings)
    end in
  run match mode with
      | create | rollback =>
          forOf activities (λ activity,
            let* activityType := castActivityType (BackupActivity.activityType activity) in
            prisma.create env (ActivityRow
              (Activity.mk (BackupActivity.id activity) groupId
                 (BackupActivity.time activity) activityType
                 (BackupActivity.participantId activity)
                 (BackupActivity.expenseId activity) (BackupActivity.data activity))))
      | update => ret tt
      end then
  ret (RestoreResult.mk true warnings).
End Restore.
End Backup.

(** * The route handlers *)

(** The JSON body of a response, with its HTTP status when it is an error. *)
Inductive Response (C : Type) :=
| Analysis (comparison : C) (differences : option Differences.t)
    (groupName : string) (warnings : list string)
| Restored (message : string) (groupId : string) (mode : Mode) (warnings : list string)
| Success (message : string)
| ErrorResponse (status : Z) (error : string) (details : option string).
Arguments Analysis {C}.
Arguments Restored {C}.
Arguments Success {C}.
Arguments ErrorResponse {C}.

Definition restoredMessage (mode : Mode) : string :=
  "Group " ++ match mode with
              | create => "created" | rollback => "rolled back" | update => "updated"
              end ++ " successfully".

(** ** The import route of the lightweight format ([POST], JSON upload) *)
Module JsonRoute.
Import JsonImport.

Definition analysisWarnings : list string :=
  [ "JSON import has limitations:";
    "• Activity history is not preserved, it will be regenerated";
    "• Document attachments will not be imported";
    "• Notes on expenses will not be imported";
    "• Recurring expense links will not be imported";
    "• Only basic expense data will be restored" ].

(** [prisma.group.findUnique({ where: { id }, include: { participants:
    { select: { id } }, expenses: { select: { id, createdAt, expenseDate } },
    activities: { select: { time } } } })] *)
Definition findExistingGroup (id : string) (s : Store) : option ExistingGroup.t :=
  match List.find (λ g, bool_decide (Group.id g = id)) (groups s) with
  | None => None
  | Some g =>
      Some (ExistingGroup.mk (Group.createdAt g)
              (Participant.id <$> prisma.participantsOf id s)
              ((λ e, ExistingExpense.mk (Expense.id e) (Expense.createdAt e)
                       (Expense.expenseDate e)) <$> prisma.expensesOf id s)
              (Activity.time <$> prisma.activitiesOf id s))
  end.

Section Handler.
(** The Restore Engine the handler calls; [POST] below instantiates it
    with [restoreGroupFromJSON]. *)
Variable restore : JSONImportData.t → Mode → Tx unit.

(** "Execute restore in a transaction", and the response that follows
    (the [catch] of the handler answers a thrown error with status 500). *)
Definition executeRestore (jsonData : JSONImportData.t) (mode : Mode)
    (s : TxState) : Response VersionComparison.t * TxState :=
  match transaction (restore jsonData mode) s with
  | (Ok _, s') =>
      (Restored (restoredMessage mode) (JSONImportData.id jsonData) mode [], s')
  | (Err e, s') =>
      (ErrorResponse 500 "Failed to process JSON file" (Some (Error_message e)), s')
  end.

(** [file] is the uploaded snapshot as parsed ([None]: no file field). *)
Definition POST_with (file : option JSONImportData.t) (action : string)
    (s : TxState) : Response VersionComparison.t * TxState :=
  match file with
  | None => (ErrorResponse 400 "No file provided" None, s)
  | Some jsonData =>
      if decide (JSONImportData.id jsonData = EmptyString
                 ∨ JSONImportData.name jsonData = EmptyString)
      then (ErrorResponse 400
              "Invalid JSON file format. Expected Spliit export format with id, name, participants, and expenses."
              None, s)
      else
      let existingGroup := findExistingGroup (JSONImportData.id jsonData) (db s) in
      let comparison := compareJSONVersions jsonData existingGroup in
      if decide (action = "analyze")
      then (Analysis comparison (calculateJSONDifferences jsonData <$> existingGroup)
              (JSONImportData.name jsonData) analysisWarnings, s)
      else if decide (action = "restore" ∨ action = "rollback")
      then
        let mode : option Mode :=
          if decide (VersionComparison.result comparison = NOT_FOUND) then Some create
          else if decide (action = "rollback") then Some rollback
          else if decide (VersionComparison.result comparison = NEWER) then Some update
          else None in
        match mode with
        | None =>
            (ErrorResponse 400
               "JSON export is not newer than existing group. Use rollback to restore older version."
               None, s)
        | Some mode => executeRestore jsonData mode s
        end
      else (ErrorResponse 400
              ("Invalid action. Use " ++ dquote ++ "analyze" ++ dquote ++ ", "
                 ++ dquote ++ "restore" ++ dquote ++ ", or "
                 ++ dquote ++ "rollback" ++ dquote)
              None, s)
  end.
End Handler.

Definition POST (env : Env) := POST_with (restoreGroupFromJSON env).
End JsonRoute.

(** ** The import route of the full-backup format ([POST], zip upload) *)
Module BackupRoute.
Import Backup.

(** [prisma.group.findUnique({ where: { id }, include: { participants:
    { select: { id } }, expenses: { select: { id, createdAt } },
    activities: { select: { time } } } })] *)
Definition findExistingGroup (id : string) (s : Store) : option ExistingGroup.t :=
  match List.find (λ g, bool_decide (Group.id g = id)) (groups s) with
  | None => None
  | Some g =>
      Some (ExistingGroup.mk (Group.createdAt g)
              (Participant.id <$> prisma.participantsOf id s)
              ((λ e, ExistingExpense.mk (Expense.id e) (Expense.createdAt e))
                 <$> prisma.expensesOf id s)
              (Activity.time <$> prisma.activitiesOf id s))
  end.

Section Handler.
Variable restore : BackupData.t → Mode → Tx RestoreResult.t.

(** "Execute restore in a transaction", and the response that follows
    (the [catch] of the handler answers a thrown error with status 500). *)
Definition executeRestore (backupData : BackupData.t) (mode : Mode)
    (s : TxState) : Response GroupComparison.t * TxState :=
  match transaction (restore backupData mode) s with
  | (Ok result, s') =>
      (Restored (restoredMessage mode)
         (BackupGroup.id (BackupData.group backupData)) mode
         (RestoreResult.warnings result), s')
  | (Err e, s') =>
      (ErrorResponse 500 "Failed to process backup file" (Some (Error_message e)), s')
  end.

(** [file] is the [backup.json] entry of the uploaded archive as parsed
    ([None]: no file field). *)
Definition POST_with (file : option BackupData.t) (action : string)
    (s : TxState) : Response GroupComparison.t * TxState :=
  match file with
  | None => (ErrorResponse 400 "No file provided" None, s)
  | Some backupData =>
      if decide (BackupData.version backupData = EmptyString)
      then (ErrorResponse 400 "Invalid backup file format" None, s)
      else
      let existingGroup :=
        findExistingGroup (BackupGroup.id (BackupData.group backupData)) (db s) in
      let comparison := compareVersions backupData existingGroup in
      if decide (action = "analyze")
      then (Analysis comparison (calculateDifferences backupData <$> existingGroup)
              (BackupGroup.name (BackupData.group backupData)) [], s)
      else if decide (action = "restore" ∨ action = "rollback")
      then
        let mode : option Mode :=
          if decide (GroupComparison.result comparison = NOT_FOUND) then Some create
          else if decide (action = "rollback") then Some rollback
          else if decide (GroupComparison.result comparison = NEWER) then Some update
          else None in
        match mode with
        | None =>
            (ErrorResponse 400
               "Backup is not newer than existing group. Use rollback to restore older version."
               None, s)
        | Some mode => executeRestore backupData mode s
        end
      else (ErrorResponse 400
              ("Invalid action. Use " ++ dquote ++ "analyze" ++ dquote ++ ", "
                 ++ dquote ++ "restore" ++ dquote ++ ", or "
                 ++ dquote ++ "rollback" ++ dquote)
              None, s)
  end.
End Handler.

Definition POST (env : Env) := POST_with (restoreGroupFromBackup env).
End BackupRoute.

(** ** The undo-import route ([POST], body [{ action: 'undo-import' }]) *)
Module UndoRoute.

(** [data: { startsWith: 'JSON_IMPORT_START:' }] *)
Definition isImportMarker (a : Activity.t) : bool :=
  match Activity.data a with
  | Some d => String.prefix "JSON_IMPORT_START:" d
  | None => false
  end.

(** [orderBy: { time: 'desc' }] *)
Definition laterOrEqual (a b : Activity.t) : Prop := Activity.time b ≤ Activity.time a.

#[global] Instance laterOrEqual_dec : RelDecision laterOrEqual.
Proof. intros a b. unfold laterOrEqual. apply _. Defined.

(** The [activities] included with the group: the import markers, latest
    first, at most one. *)
Definition includedActivities (groupId : string) (s : Store) : list Activity.t :=
  take 1 (merge_sort laterOrEqual
            (filter (λ a, isImportMarker a = true) (prisma.activitiesOf groupId s))).

Definition undoImport (groupId : string) (lastImport : Activity.t) : Tx unit :=
  run prisma.expensePaidFor_deleteMany
        (λ e, Expense.groupId e = groupId ∧ Activity.time lastImport ≤ Expense.createdAt e) then
  run prisma.expense_deleteMany
        (λ e, Expense.groupId e = groupId ∧ Activity.time lastImport ≤ Expense.createdAt e) then
  prisma.activity_deleteMany
    (λ a, Activity.groupId a = groupId ∧ Activity.time lastImport ≤ Activity.time a).

Definition POST (groupId action : string) (s : TxState) : Response unit * TxState :=
  match List.find (λ g, bool_decide (Group.id g = groupId)) (groups (db s)) with
  | None => (ErrorResponse 404 "Group not found" None, s)
  | Some _ =>
      let activities := includedActivities groupId (db s) in
      if decide (action = "undo-import")
      then
        match activities !! 0%nat with
        | None => (ErrorResponse 400 "No import found to undo" None, s)
        | Some lastImport =>
            match transaction (undoImport groupId lastImport) s with
            | (Ok _, s') => (Success "Successfully undid last import", s')
            | (Err e, s') =>
                (ErrorResponse 500 "Failed to delete data" (Some (Error_message e)), s')
            end
        end
      else (ErrorResponse 400 "Invalid action" None, s)
  end.
End UndoRoute.

(** * Definitions used in the statements *)

(** The last-modified timestamp of a live group in the words of the
    specification: the maximum of the latest expense timestamp and the latest
    activity timestamp, the group's creation timestamp standing in for the
    latest of an empty set. *)
Definition specLastModified (createdAt : Date) (expenseTimes activityTimes : list Date)
    : Date :=
  Z.max (match expenseTimes with [] => createdAt | t :: ts => Math_max t ts end)
        (match activityTimes with [] => createdAt | t :: ts => Math_max t ts end).

(** The heuristic expense counts in the words of the specification: the size
    of the set difference of the keys (day of the expense date, title). *)
Definition specHeuristicKey (expenseDate : Date) (title : string) : Z * string :=
  (isoDay expenseDate, title).

Definition specHeuristicDifference (these those : list (Z * string)) : nat :=
  size ((list_to_set these : gset (Z * string)) ∖ list_to_set those).

(** A full backup seen as a live group: the identifiers and timestamps the
    route selects from the store when the group of the backup is the stored
    one. *)
Definition asExistingGroup (backupData : BackupData.t) : Backup.ExistingGroup.t :=
  Backup.ExistingGroup.mk
    (BackupGroup.createdAt (BackupData.group backupData))
    (SnapshotParticipant.id <$> BackupData.participants backupData)
    ((λ e, Backup.ExistingExpense.mk (BackupExpense.id e) (BackupExpense.createdAt e))
       <$> BackupData.expenses backupData)
    (BackupActivity.time <$> BackupData.activities backupData).

(** Replacing the titles of the expenses of a JSON snapshot. *)
Definition retitleExpense (f : string → string) (e : JSONExpense.t) : JSONExpense.t :=
  JSONExpense.mk (JSONExpense.createdAt e) (JSONExpense.expenseDate e)
    (f (JSONExpense.title e)) (JSONExpense.category e) (JSONExpense.amount e)
    (JSONExpense.originalAmount e) (JSONExpense.originalCurrency e)
    (JSONExpense.conversionRate e) (JSONExpense.paidById e)
    (JSONExpense.paidFor e) (JSONExpense.isReimbursement e)
    (JSONExpense.splitMode e) (JSONExpense.recurrenceRule e).

Definition retitle (f : string → string) (jsonData : JSONImportData.t) : JSONImportData.t :=
  JSONImportData.mk (JSONImportData.id jsonData) (JSONImportData.name jsonData)
    (JSONImportData.currency jsonData) (JSONImportData.currencyCode jsonData)
    (retitleExpense f <$> JSONImportData.expenses jsonData)
    (JSONImportData.participants jsonData).

(** The Expense row written for an expense of a JSON snapshot: the columns
    come from the snapshot, the identifier from [randomUUID]. *)
Definition importedFrom (env : Env) (groupId : string) (expense : JSONExpense.t)
    (row : Expense.t) : Prop :=
  (∃ n, Expense.id row = uuidAt env n)
  ∧ Expense.groupId row = groupId
  ∧ Expense.expenseDate row = JSONExpense.expenseDate expense
  ∧ Expense.title row = JSONExpense.title expense
  ∧ Expense.paidById row = JSONExpense.paidById expense
  ∧ Expense.splitMode row = JsonImport.mapSplitMode (JSONExpense.splitMode expense)
  ∧ Expense.recurrenceRule row
    = Some (JsonImport.mapRecurrenceRule (JSONExpense.recurrenceRule expense)).

(** The Expense row written for an expense of a full backup: identifier and
    columns come from the backup. *)
Definition restoredFrom (groupId : string) (expense : BackupExpense.t)
    (row : Expense.t) : Prop :=
  Expense.id row = BackupExpense.id expense
  ∧ Expense.groupId row = groupId
  ∧ Expense.expenseDate row = BackupExpense.expenseDate expense
  ∧ Expense.createdAt row = BackupExpense.createdAt expense
  ∧ Expense.title row = BackupExpense.title expense
  ∧ Expense.paidById row = BackupExpense.paidById expense.

(** The payer and every split participant of an expense are among
    [participantIds]. *)
Definition validReferences (participantIds : gset string) (expense : JSONExpense.t) : Prop :=
  JSONExpense.paidById expense ∈ participantIds
  ∧ Forall (λ pf, PaidFor.participantId pf ∈ participantIds) (JSONExpense.paidFor expense).

(** The tables the statements below follow. *)
Definition coreTables (s : Store) : list Group.t * list Participant.t * list Expense.t :=
  (groups s, participants s, expenses s).

(** What a restore leaves of the Participants and Expenses that were
    stored: rollback deletes those of the group, create and update delete
    nothing. *)
Definition survivingParticipants (mode : Mode) (groupId : string) (s : Store)
    : list Participant.t :=
  match mode with
  | rollback => filter (λ p, Participant.groupId p ≠ groupId) (participants s)
  | _ => participants s
  end.

Definition survivingExpenses (mode : Mode) (groupId : string) (s : Store)
    : list Expense.t :=
  match mode with
  | rollback => filter (λ e, Expense.groupId e ≠ groupId) (expenses s)
  | _ => expenses s
  end.

(** The participants of a snapshot that an update of the lightweight format
    adds: those whose identifier is neither [known] nor met earlier in the
    list. *)
Fixpoint newParticipants (known : gset string) (ps : list SnapshotParticipant.t)
    : list SnapshotParticipant.t :=
  match ps with
  | [] => []
  | p :: rest =>
      if decide (SnapshotParticipant.id p ∉ known)
      then p :: newParticipants ({[ SnapshotParticipant.id p ]} ∪ known) rest
      else newParticipants known rest
  end.

Definition storedParticipantIds (groupId : string) (s : Store) : gset string :=
  list_to_set (Participant.id <$> prisma.participantsOf groupId s).

Definition storedExpenseIds (groupId : string) (s : Store) : gset string :=
  list_to_set (Expense.id <$> prisma.expensesOf groupId s).

Definition storedExpenseKeys (groupId : string) (s : Store) : gset (Z * string) :=
  list_to_set ((λ e, JsonImport.expenseKey (Expense.expenseDate e) (Expense.title e))
                 <$> prisma.expensesOf groupId s).

(** The participants and expenses of a snapshot for which a restore writes
    a row. *)
Definition jsonParticipantsToWrite (mode : Mode) (jsonData : JSONImportData.t) (s : Store)
    : list SnapshotParticipant.t :=
  match mode with
  | update => newParticipants (storedParticipantIds (JSONImportData.id jsonData) s)
                (JSONImportData.participants jsonData)
  | _ => JSONImportData.participants jsonData
  end.

Definition jsonExpensesToWrite (mode : Mode) (jsonData : JSONImportData.t) (s : Store)
    : list JSONExpense.t :=
  match mode with
  | update =>
      filter (λ e, JsonImport.expenseKey (JSONExpense.expenseDate e) (JSONExpense.title e)
                   ∉ storedExpenseKeys (JSONImportData.id jsonData) s)
        (JSONImportData.expenses jsonData)
  | _ => JSONImportData.expenses jsonData
  end.

Definition backupParticipantsToWrite (mode : Mode) (backupData : BackupData.t) (s : Store)
    : list SnapshotParticipant.t :=
  match mode with
  | update =>
      filter (λ p, SnapshotParticipant.id p
                   ∉ storedParticipantIds (BackupGroup.id (BackupData.group backupData)) s)
        (BackupData.participants backupData)
  | _ => BackupData.participants backupData
  end.

Definition backupExpensesToWrite (mode : Mode) (backupData : BackupData.t) (s : Store)
    : list BackupExpense.t :=
  match mode with
  | update =>
      filter (λ e, BackupExpense.id e
                   ∉ storedExpenseIds (BackupGroup.id (BackupData.group backupData)) s)
        (BackupData.expenses backupData)
  | _ => BackupData.expenses backupData
  end.

(** The errors the lightweight Restore Engine raises by itself or lets
    through: everything but the rejection of a text by an enumerated column. *)
Definition notEnumError (e : Error) : Prop :=
  match e with
  | InvalidEnumValue _ _ => False
  | _ => True
  end.

(** A schema without constraints: the store takes every row. *)
Definition unconstrained (env : Env) : Prop := ∀ s r, schemaAccepts env s r = true.

(** The errors of the expense loop of the lightweight format: a rejection
    by the store (when the schema has constraints), or the report of a payer
    or split participant of some expense of [expenses] that is not among
    [participantIds], which names the missing identifier and the title of that
    expense. *)
Definition referenceError (env : Env) (participantIds : gset string)
    (expenses : list JSONExpense.t) (verbose : bool) (e : Error) : Prop :=
  (¬ unconstrained env ∧ ∃ table, e = ConstraintViolation table)
  ∨ ∃ expense, expense ∈ expenses
      ∧ (((JSONExpense.paidById expense ∉ participantIds)
          ∧ e = InvalidPaidById (JSONExpense.paidById expense)
                  (JSONExpense.title expense) verbose)
         ∨ ∃ pf, pf ∈ JSONExpense.paidFor expense
             ∧ (PaidFor.participantId pf ∉ participantIds)
             ∧ e = InvalidParticipantId (PaidFor.participantId pf)
                     (JSONExpense.title expense) verbose).

(** The texts of the split mode and the recurrence rule of a backup expense
    are members of their enumerations. *)
Definition castableExpense (expense : BackupExpense.t) : Prop :=
  (∃ m, ∀ s, Backup.castSplitMode (BackupExpense.splitMode expense) s = Ok (m, s))
  ∧ (∃ r, ∀ s, Backup.castRecurrenceRule (BackupExpense.recurrenceRule expense) s
               = Ok (r, s)).

(** The conversion rate of a backup expense, when it has one, is a text
    the decimal constructor takes. *)
Definition decimalRate (expense : BackupExpense.t) : Prop :=
  ∀ text, truthy (BackupExpense.conversionRate expense) = Some text →
          Decimal.accepts text = true.

(** The Restore Engine can build the row of a backup expense: the decimal
    constructor takes its conversion rate and its enumerated columns take
    their texts. *)
Definition writableExpense (expense : BackupExpense.t) : Prop :=
  decimalRate expense ∧ castableExpense expense.

(** The type of a backup activity is a member of the enumeration of activity
    types. *)
Definition knownActivityType (env : Env) (activity : BackupActivity.t) : Prop :=
  isActivityType env (BackupActivity.activityType activity) = true.

(** ** Predicates on transactions *)

(** [m] leaves the part [π] of the store as it was, whenever it returns. *)
Definition preserves {A T} (π : Store → T) (m : Tx A) : Prop :=
  ∀ s a s', m s = Ok (a, s') → π (db s') = π (db s).

(** Every error [m] throws is in [E]. *)
Definition throws {A} (m : Tx A) (E : Error → Prop) : Prop :=
  ∀ s e, m s = Err e → E e.

(** [m] returns from every state. *)
Definition succeeds {A} (m : Tx A) : Prop := ∀ s, ∃ a s', m s = Ok (a, s').

(** ** Concrete data for the examples *)

Module Examples.

Definition env : Env :=
  mkEnv (λ n, "uuid-" ++ pretty n) (λ n, 1000 + Z.of_nat n) (λ _ _, true)
    (λ d, "T" ++ pretty d) (λ s, dquote ++ s ++ dquote) (λ _ _, true)
    (λ t, bool_decide (t = "UPDATE_GROUP" ∨ t = "CREATE_EXPENSE")).

Definition alice := SnapshotParticipant.mk "p1" "Alice".
Definition bob := SnapshotParticipant.mk "p2" "Bob".

Definition jsonExpense (expenseDate : Date) (title paidById : string)
    (paidFor : list string) : JSONExpense.t :=
  JSONExpense.mk expenseDate expenseDate title None 100 None None None paidById
    ((λ p, PaidFor.mk p 1) <$> paidFor) false "EVENLY" None.

Definition backupExpense (id : string) (expenseDate : Date) (title paidById : string)
    (paidFor : list string) : BackupExpense.t :=
  BackupExpense.mk id expenseDate expenseDate title None 100 None None None paidById
    ((λ p, PaidFor.mk p 1) <$> paidFor) false "EVENLY" None [] None None.

(** Two participants, three expenses. *)
Definition trip : JSONImportData.t :=
  JSONImportData.mk "g1" "Trip" "EUR" None
    [ jsonExpense 10 "Dinner" "p1" ["p1"; "p2"];
      jsonExpense 20 "Taxi" "p2" ["p1"];
      jsonExpense 90000000 "Museum" "p1" ["p2"] ]
    [alice; bob].

(** A snapshot whose one expense is dated 500, and a store that holds its
    group, created at time 1000, with neither expenses nor activities. *)
Definition early : JSONImportData.t :=
  JSONImportData.mk "g1" "Trip" "EUR" None [ jsonExpense 500 "Dinner" "p1" ["p1"] ] [alice].

Definition freshStore : Store :=
  mkStore [Group.mk "g1" "Trip" None "EUR" None 1000]
    [Participant.mk "p1" "g1" "Alice"] [] [] [] [] [] [].

(** Two participants, one expense paid by a third, unlisted participant. *)
Definition dangling : JSONImportData.t :=
  JSONImportData.mk "g1" "Trip" "EUR" None
    [ jsonExpense 10 "Dinner" "p3" ["p1"; "p2"] ] [alice; bob].

Definition tripBackup : BackupData.t :=
  BackupData.mk "1.0.0" 5000
    (BackupGroup.mk "g1" "Trip" None "EUR" None 1)
    [alice; bob]
    [ backupExpense "e1" 10 "Dinner" "p1" ["p1"; "p2"];
      backupExpense "e2" 20 "Taxi" "p2" ["p1"] ]
    [].

Definition danglingBackup : BackupData.t :=
  BackupData.mk "1.0.0" 5000
    (BackupGroup.mk "g1" "Trip" None "EUR" None 1)
    [alice; bob]
    [ backupExpense "e1" 10 "Dinner" "p3" ["p1"; "p2"] ]
    [].

(** A store holding another group, whose participant is [p3]. *)
Definition otherGroupStore : Store :=
  mkStore [Group.mk "g2" "Flat" None "EUR" None 1]
    [Participant.mk "p3" "g2" "Carol"] [] [] [] [] [] [].

(** The group [g1] with Alice, one expense and one activity. *)
Definition liveStore : Store :=
  mkStore [Group.mk "g1" "Trip" None "EUR" None 1000]
    [Participant.mk "p1" "g1" "Alice"]
    [Expense.mk "e1" "g1" 10 50 "Dinner" 0 100 None None None "p1" false EVENLY None None]
    [ExpensePaidFor.mk "e1" "p1" 1] []
    [Activity.mk "a1" "g1" 60 "CREATE_EXPENSE" None (Some "e1") None] [] [].

Definition lunch : JSONImportData.t :=
  JSONImportData.mk "g1" "Trip" "EUR" None
    [ jsonExpense 20 "Lunch" "p1" ["p1"] ] [alice].

(** The group [g1] after a JSON import at time 100: the expense [e1] and
  the activity [a1] are older, the marker [m1], the expense [e2] and its
  activity [a2] come from the import. *)
Definition importedStore : Store :=
mkStore [Group.mk "g1" "Trip" None "EUR" None 1]
  [Participant.mk "p1" "g1" "Alice"; Participant.mk "p2" "g1" "Bob"]
  [Expense.mk "e1" "g1" 10 50 "Dinner" 0 100 None None None "p1" false EVENLY None None;
   Expense.mk "e2" "g1" 20 100 "Taxi" 0 100 None None None "p2" false EVENLY None None]
  [ExpensePaidFor.mk "e1" "p1" 1; ExpensePaidFor.mk "e2" "p1" 1] []
  [Activity.mk "a1" "g1" 60 "CREATE_EXPENSE" None (Some "e1") None;
   Activity.mk "m1" "g1" 100 "UPDATE_GROUP" None None
     (Some "JSON_IMPORT_START:update:2 expenses");
   Activity.mk "a2" "g1" 100 "CREATE_EXPENSE" None (Some "e2") None] [] [].

(** The group [g1] with both participants and the first two expenses of
  [trip]. *)
Definition twoOfThreeStore : Store :=
mkStore [Group.mk "g1" "Trip" None "EUR" None 1]
  [Participant.mk "p1" "g1" "Alice"; Participant.mk "p2" "g1" "Bob"]
  [Expense.mk "x1" "g1" 10 50 "Dinner" 0 100 None None None "p1" false EVENLY None None;
   Expense.mk "x2" "g1" 20 60 "Taxi" 0 100 None None None "p2" false EVENLY None None]
  [ExpensePaidFor.mk "x1" "p1" 1; ExpensePaidFor.mk "x1" "p2" 1;
   ExpensePaidFor.mk "x2" "p1" 1] [] [] [] [].

(** A snapshot whose expense has texts outside both enumerations. *)
Definition odd : JSONImportData.t :=
JSONImportData.mk "g1" "Trip" "EUR" None
  [ JSONExpense.mk 10 10 "Dinner" None 100 None None None "p1" [PaidFor.mk "p2" 1]
      false "BY_WEIGHT" (Some "YEARLY") ]
  [alice; bob].

Definition afterOddCreate : TxState :=
(transaction (JsonImport.restoreGroupFromJSON env odd create) (mkTx emptyStore 0)).2.

(** A schema with primary keys and foreign keys: identifiers are unique
  per table, a Participant and an Activity need their Group, an Expense
  needs its Group and a stored payer, an ExpensePaidFor row needs its
  Expense and a stored participant. *)
Definition referentialSchema (s : Store) (r : Row) : bool :=
match r with
| GroupRow g => bool_decide (Group.id g ∉ Group.id <$> groups s)
| ParticipantRow p =>
    bool_decide (Participant.id p ∉ Participant.id <$> participants s)
    && bool_decide (Participant.groupId p ∈ Group.id <$> groups s)
| ExpenseRow e =>
    bool_decide (Expense.id e ∉ Expense.id <$> expenses s)
    && bool_decide (Expense.groupId e ∈ Group.id <$> groups s)
    && bool_decide (Expense.paidById e ∈ Participant.id <$> participants s)
| ExpensePaidForRow pf =>
    bool_decide (ExpensePaidFor.expenseId pf ∈ Expense.id <$> expenses s)
    && bool_decide (ExpensePaidFor.participantId pf ∈ Participant.id <$> participants s)
    && bool_decide ((ExpensePaidFor.expenseId pf, ExpensePaidFor.participantId pf)
                    ∉ (λ x, (ExpensePaidFor.expenseId x, ExpensePaidFor.participantId x))
                        <$> expensePaidFors s)
| CategoryRow c => bool_decide (Category.id c ∉ Category.id <$> categories s)
| ActivityRow a =>
    bool_decide (Activity.id a ∉ Activity.id <$> activities s)
    && bool_decide (Activity.groupId a ∈ Group.id <$> groups s)
| ExpenseDocumentRow d =>
    bool_decide (ExpenseDocument.id d ∉ ExpenseDocument.id <$> expenseDocuments s)
| RecurringExpenseLinkRow l =>
    bool_decide (RecurringExpenseLink.id l
                 ∉ RecurringExpenseLink.id <$> recurringExpenseLinks s)
end.

Definition strictEnv : Env :=
mkEnv (uuidAt env) (clockAt env) (urlReachableAt env) (toISOString env)
  (JSON_stringify env) referentialSchema (isActivityType env).

(** What a full-backup create of [danglingBackup] leaves: in the empty
  store without constraints, and next to the other group under the schema
  with keys. *)
Definition afterDanglingBackup : TxState :=
(transaction (Backup.restoreGroupFromBackup env danglingBackup create)
   (mkTx emptyStore 0)).2.

Definition afterDanglingBackupStrict : TxState :=
(transaction (Backup.restoreGroupFromBackup strictEnv danglingBackup create)
   (mkTx otherGroupStore 0)).2.

(** The stores two restores of the examples leave: a full-backup update of
  [tripBackup] over [liveStore], and a JSON create of [trip] in the empty
  store. *)
Definition afterBackupUpdate : TxState :=
(transaction (Backup.restoreGroupFromBackup env tripBackup update) (mkTx liveStore 0)).2.

Definition afterJsonCreate : TxState :=
(transaction (JsonImport.restoreGroupFromJSON env trip create) (mkTx emptyStore 0)).2.

End Examples.

(** * Further code of the same files *)

(** The text of a member of an enumeration, which is its value at run
    time. *)
Definition SplitMode_text (m : SplitMode) : string :=
  match m with
  | EVENLY => "EVENLY" | BY_SHARES => "BY_SHARES"
  | BY_PERCENTAGE => "BY_PERCENTAGE" | BY_AMOUNT => "BY_AMOUNT"
  end.

Definition RecurrenceRule_text (r : RecurrenceRule) : string :=
  match r with
  | NONE => "NONE" | DAILY => "DAILY" | WEEKLY => "WEEKLY" | MONTHLY => "MONTHLY"
  end.

(** The errors about a Group that is not stored. *)
Definition notGroupError (e : Error) : Prop :=
  e ≠ GroupNotFound ∧ e ≠ RecordToUpdateNotFound.

(** [group.findUnique({ where: { id } })] on a store *)
Definition storedGroup (groupId : string) (s : Store) : option Group.t :=
  List.find (λ g, bool_decide (Group.id g = groupId)) (groups s).

(** ** The import-marker probe ([GET], has-import-marker)

    [activity.findFirst({ where: { groupId, data: { startsWith:
    'JSON_IMPORT_START:' } } })], answered as [hasImportMarker].  The [catch]
    of the handler answers a failing query; queries on the store do not fail
    here. *)
Module MarkerRoute.
Definition GET (groupId : string) (s : Store) : bool :=
  match List.find (λ a, bool_decide (Activity.groupId a = groupId)
                        && UndoRoute.isImportMarker a) (activities s) with
  | Some _ => true
  | None => false
  end.
End MarkerRoute.

(** * The export route ([GET], full backup)

    Modelled from the spec for the relations the [include] follows (the
    schema is not among the sources): the category of an Expense is the
    Category its [categoryId] names, its [paidFor] and [documents] are the rows
    that carry its identifier, its [recurringExpenseLink] the link whose
    [currentFrameExpenseId] is its identifier.  The [conversionRate] column is
    held as the text of the decimal.  The archive is modelled by the two
    documents it holds. *)
Module ExportRoute.

Module Metadata.
Record t := mk {
  version : string; exportedAt : Date; groupId : string; groupName : string }.
End Metadata.

Inductive Response :=
| Archive (backup : BackupData.t) (metadata : Metadata.t) (filename : string)
| NotFound (error : string).

(** [orderBy: [{ expenseDate: 'asc' }, { createdAt: 'asc' }]] *)
Definition byExpenseDate (a b : Expense.t) : Prop :=
  Expense.expenseDate a < Expense.expenseDate b
  ∨ (Expense.expenseDate a = Expense.expenseDate b
     ∧ Expense.createdAt a ≤ Expense.createdAt b).

#[global] Instance byExpenseDate_dec : RelDecision byExpenseDate.
Proof. intros a b. unfold byExpenseDate. apply _. Defined.

(** [orderBy: { time: 'asc' }] *)
Definition byTime (a b : Activity.t) : Prop := Activity.time a ≤ Activity.time b.

#[global] Instance byTime_dec : RelDecision byTime.
Proof. intros a b. unfold byTime. apply _. Defined.

(** [text.split('T')[0]] *)
Fixpoint beforeT (text : string) : string :=
  match text with
  | EmptyString => EmptyString
  | String c rest => if decide (c = "T"%char) then EmptyString else String c (beforeT rest)
  end.

Definition exportParticipant (p : Participant.t) : SnapshotParticipant.t :=
  SnapshotParticipant.mk (Participant.id p) (Participant.name p).

Definition exportExpense (s : Store) (e : Expense.t) : BackupExpense.t :=
  BackupExpense.mk (Expense.id e) (Expense.expenseDate e) (Expense.createdAt e)
    (Expense.title e)
    ((λ c, BackupCategory.mk (Category.id c) (Category.name c) (Category.grouping c))
       <$> List.find (λ c, bool_decide (Category.id c = Expense.categoryId e)) (categories s))
    (Expense.amount e) (Expense.originalAmount e) (Expense.originalCurrency e)
    (Expense.conversionRate e)
    (Expense.paidById e)
    ((λ pf, PaidFor.mk (ExpensePaidFor.participantId pf) (ExpensePaidFor.shares pf))
       <$> filter (λ pf, ExpensePaidFor.expenseId pf = Expense.id e) (expensePaidFors s))
    (Expense.isReimbursement e)
    (SplitMode_text (Expense.splitMode e))
    (Expense.notes e)
    ((λ d, BackupDocument.mk (ExpenseDocument.id d) (ExpenseDocument.url d)
             (ExpenseDocument.width d) (ExpenseDocument.height d))
       <$> filter (λ d, ExpenseDocument.expenseId d = Expense.id e) (expenseDocuments s))
    (RecurrenceRule_text <$> Expense.recurrenceRule e)
    ((λ l, BackupRecurringLink.mk (RecurringExpenseLink.id l)
             (RecurringExpenseLink.nextExpenseCreatedAt l)
             (RecurringExpenseLink.nextExpenseDate l))
       <$> List.find (λ l, bool_decide (RecurringExpenseLink.currentFrameExpenseId l
                                        = Expense.id e))
             (recurringExpenseLinks s)).

Definition exportActivity (a : Activity.t) : BackupActivity.t :=
  BackupActivity.mk (Activity.id a) (Activity.time a) (Activity.activityType a)
    (Activity.participantId a) (Activity.expenseId a) (Activity.data a).

Section Handler.
Variable env : Env.

(** [prisma.group.findUnique({ where: { id: groupId }, include: ... })]
    reads the whole graph of the group in one query. *)
Definition GET (groupId : string) : Tx Response :=
  let* store := prisma.query id in
  match List.find (λ g, bool_decide (Group.id g = groupId)) (groups store) with
  | None => ret (NotFound "Invalid group ID")
  | Some group =>
      let participants := prisma.participantsOf groupId store in
      let expenses := merge_sort byExpenseDate (prisma.expensesOf groupId store) in
      let activities := merge_sort byTime (prisma.activitiesOf groupId store) in
      let* exportedAt := prisma.now env in
      let backup :=
        BackupData.mk "1.0.0" exportedAt
          (BackupGroup.mk (Group.id group) (Group.name group) (Group.information group)
             (Group.currency group) (Group.currencyCode group) (Group.createdAt group))
          (exportParticipant <$> participants)
          (exportExpense store <$> expenses)
          (exportActivity <$> activities) in
      let metadata :=
        Metadata.mk (BackupData.version backup) (BackupData.exportedAt backup)
          (Group.id group) (Group.name group) in
      let* date := prisma.now env in
      let filename :=
        "Spliit-Backup-" ++ Group.name group ++ "-" ++ beforeT (toISOString env date)
          ++ ".zip" in
      ret (Archive backup metadata filename)
  end.
End Handler.
End ExportRoute.

(** * groups/[groupId]/expenses/amount-calculator.tsx

    The display logic of the calculator: [appendToDisplay], [backspace] and
    [clear], on the two pieces of state they read and set.  A string is the
    list of its UTF-16 code units.  [calculate] evaluates the display as
    floating-point arithmetic and is not modelled. *)
Module AmountCalculator.

(** ['+'], ['-'], ['×'], ['÷'], ['.'] and ['0'] *)
Definition plus : N := 43.
Definition minus : N := 45.
Definition times : N := 215.
Definition divide : N := 247.
Definition dot : N := 46.
Definition zero : N := 48.

(** [['+', '-', '×', '÷'].includes(char)] *)
Definition isOperator (char : list N) : bool :=
  bool_decide (char ∈ [[plus]; [minus]; [times]; [divide]]).

(** [text.slice(-1)] and [text.slice(0, -1)] *)
Definition sliceLast (text : list N) : list N :=
  match last text with
  | Some c => [c]
  | None => []
  end.

Definition sliceInit (text : list N) : list N := removelast text.

(** [text.split(/[+\-×÷]/)] *)
Fixpoint split (text : list N) : list (list N) :=
  match text with
  | [] => [[]]
  | c :: rest =>
      if isOperator [c] then [] :: split rest
      else match split rest with
           | part :: parts => (c :: part) :: parts
           | [] => [[c]]
           end
  end.

(** [parts[parts.length - 1]] *)
Definition currentNumber (text : list N) : list N := default [] (last (split text)).

Record State := mkState { display : list N; hasResult : bool }.

(** [useState(initialValue || '0')], [useState(false)] *)
Definition initialState (initialValue : option (list N)) : State :=
  mkState (match initialValue with
           | Some (c :: text) => c :: text
           | _ => [zero]
           end) false.

Definition appendToDisplay (value : list N) (st : State) : State :=
  let prev := display st in
  if hasResult st && negb (isOperator value)
  then mkState (if decide (value = [dot]) then [zero; dot] else value) false
  else if decide (prev = [zero] ∧ value ≠ [dot] ∧ isOperator value = false)
  then mkState value (hasResult st)
  else
    let lastChar := sliceLast prev in
    if isOperator value && isOperator lastChar
    then mkState (sliceInit prev ++ value)%list (hasResult st)
    else if decide (value = [dot] ∧ dot ∈ currentNumber prev)
    then mkState prev (hasResult st)
    else mkState (prev ++ value)%list false.

Definition clear (st : State) : State := mkState [zero] false.

Definition backspace (st : State) : State :=
  let prev := display st in
  if decide (length prev = 1%nat ∨ hasResult st = true)
  then mkState [zero] false
  else mkState (sliceInit prev) (hasResult st).

(** What a key or a button does, [calculate] and [handleApply] apart. *)
Inductive Action :=
| Append (value : list N)
| Backspace
| Clear.

Definition act (st : State) (action : Action) : State :=
  match action with
  | Append value => appendToDisplay value st
  | Backspace => backspace st
  | Clear => clear st
  end.

(** The keyboard handler and the buttons pass [appendToDisplay] a string of
    one code unit: a digit, the decimal point or an operator. *)
Definition isKey (action : Action) : Prop :=
  match action with
  | Append value => ∃ c, value = [c]
  | _ => True
  end.

(** No two operators in a row. *)
Fixpoint noAdjacentOperators (text : list N) : Prop :=
  match text with
  | a :: (b :: _) as rest =>
      ¬ (isOperator [a] = true ∧ isOperator [b] = true) ∧ noAdjacentOperators rest
  | _ => True
  end.

(** At most one decimal point in each number. *)
Definition decimalPoints (part : list N) : nat := length (filter (λ c, c = dot) part).

Definition oneDecimalPoint (text : list N) : Prop :=
  Forall (λ part, (decimalPoints part ≤ 1)%nat) (split text).

(** A display that is not empty, has no two operators in a row and at most
    one decimal point in each number. *)
Definition wellFormed (text : list N) : Prop :=
  text ≠ [] ∧ noAdjacentOperators text ∧ oneDecimalPoint text.

End AmountCalculator.

(** The rejection of a text of some expense of [expenses] by an enumerated
    column. *)
Definition castError (expenses : list BackupExpense.t) (e : Error) : Prop :=
  ∃ expense, expense ∈ expenses
    ∧ (((∀ m, BackupExpense.splitMode expense ≠ SplitMode_text m)
        ∧ e = InvalidEnumValue "splitMode" (BackupExpense.splitMode expense))
       ∨ ∃ v, BackupExpense.recurrenceRule expense = Some v
           ∧ (∀ r, v ≠ RecurrenceRule_text r)
           ∧ e = InvalidEnumValue "recurrenceRule" v).

(** The rejection of the conversion rate of some expense of [expenses] by
    the decimal constructor. *)
Definition decimalError (expenses : list BackupExpense.t) (e : Error) : Prop :=
  ∃ expense text, expense ∈ expenses
    ∧ truthy (BackupExpense.conversionRate expense) = Some text
    ∧ Decimal.accepts text = false
    ∧ e = DecimalError text.

(** The rejection of the type of some activity of [activities] by its
    enumerated column. *)
Definition activityTypeError (env : Env) (activities : list BackupActivity.t)
    (e : Error) : Prop :=
  ∃ activity, activity ∈ activities
    ∧ isActivityType env (BackupActivity.activityType activity) = false
    ∧ e = InvalidEnumValue "activityType" (BackupActivity.activityType activity).

(** The participant identifiers the expense loop of the lightweight format
    checks payers and split participants against: those of the snapshot, in
    update mode together with those stored for the group. *)
Definition referencePool (mode : Mode) (jsonData : JSONImportData.t) (s : Store)
    : gset string :=
  match mode with
  | update =>
      list_to_set (SnapshotParticipant.id <$> JSONImportData.participants jsonData)
      ∪ storedParticipantIds (JSONImportData.id jsonData) s
  | _ => list_to_set (SnapshotParticipant.id <$> JSONImportData.participants jsonData)
  end.

(** The pair a Category is looked up by. *)
Definition categoryKey (c : Category.t) : string * string :=
  (Category.grouping c, Category.name c).

(** The category column of the row written for an expense of a JSON
    snapshot: the identifier of a Category of [categories] with the grouping
    and name the snapshot gives, [0] when it gives none. *)
Definition categorised (categories : list Category.t) (expense : JSONExpense.t)
    (row : Expense.t) : Prop :=
  match JSONExpense.category expense with
  | Some c =>
      ∃ category, category ∈ categories
        ∧ categoryKey category = (JSONCategory.grouping c, JSONCategory.name c)
        ∧ Expense.categoryId row = Category.id category
  | None => Expense.categoryId row = 0
  end.

(** A Category a restore added: some expense of [expenses] names its
    grouping and name. *)
Definition categoryOf (expenses : list JSONExpense.t) (category : Category.t) : Prop :=
  ∃ expense c, expense ∈ expenses
    ∧ JSONExpense.category expense = Some c
    ∧ categoryKey category = (JSONCategory.grouping c, JSONCategory.name c).

(** The rows the full-backup Restore Engine writes for an expense, given
    the members its split-mode and recurrence-rule texts denote. *)
Definition restoredExpense (groupId : string) (expense : BackupExpense.t)
    (splitMode : SplitMode) (recurrenceRule : option RecurrenceRule) : Expense.t :=
  Expense.mk (BackupExpense.id expense) groupId
    (BackupExpense.expenseDate expense) (BackupExpense.createdAt expense)
    (BackupExpense.title expense)
    (default 0 (BackupCategory.id <$> BackupExpense.category expense))
    (BackupExpense.amount expense) (BackupExpense.originalAmount expense)
    (BackupExpense.originalCurrency expense)
    (truthy (BackupExpense.conversionRate expense))
    (BackupExpense.paidById expense) (BackupExpense.isReimbursement expense)
    splitMode (BackupExpense.notes expense) recurrenceRule.

Definition restoredPaidFor (expense : BackupExpense.t) : list ExpensePaidFor.t :=
  (λ paidFor, ExpensePaidFor.mk (BackupExpense.id expense)
                (PaidFor.participantId paidFor) (PaidFor.shares paidFor))
    <$> BackupExpense.paidFor expense.

Definition restoredActivity (groupId : string) (activity : BackupActivity.t) : Activity.t :=
  Activity.mk (BackupActivity.id activity) groupId
    (BackupActivity.time activity) (BackupActivity.activityType activity)
    (BackupActivity.participantId activity)
    (BackupActivity.expenseId activity) (BackupActivity.data activity).

(** [row] is the Expense row written for [expense]. *)
Definition restoredAs (groupId : string) (expense : BackupExpense.t) (row : Expense.t)
    : Prop :=
  ∃ splitMode recurrenceRule,
    (∀ s, Backup.castSplitMode (BackupExpense.splitMode expense) s = Ok (splitMode, s))
    ∧ (∀ s, Backup.castRecurrenceRule (BackupExpense.recurrenceRule expense) s
            = Ok (recurrenceRule, s))
    ∧ row = restoredExpense groupId expense splitMode recurrenceRule.

(** The tables a restore of a full backup appends to without reading the
    environment. *)
Definition plainTables (s : Store)
    : list Group.t * list Participant.t * list Activity.t :=
  (groups s, participants s, activities s).

(** The answers that report a committed transaction. *)
Definition committed {C} (response : Response C) : bool :=
  match response with
  | Restored _ _ _ _ | Success _ => true
  | _ => false
  end.

(** The warnings the document loop of an expense pushes, the first probe
    being the [tick]-th read of the environment. *)
Fixpoint probeDocuments (env : Env) (tick : nat) (title : string)
    (documents : list BackupDocument.t) : list string :=
  match documents with
  | [] => []
  | doc :: rest =>
      (if urlReachableAt env tick (BackupDocument.url doc)
       then []
       else [Backup.documentWarning title (BackupDocument.url doc)])
        ++ probeDocuments env (S tick) title rest
  end.

Fixpoint documentWarnings (env : Env) (tick : nat) (expenses : list BackupExpense.t)
    : list string :=
  match expenses with
  | [] => []
  | expense :: rest =>
      probeDocuments env tick (BackupExpense.title expense)
        (BackupExpense.documents expense)
        ++ documentWarnings env (tick + length (BackupExpense.documents expense)) rest
  end.

(** A step that does not read the environment. *)
Definition sameTick (s s' : TxState) : Prop := tick s' = tick s.

(** ** More concrete data *)
Module MoreExamples.

(** A full backup whose expense has a conversion rate that is no numeral
    and a split-mode text outside the enumeration. *)
Definition oddExpense : BackupExpense.t :=
  BackupExpense.mk "e1" 10 10 "Dinner" None 100 None None (Some "abc") "p1"
    [PaidFor.mk "p2" 1] false "BY_WEIGHT" None [] None None.

Definition oddBackup : BackupData.t :=
  BackupData.mk "1.0.0" 5000
    (BackupGroup.mk "g1" "Trip" None "EUR" None 1)
    [Examples.alice; Examples.bob] [oddExpense] [].

(** The group [g1] with Alice, one expense and one activity, all older than
    the clock of the examples; and the state a JSON update of [lunch] leaves
    of it. *)
Definition olderStore : Store :=
  mkStore [Group.mk "g1" "Trip" None "EUR" None 1]
    [Participant.mk "p1" "g1" "Alice"]
    [Expense.mk "e1" "g1" 10 50 "Dinner" 0 100 None None None "p1" false EVENLY None None]
    [ExpensePaidFor.mk "e1" "p1" 1] []
    [Activity.mk "a1" "g1" 60 "CREATE_EXPENSE" None (Some "e1") None] [] [].

Definition afterLunchUpdate : TxState :=
  (transaction (JsonImport.restoreGroupFromJSON Examples.env Examples.lunch update)
     (mkTx olderStore 0)).2.

(** A snapshot whose expenses name categories: one stored in [pantry], one
    twice that is not. *)
Definition picnic : JSONImportData.t :=
  JSONImportData.mk "g1" "Picnic" "EUR" None
    [ JSONExpense.mk 10 10 "Bread" (Some (JSONCategory.mk "Food" "Groceries")) 100
        None None None "p1" [PaidFor.mk "p2" 1] false "EVENLY" None;
      JSONExpense.mk 20 20 "Train" (Some (JSONCategory.mk "Travel" "Rail")) 100
        None None None "p1" [PaidFor.mk "p2" 1] false "EVENLY" None;
      JSONExpense.mk 30 30 "Tram" (Some (JSONCategory.mk "Travel" "Rail")) 100
        None None None "p2" [PaidFor.mk "p1" 1] false "EVENLY" None;
      JSONExpense.mk 40 40 "Tip" None 100
        None None None "p2" [PaidFor.mk "p1" 1] false "EVENLY" None ]
    [Examples.alice; Examples.bob].

Definition pantry : Store :=
  mkStore [] [] [] [] [Category.mk 1 "Food" "Groceries"] [] [] [].

Definition afterPicnicCreate : TxState :=
  (transaction (JsonImport.restoreGroupFromJSON Examples.env picnic create)
     (mkTx pantry 0)).2.

(** The archive an export of the group [g1] of [Examples.importedStore]
    gives. *)
Definition exported : ExportRoute.Response * TxState :=
  match ExportRoute.GET Examples.env "g1" (mkTx Examples.importedStore 0) with
  | Ok r => r
  | Err _ => (ExportRoute.NotFound EmptyString, mkTx emptyStore 0)
  end.

Definition exportedBackup : BackupData.t :=
  match exported.1 with
  | ExportRoute.Archive backup _ _ => backup
  | ExportRoute.NotFound _ => Examples.tripBackup
  end.

(** The group [g1] with an expense paid in another currency, and the
    archive its export gives. *)
Definition abroadStore : Store :=
  mkStore [Group.mk "g1" "Trip" None "EUR" None 1]
    [Participant.mk "p1" "g1" "Alice"; Participant.mk "p2" "g1" "Bob"]
    [Expense.mk "e1" "g1" 10 50 "Dinner" 0 100 (Some 110) (Some "USD") (Some "1.1")
       "p1" false EVENLY None None;
     Expense.mk "e2" "g1" 20 100 "Taxi" 0 100 None None None "p2" false BY_SHARES None
       (Some NONE)]
    [ExpensePaidFor.mk "e1" "p1" 1; ExpensePaidFor.mk "e2" "p1" 1] []
    [Activity.mk "a1" "g1" 60 "CREATE_EXPENSE" None (Some "e1") None;
     Activity.mk "a2" "g1" 100 "CREATE_EXPENSE" None (Some "e2") None] [] [].

Definition abroadBackup : BackupData.t :=
  match ExportRoute.GET Examples.env "g1" (mkTx abroadStore 0) with
  | Ok (ExportRoute.Archive backup _ _, _) => backup
  | _ => Examples.tripBackup
  end.

(** An environment in which no document URL answers, and a backup whose
    expense has a document. *)
Definition offlineEnv : Env :=
  mkEnv (uuidAt Examples.env) (clockAt Examples.env) (λ _ _, false)
    (toISOString Examples.env) (JSON_stringify Examples.env) (λ _ _, true)
    (isActivityType Examples.env).

Definition receiptBackup : BackupData.t :=
  BackupData.mk "1.0.0" 5000
    (BackupGroup.mk "g1" "Trip" None "EUR" None 1)
    [Examples.alice; Examples.bob]
    [ BackupExpense.mk "e1" 10 10 "Dinner" None 100 None None None "p1"
        [PaidFor.mk "p2" 1] false "EVENLY" None
        [BackupDocument.mk "d1" "https://files.example/receipt.png" 640 480] None None ]
    [].

(** The group [g2] with one expense and its document, stored under the
    identifier that the document of [receiptBackup] has. *)
Definition flatStore : Store :=
  mkStore [Group.mk "g2" "Flat" None "EUR" None 1]
    [Participant.mk "p3" "g2" "Carol"]
    [Expense.mk "x1" "g2" 10 50 "Rent" 0 100 None None None "p3" false EVENLY None None]
    [ExpensePaidFor.mk "x1" "p3" 1] [] []
    [ExpenseDocument.mk "d1" "https://files.example/lease.png" 800 600 "x1"] [].

Definition afterReceiptCreate : TxState :=
  (transaction (Backup.restoreGroupFromBackup offlineEnv receiptBackup create)
     (mkTx emptyStore 0)).2.

End MoreExamples.

(** The rows of the groups other than [groupId], in the tables that carry a
    group identifier. *)
Definition otherGroups (groupId : string) (s : Store)
    : list Group.t * list Participant.t * list Expense.t * list Activity.t
      * list RecurringExpenseLink.t :=
  (filter (λ g, Group.id g ≠ groupId) (groups s),
   filter (λ p, Participant.groupId p ≠ groupId) (participants s),
   filter (λ e, Expense.groupId e ≠ groupId) (expenses s),
   filter (λ a, Activity.groupId a ≠ groupId) (activities s),
   filter (λ l, RecurringExpenseLink.groupId l ≠ groupId) (recurringExpenseLinks s)).

(** The identifiers of the documents a full backup names. *)
Definition backupDocumentIds (backupData : BackupData.t) : gset string :=
  list_to_set
    (BackupDocument.id
       <$> mbind BackupExpense.documents (BackupData.expenses backupData)).

(** The documents attached to none of the Expenses [expenseIds] and stored
    under none of the identifiers [documentIds]. *)
Definition otherDocuments (expenseIds documentIds : gset string) (s : Store)
    : list ExpenseDocument.t :=
  filter (λ d, (ExpenseDocument.expenseId d ∉ expenseIds)
               ∧ (ExpenseDocument.id d ∉ documentIds))
    (expenseDocuments s).

(** The rows of other groups together with the documents of expenses that
    are not the group's. *)
Definition otherRows (groupId : string) (expenseIds documentIds : gset string) (s : Store) :=
  (otherGroups groupId s, otherDocuments expenseIds documentIds s).

(** ** The trace of an import *)

(** Every run of [m] that returns relates the state before to the state
    after by [R]. *)
Definition evolves {A} (R : TxState → TxState → Prop) (m : Tx A) : Prop :=
  ∀ s a s', m s = Ok (a, s') → R s s'.

(** A step that writes no Expense and no Activity. *)
Definition quiet (s s' : TxState) : Prop :=
  (tick s ≤ tick s')%nat
  ∧ expenses (db s') = expenses (db s)
  ∧ activities (db s') = activities (db s).

(** What a restore leaves of the Activities that were stored. *)
Definition survivingActivities (mode : Mode) (groupId : string) (s : Store)
    : list Activity.t :=
  match mode with
  | rollback => filter (λ a, Activity.groupId a ≠ groupId) (activities s)
  | _ => activities s
  end.

(** The activity record written for an imported Expense row. *)
Definition loggedAs (env : Env) (importTime : Date) (row : Expense.t) (a : Activity.t)
    : Prop :=
  (∃ n, Activity.id a = uuidAt env n)
  ∧ Activity.groupId a = Expense.groupId row
  ∧ Activity.time a = importTime
  ∧ Activity.activityType a = "CREATE_EXPENSE"
  ∧ Activity.participantId a = None
  ∧ Activity.expenseId a = Some (Expense.id row)
  ∧ Activity.data a
    = Some (JsonImport.importedExpensePayload env (Expense.title row) importTime).

(** The creation time of a row written at or after the [t]-th read of the
    environment. *)
Definition createdFrom (env : Env) (t : nat) (row : Expense.t) : Prop :=
  ∃ n, (t ≤ n)%nat ∧ Expense.createdAt row = clockAt env n.

(** The marker record of an import. *)
Definition importMarker (env : Env) (jsonData : JSONImportData.t) (mode : Mode)
    (importTime : Date) (a : Activity.t) : Prop :=
  ∃ n, a = Activity.mk (uuidAt env n) (JSONImportData.id jsonData) importTime
             "UPDATE_GROUP" None None
             (Some (JsonImport.importStartMarker mode
                      (length (JSONImportData.expenses jsonData)))).

(** A clock that never goes back. *)
Definition monotoneClock (env : Env) : Prop :=
  ∀ m n : nat, (m ≤ n)%nat → clockAt env m ≤ clockAt env n.

(** * Properties *)

(** ** The split-mode and recurrence-rule mappings *)

Lemma mapSplitMode_cases (value : string) :
  (value = "BY_SHARES" ∧ JsonImport.mapSplitMode value = BY_SHARES)
  ∨ (value = "BY_PERCENTAGE" ∧ JsonImport.mapSplitMode value = BY_PERCENTAGE)
  ∨ (value = "BY_AMOUNT" ∧ JsonImport.mapSplitMode value = BY_AMOUNT)
  ∨ (value ≠ "BY_SHARES" ∧ value ≠ "BY_PERCENTAGE" ∧ value ≠ "BY_AMOUNT"
     ∧ JsonImport.mapSplitMode value = EVENLY).
Proof.
  unfold JsonImport.mapSplitMode.
  repeat case_decide; subst; auto 10.
Qed.

Lemma mapRecurrenceRule_cases (value : option string) :
  (value = Some "DAILY" ∧ JsonImport.mapRecurrenceRule value = DAILY)
  ∨ (value = Some "WEEKLY" ∧ JsonImport.mapRecurrenceRule value = WEEKLY)
  ∨ (value = Some "MONTHLY" ∧ JsonImport.mapRecurrenceRule value = MONTHLY)
  ∨ (value ≠ Some "DAILY" ∧ value ≠ Some "WEEKLY" ∧ value ≠ Some "MONTHLY"
     ∧ JsonImport.mapRecurrenceRule value = NONE).
Proof.
  unfold JsonImport.mapRecurrenceRule.
  destruct value as [v|]; [|right; right; right; done].
  repeat case_decide; subst; auto 10.
  right; right; right. repeat split; congruence.
Qed.

(** ** The maximum of a non-empty list of time values *)

Lemma Math_max_ge_init t ts : t ≤ Math_max t ts.
Proof.
  unfold Math_max. revert t.
  induction ts as [|x ts IH]; intros t; simpl; [lia|].
  specialize (IH (Z.max t x)). lia.
Qed.

Lemma Math_max_upper_bound t ts x : x ∈ t :: ts → x ≤ Math_max t ts.
Proof.
  unfold Math_max. revert t.
  induction ts as [|y ts IH]; intros t Hx; simpl.
  - apply list_elem_of_singleton in Hx. lia.
  - apply elem_of_cons in Hx as [->|Hx].
    + pose proof (Math_max_ge_init (Z.max t y) ts) as H. unfold Math_max in H. lia.
    + apply elem_of_cons in Hx as [->|Hx].
      * pose proof (Math_max_ge_init (Z.max t y) ts) as H. unfold Math_max in H. lia.
      * apply IH. by apply elem_of_cons; right.
Qed.

Lemma Math_max_elem_of t ts : Math_max t ts ∈ t :: ts.
Proof.
  unfold Math_max. revert t.
  induction ts as [|y ts IH]; intros t; simpl; [by apply list_elem_of_singleton|].
  specialize (IH (Z.max t y)).
  apply elem_of_cons in IH as [IH|IH].
  - rewrite IH. destruct (Z.max_spec t y) as [[_ ->]|[_ ->]]; set_solver.
  - set_solver.
Qed.

Lemma Math_max_app t ts u us :
  Math_max t (ts ++ u :: us) = Z.max (Math_max t ts) (Math_max u us).
Proof.
  unfold Math_max. rewrite foldl_app. simpl.
  generalize (foldl Z.max t ts) as a. revert u.
  induction us as [|y us IH]; intros u a; simpl; [done|].
  rewrite (IH y (Z.max a u)), (IH y u). lia.
Qed.

(** ** Version Comparator *)

Lemma json_updatedAt_together g :
  JsonImport.existingGroupUpdatedAt g
  = match ((JsonImport.ExistingExpense.expenseDate <$> JsonImport.ExistingGroup.expenses g)
           ++ JsonImport.ExistingGroup.activities g)%list with
    | [] => 0
    | t :: ts => Math_max t ts
    end.
Proof.
  unfold JsonImport.existingGroupUpdatedAt, JsonImport.latestExpense,
    JsonImport.latestActivity.
  destruct (JsonImport.ExistingExpense.expenseDate
              <$> JsonImport.ExistingGroup.expenses g) as [|t ts];
    destruct (JsonImport.ExistingGroup.activities g) as [|u us]; simpl; try done.
  - by rewrite app_nil_r.
  - change (foldl Z.max t (ts ++ u :: us)) with (Math_max t (ts ++ u :: us)).
    rewrite Math_max_app. done.
Qed.

(** The snapshot [early] has one expense, dated 500.  The live group of
    [freshStore] was created at time 1000 and has neither expenses nor
    activities, so its last-modified timestamp in the words of the
    specification is 1000 and the snapshot is the older of the two;
    [compareJSONVersions] answers NEWER. *)
Lemma json_comparator_newer_before_creation :
  let live := JsonRoute.findExistingGroup "g1" Examples.freshStore in
  let c := JsonImport.compareJSONVersions Examples.early live in
  live = Some (JsonImport.ExistingGroup.mk 1000 ["p1"] [] [])
  ∧ JsonImport.VersionComparison.jsonExportedAt c = 500
  ∧ specLastModified 1000 [] [] = 1000
  ∧ JsonImport.VersionComparison.result c = NEWER
  ∧ ¬ (JsonImport.VersionComparison.jsonExportedAt c > specLastModified 1000 [] []).
Proof. vm_compute. repeat split. intros Hgt. discriminate Hgt. Qed.

(** C2 (amended). Both comparators answer NOT_FOUND exactly when the live
    group is absent.  For a live group that is present, [compareVersions]
    answers NEWER, OLDER or SAME exactly when the export timestamp of the
    backup is strictly greater than, strictly less than or equal to the
    last-modified timestamp of the specification (the maximum of the latest
    expense creation time and the latest activity time, the creation time of
    the group standing in for the latest of an empty set).
    [compareJSONVersions] answers NEWER, OLDER or SAME exactly when the
    maximum expense date of the snapshot (the epoch when it has no expense) is
    strictly greater than, strictly less than or equal to the maximum over the
    expense dates and the activity times of the live group taken together, the
    epoch when it has neither: the creation time of the group is not
    consulted.  Both return the two timestamps they compared. *)
Theorem version_comparator_classification :
  (∀ jsonData existingGroup,
     JsonImport.VersionComparison.result
       (JsonImport.compareJSONVersions jsonData existingGroup) = NOT_FOUND
     ↔ existingGroup = None)
  ∧ (∀ jsonData g,
       let c := JsonImport.compareJSONVersions jsonData (Some g) in
       let snapshot :=
         match JSONExpense.expenseDate <$> JSONImportData.expenses jsonData with
         | [] => 0
         | t :: ts => Math_max t ts
         end in
       let live :=
         match ((JsonImport.ExistingExpense.expenseDate
                   <$> JsonImport.ExistingGroup.expenses g)
                ++ JsonImport.ExistingGroup.activities g)%list with
         | [] => 0
         | t :: ts => Math_max t ts
         end in
       JsonImport.VersionComparison.jsonExportedAt c = snapshot
       ∧ JsonImport.VersionComparison.existingGroupUpdatedAt c = Some live
       ∧ (JsonImport.VersionComparison.result c = NEWER ↔ snapshot > live)
       ∧ (JsonImport.VersionComparison.result c = OLDER ↔ snapshot < live)
       ∧ (JsonImport.VersionComparison.result c = SAME ↔ snapshot = live))
  ∧ (∀ backupData existingGroup,
       Backup.GroupComparison.result
         (Backup.compareVersions backupData existingGroup) = NOT_FOUND
       ↔ existingGroup = None)
  ∧ (∀ backupData g,
       let c := Backup.compareVersions backupData (Some g) in
       let snapshot := BackupData.exportedAt backupData in
       let live :=
         specLastModified (Backup.ExistingGroup.createdAt g)
           (Backup.ExistingExpense.createdAt <$> Backup.ExistingGroup.expenses g)
           (Backup.ExistingGroup.activities g) in
       Backup.GroupComparison.backupExportedAt c = snapshot
       ∧ Backup.GroupComparison.existingGroupUpdatedAt c = Some live
       ∧ (Backup.GroupComparison.result c = NEWER ↔ snapshot > live)
       ∧ (Backup.GroupComparison.result c = OLDER ↔ snapshot < live)
       ∧ (Backup.GroupComparison.result c = SAME ↔ snapshot = live)).
Proof.
  split; [|split; [|split]].
  - intros jsonData [g|]; unfold JsonImport.compareJSONVersions; simpl.
    + repeat case_decide; simpl; split; intros; discriminate.
    + done.
  - intros jsonData g. rewrite <- json_updatedAt_together.
    change (match JSONExpense.expenseDate <$> JSONImportData.expenses jsonData with
            | [] => 0
            | t :: ts => Math_max t ts
            end) with (JsonImport.latestExpenseDate jsonData).
    unfold JsonImport.compareJSONVersions; simpl.
    repeat case_decide; simpl; repeat split; intros; try discriminate; lia.
  - intros backupData [g|]; unfold Backup.compareVersions; simpl.
    + repeat case_decide; simpl; split; intros; discriminate.
    + done.
  - intros backupData g.
    change (specLastModified (Backup.ExistingGroup.createdAt g)
              (Backup.ExistingExpense.createdAt <$> Backup.ExistingGroup.expenses g)
              (Backup.ExistingGroup.activities g))
      with (Backup.existingGroupUpdatedAt g).
    unfold Backup.compareVersions; simpl.
    repeat case_decide; simpl; repeat split; intros; try discriminate; lia.
Qed.

(** For a live group without expenses and activities, created at time
    1000, [compareJSONVersions] reports the epoch as its last-modified
    timestamp; and for one whose only activity is at time 5 it reports 5.
    The specification's wording gives the creation time, 1000, for both. *)
Lemma json_last_modified_ignores_creation_time :
  JsonImport.VersionComparison.existingGroupUpdatedAt
    (JsonImport.compareJSONVersions Examples.trip
       (Some (JsonImport.ExistingGroup.mk 1000 [] [] []))) = Some 0
  ∧ specLastModified 1000 [] [] = 1000
  ∧ JsonImport.VersionComparison.existingGroupUpdatedAt
      (JsonImport.compareJSONVersions Examples.trip
         (Some (JsonImport.ExistingGroup.mk 1000 [] [] [5]))) = Some 5
  ∧ specLastModified 1000 [] [5] = 1000.
Proof. repeat split. Qed.

(** C3 (amended). [compareVersions] takes the maximum of the latest expense
    creation time and the latest activity time, the group's creation time
    standing in for the latest of an empty set.  [compareJSONVersions] takes
    the maximum over the expense dates and the activity times of the live
    group together, and the epoch when there are none; the creation time is
    not consulted.  For an absent live group the snapshot timestamp returned
    is the maximum expense date of a JSON snapshot (the epoch when it has no
    expense) and the stored export timestamp of a full backup. *)
Theorem last_modified_timestamps :
  (∀ g,
     Backup.existingGroupUpdatedAt g
     = specLastModified (Backup.ExistingGroup.createdAt g)
         (Backup.ExistingExpense.createdAt <$> Backup.ExistingGroup.expenses g)
         (Backup.ExistingGroup.activities g))
  ∧ (∀ g,
       JsonImport.existingGroupUpdatedAt g
       = match ((JsonImport.ExistingExpense.expenseDate
                   <$> JsonImport.ExistingGroup.expenses g)
                ++ JsonImport.ExistingGroup.activities g)%list with
         | [] => 0
         | t :: ts => Math_max t ts
         end)
  ∧ (∀ g g',
       JsonImport.ExistingGroup.expenses g = JsonImport.ExistingGroup.expenses g' →
       JsonImport.ExistingGroup.activities g = JsonImport.ExistingGroup.activities g' →
       JsonImport.existingGroupUpdatedAt g = JsonImport.existingGroupUpdatedAt g')
  ∧ (∀ jsonData,
       JsonImport.VersionComparison.jsonExportedAt
         (JsonImport.compareJSONVersions jsonData None)
       = match JSONExpense.expenseDate <$> JSONImportData.expenses jsonData with
         | [] => 0
         | t :: ts => Math_max t ts
         end)
  ∧ (∀ backupData,
       Backup.GroupComparison.backupExportedAt (Backup.compareVersions backupData None)
       = BackupData.exportedAt backupData).
Proof.
  split; [|split; [|split; [|split]]].
  - intros g. unfold Backup.existingGroupUpdatedAt, specLastModified,
      Backup.latestExpenseTime, Backup.latestActivityTime. done.
  - intros g. unfold JsonImport.existingGroupUpdatedAt, JsonImport.latestExpense,
      JsonImport.latestActivity.
    destruct (JsonImport.ExistingExpense.expenseDate
                <$> JsonImport.ExistingGroup.expenses g) as [|t ts];
      destruct (JsonImport.ExistingGroup.activities g) as [|u us]; simpl; try done.
    + by rewrite app_nil_r.
    + change (foldl Z.max t (ts ++ u :: us)) with (Math_max t (ts ++ u :: us)).
      rewrite Math_max_app. done.
  - intros g g' He Ha. unfold JsonImport.existingGroupUpdatedAt, JsonImport.latestExpense,
      JsonImport.latestActivity. by rewrite He, Ha.
  - done.
  - done.
Qed.

Lemma last_modified_timestamps_witness :
  JsonImport.existingGroupUpdatedAt (JsonImport.ExistingGroup.mk 1000 [] [] [5])
  = JsonImport.existingGroupUpdatedAt (JsonImport.ExistingGroup.mk 7 [] [] [5]).
Proof.
  apply (proj1 (proj2 (proj2 last_modified_timestamps))); reflexivity.
Defined.

(** ** Difference Calculator *)

Lemma length_filter_fmap {A B} (f : A → B) (P : B → Prop)
    `{HP : ∀ y, Decision (P y)} `{HPf : ∀ x, Decision (P (f x))} (l : list A) :
  length (filter P (f <$> l)) = length (filter (λ x, P (f x)) l).
Proof.
  induction l as [|x l IH]; [done|].
  rewrite fmap_cons, !filter_cons.
  destruct (HP (f x)), (HPf x); simpl; try tauto; by rewrite IH.
Qed.

Lemma length_filter_ext {A} (P Q : A → Prop) `{∀ x, Decision (P x)} `{∀ x, Decision (Q x)}
    (l : list A) :
  (∀ x, x ∈ l → P x ↔ Q x) → length (filter P l) = length (filter Q l).
Proof.
  induction l as [|x l IH]; intros HPQ; [done|].
  rewrite !filter_cons.
  assert (P x ↔ Q x) as Hx by (apply HPQ, elem_of_cons; by left).
  assert (length (filter P l) = length (filter Q l)) as Hl
    by (apply IH; intros y Hy; apply HPQ, elem_of_cons; by right).
  repeat case_decide; simpl; try tauto; by rewrite Hl.
Qed.

(** C9. Role reversal for the identifier-based format: if the live view
    [liveA] lists the identifiers of backup [A] and [liveB] those of backup
    [B], the expenses (participants) added by [A] against [liveB] are as many
    as the expenses (participants) removed by [B] against [liveA]. *)
Theorem differences_role_reversal (A B : BackupData.t)
    (liveA liveB : Backup.ExistingGroup.t) :
  Backup.ExistingExpense.id <$> Backup.ExistingGroup.expenses liveA
    = BackupExpense.id <$> BackupData.expenses A →
  Backup.ExistingGroup.participants liveA
    = SnapshotParticipant.id <$> BackupData.participants A →
  Backup.ExistingExpense.id <$> Backup.ExistingGroup.expenses liveB
    = BackupExpense.id <$> BackupData.expenses B →
  Backup.ExistingGroup.participants liveB
    = SnapshotParticipant.id <$> BackupData.participants B →
  Differences.addedExpenses (Backup.calculateDifferences A liveB)
    = Differences.removedExpenses (Backup.calculateDifferences B liveA)
  ∧ Differences.addedParticipants (Backup.calculateDifferences A liveB)
    = Differences.removedParticipants (Backup.calculateDifferences B liveA).
Proof.
  intros HeA HpA HeB HpB. unfold Backup.calculateDifferences; simpl. split.
  - rewrite HeB.
    set (ids := list_to_set (BackupExpense.id <$> BackupData.expenses B) : gset string).
    etrans; [symmetry; apply (length_filter_fmap BackupExpense.id (λ i, i ∉ ids))|].
    etrans; [|apply (length_filter_fmap Backup.ExistingExpense.id (λ i, i ∉ ids))].
    by rewrite HeA.
  - rewrite HpB, HpA.
    set (ids := list_to_set (SnapshotParticipant.id <$> BackupData.participants B)
                : gset string).
    symmetry. apply (length_filter_fmap SnapshotParticipant.id (λ i, i ∉ ids)).
Qed.

Lemma differences_role_reversal_witness :
  Differences.addedExpenses
    (Backup.calculateDifferences Examples.tripBackup
       (asExistingGroup Examples.danglingBackup)) = 1%nat
  ∧ Differences.addedExpenses
      (Backup.calculateDifferences Examples.tripBackup
         (asExistingGroup Examples.danglingBackup))
    = Differences.removedExpenses
        (Backup.calculateDifferences Examples.danglingBackup
           (asExistingGroup Examples.tripBackup)).
Proof.
  split; [vm_compute; reflexivity|].
  apply (differences_role_reversal Examples.tripBackup Examples.danglingBackup
           (asExistingGroup Examples.tripBackup)
           (asExistingGroup Examples.danglingBackup)); reflexivity.
Defined.

(** The snapshot [lunch] has one expense, "Lunch", on the day of the one
    expense of the live group, "Dinner".  On the key (day, title) one expense
    is added and one removed; [calculateJSONDifferences] reports none added
    and none removed. *)
Lemma json_differences_not_by_title :
  let live := JsonRoute.findExistingGroup "g1" Examples.liveStore in
  let liveKeys :=
    (λ e, specHeuristicKey (Expense.expenseDate e) (Expense.title e))
      <$> prisma.expensesOf "g1" Examples.liveStore in
  let snapshotKeys :=
    (λ e, specHeuristicKey (JSONExpense.expenseDate e) (JSONExpense.title e))
      <$> JSONImportData.expenses Examples.lunch in
  (Differences.addedExpenses <$> (JsonImport.calculateJSONDifferences Examples.lunch <$> live)
     = Some 0%nat
   ∧ specHeuristicDifference snapshotKeys liveKeys = 1%nat)
  ∧ (Differences.removedExpenses
       <$> (JsonImport.calculateJSONDifferences Examples.lunch <$> live) = Some 0%nat
     ∧ specHeuristicDifference liveKeys snapshotKeys = 1%nat).
Proof. vm_compute. repeat split. Qed.

(** C4 (amended). For the lightweight format the Difference Calculator
    counts as added the snapshot expenses on whose UTC day the live group has
    no expense, and as removed the live expenses on whose UTC day the
    snapshot has no expense; every such expense is counted, titles play no
    part, and modifiedExpenses is 0. *)
Theorem json_differences_by_day (jsonData : JSONImportData.t)
    (existingGroup : JsonImport.ExistingGroup.t) :
  let d := JsonImport.calculateJSONDifferences jsonData existingGroup in
  Differences.addedExpenses d
    = length (filter
                (λ e, Forall (λ x, isoDay (JsonImport.ExistingExpense.expenseDate x)
                                   ≠ isoDay (JSONExpense.expenseDate e))
                        (JsonImport.ExistingGroup.expenses existingGroup))
                (JSONImportData.expenses jsonData))
  ∧ Differences.removedExpenses d
    = length (filter
                (λ x, Forall (λ e, isoDay (JSONExpense.expenseDate e)
                                   ≠ isoDay (JsonImport.ExistingExpense.expenseDate x))
                        (JSONImportData.expenses jsonData))
                (JsonImport.ExistingGroup.expenses existingGroup))
  ∧ Differences.modifiedExpenses d = 0%nat
  ∧ ∀ f, JsonImport.calculateJSONDifferences (retitle f jsonData) existingGroup = d.
Proof.
  unfold JsonImport.calculateJSONDifferences; simpl. repeat split.
  - apply length_filter_ext. intros e _.
    rewrite elem_of_list_to_set, list_elem_of_fmap, Forall_forall. split.
    + intros Hno x Hx Heq. apply Hno. by exists x.
    + intros Hall (x & Heq & Hx). by apply (Hall x Hx).
  - apply length_filter_ext. intros x _.
    rewrite elem_of_list_to_set, list_elem_of_fmap, Forall_forall. split.
    + intros Hno e He Heq. apply Hno. by exists e.
    + intros Hall (e & Heq & He). by apply (Hall e He).
  - intros f. unfold retitle; simpl.
    rewrite <- !list_fmap_compose.
    f_equal.
    set (days := list_to_set
                   ((λ x, isoDay (JsonImport.ExistingExpense.expenseDate x))
                      <$> JsonImport.ExistingGroup.expenses existingGroup) : gset Z).
    apply (length_filter_fmap (retitleExpense f)
             (λ e, isoDay (JSONExpense.expenseDate e) ∉ days)).
Qed.

(** ** Import handlers: the restore mode *)

(** C6. For an upload that passes the format check and an action among
    restore and rollback, both import handlers run the Restore Engine in
    create mode when the classification is NOT_FOUND, otherwise in rollback
    mode when the action is rollback, otherwise in update mode when the
    classification is NEWER; otherwise they answer 400 with the message that
    points to rollback, whatever the Restore Engine is, and leave the store as
    it was. *)
Theorem import_mode_derivation :
  (∀ restore jsonData action s,
     action = "restore" ∨ action = "rollback" →
     JSONImportData.id jsonData ≠ EmptyString →
     JSONImportData.name jsonData ≠ EmptyString →
     let classification :=
       JsonImport.VersionComparison.result
         (JsonImport.compareJSONVersions jsonData
            (JsonRoute.findExistingGroup (JSONImportData.id jsonData) (db s))) in
     if decide (classification = NOT_FOUND)
     then JsonRoute.POST_with restore (Some jsonData) action s
          = JsonRoute.executeRestore restore jsonData create s
     else if decide (action = "rollback")
     then JsonRoute.POST_with restore (Some jsonData) action s
          = JsonRoute.executeRestore restore jsonData rollback s
     else if decide (classification = NEWER)
     then JsonRoute.POST_with restore (Some jsonData) action s
          = JsonRoute.executeRestore restore jsonData update s
     else ∀ anyRestore,
            JsonRoute.POST_with anyRestore (Some jsonData) action s
            = (ErrorResponse 400
                 "JSON export is not newer than existing group. Use rollback to restore older version."
                 None, s))
  ∧ (∀ restore backupData action s,
       action = "restore" ∨ action = "rollback" →
       BackupData.version backupData ≠ EmptyString →
       let classification :=
         Backup.GroupComparison.result
           (Backup.compareVersions backupData
              (BackupRoute.findExistingGroup
                 (BackupGroup.id (BackupData.group backupData)) (db s))) in
       if decide (classification = NOT_FOUND)
       then BackupRoute.POST_with restore (Some backupData) action s
            = BackupRoute.executeRestore restore backupData create s
       else if decide (action = "rollback")
       then BackupRoute.POST_with restore (Some backupData) action s
            = BackupRoute.executeRestore restore backupData rollback s
       else if decide (classification = NEWER)
       then BackupRoute.POST_with restore (Some backupData) action s
            = BackupRoute.executeRestore restore backupData update s
       else ∀ anyRestore,
              BackupRoute.POST_with anyRestore (Some backupData) action s
              = (ErrorResponse 400
                   "Backup is not newer than existing group. Use rollback to restore older version."
                   None, s)).
Proof.
  split.
  - intros restore jsonData action s Haction Hid Hname classification.
    assert (action ≠ "analyze") as Hanalyze by (destruct Haction; subst; discriminate).
    unfold JsonRoute.POST_with.
    repeat case_decide; try tauto; try congruence;
      subst classification; try intros anyRestore;
      repeat case_decide; try tauto; try congruence.
  - intros restore backupData action s Haction Hversion classification.
    assert (action ≠ "analyze") as Hanalyze by (destruct Haction; subst; discriminate).
    unfold BackupRoute.POST_with.
    repeat case_decide; try tauto; try congruence;
      subst classification; try intros anyRestore;
      repeat case_decide; try tauto; try congruence.
Qed.

(** The snapshot [lunch] (latest expense at time 20) against the live group
    of [liveStore] (last modified at time 60) is OLDER: a restore is answered
    with status 400 and the store stays as it was. *)
Lemma import_mode_derivation_witness :
  JsonRoute.POST Examples.env (Some Examples.lunch) "restore" (mkTx Examples.liveStore 0)
  = (ErrorResponse 400
       "JSON export is not newer than existing group. Use rollback to restore older version."
       None, mkTx Examples.liveStore 0).
Proof.
  refine (proj1 import_mode_derivation (JsonImport.restoreGroupFromJSON Examples.env)
            Examples.lunch "restore" (mkTx Examples.liveStore 0) _ _ _
            (JsonImport.restoreGroupFromJSON Examples.env)).
  - left; reflexivity.
  - discriminate.
  - discriminate.
Defined.

(** ** Undo last import *)

#[local] Instance laterOrEqual_transitive : Transitive UndoRoute.laterOrEqual.
Proof. intros a b c. unfold UndoRoute.laterOrEqual. lia. Qed.

#[local] Instance laterOrEqual_total : Total UndoRoute.laterOrEqual.
Proof. intros a b. unfold UndoRoute.laterOrEqual. lia. Qed.

Lemma includedActivities_latest groupId s marker :
  UndoRoute.includedActivities groupId s !! 0%nat = Some marker →
  marker ∈ activities s
  ∧ Activity.groupId marker = groupId
  ∧ UndoRoute.isImportMarker marker = true
  ∧ ∀ a, a ∈ activities s → Activity.groupId a = groupId →
         UndoRoute.isImportMarker a = true → Activity.time a ≤ Activity.time marker.
Proof.
  unfold UndoRoute.includedActivities.
  set (markers := filter (λ a, UndoRoute.isImportMarker a = true)
                    (prisma.activitiesOf groupId s)).
  pose proof (merge_sort_Permutation UndoRoute.laterOrEqual markers) as Hperm.
  pose proof (StronglySorted_merge_sort UndoRoute.laterOrEqual markers) as Hsorted.
  destruct (merge_sort UndoRoute.laterOrEqual markers) as [|m rest]; [done|].
  simpl. intros [= ->].
  assert (∀ a, a ∈ markers ↔
               a ∈ activities s ∧ Activity.groupId a = groupId
               ∧ UndoRoute.isImportMarker a = true) as Hmarkers.
  { intros a. unfold markers, prisma.activitiesOf.
    rewrite !list_elem_of_filter. tauto. }
  assert (marker ∈ markers) as Hin by (rewrite <- Hperm; apply elem_of_cons; by left).
  apply Hmarkers in Hin as (? & ? & ?). repeat split; try done.
  intros a Ha Hg Hm.
  assert (a ∈ marker :: rest) as Ha' by (rewrite Hperm; apply Hmarkers; done).
  apply StronglySorted_cons in Hsorted as [Hall _].
  apply elem_of_cons in Ha' as [->|Ha']; [lia|].
  rewrite Forall_forall in Hall. apply (Hall a Ha').
Qed.

Lemma includedActivities_some groupId s a :
  a ∈ activities s → Activity.groupId a = groupId → UndoRoute.isImportMarker a = true →
  is_Some (UndoRoute.includedActivities groupId s !! 0%nat).
Proof.
  intros Ha Hg Hm. unfold UndoRoute.includedActivities.
  set (markers := filter (λ a, UndoRoute.isImportMarker a = true)
                    (prisma.activitiesOf groupId s)).
  assert (a ∈ markers) as Hin.
  { unfold markers, prisma.activitiesOf. rewrite !list_elem_of_filter. done. }
  pose proof (merge_sort_Permutation UndoRoute.laterOrEqual markers) as Hperm.
  destruct (merge_sort UndoRoute.laterOrEqual markers) as [|m rest]; simpl; [|by eexists].
  rewrite <- Hperm in Hin. by apply elem_of_nil in Hin.
Qed.

Lemma filter_idemp {A} (P : A → Prop) `{∀ x, Decision (P x)} (l : list A) :
  filter P (filter P l) = filter P l.
Proof.
  induction l as [|x l IH]; [done|].
  rewrite filter_cons. case_decide; [|done].
  rewrite filter_cons_True by done. by rewrite IH.
Qed.

Lemma find_group_some groupId (gs : list Group.t) g :
  g ∈ gs → Group.id g = groupId →
  is_Some (List.find (λ g, bool_decide (Group.id g = groupId)) gs).
Proof.
  induction gs as [|x gs IH]; intros Hin Hid; [by apply elem_of_nil in Hin|].
  simpl. case_bool_decide; [by eexists|].
  apply elem_of_cons in Hin as [->|Hin]; [done|]. by apply IH.
Qed.

(** C8. For a group that exists and has at least one import marker, the
    undo-import request succeeds; it takes the marker of the group with the
    latest time and, in one transaction, deletes of that group exactly the
    Expenses created at or after the marker's time, the ExpensePaidFor rows of
    those Expenses, and the Activities timed at or after it.  Participants,
    Groups and Categories are left as they were. *)
Theorem undo_last_import (groupId : string) (s : TxState) (g : Group.t) (a : Activity.t) :
  g ∈ groups (db s) → Group.id g = groupId →
  a ∈ activities (db s) → Activity.groupId a = groupId →
  UndoRoute.isImportMarker a = true →
  ∃ marker s',
    UndoRoute.POST groupId "undo-import" s = (Success "Successfully undid last import", s')
    ∧ transaction (UndoRoute.undoImport groupId marker) s = (Ok tt, s')
    ∧ marker ∈ activities (db s)
    ∧ Activity.groupId marker = groupId
    ∧ UndoRoute.isImportMarker marker = true
    ∧ (∀ a', a' ∈ activities (db s) → Activity.groupId a' = groupId →
             UndoRoute.isImportMarker a' = true →
             Activity.time a' ≤ Activity.time marker)
    ∧ expenses (db s')
      = filter (λ e, ¬ (Expense.groupId e = groupId
                        ∧ Activity.time marker ≤ Expense.createdAt e))
          (expenses (db s))
    ∧ expensePaidFors (db s')
      = filter (λ pf, ¬ Exists (λ e, Expense.id e = ExpensePaidFor.expenseId pf
                                     ∧ Expense.groupId e = groupId
                                     ∧ Activity.time marker ≤ Expense.createdAt e)
                          (expenses (db s)))
          (expensePaidFors (db s))
    ∧ activities (db s')
      = filter (λ a', ¬ (Activity.groupId a' = groupId
                         ∧ Activity.time marker ≤ Activity.time a'))
          (activities (db s))
    ∧ participants (db s') = participants (db s)
    ∧ groups (db s') = groups (db s)
    ∧ categories (db s') = categories (db s).
Proof.
  intros Hg Hgid Ha Hagid Hmarker.
  destruct (includedActivities_some groupId (db s) a Ha Hagid Hmarker) as [marker Hlast].
  destruct (includedActivities_latest groupId (db s) marker Hlast) as (Hin & Hmg & Hmm & Hmax).
  destruct (find_group_some groupId (groups (db s)) g Hg Hgid) as [g' Hfind].
  exists marker.
  eexists. split; [|split].
  - unfold UndoRoute.POST. rewrite Hfind. rewrite decide_True by done.
    rewrite Hlast. reflexivity.
  - reflexivity.
  - simpl. repeat split; try done.
    apply filter_idemp.
Qed.

Lemma undo_last_import_witness :
  ∃ s', UndoRoute.POST "g1" "undo-import" (mkTx Examples.importedStore 0)
        = (Success "Successfully undid last import", s')
        ∧ Expense.id <$> expenses (db s') = ["e1"]
        ∧ participants (db s') = participants Examples.importedStore.
Proof.
  destruct (undo_last_import "g1" (mkTx Examples.importedStore 0)
              (Group.mk "g1" "Trip" None "EUR" None 1)
              (Activity.mk "m1" "g1" 100 "UPDATE_GROUP" None None
                 (Some "JSON_IMPORT_START:update:2 expenses")))
    as (marker & s' & HPOST & Htx & _ & _ & _ & _ & _ & _ & _ & Hp & _).
  - apply elem_of_cons; left; reflexivity.
  - reflexivity.
  - apply elem_of_cons; right; apply elem_of_cons; left; reflexivity.
  - reflexivity.
  - reflexivity.
  - exists s'. split; [exact HPOST|]. split; [|exact Hp].
    vm_compute in HPOST. injection HPOST as <-. reflexivity.
Defined.

(** ** Reasoning about transactions *)

Lemma bind_Ok {A B} (m : Tx A) (k : A → Tx B) s b s' :
  bind m k s = Ok (b, s') ↔ ∃ a s1, m s = Ok (a, s1) ∧ k a s1 = Ok (b, s').
Proof.
  unfold bind. split.
  - destruct (m s) as [[a s1]|e]; [|done]. intros Hk. by exists a, s1.
  - intros (a & s1 & -> & Hk). done.
Qed.

Lemma bind_Err {A B} (m : Tx A) (k : A → Tx B) s e :
  bind m k s = Err e ↔ m s = Err e ∨ ∃ a s1, m s = Ok (a, s1) ∧ k a s1 = Err e.
Proof.
  unfold bind. split.
  - destruct (m s) as [[a s1]|e']; [|intros [= ->]; by left]. intros Hk. right. by exists a, s1.
  - intros [->|(a & s1 & -> & Hk)]; done.
Qed.

Lemma bind_step {A B} (m : Tx A) (k : A → Tx B) s a s1 :
  m s = Ok (a, s1) → bind m k s = k a s1.
Proof. unfold bind. by intros ->. Qed.

Lemma ret_Ok {A} (a b : A) s s' : ret a s = Ok (b, s') ↔ b = a ∧ s' = s.
Proof. unfold ret. split; [by intros [= -> ->]|by intros [-> ->]]. Qed.

Lemma create_Ok env r s u s' :
  prisma.create env r s = Ok (u, s') →
  schemaAccepts env (db s) r = true ∧ db s' = insertRow r (db s) ∧ tick s' = tick s.
Proof.
  unfold prisma.create. destruct (schemaAccepts env (db s) r); [|done].
  by intros [= <- <-].
Qed.

Lemma randomUUID_Ok env s id s' :
  prisma.randomUUID env s = Ok (id, s') → id = uuidAt env (tick s) ∧ db s' = db s.
Proof. unfold prisma.randomUUID, prisma.nextTick, bind, ret. by intros [= <- <-]. Qed.

Lemma now_Ok env s t s' :
  prisma.now env s = Ok (t, s') → t = clockAt env (tick s) ∧ db s' = db s.
Proof. unfold prisma.now, prisma.nextTick, bind, ret. by intros [= <- <-]. Qed.

Lemma query_Ok {A} (f : Store → A) s a s' :
  prisma.query f s = Ok (a, s') ↔ a = f (db s) ∧ s' = s.
Proof. unfold prisma.query. split; [by intros [= <- <-]|by intros [-> ->]]. Qed.

Lemma group_findUnique_Ok id s found s' :
  prisma.group_findUnique id s = Ok (found, s') ↔
  found = List.find (λ g, bool_decide (Group.id g = id)) (groups (db s)) ∧ s' = s.
Proof. apply query_Ok. Qed.

Lemma transaction_Ok {A} (f : Tx A) s a s' :
  f s = Ok (a, s') → transaction f s = (Ok a, s').
Proof. unfold transaction. by intros ->. Qed.

Lemma transaction_Err {A} (f : Tx A) s e :
  f s = Err e → transaction f s = (Err e, s).
Proof. unfold transaction. by intros ->. Qed.

(** *** Frame: what a computation leaves as it was *)

Lemma preserves_ret {A T} (π : Store → T) (a : A) : preserves π (ret a).
Proof. intros s b s' [_ ->]%ret_Ok. done. Qed.

Lemma preserves_bind {A B T} (π : Store → T) (m : Tx A) (k : A → Tx B) :
  preserves π m → (∀ a, preserves π (k a)) → preserves π (bind m k).
Proof.
  intros Hm Hk s b s' (a & s1 & H1 & H2)%bind_Ok.
  rewrite (Hk a s1 b s' H2). apply (Hm s a s1 H1).
Qed.

Lemma preserves_forOf {A T} (π : Store → T) (body : A → Tx unit) xs :
  (∀ x, preserves π (body x)) → preserves π (forOf xs body).
Proof.
  intros Hbody. induction xs as [|x xs IH]; simpl.
  - apply preserves_ret.
  - apply preserves_bind; [apply Hbody|done].
Qed.

Lemma preserves_forOfAcc {A B T} (π : Store → T) (body : B → A → Tx B) xs acc :
  (∀ b x, preserves π (body b x)) → preserves π (forOfAcc xs acc body).
Proof.
  intros Hbody. revert acc. induction xs as [|x xs IH]; intros acc; simpl.
  - apply preserves_ret.
  - apply preserves_bind; [apply Hbody|done].
Qed.

Lemma preserves_query {A T} (π : Store → T) (f : Store → A) : preserves π (prisma.query f).
Proof. intros s a s' [_ ->]%query_Ok. done. Qed.

Lemma preserves_nextTick {T} (π : Store → T) : preserves π prisma.nextTick.
Proof. intros s a s'. unfold prisma.nextTick. by intros [= <- <-]. Qed.

Lemma preserves_randomUUID {T} (π : Store → T) env : preserves π (prisma.randomUUID env).
Proof.
  apply preserves_bind; [apply preserves_nextTick|intros; apply preserves_ret].
Qed.

Lemma preserves_checkUrlExists {T} (π : Store → T) env url :
  preserves π (prisma.checkUrlExists env url).
Proof.
  apply preserves_bind; [apply preserves_nextTick|intros; apply preserves_ret].
Qed.

Lemma preserves_create {T} (π : Store → T) env r :
  (∀ d, π (insertRow r d) = π d) → preserves π (prisma.create env r).
Proof. intros Hπ s u s' (_ & Hdb & _)%create_Ok. by rewrite Hdb. Qed.

Lemma preserves_modify {T} (π : Store → T) f :
  (∀ d, π (f d) = π d) → preserves π (prisma.modify f).
Proof. intros Hπ s u s'. unfold prisma.modify. intros [= _ <-]. simpl. apply Hπ. Qed.

(** ** The lightweight Restore Engine, step by step *)

Lemma coreTables_eq s s' :
  coreTables s' = coreTables s ↔
  groups s' = groups s ∧ participants s' = participants s ∧ expenses s' = expenses s.
Proof. unfold coreTables. split; [by intros [= -> -> ->]|by intros (-> & -> & ->)]. Qed.

Lemma referencesLoop_Ok (participantIds : gset string) title verbose
    (paidFor : list PaidFor.t) s u s' :
  forOf paidFor (λ pf,
    if decide (PaidFor.participantId pf ∉ participantIds)
    then raise (InvalidParticipantId (PaidFor.participantId pf) title verbose)
    else ret tt) s = Ok (u, s') →
  s' = s ∧ Forall (λ pf, PaidFor.participantId pf ∈ participantIds) paidFor.
Proof.
  revert s. induction paidFor as [|pf rest IH]; intros s; simpl.
  - intros [_ ->]%ret_Ok. done.
  - intros (u1 & s1 & Hpf & Hrest)%bind_Ok.
    case_decide as Hin; [done|]. apply ret_Ok in Hpf as [_ ->].
    apply IH in Hrest as [-> Hall]. split; [done|].
    by constructor.
Qed.

Lemma preserves_categoryStep env (category : option JSONCategory.t) :
  preserves coreTables
    (match category with
     | Some c =>
         let* found := prisma.category_findFirst
                         (JSONCategory.grouping c) (JSONCategory.name c) in
         let* category :=
           match found with
           | Some category => ret category
           | None => prisma.category_create env
                       (JSONCategory.grouping c) (JSONCategory.name c)
           end in
         ret (Some (Category.id category))
     | None => ret None
     end).
Proof.
  destruct category as [c|]; [|apply preserves_ret].
  apply preserves_bind; [apply preserves_query|]. intros found.
  apply preserves_bind; [|intros; apply preserves_ret].
  destruct found; [apply preserves_ret|].
  apply preserves_bind; [apply preserves_query|]. intros nextId.
  apply preserves_bind; [|intros; apply preserves_ret].
  by apply preserves_create.
Qed.

Lemma importExpense_Ok env verbose jsonData importTime participantIds expense s u s' :
  JsonImport.importExpense env verbose jsonData importTime participantIds expense s
    = Ok (u, s') →
  validReferences participantIds expense
  ∧ groups (db s') = groups (db s)
  ∧ participants (db s') = participants (db s)
  ∧ ∃ row, expenses (db s') = (expenses (db s) ++ [row])%list
           ∧ importedFrom env (JSONImportData.id jsonData) expense row.
Proof.
  unfold JsonImport.importExpense. case_decide as Hpayer; [done|].
  intros (u1 & s1 & Hrefs & Hrun)%bind_Ok.
  apply referencesLoop_Ok in Hrefs as [-> Hrefs].
  apply bind_Ok in Hrun as (categoryId & s2 & Hcat & Hrun).
  apply preserves_categoryStep, coreTables_eq in Hcat as (Hg2 & Hp2 & He2).
  apply bind_Ok in Hrun as (expenseId & s3 & Hid & Hrun).
  apply randomUUID_Ok in Hid as [-> Hdb3].
  apply bind_Ok in Hrun as (createdAt & s4 & Hnow & Hrun).
  apply now_Ok in Hnow as [_ Hdb4].
  apply bind_Ok in Hrun as (u5 & s5 & Hcreate & Hrun).
  apply create_Ok in Hcreate as (_ & Hdb5 & _).
  assert (coreTables (db s') = coreTables (db s5)) as Hrest.
  { revert Hrun. apply preserves_bind.
    - apply preserves_forOf. intros pf. by apply preserves_create.
    - intros _. apply preserves_bind; [apply preserves_randomUUID|].
      intros activityId. by apply preserves_create. }
  apply coreTables_eq in Hrest as (Hg & Hp & He).
  rewrite Hg, Hp, He, Hdb5, Hdb4, Hdb3. simpl. rewrite Hg2, Hp2, He2.
  repeat split; try done.
  eexists. split; [reflexivity|]. unfold importedFrom. simpl.
  split; [by eexists|done].
Qed.

Lemma forOf_filter {A} (P : A → Prop) `{∀ x, Decision (P x)} (body : A → Tx unit) xs s :
  forOf xs (λ x, if decide (P x) then body x else ret tt) s = forOf (filter P xs) body s.
Proof.
  revert s. induction xs as [|x xs IH]; intros s; [done|].
  rewrite filter_cons. simpl. case_decide; simpl.
  - unfold bind. destruct (body x s) as [[u s1]|e]; [apply IH|done].
  - unfold bind, ret. apply IH.
Qed.

Lemma importLoop_Ok env verbose jsonData importTime participantIds xs s u s' :
  forOf xs (JsonImport.importExpense env verbose jsonData importTime participantIds) s
    = Ok (u, s') →
  Forall (validReferences participantIds) xs
  ∧ groups (db s') = groups (db s)
  ∧ participants (db s') = participants (db s)
  ∧ ∃ rows, expenses (db s') = (expenses (db s) ++ rows)%list
            ∧ Forall2 (importedFrom env (JSONImportData.id jsonData)) xs rows.
Proof.
  revert s. induction xs as [|x xs IH]; intros s; simpl.
  - intros [_ ->]%ret_Ok. repeat split; try done.
    exists []. by rewrite app_nil_r.
  - intros (u1 & s1 & Hx & Hrest)%bind_Ok.
    apply importExpense_Ok in Hx as (Hvalid & Hg1 & Hp1 & row & He1 & Hrow).
    apply IH in Hrest as (Hvalids & Hg & Hp & rows & He & Hrows).
    repeat split; try congruence; [by constructor|].
    exists (row :: rows). split; [|by constructor].
    rewrite He, He1, <- app_assoc. done.
Qed.

Lemma createParticipants_Ok env groupId (ps : list SnapshotParticipant.t) s u s' :
  forOf ps (λ p, prisma.create env (ParticipantRow (JsonImport.participantRow groupId p))) s
    = Ok (u, s') →
  groups (db s') = groups (db s)
  ∧ participants (db s')
    = (participants (db s) ++ (JsonImport.participantRow groupId <$> ps))%list
  ∧ expenses (db s') = expenses (db s).
Proof.
  revert s. induction ps as [|p ps IH]; intros s; simpl.
  - intros [_ ->]%ret_Ok. by rewrite app_nil_r.
  - intros (u1 & s1 & (_ & Hdb & _)%create_Ok & Hrest)%bind_Ok.
    apply IH in Hrest as (-> & -> & ->). rewrite Hdb. simpl.
    by rewrite <- app_assoc.
Qed.

Lemma recreateParticipants_Ok env groupId (ps : list SnapshotParticipant.t)
    (known known' : gset string) s s' :
  forOfAcc ps known (λ participantIds participant,
    run prisma.create env (ParticipantRow (JsonImport.participantRow groupId participant)) then
    ret ({[ SnapshotParticipant.id participant ]} ∪ participantIds)) s = Ok (known', s') →
  groups (db s') = groups (db s)
  ∧ participants (db s')
    = (participants (db s) ++ (JsonImport.participantRow groupId <$> ps))%list
  ∧ expenses (db s') = expenses (db s)
  ∧ known' = list_to_set (SnapshotParticipant.id <$> ps) ∪ known.
Proof.
  revert known s. induction ps as [|p ps IH]; intros known s; simpl.
  - intros [-> ->]%ret_Ok. rewrite app_nil_r. repeat split; try done.
    simpl. by rewrite union_empty_l_L.
  - intros (k1 & s1 & Hbody & Hrest)%bind_Ok.
    apply bind_Ok in Hbody as (u1 & s2 & (_ & Hdb & _)%create_Ok & [-> ->]%ret_Ok).
    apply IH in Hrest as (-> & -> & -> & ->). rewrite Hdb. simpl.
    rewrite <- app_assoc. repeat split; try done.
    simpl. apply set_eq. intros i. rewrite !elem_of_union. tauto.
Qed.

Lemma addParticipants_Ok env groupId (ps : list SnapshotParticipant.t)
    (known known' : gset string) s s' :
  forOfAcc ps known (λ existingParticipantIds participant,
    if decide (SnapshotParticipant.id participant ∉ existingParticipantIds)
    then
      run prisma.create env
            (ParticipantRow (JsonImport.participantRow groupId participant)) then
      ret ({[ SnapshotParticipant.id participant ]} ∪ existingParticipantIds)
    else ret existingParticipantIds) s = Ok (known', s') →
  groups (db s') = groups (db s)
  ∧ participants (db s')
    = (participants (db s)
         ++ (JsonImport.participantRow groupId <$> newParticipants known ps))%list
  ∧ expenses (db s') = expenses (db s)
  ∧ known' = list_to_set (SnapshotParticipant.id <$> ps) ∪ known.
Proof.
  revert known s. induction ps as [|p ps IH]; intros known s; simpl.
  - intros [-> ->]%ret_Ok. rewrite app_nil_r. repeat split; try done.
    simpl. by rewrite union_empty_l_L.
  - intros (k1 & s1 & Hbody & Hrest)%bind_Ok.
    case_decide as Hnew.
    + apply bind_Ok in Hbody as (u1 & s2 & (_ & Hdb & _)%create_Ok & [-> ->]%ret_Ok).
      apply IH in Hrest as (-> & -> & -> & ->). rewrite Hdb. simpl.
      rewrite <- app_assoc. repeat split; try done.
    simpl. apply set_eq. intros i. rewrite !elem_of_union. tauto.
    + apply ret_Ok in Hbody as [-> ->].
      apply IH in Hrest as (-> & -> & -> & ->). repeat split; try done.
      simpl. apply set_eq. intros i. rewrite !elem_of_union, elem_of_singleton.
      split; [tauto|]. intros [[->|?]|?]; tauto.
Qed.

Lemma preserves_markImportStart env jsonData mode importTime :
  preserves coreTables (JsonImport.markImportStart env jsonData mode importTime).
Proof.
  apply preserves_bind; [apply preserves_randomUUID|].
  intros id. by apply preserves_create.
Qed.

Lemma group_update_Ok id data s u s' :
  prisma.group_update id data s = Ok (u, s') →
  (∀ g, Group.id (data g) = Group.id g) →
  Group.id <$> groups (db s') = Group.id <$> groups (db s)
  ∧ participants (db s') = participants (db s)
  ∧ expenses (db s') = expenses (db s)
  ∧ is_Some (List.find (λ g, bool_decide (Group.id g = id)) (groups (db s))).
Proof.
  unfold prisma.group_update.
  intros (found & s1 & [-> ->]%group_findUnique_Ok & Hupd)%bind_Ok Hdata.
  destruct (List.find _ _) as [g|] eqn:Hfind; [|done].
  unfold prisma.modify in Hupd. injection Hupd as Hs. subst s'. simpl.
  repeat split; try done.
  rewrite <- list_fmap_compose. apply list_fmap_ext. intros i g' _. simpl.
  case_decide; [apply Hdata|done].
Qed.

Lemma json_create_Ok env jsonData s u s' :
  JsonImport.restoreGroupFromJSON env jsonData create s = Ok (u, s') →
  let groupId := JSONImportData.id jsonData in
  (∃ g, groups (db s') = (groups (db s) ++ [g])%list ∧ Group.id g = groupId)
  ∧ participants (db s')
    = (participants (db s)
         ++ (JsonImport.participantRow groupId <$> JSONImportData.participants jsonData))%list
  ∧ (∃ rows, expenses (db s') = (expenses (db s) ++ rows)%list
             ∧ Forall2 (importedFrom env groupId) (JSONImportData.expenses jsonData) rows)
  ∧ Forall (validReferences
              (list_to_set (SnapshotParticipant.id <$> JSONImportData.participants jsonData)))
      (JSONImportData.expenses jsonData).
Proof.
  unfold JsonImport.restoreGroupFromJSON.
  intros (importTime & s1 & [_ Hdb1]%now_Ok & Hrun)%bind_Ok.
  apply bind_Ok in Hrun as (createdAt & s2 & [_ Hdb2]%now_Ok & Hrun).
  apply bind_Ok in Hrun as (u3 & s3 & (_ & Hdb3 & _)%create_Ok & Hrun).
  apply bind_Ok in Hrun as (u4 & s4 & (Hg4 & Hp4 & He4)%createParticipants_Ok & Hrun).
  apply bind_Ok in Hrun as (u5 & s5 & Hmark & Hrun).
  apply preserves_markImportStart, coreTables_eq in Hmark as (Hg5 & Hp5 & He5).
  apply importLoop_Ok in Hrun as (Hvalid & Hg & Hp & rows & He & Hrows).
  rewrite Hg, Hp, He, Hg5, Hp5, He5, Hg4, Hp4, He4, Hdb3, Hdb2, Hdb1. simpl.
  repeat split; try done; by eexists.
Qed.

Lemma json_update_Ok env jsonData s u s' :
  JsonImport.restoreGroupFromJSON env jsonData update s = Ok (u, s') →
  let groupId := JSONImportData.id jsonData in
  Group.id <$> groups (db s') = Group.id <$> groups (db s)
  ∧ is_Some (List.find (λ g, bool_decide (Group.id g = groupId)) (groups (db s)))
  ∧ participants (db s')
    = (participants (db s)
         ++ (JsonImport.participantRow groupId
               <$> jsonParticipantsToWrite update jsonData (db s)))%list
  ∧ (∃ rows, expenses (db s') = (expenses (db s) ++ rows)%list
             ∧ Forall2 (importedFrom env groupId)
                 (jsonExpensesToWrite update jsonData (db s)) rows)
  ∧ Forall (validReferences
              (list_to_set (SnapshotParticipant.id <$> JSONImportData.participants jsonData)
                 ∪ storedParticipantIds groupId (db s)))
      (jsonExpensesToWrite update jsonData (db s)).
Proof.
  unfold JsonImport.restoreGroupFromJSON.
  intros (importTime & s1 & [_ Hdb1]%now_Ok & Hrun)%bind_Ok.
  apply bind_Ok in Hrun as (existingGroup & s2 & [-> ->]%group_findUnique_Ok & Hrun).
  apply bind_Ok in Hrun as (existingParticipants & s2 & [-> ->]%query_Ok & Hrun).
  apply bind_Ok in Hrun as (existingExpenses & s2 & [-> ->]%query_Ok & Hrun).
  rewrite Hdb1 in Hrun.
  destruct (List.find _ (groups (db s))) as [g|] eqn:Hfind; [|done].
  apply bind_Ok in Hrun as (u3 & s3 & Hmark & Hrun).
  apply preserves_markImportStart, coreTables_eq in Hmark as (Hg3 & Hp3 & He3).
  apply bind_Ok in Hrun as (u4 & s4 & Hupd & Hrun).
  apply group_update_Ok in Hupd as (Hg4 & Hp4 & He4 & _); [|done].
  apply bind_Ok in Hrun as (known & s5 & (Hg5 & Hp5 & He5 & ->)%addParticipants_Ok & Hrun).
  rewrite forOf_filter in Hrun.
  apply importLoop_Ok in Hrun as (Hvalid & Hg & Hp & rows & He & Hrows).
  rewrite Hg, Hp, He, Hg5, Hp5, He5, Hg4, Hp4, He4, Hg3, Hp3, He3, Hdb1.
  repeat split; try done; by eexists.
Qed.

Lemma modify_Ok f s u s' : prisma.modify f s = Ok (u, s') → db s' = f (db s).
Proof. unfold prisma.modify. intros Hs. injection Hs as Hs. by subst s'. Qed.

Lemma json_rollback_Ok env jsonData s u s' :
  JsonImport.restoreGroupFromJSON env jsonData rollback s = Ok (u, s') →
  let groupId := JSONImportData.id jsonData in
  Group.id <$> groups (db s') = Group.id <$> groups (db s)
  ∧ is_Some (List.find (λ g, bool_decide (Group.id g = groupId)) (groups (db s)))
  ∧ participants (db s')
    = (survivingParticipants rollback groupId (db s)
         ++ (JsonImport.participantRow groupId <$> JSONImportData.participants jsonData))%list
  ∧ (∃ rows, expenses (db s') = (survivingExpenses rollback groupId (db s) ++ rows)%list
             ∧ Forall2 (importedFrom env groupId) (JSONImportData.expenses jsonData) rows)
  ∧ Forall (validReferences
              (list_to_set (SnapshotParticipant.id <$> JSONImportData.participants jsonData)))
      (JSONImportData.expenses jsonData).
Proof.
  unfold JsonImport.restoreGroupFromJSON.
  intros (importTime & s1 & [_ Hdb1]%now_Ok & Hrun)%bind_Ok.
  apply bind_Ok in Hrun as (u2 & s2 & Hdb2%modify_Ok & Hrun).
  apply bind_Ok in Hrun as (u3 & s3 & Hdb3%modify_Ok & Hrun).
  apply bind_Ok in Hrun as (u4 & s4 & Hdb4%modify_Ok & Hrun).
  apply bind_Ok in Hrun as (u5 & s5 & Hdb5%modify_Ok & Hrun).
  apply bind_Ok in Hrun as (u6 & s6 & Hupd & Hrun).
  apply group_update_Ok in Hupd as (Hg6 & Hp6 & He6 & Hfound); [|done].
  apply bind_Ok in Hrun as (u7 & s7 & Hmark & Hrun).
  apply preserves_markImportStart, coreTables_eq in Hmark as (Hg7 & Hp7 & He7).
  apply bind_Ok in Hrun as (known & s8 & (Hg8 & Hp8 & He8 & ->)%recreateParticipants_Ok & Hrun).
  apply importLoop_Ok in Hrun as (Hvalid & Hg & Hp & rows & He & Hrows).
  rewrite Hdb5, Hdb4, Hdb3, Hdb2, Hdb1 in Hfound. simpl in Hfound.
  rewrite Hg, Hp, He, Hg8, Hp8, He8, Hg7, Hp7, He7, Hg6, Hp6, He6,
    Hdb5, Hdb4, Hdb3, Hdb2, Hdb1. simpl.
  rewrite union_empty_r_L in Hvalid.
  repeat split; try done; by eexists.
Qed.

(** ** The full-backup Restore Engine, step by step *)

Lemma castSplitMode_Ok value s m s' :
  Backup.castSplitMode value s = Ok (m, s') → s' = s.
Proof.
  unfold Backup.castSplitMode.
  repeat case_decide; try done; by intros [_ ->]%ret_Ok.
Qed.

Lemma castRecurrenceRule_Ok value s r s' :
  Backup.castRecurrenceRule value s = Ok (r, s') → s' = s.
Proof.
  unfold Backup.castRecurrenceRule. destruct value as [v|].
  - repeat case_decide; try done; by intros [_ ->]%ret_Ok.
  - by intros [_ ->]%ret_Ok.
Qed.

Lemma decimalOrNull_Ok value s rate s' :
  Backup.decimalOrNull value s = Ok (rate, s') →
  rate = truthy value ∧ s' = s
  ∧ ∀ text, truthy value = Some text → Decimal.accepts text = true.
Proof.
  unfold Backup.decimalOrNull, Backup.newDecimal.
  destruct (truthy value) as [text|]; [|by intros [-> ->]%ret_Ok].
  unfold bind. destruct (Decimal.accepts text) eqn:Haccepts; [|done].
  intros [-> ->]%ret_Ok. repeat split. by intros ? [= <-].
Qed.

Lemma castActivityType_Ok env value s activityType s' :
  Backup.castActivityType env value s = Ok (activityType, s') →
  activityType = value ∧ s' = s ∧ isActivityType env value = true.
Proof.
  unfold Backup.castActivityType.
  destruct (isActivityType env value); [|done]. by intros [-> ->]%ret_Ok.
Qed.

Lemma preserves_expenseDocument_upsert env doc :
  preserves coreTables (prisma.expenseDocument_upsert env doc).
Proof.
  apply preserves_bind; [apply preserves_query|].
  intros [|]; [by apply preserves_modify|by apply preserves_create].
Qed.

Lemma forOfAcc_filter {A B} (P : A → Prop) `{∀ x, Decision (P x)}
    (body : B → A → Tx B) xs acc s :
  forOfAcc xs acc (λ a x, if decide (P x) then body a x else ret a) s
  = forOfAcc (filter P xs) acc body s.
Proof.
  revert acc s. induction xs as [|x xs IH]; intros acc s; [done|].
  rewrite filter_cons. simpl. case_decide; simpl.
  - unfold bind. destruct (body acc x s) as [[a s1]|e]; [apply IH|done].
  - unfold bind, ret. apply IH.
Qed.

Lemma createExpense_Ok env groupId expense warnings s warnings' s' :
  Backup.createExpense env groupId expense warnings s = Ok (warnings', s') →
  groups (db s') = groups (db s)
  ∧ participants (db s') = participants (db s)
  ∧ ∃ row, expenses (db s') = (expenses (db s) ++ [row])%list
           ∧ restoredFrom groupId expense row.
Proof.
  unfold Backup.createExpense.
  intros (rate & s0 & (_ & -> & _)%decimalOrNull_Ok & Hrun)%bind_Ok.
  apply bind_Ok in Hrun as (splitMode & s1 & ->%castSplitMode_Ok & Hrun).
  apply bind_Ok in Hrun as (recurrenceRule & s2 & ->%castRecurrenceRule_Ok & Hrun).
  apply bind_Ok in Hrun as (u3 & s3 & (_ & Hdb3 & _)%create_Ok & Hrun).
  assert (coreTables (db s') = coreTables (db s3)) as Hrest.
  { revert Hrun. apply preserves_bind.
    - apply preserves_forOf. intros pf. by apply preserves_create.
    - intros _. apply preserves_forOfAcc. intros w doc.
      apply preserves_bind; [apply preserves_checkUrlExists|].
      intros [|]; [|apply preserves_ret].
      apply preserves_bind; [apply preserves_expenseDocument_upsert|].
      intros _. apply preserves_ret. }
  apply coreTables_eq in Hrest as (Hg & Hp & He).
  rewrite Hg, Hp, He, Hdb3. simpl. repeat split; try done.
  eexists. split; [reflexivity|]. by unfold restoredFrom.
Qed.

Lemma preserves_createRecurringExpenseLink env groupId expense :
  preserves coreTables (Backup.createRecurringExpenseLink env groupId expense).
Proof.
  unfold Backup.createRecurringExpenseLink.
  destruct (BackupExpense.recurringExpenseLink expense);
    [by apply preserves_create|apply preserves_ret].
Qed.

Lemma restoreExpenses_Ok env groupId xs warnings s warnings' s' :
  forOfAcc xs warnings (λ warnings expense,
    let* warnings := Backup.createExpense env groupId expense warnings in
    run Backup.createRecurringExpenseLink env groupId expense then
    ret warnings) s = Ok (warnings', s') →
  groups (db s') = groups (db s)
  ∧ participants (db s') = participants (db s)
  ∧ ∃ rows, expenses (db s') = (expenses (db s) ++ rows)%list
            ∧ Forall2 (restoredFrom groupId) xs rows.
Proof.
  revert warnings s. induction xs as [|x xs IH]; intros warnings s; simpl.
  - intros [_ ->]%ret_Ok. repeat split; try done. exists []. by rewrite app_nil_r.
  - intros (w1 & s1 & Hbody & Hrest)%bind_Ok.
    apply bind_Ok in Hbody as (w2 & s2 & (Hg2 & Hp2 & row & He2 & Hrow)%createExpense_Ok
                                 & Hbody).
    apply bind_Ok in Hbody as (u3 & s3 & Hlink & [_ ->]%ret_Ok).
    apply preserves_createRecurringExpenseLink, coreTables_eq in Hlink as (Hg3 & Hp3 & He3).
    apply IH in Hrest as (Hg & Hp & rows & He & Hrows).
    repeat split; try congruence.
    exists (row :: rows). split; [|by constructor].
    rewrite He, He3, He2, <- app_assoc. done.
Qed.

Lemma addExpenses_Ok env groupId xs warnings s warnings' s' :
  forOfAcc xs warnings (λ warnings expense,
    Backup.createExpense env groupId expense warnings) s = Ok (warnings', s') →
  groups (db s') = groups (db s)
  ∧ participants (db s') = participants (db s)
  ∧ ∃ rows, expenses (db s') = (expenses (db s) ++ rows)%list
            ∧ Forall2 (restoredFrom groupId) xs rows.
Proof.
  revert warnings s. induction xs as [|x xs IH]; intros warnings s; simpl.
  - intros [_ ->]%ret_Ok. repeat split; try done. exists []. by rewrite app_nil_r.
  - intros (w1 & s1 & (Hg1 & Hp1 & row & He1 & Hrow)%createExpense_Ok & Hrest)%bind_Ok.
    apply IH in Hrest as (Hg & Hp & rows & He & Hrows).
    repeat split; try congruence.
    exists (row :: rows). split; [|by constructor].
    rewrite He, He1, <- app_assoc. done.
Qed.

Lemma preserves_restoreActivities env groupId (activities : list BackupActivity.t) :
  preserves coreTables
    (forOf activities (λ activity,
       let* activityType :=
         Backup.castActivityType env (BackupActivity.activityType activity) in
       prisma.create env (ActivityRow
         (Activity.mk (BackupActivity.id activity) groupId
            (BackupActivity.time activity) activityType
            (BackupActivity.participantId activity)
            (BackupActivity.expenseId activity) (BackupActivity.data activity))))).
Proof.
  apply preserves_forOf. intros activity.
  apply preserves_bind; [|intros; by apply preserves_create].
  by intros s t s' (_ & -> & _)%castActivityType_Ok.
Qed.

Lemma backup_restore_Ok env backupData mode s result s' :
  Backup.restoreGroupFromBackup env backupData mode s = Ok (result, s') →
  let groupId := BackupGroup.id (BackupData.group backupData) in
  match mode with
  | create => ∃ g, groups (db s') = (groups (db s) ++ [g])%list ∧ Group.id g = groupId
  | update => groups (db s') = groups (db s)
  | rollback =>
      Group.id <$> groups (db s') = Group.id <$> groups (db s)
      ∧ is_Some (List.find (λ g, bool_decide (Group.id g = groupId)) (groups (db s)))
  end
  ∧ participants (db s')
    = (survivingParticipants mode groupId (db s)
         ++ (Backup.participantRow groupId
               <$> backupParticipantsToWrite mode backupData (db s)))%list
  ∧ ∃ rows, expenses (db s') = (survivingExpenses mode groupId (db s) ++ rows)%list
            ∧ Forall2 (restoredFrom groupId)
                (backupExpensesToWrite mode backupData (db s)) rows.
Proof.
  unfold Backup.restoreGroupFromBackup. destruct mode.
  - intros (u1 & s1 & (_ & Hdb1 & _)%create_Ok & Hrun)%bind_Ok.
    apply bind_Ok in Hrun as (u2 & s2 & (Hg2 & Hp2 & He2)%createParticipants_Ok & Hrun).
    apply bind_Ok in Hrun as (w3 & s3 & (Hg3 & Hp3 & rows & He3 & Hrows)%restoreExpenses_Ok
                                & Hrun).
    apply bind_Ok in Hrun as (u4 & s4 & Hact & [_ ->]%ret_Ok).
    apply preserves_restoreActivities, coreTables_eq in Hact as (Hg4 & Hp4 & He4).
    rewrite Hg4, Hp4, He4, Hg3, Hp3, He3, Hg2, Hp2, He2, Hdb1. simpl.
    repeat split; try done; by eexists.
  - intros (u1 & s1 & [_ ->]%ret_Ok & Hrun)%bind_Ok.
    apply bind_Ok in Hrun as (u2 & s2 & Hps & Hrun).
    apply bind_Ok in Hps as (existingParticipants & s2' & [-> ->]%query_Ok & Hps).
    rewrite forOf_filter in Hps.
    apply createParticipants_Ok in Hps as (Hg2 & Hp2 & He2).
    apply bind_Ok in Hrun as (w3 & s3 & Hes & Hrun).
    apply bind_Ok in Hes as (existingExpenses & s3' & [-> ->]%query_Ok & Hes).
    rewrite forOfAcc_filter in Hes.
    apply addExpenses_Ok in Hes as (Hg3 & Hp3 & rows & He3 & Hrows).
    apply bind_Ok in Hrun as (u4 & s4 & [_ ->]%ret_Ok & [_ ->]%ret_Ok).
    rewrite Hg3, Hp3, He3, Hg2, Hp2, He2. simpl.
    repeat split; try done.
    exists rows. split; [done|].
    unfold backupExpensesToWrite, storedExpenseIds, prisma.expensesOf in *.
    by rewrite <- He2.
  - intros (u1 & s1 & Hdel & Hrun)%bind_Ok.
    apply bind_Ok in Hdel as (u11 & s11 & Hdb11%modify_Ok & Hdel).
    apply bind_Ok in Hdel as (u12 & s12 & Hdb12%modify_Ok & Hdel).
    apply bind_Ok in Hdel as (u13 & s13 & Hdb13%modify_Ok & Hupd).
    apply group_update_Ok in Hupd as (Hg1 & Hp1 & He1 & Hfound); [|done].
    apply bind_Ok in Hrun as (u2 & s2 & (Hg2 & Hp2 & He2)%createParticipants_Ok & Hrun).
    apply bind_Ok in Hrun as (w3 & s3 & (Hg3 & Hp3 & rows & He3 & Hrows)%restoreExpenses_Ok
                                & Hrun).
    apply bind_Ok in Hrun as (u4 & s4 & Hact & [_ ->]%ret_Ok).
    apply preserves_restoreActivities, coreTables_eq in Hact as (Hg4 & Hp4 & He4).
    rewrite Hdb13, Hdb12, Hdb11 in Hfound. simpl in Hfound.
    rewrite Hg4, Hp4, He4, Hg3, Hp3, He3, Hg2, Hp2, He2, Hg1, Hp1, He1,
      Hdb13, Hdb12, Hdb11. simpl.
    repeat split; try done; by eexists.
Qed.

(** ** Update mode a second time *)

Lemma Forall2_elem_of_l {A B} (R : A → B → Prop) xs ys x :
  Forall2 R xs ys → x ∈ xs → ∃ y, y ∈ ys ∧ R x y.
Proof.
  induction 1 as [|x' y' xs ys Hxy _ IH]; intros Hx; [by apply elem_of_nil in Hx|].
  apply elem_of_cons in Hx as [->|Hx].
  - exists y'. split; [apply elem_of_cons; by left|done].
  - destruct (IH Hx) as (y & Hy & HR). exists y. split; [apply elem_of_cons; by right|done].
Qed.

Lemma filter_none {A} (P : A → Prop) `{∀ x, Decision (P x)} (l : list A) :
  (∀ x, x ∈ l → ¬ P x) → filter P l = [].
Proof.
  induction l as [|x l IH]; intros Hnone; [done|].
  rewrite filter_cons, decide_False by (apply Hnone, elem_of_cons; by left).
  apply IH. intros y Hy. apply Hnone, elem_of_cons. by right.
Qed.

Lemma newParticipants_none known ps :
  (∀ p, p ∈ ps → SnapshotParticipant.id p ∈ known) → newParticipants known ps = [].
Proof.
  revert known. induction ps as [|p ps IH]; intros known Hall; [done|].
  simpl. rewrite decide_False.
  - apply IH. intros q Hq. apply Hall, elem_of_cons. by right.
  - intros Hnot. apply Hnot, Hall, elem_of_cons. by left.
Qed.

Lemma newParticipants_covers known ps p :
  p ∈ ps →
  SnapshotParticipant.id p ∈ known
  ∨ ∃ q, q ∈ newParticipants known ps ∧ SnapshotParticipant.id q = SnapshotParticipant.id p.
Proof.
  revert known. induction ps as [|p' ps IH]; intros known Hp; [by apply elem_of_nil in Hp|].
  simpl. apply elem_of_cons in Hp as [->|Hp].
  - case_decide as Hnew; [|by left].
    right. exists p'. split; [apply elem_of_cons; by left|done].
  - case_decide as Hnew.
    + destruct (IH ({[SnapshotParticipant.id p']} ∪ known) Hp) as [Hin|(q & Hq & Hid)].
      * apply elem_of_union in Hin as [->%elem_of_singleton|Hin]; [|by left].
        right. exists p'. split; [apply elem_of_cons; by left|done].
      * right. exists q. split; [apply elem_of_cons; by right|done].
    + destruct (IH known Hp) as [Hin|(q & Hq & Hid)]; [by left|].
      right. by exists q.
Qed.

(** After an update of the lightweight format has returned, every
    participant of the snapshot is a stored participant of the group and
    every expense key of the snapshot is the key of a stored expense of the
    group. *)
Lemma json_update_covers env jsonData s u s' :
  JsonImport.restoreGroupFromJSON env jsonData update s = Ok (u, s') →
  (∀ p, p ∈ JSONImportData.participants jsonData →
        SnapshotParticipant.id p ∈ storedParticipantIds (JSONImportData.id jsonData) (db s'))
  ∧ (∀ e, e ∈ JSONImportData.expenses jsonData →
          JsonImport.expenseKey (JSONExpense.expenseDate e) (JSONExpense.title e)
          ∈ storedExpenseKeys (JSONImportData.id jsonData) (db s')).
Proof.
  intros (_ & _ & Hp & (rows & He & Hrows) & _)%json_update_Ok.
  set (groupId := JSONImportData.id jsonData) in *. split.
  - intros p Hin. unfold storedParticipantIds, prisma.participantsOf.
    rewrite Hp, filter_app, fmap_app, list_to_set_app, elem_of_union.
    destruct (newParticipants_covers (storedParticipantIds groupId (db s)) _ p Hin)
      as [Hknown|(q & Hq & Hid)]; [by left|right].
    rewrite elem_of_list_to_set, list_elem_of_fmap.
    exists (JsonImport.participantRow groupId q). split; [done|].
    apply list_elem_of_filter. split; [done|].
    apply list_elem_of_fmap. by exists q.
  - intros e Hin. unfold storedExpenseKeys, prisma.expensesOf.
    rewrite He, filter_app, fmap_app, list_to_set_app, elem_of_union.
    destruct (decide (JsonImport.expenseKey (JSONExpense.expenseDate e) (JSONExpense.title e)
                      ∈ storedExpenseKeys groupId (db s))) as [Hknown|Hnew]; [by left|right].
    assert (e ∈ jsonExpensesToWrite update jsonData (db s)) as Hwrite
      by (apply list_elem_of_filter; done).
    destruct (Forall2_elem_of_l _ _ _ _ Hrows Hwrite)
      as (row & Hrow & _ & Hgid & Hdate & Htitle & _).
    rewrite elem_of_list_to_set, list_elem_of_fmap.
    exists row. split; [by rewrite Hdate, Htitle|].
    apply list_elem_of_filter. done.
Qed.

Lemma json_update_again env1 env2 jsonData s u s1 tick2 :
  JsonImport.restoreGroupFromJSON env1 jsonData update s = Ok (u, s1) →
  let s2 := (transaction (JsonImport.restoreGroupFromJSON env2 jsonData update)
               (mkTx (db s1) tick2)).2 in
  expenses (db s2) = expenses (db s1) ∧ participants (db s2) = participants (db s1).
Proof.
  intros [Hps Hes]%json_update_covers. unfold transaction.
  destruct (JsonImport.restoreGroupFromJSON env2 jsonData update (mkTx (db s1) tick2))
    as [[u2 s2]|e] eqn:Hrun2; simpl; [|done].
  apply json_update_Ok in Hrun2 as (_ & _ & Hp & (rows & He & Hrows) & _).
  simpl in *.
  unfold jsonParticipantsToWrite in Hp. rewrite newParticipants_none in Hp by done.
  unfold jsonExpensesToWrite in Hrows. rewrite filter_none in Hrows.
  - apply Forall2_nil_inv_l in Hrows as ->. by rewrite He, Hp, !app_nil_r.
  - intros e He' Hnot. by apply Hnot, Hes.
Qed.

(** The same for the full-backup format, on identifiers. *)
Lemma backup_update_covers env backupData s result s' :
  Backup.restoreGroupFromBackup env backupData update s = Ok (result, s') →
  let groupId := BackupGroup.id (BackupData.group backupData) in
  (∀ p, p ∈ BackupData.participants backupData →
        SnapshotParticipant.id p ∈ storedParticipantIds groupId (db s'))
  ∧ (∀ e, e ∈ BackupData.expenses backupData →
          BackupExpense.id e ∈ storedExpenseIds groupId (db s')).
Proof.
  intros (_ & Hp & rows & He & Hrows)%backup_restore_Ok.
  set (groupId := BackupGroup.id (BackupData.group backupData)) in *. simpl in *. split.
  - intros p Hin. unfold storedParticipantIds, prisma.participantsOf.
    rewrite Hp, filter_app, fmap_app, list_to_set_app, elem_of_union.
    destruct (decide (SnapshotParticipant.id p ∈ storedParticipantIds groupId (db s)))
      as [Hknown|Hnew]; [by left|right].
    rewrite elem_of_list_to_set, list_elem_of_fmap.
    exists (Backup.participantRow groupId p). split; [done|].
    apply list_elem_of_filter. split; [done|].
    apply list_elem_of_fmap. exists p. split; [done|].
    apply list_elem_of_filter. done.
  - intros e Hin. unfold storedExpenseIds, prisma.expensesOf.
    rewrite He, filter_app, fmap_app, list_to_set_app, elem_of_union.
    destruct (decide (BackupExpense.id e ∈ storedExpenseIds groupId (db s)))
      as [Hknown|Hnew]; [by left|right].
    assert (e ∈ backupExpensesToWrite update backupData (db s)) as Hwrite
      by (apply list_elem_of_filter; done).
    destruct (Forall2_elem_of_l _ _ _ _ Hrows Hwrite) as (row & Hrow & Hid & Hgid & _).
    rewrite elem_of_list_to_set, list_elem_of_fmap.
    exists row. split; [done|].
    apply list_elem_of_filter. done.
Qed.

Lemma backup_update_again env1 env2 backupData s result s1 tick2 :
  Backup.restoreGroupFromBackup env1 backupData update s = Ok (result, s1) →
  let s2 := (transaction (Backup.restoreGroupFromBackup env2 backupData update)
               (mkTx (db s1) tick2)).2 in
  expenses (db s2) = expenses (db s1) ∧ participants (db s2) = participants (db s1).
Proof.
  intros [Hps Hes]%backup_update_covers. unfold transaction.
  destruct (Backup.restoreGroupFromBackup env2 backupData update (mkTx (db s1) tick2))
    as [[r2 s2]|e] eqn:Hrun2; simpl; [|done].
  apply backup_restore_Ok in Hrun2 as (_ & Hp & rows & He & Hrows).
  simpl in *.
  unfold backupParticipantsToWrite in Hp. rewrite filter_none in Hp.
  - unfold backupExpensesToWrite in Hrows. rewrite filter_none in Hrows.
    + apply Forall2_nil_inv_l in Hrows as ->. by rewrite He, Hp, !app_nil_r.
    + intros e He' Hnot. by apply Hnot, Hes.
  - intros p Hp' Hnot. by apply Hnot, Hps.
Qed.

(** The three modes of the lightweight Restore Engine together. *)
Lemma json_restore_Ok env jsonData mode s u s' :
  JsonImport.restoreGroupFromJSON env jsonData mode s = Ok (u, s') →
  ∃ es,
    participants (db s')
    = (survivingParticipants mode (JSONImportData.id jsonData) (db s)
         ++ (JsonImport.participantRow (JSONImportData.id jsonData)
               <$> jsonParticipantsToWrite mode jsonData (db s)))%list
    ∧ expenses (db s')
      = (survivingExpenses mode (JSONImportData.id jsonData) (db s) ++ es)%list
    ∧ Forall2 (importedFrom env (JSONImportData.id jsonData))
        (jsonExpensesToWrite mode jsonData (db s)) es
    ∧ if decide (mode = create)
      then ∃ g, groups (db s') = (groups (db s) ++ [g])%list
                ∧ Group.id g = JSONImportData.id jsonData
      else Group.id <$> groups (db s') = Group.id <$> groups (db s).
Proof.
  intros Hrun. destruct mode.
  - apply json_create_Ok in Hrun as (Hg & Hp & (rows & He & Hrows) & _).
    by exists rows.
  - apply json_update_Ok in Hrun as (Hg & _ & Hp & (rows & He & Hrows) & _).
    by exists rows.
  - apply json_rollback_Ok in Hrun as (Hg & _ & Hp & (rows & He & Hrows) & _).
    by exists rows.
Qed.

(** ** Identifiers written by a restore *)

(** A full-backup update of [tripBackup] over a group that has the expense
    [e1] adds the expense [e2] under its backup identifier, which is no
    output of [randomUUID]; a JSON create of [trip] writes its three expenses
    under identifiers drawn from [randomUUID], none of which occurs in the
    snapshot. *)
Lemma update_keeps_identifiers_create_synthesizes :
  (Backup.restoreGroupFromBackup Examples.env Examples.tripBackup update
     (mkTx Examples.liveStore 0)
   = Ok (Backup.RestoreResult.mk true [], Examples.afterBackupUpdate)
   ∧ Expense.id <$> expenses Examples.liveStore = ["e1"]
   ∧ Expense.id <$> expenses (db Examples.afterBackupUpdate) = ["e1"; "e2"]
   ∧ ∀ n, uuidAt Examples.env n ≠ "e2")
  ∧ (JsonImport.restoreGroupFromJSON Examples.env Examples.trip create (mkTx emptyStore 0)
     = Ok (tt, Examples.afterJsonCreate)
     ∧ Expense.id <$> expenses (db Examples.afterJsonCreate)
       = [uuidAt Examples.env 3; uuidAt Examples.env 6; uuidAt Examples.env 9]
     ∧ Expense.id <$> expenses (db Examples.afterJsonCreate)
       = ["uuid-3"; "uuid-6"; "uuid-9"]).
Proof.
  split; [split; [|split; [|split]]|split; [|split]]; try (vm_compute; reflexivity).
  intros n Heq. simpl in Heq. discriminate Heq.
Qed.

(** C5 (amended). Whenever a restore returns, in every mode: the
    Participant rows it has added carry the identifiers of the snapshot
    participants it writes (all of them in create and rollback mode, the ones
    not yet stored in update mode); a create has added one Group row, under
    the snapshot's group identifier, and update and rollback keep the stored
    Group identifiers; the Expense rows a full-backup restore has added carry
    the backup's expense identifiers, also in update mode; the Expense rows a
    lightweight restore has added, one per snapshot expense it writes, carry
    identifiers drawn from [randomUUID], also in create and rollback mode. *)
Theorem restore_identifiers (env : Env) :
  (∀ backupData mode s result s',
     Backup.restoreGroupFromBackup env backupData mode s = Ok (result, s') →
     let groupId := BackupGroup.id (BackupData.group backupData) in
     ∃ ps es,
       participants (db s') = (survivingParticipants mode groupId (db s) ++ ps)%list
       ∧ Participant.id <$> ps
         = SnapshotParticipant.id <$> backupParticipantsToWrite mode backupData (db s)
       ∧ expenses (db s') = (survivingExpenses mode groupId (db s) ++ es)%list
       ∧ Expense.id <$> es = BackupExpense.id <$> backupExpensesToWrite mode backupData (db s)
       ∧ Forall2 (restoredFrom groupId) (backupExpensesToWrite mode backupData (db s)) es
       ∧ if decide (mode = create)
         then ∃ g, groups (db s') = (groups (db s) ++ [g])%list ∧ Group.id g = groupId
         else Group.id <$> groups (db s') = Group.id <$> groups (db s))
  ∧ (∀ jsonData mode s u s',
       JsonImport.restoreGroupFromJSON env jsonData mode s = Ok (u, s') →
       let groupId := JSONImportData.id jsonData in
       ∃ ps es,
         participants (db s') = (survivingParticipants mode groupId (db s) ++ ps)%list
         ∧ Participant.id <$> ps
           = SnapshotParticipant.id <$> jsonParticipantsToWrite mode jsonData (db s)
         ∧ expenses (db s') = (survivingExpenses mode groupId (db s) ++ es)%list
         ∧ Forall (λ row, ∃ n, Expense.id row = uuidAt env n) es
         ∧ Forall2 (importedFrom env groupId) (jsonExpensesToWrite mode jsonData (db s)) es
         ∧ if decide (mode = create)
           then ∃ g, groups (db s') = (groups (db s) ++ [g])%list ∧ Group.id g = groupId
           else Group.id <$> groups (db s') = Group.id <$> groups (db s)).
Proof.
  split.
  - intros backupData mode s result s' (Hg & Hp & rows & He & Hrows)%backup_restore_Ok.
    simpl in *.
    exists (Backup.participantRow (BackupGroup.id (BackupData.group backupData))
              <$> backupParticipantsToWrite mode backupData (db s)), rows.
    repeat split; try done.
    + rewrite <- list_fmap_compose. done.
    + clear He. induction Hrows as [|x row xs rows Hx _ IH]; [done|].
      rewrite !fmap_cons, IH. f_equal. apply Hx.
    + destruct mode; simpl; [done|by rewrite Hg|apply Hg].
  - intros jsonData mode s u s' (es & Hp & He & Hrows & Hg)%json_restore_Ok.
    simpl.
    exists (JsonImport.participantRow (JSONImportData.id jsonData)
              <$> jsonParticipantsToWrite mode jsonData (db s)), es.
    repeat split; try done.
    + rewrite <- list_fmap_compose. done.
    + eapply Forall2_Forall_r; [exact Hrows|].
      apply Forall_forall. intros x _ row Hrow. apply Hrow.
Qed.

Lemma restore_identifiers_witness :
  Expense.id <$> expenses (db Examples.afterBackupUpdate) = ["e1"; "e2"]
  ∧ Participant.id <$> participants (db Examples.afterBackupUpdate) = ["p1"; "p2"].
Proof.
  destruct (proj1 (restore_identifiers Examples.env) Examples.tripBackup update
              (mkTx Examples.liveStore 0) (Backup.RestoreResult.mk true [])
              Examples.afterBackupUpdate)
    as (ps & es & Hp & Hpid & He & Heid & _).
  - vm_compute. reflexivity.
  - rewrite He, Hp, !fmap_app, Heid, Hpid. split; vm_compute; reflexivity.
Defined.

(** ** Errors of the lightweight Restore Engine *)

Lemma throws_ret {A} (a : A) E : throws (ret a) E.
Proof. intros s e. done. Qed.

Lemma throws_raise {A} e (E : Error → Prop) : E e → throws (raise e : Tx A) E.
Proof. intros He s e'. unfold raise. by intros [= <-]. Qed.

Lemma throws_bind {A B} (m : Tx A) (k : A → Tx B) E :
  throws m E → (∀ a, throws (k a) E) → throws (bind m k) E.
Proof.
  intros Hm Hk s e [Herr|(a & s1 & _ & Herr)]%bind_Err; [by apply (Hm s)|by apply (Hk a s1)].
Qed.

Lemma throws_weaken {A} (m : Tx A) (E E' : Error → Prop) :
  throws m E → (∀ e, E e → E' e) → throws m E'.
Proof. intros Hm HE s e Herr. by apply HE, (Hm s). Qed.

Lemma throws_forOf {A} (body : A → Tx unit) xs E :
  (∀ x, x ∈ xs → throws (body x) E) → throws (forOf xs body) E.
Proof.
  induction xs as [|x xs IH]; intros Hbody; simpl; [apply throws_ret|].
  apply throws_bind; [apply Hbody, elem_of_cons; by left|].
  intros _. apply IH. intros y Hy. apply Hbody, elem_of_cons. by right.
Qed.

Lemma throws_forOfAcc {A B} (body : B → A → Tx B) xs acc E :
  (∀ b x, x ∈ xs → throws (body b x) E) → throws (forOfAcc xs acc body) E.
Proof.
  revert acc. induction xs as [|x xs IH]; intros acc Hbody; simpl; [apply throws_ret|].
  apply throws_bind; [apply Hbody, elem_of_cons; by left|].
  intros acc'. apply IH. intros b y Hy. apply Hbody, elem_of_cons. by right.
Qed.

Lemma throws_nothing_query {A} (f : Store → A) E : throws (prisma.query f) E.
Proof. intros s e. done. Qed.

Lemma throws_nothing_modify f E : throws (prisma.modify f) E.
Proof. intros s e. done. Qed.

Lemma throws_nothing_randomUUID env E : throws (prisma.randomUUID env) E.
Proof. intros s e. done. Qed.

Lemma throws_nothing_now env E : throws (prisma.now env) E.
Proof. intros s e. done. Qed.

Lemma throws_create env r (E : Error → Prop) :
  (¬ unconstrained env → E (ConstraintViolation (Row_table r))) →
  throws (prisma.create env r) E.
Proof.
  intros HE s e. unfold prisma.create.
  destruct (schemaAccepts env (db s) r) eqn:Haccepts; [done|]. intros [= <-].
  apply HE. intros Hall. by rewrite Hall in Haccepts.
Qed.

Lemma throws_group_update id data (E : Error → Prop) :
  E RecordToUpdateNotFound → throws (prisma.group_update id data) E.
Proof.
  intros HE. apply throws_bind; [apply throws_nothing_query|].
  intros [g|]; [apply throws_nothing_modify|by apply throws_raise].
Qed.

Lemma throws_markImportStart env jsonData mode importTime (E : Error → Prop) :
  (∀ table, ¬ unconstrained env → E (ConstraintViolation table)) →
  throws (JsonImport.markImportStart env jsonData mode importTime) E.
Proof.
  intros HE. apply throws_bind; [apply throws_nothing_randomUUID|].
  intros id. apply throws_create, HE.
Qed.

Lemma throws_importExpense env verbose jsonData importTime participantIds expense :
  throws (JsonImport.importExpense env verbose jsonData importTime participantIds expense)
    (referenceError env participantIds [expense] verbose).
Proof.
  assert (∀ table, ¬ unconstrained env →
                   referenceError env participantIds [expense] verbose
                     (ConstraintViolation table)) as Hstore
    by (intros table Hc; left; split; [done|by exists table]).
  assert (expense ∈ [expense]) as Hin by (apply elem_of_cons; by left).
  unfold JsonImport.importExpense. case_decide as Hpayer.
  { apply throws_raise. right. exists expense. split; [done|]. by left. }
  apply throws_bind.
  { apply throws_forOf. intros pf Hpf. case_decide as Hshare; [|apply throws_ret].
    apply throws_raise. right. exists expense. split; [done|]. right. by exists pf. }
  intros _. apply throws_bind.
  { destruct (JSONExpense.category expense) as [c|]; [|apply throws_ret].
    apply throws_bind; [apply throws_nothing_query|]. intros found.
    apply throws_bind; [|intros; apply throws_ret].
    destruct found; [apply throws_ret|].
    apply throws_bind; [apply throws_nothing_query|]. intros nextId.
    apply throws_bind; [apply throws_create; by auto|intros; apply throws_ret]. }
  intros categoryId. apply throws_bind; [apply throws_nothing_randomUUID|].
  intros expenseId. apply throws_bind; [apply throws_nothing_now|].
  intros createdAt. apply throws_bind; [apply throws_create; by auto|].
  intros _. apply throws_bind.
  { apply throws_forOf. intros pf _. apply throws_create; by auto. }
  intros _. apply throws_bind; [apply throws_nothing_randomUUID|].
  intros activityId. apply throws_create; by auto.
Qed.

Lemma referenceError_mono env participantIds xs ys verbose e :
  (∀ x, x ∈ xs → x ∈ ys) →
  referenceError env participantIds xs verbose e →
  referenceError env participantIds ys verbose e.
Proof.
  intros Hsub [Hstore|(x & Hx & Hcase)]; [by left|].
  right. exists x. split; [by apply Hsub|done].
Qed.

Lemma throws_importLoop env verbose jsonData importTime participantIds xs :
  throws (forOf xs (JsonImport.importExpense env verbose jsonData importTime participantIds))
    (referenceError env participantIds xs verbose).
Proof.
  apply throws_forOf. intros x Hx.
  eapply throws_weaken; [apply throws_importExpense|].
  intros e. apply referenceError_mono.
  intros y ->%list_elem_of_singleton. done.
Qed.

Lemma referenceError_notEnumError env participantIds xs verbose e :
  referenceError env participantIds xs verbose e → notEnumError e.
Proof.
  intros [[_ [table ->]]|(x & _ & [[_ ->]|(pf & _ & _ & ->)])]; done.
Qed.

(** In create mode every error is a rejection by the store or names a
    dangling reference of the snapshot. *)
Lemma throws_json_create env jsonData :
  throws (JsonImport.restoreGroupFromJSON env jsonData create)
    (referenceError env
       (list_to_set (SnapshotParticipant.id <$> JSONImportData.participants jsonData))
       (JSONImportData.expenses jsonData) true).
Proof.
  set (E := referenceError _ _ _ _).
  assert (∀ table, ¬ unconstrained env → E (ConstraintViolation table)) as Hstore
    by (intros table Hc; left; split; [done|by exists table]).
  unfold JsonImport.restoreGroupFromJSON.
  apply throws_bind; [apply throws_nothing_now|]. intros importTime.
  apply throws_bind; [apply throws_nothing_now|]. intros createdAt.
  apply throws_bind; [apply throws_create; by auto|]. intros _.
  apply throws_bind; [apply throws_forOf; intros p _; apply throws_create; by auto|]. intros _.
  apply throws_bind; [apply throws_markImportStart; by auto|]. intros _.
  apply throws_importLoop.
Qed.

Lemma throws_json_notEnumError env jsonData mode :
  throws (JsonImport.restoreGroupFromJSON env jsonData mode) notEnumError.
Proof.
  assert (∀ verbose importTime (participantIds : gset string) xs,
    throws (forOf xs (JsonImport.importExpense env verbose jsonData importTime
                        participantIds)) notEnumError) as Hloop.
  { intros. eapply throws_weaken; [apply throws_importLoop|].
    intros e. apply referenceError_notEnumError. }
  destruct mode.
  - eapply throws_weaken; [apply throws_json_create|].
    intros e. apply referenceError_notEnumError.
  - unfold JsonImport.restoreGroupFromJSON.
    apply throws_bind; [apply throws_nothing_now|]. intros importTime.
    apply throws_bind; [apply throws_nothing_query|]. intros existingGroup.
    apply throws_bind; [apply throws_nothing_query|]. intros existingParticipants.
    apply throws_bind; [apply throws_nothing_query|]. intros existingExpenses.
    destruct existingGroup; [|by apply throws_raise].
    apply throws_bind; [apply throws_markImportStart; by auto|]. intros _.
    apply throws_bind; [by apply throws_group_update|]. intros _.
    apply throws_bind.
    { apply throws_forOfAcc. intros known p _. case_decide; [|apply throws_ret].
      apply throws_bind; [apply throws_create; by auto|intros; apply throws_ret]. }
    intros known. apply throws_forOf. intros x Hx. case_decide; [|apply throws_ret].
    eapply throws_weaken; [apply throws_importExpense|].
    intros e. apply referenceError_notEnumError.
  - unfold JsonImport.restoreGroupFromJSON.
    apply throws_bind; [apply throws_nothing_now|]. intros importTime.
    apply throws_bind; [apply throws_nothing_modify|]. intros _.
    apply throws_bind; [apply throws_nothing_modify|]. intros _.
    apply throws_bind; [apply throws_nothing_modify|]. intros _.
    apply throws_bind; [apply throws_nothing_modify|]. intros _.
    apply throws_bind; [by apply throws_group_update|]. intros _.
    apply throws_bind; [apply throws_markImportStart; by auto|]. intros _.
    apply throws_bind.
    { apply throws_forOfAcc. intros known p _.
      apply throws_bind; [apply throws_create; by auto|intros; apply throws_ret]. }
    intros known. apply Hloop.
Qed.

(** ** Dangling references *)

(** The lightweight Restore Engine in create mode: a snapshot with a payer
    or split participant outside its participant list makes the restore
    throw, the transaction leaves the store as it was, and the error is a
    rejection by the store or names the missing identifier and the title of
    the expense. *)
Lemma json_create_rejects_dangling env jsonData s :
  let participantIds : gset string :=
    list_to_set (SnapshotParticipant.id <$> JSONImportData.participants jsonData) in
  ¬ Forall (validReferences participantIds) (JSONImportData.expenses jsonData) →
  ∃ e, transaction (JsonImport.restoreGroupFromJSON env jsonData create) s = (Err e, s)
       ∧ referenceError env participantIds (JSONImportData.expenses jsonData) true e.
Proof.
  intros participantIds Hdangling. unfold transaction.
  destruct (JsonImport.restoreGroupFromJSON env jsonData create s) as [[u s']|e] eqn:Hrun.
  - apply json_create_Ok in Hrun as (_ & _ & _ & Hvalid). done.
  - exists e. split; [done|]. by apply (throws_json_create env jsonData s).
Qed.

(** C1, at the failing input: a full backup with the participants [p1] and
    [p2] and one expense, "Dinner", paid by [p3].  The full-backup Restore
    Engine in create mode returns success: in the empty store without
    constraints it has written the Group, both Participants, the Expense and
    its two ExpensePaidFor rows; under a schema with primary and foreign keys,
    next to another group whose participant is [p3], it has done the same.
    The lightweight Restore Engine on the same data throws the error that
    names [p3] and "Dinner", and the store stays empty. *)
Theorem backup_create_writes_dangling_reference :
  Exists (λ e, BackupExpense.paidById e
               ∉ SnapshotParticipant.id <$> BackupData.participants Examples.danglingBackup)
    (BackupData.expenses Examples.danglingBackup)
  ∧ transaction (Backup.restoreGroupFromBackup Examples.env Examples.danglingBackup create)
      (mkTx emptyStore 0)
    = (Ok (Backup.RestoreResult.mk true []), Examples.afterDanglingBackup)
  ∧ Group.id <$> groups (db Examples.afterDanglingBackup) = ["g1"]
  ∧ Participant.id <$> participants (db Examples.afterDanglingBackup) = ["p1"; "p2"]
  ∧ (λ e, (Expense.id e, Expense.title e, Expense.paidById e))
      <$> expenses (db Examples.afterDanglingBackup) = [("e1", "Dinner", "p3")]
  ∧ length (expensePaidFors (db Examples.afterDanglingBackup)) = 2%nat
  ∧ transaction
      (Backup.restoreGroupFromBackup Examples.strictEnv Examples.danglingBackup create)
      (mkTx Examples.otherGroupStore 0)
    = (Ok (Backup.RestoreResult.mk true []), Examples.afterDanglingBackupStrict)
  ∧ Group.id <$> groups (db Examples.afterDanglingBackupStrict) = ["g2"; "g1"]
  ∧ (λ e, (Expense.groupId e, Expense.title e, Expense.paidById e))
      <$> expenses (db Examples.afterDanglingBackupStrict) = [("g1", "Dinner", "p3")]
  ∧ prisma.participantsOf "g1" (db Examples.afterDanglingBackupStrict)
    = [Participant.mk "p1" "g1" "Alice"; Participant.mk "p2" "g1" "Bob"]
  ∧ transaction (JsonImport.restoreGroupFromJSON Examples.env Examples.dangling create)
      (mkTx emptyStore 0)
    = (Err (InvalidPaidById "p3" "Dinner" true), mkTx emptyStore 0).
Proof.
  split.
  - apply Exists_cons_hd. vm_compute. intros Hin.
    repeat (apply elem_of_cons in Hin as [Hin|Hin]; [discriminate Hin|]).
    by apply elem_of_nil in Hin.
  - repeat split; vm_compute; reflexivity.
Qed.

(** ** Split mode and recurrence rule of an imported expense *)

Lemma Forall2_elem_of_r {A B} (R : A → B → Prop) xs ys y :
  Forall2 R xs ys → y ∈ ys → ∃ x, x ∈ xs ∧ R x y.
Proof.
  induction 1 as [|x' y' xs ys Hxy _ IH]; intros Hy; [by apply elem_of_nil in Hy|].
  apply elem_of_cons in Hy as [->|Hy].
  - exists x'. split; [apply elem_of_cons; by left|done].
  - destruct (IH Hy) as (x & Hx & HR). exists x. split; [apply elem_of_cons; by right|done].
Qed.

Lemma survivingExpenses_stored mode groupId s row :
  row ∈ survivingExpenses mode groupId s → row ∈ expenses s.
Proof. destruct mode; simpl; try done. by intros [_ ?]%list_elem_of_filter. Qed.

Lemma jsonExpensesToWrite_snapshot mode jsonData s e :
  e ∈ jsonExpensesToWrite mode jsonData s → e ∈ JSONImportData.expenses jsonData.
Proof. destruct mode; simpl; try done. by intros [_ ?]%list_elem_of_filter. Qed.

(** C10. [mapSplitMode] and [mapRecurrenceRule] are defined on every input:
    the three recognised texts go to their members, every other text goes to
    EVENLY, respectively NONE (null too).  A lightweight restore never fails
    on the text of a split mode or recurrence rule, and every Expense row it
    adds carries the mapped members. *)
Theorem split_mode_recurrence_rule_total :
  (∀ value,
     (JsonImport.mapSplitMode value = BY_SHARES ↔ value = "BY_SHARES")
     ∧ (JsonImport.mapSplitMode value = BY_PERCENTAGE ↔ value = "BY_PERCENTAGE")
     ∧ (JsonImport.mapSplitMode value = BY_AMOUNT ↔ value = "BY_AMOUNT")
     ∧ (JsonImport.mapSplitMode value = EVENLY
        ↔ value ≠ "BY_SHARES" ∧ value ≠ "BY_PERCENTAGE" ∧ value ≠ "BY_AMOUNT"))
  ∧ (∀ value,
       (JsonImport.mapRecurrenceRule value = DAILY ↔ value = Some "DAILY")
       ∧ (JsonImport.mapRecurrenceRule value = WEEKLY ↔ value = Some "WEEKLY")
       ∧ (JsonImport.mapRecurrenceRule value = MONTHLY ↔ value = Some "MONTHLY")
       ∧ (JsonImport.mapRecurrenceRule value = NONE
          ↔ value ≠ Some "DAILY" ∧ value ≠ Some "WEEKLY" ∧ value ≠ Some "MONTHLY"))
  ∧ (∀ env jsonData mode s column value,
       JsonImport.restoreGroupFromJSON env jsonData mode s
       ≠ Err (InvalidEnumValue column value))
  ∧ (∀ env jsonData mode s u s' row,
       JsonImport.restoreGroupFromJSON env jsonData mode s = Ok (u, s') →
       row ∈ expenses (db s') →
       row ∈ expenses (db s)
       ∨ ∃ expense, expense ∈ JSONImportData.expenses jsonData
           ∧ Expense.title row = JSONExpense.title expense
           ∧ Expense.splitMode row = JsonImport.mapSplitMode (JSONExpense.splitMode expense)
           ∧ Expense.recurrenceRule row
             = Some (JsonImport.mapRecurrenceRule (JSONExpense.recurrenceRule expense))).
Proof.
  split; [|split; [|split]].
  - intros value.
    destruct (mapSplitMode_cases value)
      as [[-> ->]|[[-> ->]|[[-> ->]|(H1 & H2 & H3 & ->)]]];
      repeat split; intros; try done; try tauto.
  - intros value.
    destruct (mapRecurrenceRule_cases value)
      as [[-> ->]|[[-> ->]|[[-> ->]|(H1 & H2 & H3 & ->)]]];
      repeat split; intros; try done; try tauto.
  - intros env jsonData mode s column value Herr.
    apply (throws_json_notEnumError env jsonData mode s) in Herr. done.
  - intros env jsonData mode s u s' row Hrun Hrow.
    apply json_restore_Ok in Hrun as (es & _ & He & Hrows & _).
    rewrite He in Hrow. apply elem_of_app in Hrow as [Hold|Hnew].
    + left. by apply survivingExpenses_stored in Hold.
    + right. destruct (Forall2_elem_of_r _ _ _ _ Hrows Hnew)
        as (expense & Hin & _ & _ & _ & Htitle & _ & Hsplit & Hrule).
      exists expense. split; [by apply jsonExpensesToWrite_snapshot in Hin|done].
Qed.

(** ** Restores that cannot fail: a store without constraints *)

Lemma succeeds_ret {A} (a : A) : succeeds (ret a).
Proof. intros s. by exists a, s. Qed.

Lemma succeeds_bind {A B} (m : Tx A) (k : A → Tx B) :
  succeeds m → (∀ a, succeeds (k a)) → succeeds (bind m k).
Proof.
  intros Hm Hk s. destruct (Hm s) as (a & s1 & H1). destruct (Hk a s1) as (b & s' & H2).
  exists b, s'. apply bind_Ok. by exists a, s1.
Qed.

Lemma succeeds_forOf {A} (body : A → Tx unit) xs :
  (∀ x, x ∈ xs → succeeds (body x)) → succeeds (forOf xs body).
Proof.
  induction xs as [|x xs IH]; intros Hbody; simpl; [apply succeeds_ret|].
  apply succeeds_bind; [apply Hbody, elem_of_cons; by left|].
  intros _. apply IH. intros y Hy. apply Hbody, elem_of_cons. by right.
Qed.

Lemma succeeds_forOfAcc {A B} (body : B → A → Tx B) xs acc :
  (∀ b x, x ∈ xs → succeeds (body b x)) → succeeds (forOfAcc xs acc body).
Proof.
  revert acc. induction xs as [|x xs IH]; intros acc Hbody; simpl; [apply succeeds_ret|].
  apply succeeds_bind; [apply Hbody, elem_of_cons; by left|].
  intros acc'. apply IH. intros b y Hy. apply Hbody, elem_of_cons. by right.
Qed.

Lemma succeeds_query {A} (f : Store → A) : succeeds (prisma.query f).
Proof. intros s. by eexists _, _. Qed.

Lemma succeeds_modify f : succeeds (prisma.modify f).
Proof. intros s. by eexists _, _. Qed.

Lemma succeeds_randomUUID env : succeeds (prisma.randomUUID env).
Proof. intros s. by eexists _, _. Qed.

Lemma succeeds_now env : succeeds (prisma.now env).
Proof. intros s. by eexists _, _. Qed.

Lemma succeeds_checkUrlExists env url : succeeds (prisma.checkUrlExists env url).
Proof. intros s. by eexists _, _. Qed.

Lemma succeeds_create env r : unconstrained env → succeeds (prisma.create env r).
Proof. intros Hall s. unfold prisma.create. rewrite Hall. by eexists _, _. Qed.

Lemma succeeds_markImportStart env jsonData mode importTime :
  unconstrained env → succeeds (JsonImport.markImportStart env jsonData mode importTime).
Proof.
  intros Hall. apply succeeds_bind; [apply succeeds_randomUUID|].
  intros id. by apply succeeds_create.
Qed.

Lemma succeeds_importExpense env verbose jsonData importTime participantIds expense :
  unconstrained env → validReferences participantIds expense →
  succeeds (JsonImport.importExpense env verbose jsonData importTime participantIds expense).
Proof.
  intros Hall [Hpayer Hshares]. unfold JsonImport.importExpense.
  rewrite decide_False by (intros Hnot; by apply Hnot).
  apply succeeds_bind.
  { apply succeeds_forOf. intros pf Hpf.
    rewrite Forall_forall in Hshares.
    rewrite decide_False by (intros Hnot; by apply Hnot, Hshares).
    apply succeeds_ret. }
  intros _. apply succeeds_bind.
  { destruct (JSONExpense.category expense) as [c|]; [|apply succeeds_ret].
    apply succeeds_bind; [apply succeeds_query|]. intros found.
    apply succeeds_bind; [|intros; apply succeeds_ret].
    destruct found; [apply succeeds_ret|].
    apply succeeds_bind; [apply succeeds_query|]. intros nextId.
    apply succeeds_bind; [by apply succeeds_create|intros; apply succeeds_ret]. }
  intros categoryId. apply succeeds_bind; [apply succeeds_randomUUID|].
  intros expenseId. apply succeeds_bind; [apply succeeds_now|].
  intros createdAt. apply succeeds_bind; [by apply succeeds_create|].
  intros _. apply succeeds_bind.
  { apply succeeds_forOf. intros pf _. by apply succeeds_create. }
  intros _. apply succeeds_bind; [apply succeeds_randomUUID|].
  intros activityId. by apply succeeds_create.
Qed.

Lemma bind_returns {A B} (m : Tx A) (k : A → Tx B) s a s1 :
  m s = Ok (a, s1) → (∃ b s', k a s1 = Ok (b, s')) → ∃ b s', bind m k s = Ok (b, s').
Proof. intros Hm (b & s' & Hk). exists b, s'. apply bind_Ok. by exists a, s1. Qed.

Lemma group_update_progress id data s :
  is_Some (List.find (λ g, bool_decide (Group.id g = id)) (groups (db s))) →
  ∃ s', prisma.group_update id data s = Ok (tt, s').
Proof.
  intros [g Hfind]. unfold prisma.group_update, bind, prisma.group_findUnique, prisma.query.
  rewrite Hfind. by eexists.
Qed.

(** In a store without constraints an update of the lightweight format
    returns as soon as the group is stored and the expenses it is to write
    have valid references. *)
Lemma json_update_progress env jsonData s :
  unconstrained env →
  is_Some (List.find (λ g, bool_decide (Group.id g = JSONImportData.id jsonData))
             (groups (db s))) →
  Forall (validReferences
            (list_to_set (SnapshotParticipant.id <$> JSONImportData.participants jsonData)
               ∪ storedParticipantIds (JSONImportData.id jsonData) (db s)))
    (jsonExpensesToWrite update jsonData (db s)) →
  ∃ u s', JsonImport.restoreGroupFromJSON env jsonData update s = Ok (u, s').
Proof.
  intros Hall [g Hfind] Hvalid. unfold JsonImport.restoreGroupFromJSON.
  eapply bind_returns; [reflexivity|].
  eapply bind_returns; [reflexivity|].
  eapply bind_returns; [reflexivity|].
  eapply bind_returns; [reflexivity|].
  simpl. rewrite Hfind.
  destruct (succeeds_markImportStart env jsonData update (clockAt env (tick s)) Hall
              (mkTx (db s) (S (tick s)))) as (u3 & s3 & Hmark).
  pose proof Hmark as (Hg3 & Hp3 & He3)%preserves_markImportStart%coreTables_eq.
  simpl in Hg3, Hp3, He3.
  eapply bind_returns; [exact Hmark|].
  destruct (group_update_progress (JSONImportData.id jsonData)
              (λ g, Group.mk (Group.id g) (JSONImportData.name jsonData)
                      (Group.information g) (JSONImportData.currency jsonData)
                      (JSONImportData.currencyCode jsonData) (Group.createdAt g)) s3)
    as (s4 & Hupd); [rewrite Hg3; by eexists|].
  eapply bind_returns; [exact Hupd|].
  match goal with
  | |- ∃ _ _, bind ?loop _ _ = _ =>
      assert (succeeds loop) as Hloop
  end.
  { apply succeeds_forOfAcc. intros known p _. case_decide; [|apply succeeds_ret].
    apply succeeds_bind; [by apply succeeds_create|intros; apply succeeds_ret]. }
  destruct (Hloop s4) as (known & s5 & Hps).
  eapply bind_returns; [exact Hps|].
  apply addParticipants_Ok in Hps as (_ & _ & _ & ->).
  rewrite forOf_filter.
  assert (succeeds (forOf (jsonExpensesToWrite update jsonData (db s))
                      (JsonImport.importExpense env false jsonData (clockAt env (tick s))
                         (list_to_set (SnapshotParticipant.id
                                         <$> JSONImportData.participants jsonData)
                            ∪ storedParticipantIds (JSONImportData.id jsonData) (db s)))))
    as Hexpenses.
  { apply succeeds_forOf. intros x Hx. apply succeeds_importExpense; [done|].
    rewrite Forall_forall in Hvalid. by apply Hvalid. }
  apply (Hexpenses s5).
Qed.

Lemma json_update_twice_unconstrained env1 env2 jsonData s tick2 :
  unconstrained env1 →
  is_Some (List.find (λ g, bool_decide (Group.id g = JSONImportData.id jsonData))
             (groups (db s))) →
  let s1 := (transaction (JsonImport.restoreGroupFromJSON env1 jsonData update) s).2 in
  let s2 := (transaction (JsonImport.restoreGroupFromJSON env2 jsonData update)
               (mkTx (db s1) tick2)).2 in
  expenses (db s2) = expenses (db s1) ∧ participants (db s2) = participants (db s1).
Proof.
  intros Hall Hgroup s1.
  assert (s1 = match JsonImport.restoreGroupFromJSON env1 jsonData update s with
               | Ok (_, s') => s'
               | Err _ => s
               end) as Hs1.
  { unfold s1, transaction. by destruct (JsonImport.restoreGroupFromJSON _ _ _ _) as [[]|]. }
  clearbody s1. subst s1.
  destruct (JsonImport.restoreGroupFromJSON env1 jsonData update s)
    as [[u1 s1]|e1] eqn:Hrun1.
  - by apply (json_update_again env1 env2 jsonData s u1).
  - unfold transaction.
    destruct (JsonImport.restoreGroupFromJSON env2 jsonData update (mkTx (db s) tick2))
      as [[u2 s2]|e2] eqn:Hrun2; simpl; [|done].
    apply json_update_Ok in Hrun2 as (_ & _ & _ & _ & Hvalid). simpl in Hvalid.
    destruct (json_update_progress env1 jsonData s Hall Hgroup Hvalid) as (u & s' & Hok).
    congruence.
Qed.

Lemma castSplitMode_total value s m s' :
  Backup.castSplitMode value s = Ok (m, s') → ∀ t, Backup.castSplitMode value t = Ok (m, t).
Proof.
  unfold Backup.castSplitMode.
  repeat case_decide; try done; by intros [-> _]%ret_Ok t.
Qed.

Lemma castRecurrenceRule_total value s r s' :
  Backup.castRecurrenceRule value s = Ok (r, s') →
  ∀ t, Backup.castRecurrenceRule value t = Ok (r, t).
Proof.
  unfold Backup.castRecurrenceRule. destruct value as [v|].
  - repeat case_decide; try done; by intros [-> _]%ret_Ok t.
  - by intros [-> _]%ret_Ok t.
Qed.

Lemma createExpense_castable env groupId expense warnings s warnings' s' :
  Backup.createExpense env groupId expense warnings s = Ok (warnings', s') →
  writableExpense expense.
Proof.
  unfold Backup.createExpense.
  intros (rate & s0 & (_ & -> & Hrate)%decimalOrNull_Ok & Hrun)%bind_Ok.
  apply bind_Ok in Hrun as (m & s1 & Hm & Hrun).
  apply bind_Ok in Hrun as (r & s2 & Hr & _).
  split; [done|].
  split; [exists m; by eapply castSplitMode_total|exists r; by eapply castRecurrenceRule_total].
Qed.

Lemma addExpenses_castable env groupId xs warnings s warnings' s' :
  forOfAcc xs warnings (λ warnings expense,
    Backup.createExpense env groupId expense warnings) s = Ok (warnings', s') →
  Forall writableExpense xs.
Proof.
  revert warnings s. induction xs as [|x xs IH]; intros warnings s; simpl; [done|].
  intros (w1 & s1 & Hx%createExpense_castable & Hrest%IH)%bind_Ok. by constructor.
Qed.

Lemma succeeds_decimalOrNull value :
  (∀ text, truthy value = Some text → Decimal.accepts text = true) →
  succeeds (Backup.decimalOrNull value).
Proof.
  intros Hrate s. unfold Backup.decimalOrNull, Backup.newDecimal.
  destruct (truthy value) as [text|]; [|by eexists _, _].
  unfold bind. rewrite (Hrate text eq_refl). by eexists _, _.
Qed.

Lemma succeeds_createExpense env groupId expense warnings :
  unconstrained env → writableExpense expense →
  succeeds (Backup.createExpense env groupId expense warnings).
Proof.
  intros Hall [Hrate [[m Hm] [r Hr]]]. unfold Backup.createExpense.
  apply succeeds_bind; [by apply succeeds_decimalOrNull|]. intros rate.
  apply succeeds_bind; [intros s; by eexists _, _|]. intros m'.
  apply succeeds_bind; [intros s; by eexists _, _|]. intros r'.
  apply succeeds_bind; [by apply succeeds_create|]. intros _.
  apply succeeds_bind; [apply succeeds_forOf; intros pf _; by apply succeeds_create|].
  intros _. apply succeeds_forOfAcc. intros w doc _.
  apply succeeds_bind; [apply succeeds_checkUrlExists|].
  intros [|]; [|apply succeeds_ret].
  apply succeeds_bind; [|intros; apply succeeds_ret].
  apply succeeds_bind; [apply succeeds_query|].
  intros [|]; [apply succeeds_modify|by apply succeeds_create].
Qed.

Lemma backup_update_castable env backupData s result s' :
  Backup.restoreGroupFromBackup env backupData update s = Ok (result, s') →
  Forall writableExpense (backupExpensesToWrite update backupData (db s)).
Proof.
  unfold Backup.restoreGroupFromBackup.
  intros (u1 & s1 & [_ ->]%ret_Ok & Hrun)%bind_Ok.
  apply bind_Ok in Hrun as (u2 & s2 & Hps & Hrun).
  apply bind_Ok in Hps as (existingParticipants & s2' & [-> ->]%query_Ok & Hps).
  rewrite forOf_filter in Hps.
  apply createParticipants_Ok in Hps as (_ & _ & He2).
  apply bind_Ok in Hrun as (w3 & s3 & Hes & _).
  apply bind_Ok in Hes as (existingExpenses & s3' & [-> ->]%query_Ok & Hes).
  rewrite forOfAcc_filter in Hes.
  apply addExpenses_castable in Hes.
  unfold backupExpensesToWrite, storedExpenseIds, prisma.expensesOf in *.
  by rewrite <- He2.
Qed.

Lemma backup_update_progress env backupData s :
  unconstrained env →
  Forall writableExpense (backupExpensesToWrite update backupData (db s)) →
  ∃ result s', Backup.restoreGroupFromBackup env backupData update s = Ok (result, s').
Proof.
  intros Hall Hcast. unfold Backup.restoreGroupFromBackup.
  eapply bind_returns; [reflexivity|].
  set (groupId := BackupGroup.id (BackupData.group backupData)).
  match goal with
  | |- ∃ _ _, bind ?loop _ _ = _ => assert (succeeds loop) as Hloop
  end.
  { apply succeeds_bind; [apply succeeds_query|]. intros existing.
    apply succeeds_forOf. intros p _. case_decide; [|apply succeeds_ret].
    by apply succeeds_create. }
  destruct (Hloop s) as (u2 & s2 & Hps).
  eapply bind_returns; [exact Hps|].
  apply bind_Ok in Hps as (existingParticipants & s2' & [-> ->]%query_Ok & Hps).
  rewrite forOf_filter in Hps.
  apply createParticipants_Ok in Hps as (_ & _ & He2).
  assert (∃ w3 s3,
    (let* existingExpenses := prisma.query (prisma.expensesOf groupId) in
     forOfAcc (BackupData.expenses backupData) []
       (λ warnings expense,
          if decide (BackupExpense.id expense
                     ∉ (list_to_set (Expense.id <$> existingExpenses) : gset string))
          then Backup.createExpense env groupId expense warnings
          else ret warnings)) s2 = Ok (w3, s3)) as (w3 & s3 & Hes).
  { eapply bind_returns; [reflexivity|].
    rewrite forOfAcc_filter.
    assert (succeeds (forOfAcc (backupExpensesToWrite update backupData (db s)) []
                        (λ warnings expense,
                           Backup.createExpense env groupId expense warnings))) as Hexp.
    { apply succeeds_forOfAcc. intros w x Hx. apply succeeds_createExpense; [done|].
      rewrite Forall_forall in Hcast. by apply Hcast. }
    unfold backupExpensesToWrite, storedExpenseIds, prisma.expensesOf in Hexp.
    rewrite <- He2 in Hexp. apply (Hexp s2). }
  eapply bind_returns; [exact Hes|].
  eapply bind_returns; [reflexivity|].
  by eexists _, _.
Qed.

Lemma backup_update_twice_unconstrained env1 env2 backupData s tick2 :
  unconstrained env1 →
  let s1 := (transaction (Backup.restoreGroupFromBackup env1 backupData update) s).2 in
  let s2 := (transaction (Backup.restoreGroupFromBackup env2 backupData update)
               (mkTx (db s1) tick2)).2 in
  expenses (db s2) = expenses (db s1) ∧ participants (db s2) = participants (db s1).
Proof.
  intros Hall s1.
  assert (s1 = match Backup.restoreGroupFromBackup env1 backupData update s with
               | Ok (_, s') => s'
               | Err _ => s
               end) as Hs1.
  { unfold s1, transaction. by destruct (Backup.restoreGroupFromBackup _ _ _ _) as [[]|]. }
  clearbody s1. subst s1.
  destruct (Backup.restoreGroupFromBackup env1 backupData update s)
    as [[r1 s1]|e1] eqn:Hrun1.
  - by apply (backup_update_again env1 env2 backupData s r1).
  - unfold transaction.
    destruct (Backup.restoreGroupFromBackup env2 backupData update (mkTx (db s) tick2))
      as [[r2 s2]|e2] eqn:Hrun2; simpl; [|done].
    apply backup_update_castable in Hrun2. simpl in Hrun2.
    destruct (backup_update_progress env1 backupData s Hall Hrun2) as (r & s' & Hok).
    congruence.
Qed.

(** C7. Update mode twice in succession with the same snapshot, on a store
    that has the group of the snapshot: the second run adds no Expense row
    and no Participant row.  This holds under every schema when the first run
    has committed, and under a schema without constraints also when the first
    run has thrown (the second run then throws as well); it holds for both
    formats, whatever the clock, the identifiers drawn and the reachability
    of documents in either run. *)
Theorem update_twice_idempotent :
  (∀ env1 env2 jsonData s tick2 g,
     g ∈ groups (db s) → Group.id g = JSONImportData.id jsonData →
     let run1 := transaction (JsonImport.restoreGroupFromJSON env1 jsonData update) s in
     let run2 := transaction (JsonImport.restoreGroupFromJSON env2 jsonData update)
                   (mkTx (db run1.2) tick2) in
     run1.1 = Ok tt ∨ unconstrained env1 →
     expenses (db run2.2) = expenses (db run1.2)
     ∧ participants (db run2.2) = participants (db run1.2))
  ∧ (∀ env1 env2 backupData s tick2 g,
       g ∈ groups (db s) → Group.id g = BackupGroup.id (BackupData.group backupData) →
       let run1 := transaction (Backup.restoreGroupFromBackup env1 backupData update) s in
       let run2 := transaction (Backup.restoreGroupFromBackup env2 backupData update)
                     (mkTx (db run1.2) tick2) in
       (∃ result, run1.1 = Ok result) ∨ unconstrained env1 →
       expenses (db run2.2) = expenses (db run1.2)
       ∧ participants (db run2.2) = participants (db run1.2)).
Proof.
  split.
  - intros env1 env2 jsonData s tick2 g Hg Hid run1 run2 [Hcommitted|Hall].
    + subst run2 run1.
      destruct (JsonImport.restoreGroupFromJSON env1 jsonData update s)
        as [[u1 s1]|e1] eqn:Hrun1.
      * rewrite (transaction_Ok _ _ _ _ Hrun1). simpl.
        by apply (json_update_again env1 env2 jsonData s u1).
      * by rewrite (transaction_Err _ _ _ Hrun1) in Hcommitted.
    + apply (json_update_twice_unconstrained env1 env2 jsonData s tick2 Hall).
      by apply (find_group_some _ _ g).
  - intros env1 env2 backupData s tick2 g Hg Hid run1 run2 [[result Hcommitted]|Hall].
    + subst run2 run1.
      destruct (Backup.restoreGroupFromBackup env1 backupData update s)
        as [[r1 s1]|e1] eqn:Hrun1.
      * rewrite (transaction_Ok _ _ _ _ Hrun1). simpl.
        by apply (backup_update_again env1 env2 backupData s r1).
      * by rewrite (transaction_Err _ _ _ Hrun1) in Hcommitted.
    + apply (backup_update_twice_unconstrained env1 env2 backupData s tick2 Hall).
Qed.

(** The snapshot [trip] has three expenses, of which the store has two: the
    first update adds one Expense row, the second none. *)
Lemma update_twice_idempotent_witness :
  let run1 := transaction (JsonImport.restoreGroupFromJSON Examples.env Examples.trip update)
                (mkTx Examples.twoOfThreeStore 0) in
  let run2 := transaction (JsonImport.restoreGroupFromJSON Examples.env Examples.trip update)
                (mkTx (db run1.2) 50) in
  run1.1 = Ok tt
  ∧ length (expenses Examples.twoOfThreeStore) = 2%nat
  ∧ length (expenses (db run1.2)) = 3%nat
  ∧ run2.1 = Ok tt
  ∧ expenses (db run2.2) = expenses (db run1.2)
  ∧ participants (db run2.2) = participants (db run1.2).
Proof.
  intros run1 run2.
  split; [vm_compute; reflexivity|]. split; [reflexivity|].
  split; [vm_compute; reflexivity|]. split; [vm_compute; reflexivity|].
  apply (proj1 update_twice_idempotent Examples.env Examples.env Examples.trip
           (mkTx Examples.twoOfThreeStore 0) 50%nat (Group.mk "g1" "Trip" None "EUR" None 1)).
  - apply elem_of_cons; left; reflexivity.
  - reflexivity.
  - left. vm_compute. reflexivity.
Defined.

Lemma split_mode_recurrence_rule_total_witness :
  let row := Expense.mk "uuid-3" "g1" 10 1004 "Dinner" 0 100 None None None "p1" false
               EVENLY None (Some NONE) in
  JsonImport.restoreGroupFromJSON Examples.env Examples.odd create (mkTx emptyStore 0)
  = Ok (tt, Examples.afterOddCreate)
  ∧ row ∈ expenses (db Examples.afterOddCreate)
  ∧ (row ∈ expenses emptyStore
     ∨ ∃ expense, expense ∈ JSONImportData.expenses Examples.odd
         ∧ Expense.title row = JSONExpense.title expense
         ∧ Expense.splitMode row = JsonImport.mapSplitMode (JSONExpense.splitMode expense)
         ∧ Expense.recurrenceRule row
           = Some (JsonImport.mapRecurrenceRule (JSONExpense.recurrenceRule expense))).
Proof.
  intros row.
  assert (JsonImport.restoreGroupFromJSON Examples.env Examples.odd create (mkTx emptyStore 0)
          = Ok (tt, Examples.afterOddCreate)) as Hrun by (vm_compute; reflexivity).
  assert (row ∈ expenses (db Examples.afterOddCreate)) as Hrow
    by (vm_compute; apply elem_of_cons; left; reflexivity).
  split; [exact Hrun|]. split; [exact Hrow|].
  exact (proj2 (proj2 (proj2 split_mode_recurrence_rule_total)) Examples.env Examples.odd
           create (mkTx emptyStore 0) tt Examples.afterOddCreate row Hrun Hrow).
Defined.

(** * Further properties *)

(** ** Texts of the enumerations *)

(** X1. The text of a member of an enumeration is read back as that member
    by the cast of the full-backup format and by the mapping of the
    lightweight format; and wherever the cast accepts a text, the mapping
    gives the same member. *)
Theorem enumeration_text_round_trip :
  (∀ m s, Backup.castSplitMode (SplitMode_text m) s = Ok (m, s))
  ∧ (∀ m, JsonImport.mapSplitMode (SplitMode_text m) = m)
  ∧ (∀ r s, Backup.castRecurrenceRule (RecurrenceRule_text <$> r) s = Ok (r, s))
  ∧ (∀ r, JsonImport.mapRecurrenceRule (Some (RecurrenceRule_text r)) = r)
  ∧ (∀ value s m s',
       Backup.castSplitMode value s = Ok (m, s') → JsonImport.mapSplitMode value = m)
  ∧ (∀ value s r s',
       Backup.castRecurrenceRule (Some value) s = Ok (Some r, s') →
       JsonImport.mapRecurrenceRule (Some value) = r).
Proof.
  repeat split.
  - by intros [] s.
  - by intros [].
  - by intros [[]|] s.
  - by intros [].
  - intros value s m s'. unfold Backup.castSplitMode, JsonImport.mapSplitMode.
    repeat case_decide; subst; try done; by intros [-> _]%ret_Ok.
  - intros value s r s'. unfold Backup.castRecurrenceRule, JsonImport.mapRecurrenceRule.
    repeat case_decide; subst; try done; intros [Hr _]%ret_Ok; by injection Hr as ->.
Qed.

Lemma enumeration_text_round_trip_witness :
  JsonImport.mapSplitMode "BY_AMOUNT" = BY_AMOUNT.
Proof.
  apply (proj1 (proj2 (proj2 (proj2 (proj2 enumeration_text_round_trip))))
           "BY_AMOUNT" (mkTx emptyStore 0) BY_AMOUNT (mkTx emptyStore 0)).
  vm_compute. reflexivity.
Defined.

(** ** The Group a restore needs *)

Lemma notGroupError_constraint table : notGroupError (ConstraintViolation table).
Proof. by split. Qed.

Lemma referenceError_notGroupError env participantIds xs verbose e :
  referenceError env participantIds xs verbose e → notGroupError e.
Proof.
  intros [[_ [table ->]]|(x & _ & [[_ ->]|(pf & _ & _ & ->)])]; by split.
Qed.

Lemma throws_importLoop_notGroupError env verbose jsonData importTime
    (participantIds : gset string) xs :
  throws (forOf xs (JsonImport.importExpense env verbose jsonData importTime participantIds))
    notGroupError.
Proof.
  eapply throws_weaken; [apply throws_importLoop|].
  intros e. apply referenceError_notGroupError.
Qed.

(** The errors of the lightweight Restore Engine when the Group it needs is
    stored, or in create mode: never one of the two errors about a missing
    Group. *)
Lemma json_restore_notGroupError env jsonData mode s e :
  mode = create ∨ is_Some (storedGroup (JSONImportData.id jsonData) (db s)) →
  JsonImport.restoreGroupFromJSON env jsonData mode s = Err e →
  notGroupError e.
Proof.
  intros Hgroup Herr. destruct mode.
  - apply throws_json_create in Herr. by eapply referenceError_notGroupError.
  - destruct Hgroup as [?|[g Hg]]; [done|].
    unfold JsonImport.restoreGroupFromJSON in Herr.
    apply bind_Err in Herr as [?|(importTime & s1 & Hnow & Herr)]; [done|].
    apply now_Ok in Hnow as [_ Hdb1].
    apply bind_Err in Herr as [?|(found & s2 & Hfind & Herr)]; [done|].
    apply group_findUnique_Ok in Hfind as [-> ->].
    apply bind_Err in Herr as [?|(ps & s2 & [_ ->]%query_Ok & Herr)]; [done|].
    apply bind_Err in Herr as [?|(es & s2 & [_ ->]%query_Ok & Herr)]; [done|].
    unfold storedGroup in Hg. rewrite <- Hdb1 in Hg. rewrite Hg in Herr.
    apply bind_Err in Herr as [Herr|([] & s2 & Hmark & Herr)].
    { revert Herr. apply throws_markImportStart. intros. apply notGroupError_constraint. }
    apply preserves_markImportStart in Hmark as [Hgroups _]%coreTables_eq.
    apply bind_Err in Herr as [Herr|([] & s3 & _ & Herr)].
    { edestruct (group_update_progress (JSONImportData.id jsonData)) as [s3 Hs3];
        [|by rewrite Hs3 in Herr].
      rewrite Hgroups, Hg. by eexists. }
    revert Herr. apply throws_bind.
    { apply throws_forOfAcc. intros known p _. case_decide; [|apply throws_ret].
      apply throws_bind; [|intros; apply throws_ret].
      apply throws_create. intros. apply notGroupError_constraint. }
    intros known. apply throws_forOf. intros x Hx. case_decide; [|apply throws_ret].
    eapply throws_weaken; [apply throws_importExpense|].
    intros e'. apply referenceError_notGroupError.
  - destruct Hgroup as [?|[g Hg]]; [done|].
    unfold JsonImport.restoreGroupFromJSON in Herr.
    apply bind_Err in Herr as [?|(importTime & s1 & Hnow & Herr)]; [done|].
    apply now_Ok in Hnow as [_ Hdb1].
    apply bind_Err in Herr as [?|([] & s2 & Hdel1 & Herr)]; [done|].
    apply bind_Err in Herr as [?|([] & s3 & Hdel2 & Herr)]; [done|].
    apply bind_Err in Herr as [?|([] & s4 & Hdel3 & Herr)]; [done|].
    apply bind_Err in Herr as [?|([] & s5 & Hdel4 & Herr)]; [done|].
    apply modify_Ok in Hdel1, Hdel2, Hdel3, Hdel4.
    assert (groups (db s5) = groups (db s)) as Hgroups.
    { rewrite Hdel4, Hdel3, Hdel2, Hdel1, Hdb1. done. }
    apply bind_Err in Herr as [Herr|([] & s6 & _ & Herr)].
    { edestruct (group_update_progress (JSONImportData.id jsonData)) as [s6 Hs6];
        [|by rewrite Hs6 in Herr].
      unfold storedGroup in Hg. rewrite Hgroups, Hg. by eexists. }
    revert Herr. apply throws_bind.
    { apply throws_markImportStart. intros. apply notGroupError_constraint. }
    intros _. apply throws_bind.
    { apply throws_forOfAcc. intros known p _.
      apply throws_bind; [|intros; apply throws_ret].
      apply throws_create. intros. apply notGroupError_constraint. }
    intros known. apply throws_importLoop_notGroupError.
Qed.

Lemma json_update_absent env jsonData s :
  storedGroup (JSONImportData.id jsonData) (db s) = None →
  JsonImport.restoreGroupFromJSON env jsonData update s = Err GroupNotFound.
Proof.
  intros Habsent.
  unfold JsonImport.restoreGroupFromJSON, bind, prisma.now, prisma.nextTick, ret,
    prisma.group_findUnique, prisma.query. simpl.
  unfold storedGroup in Habsent. by rewrite Habsent.
Qed.

Lemma json_rollback_absent env jsonData s :
  storedGroup (JSONImportData.id jsonData) (db s) = None →
  JsonImport.restoreGroupFromJSON env jsonData rollback s = Err RecordToUpdateNotFound.
Proof.
  intros Habsent.
  unfold JsonImport.restoreGroupFromJSON, bind, prisma.now, prisma.nextTick, ret,
    prisma.expensePaidFor_deleteMany, prisma.expense_deleteMany,
    prisma.participant_deleteMany, prisma.activity_deleteMany, prisma.modify,
    prisma.group_update, prisma.group_findUnique, prisma.query, bind. simpl.
  unfold storedGroup in Habsent. by rewrite Habsent.
Qed.

(** X2. The lightweight Restore Engine and the Group of the snapshot: it
    throws 'Group not found' exactly in update mode on a store without that
    Group, and the store's 'Record to update not found.' exactly in rollback
    mode on a store without that Group. *)
Theorem json_restore_missing_group env jsonData mode s :
  (JsonImport.restoreGroupFromJSON env jsonData mode s = Err GroupNotFound
   ↔ mode = update ∧ storedGroup (JSONImportData.id jsonData) (db s) = None)
  ∧ (JsonImport.restoreGroupFromJSON env jsonData mode s = Err RecordToUpdateNotFound
     ↔ mode = rollback ∧ storedGroup (JSONImportData.id jsonData) (db s) = None).
Proof.
  assert (∀ e, JsonImport.restoreGroupFromJSON env jsonData mode s = Err e →
               ¬ notGroupError e →
               mode ≠ create ∧ storedGroup (JSONImportData.id jsonData) (db s) = None)
    as Hmissing.
  { intros e Herr Hgroup. split.
    - intros ->. apply Hgroup. eapply json_restore_notGroupError; [by left|done].
    - apply eq_None_not_Some. intros Hsome. apply Hgroup.
      eapply json_restore_notGroupError; [by right|done]. }
  split; split.
  - intros Herr. destruct (Hmissing _ Herr) as [Hmode Habsent]; [by intros [? ?]|].
    split; [|done]. destruct mode; [done|done|].
    by rewrite json_rollback_absent in Herr.
  - intros [-> Habsent]. by apply json_update_absent.
  - intros Herr. destruct (Hmissing _ Herr) as [Hmode Habsent]; [by intros [? ?]|].
    split; [|done]. destruct mode; [done| |done].
    by rewrite json_update_absent in Herr.
  - intros [-> Habsent]. by apply json_rollback_absent.
Qed.
Lemma throws_castSplitMode value (E : Error → Prop) :
  ((∀ m, value ≠ SplitMode_text m) → E (InvalidEnumValue "splitMode" value)) →
  throws (Backup.castSplitMode value) E.
Proof.
  intros HE. unfold Backup.castSplitMode.
  repeat case_decide; try apply throws_ret. apply throws_raise, HE. by intros [].
Qed.

Lemma throws_castRecurrenceRule value (E : Error → Prop) :
  (∀ v, value = Some v → (∀ r, v ≠ RecurrenceRule_text r) →
        E (InvalidEnumValue "recurrenceRule" v)) →
  throws (Backup.castRecurrenceRule value) E.
Proof.
  intros HE. unfold Backup.castRecurrenceRule. destruct value as [v|]; [|apply throws_ret].
  repeat case_decide; try apply throws_ret. apply throws_raise, HE; [done|]. by intros [].
Qed.

Lemma throws_expenseDocument_upsert env doc (E : Error → Prop) :
  (∀ table, ¬ unconstrained env → E (ConstraintViolation table)) →
  throws (prisma.expenseDocument_upsert env doc) E.
Proof.
  intros HE. apply throws_bind; [apply throws_nothing_query|].
  intros []; [apply throws_nothing_modify|apply throws_create; by auto].
Qed.

Lemma throws_decimalOrNull value (E : Error → Prop) :
  (∀ text, truthy value = Some text → Decimal.accepts text = false →
           E (DecimalError text)) →
  throws (Backup.decimalOrNull value) E.
Proof.
  intros HE s e. unfold Backup.decimalOrNull, Backup.newDecimal.
  destruct (truthy value) as [text|]; [|done].
  unfold bind. destruct (Decimal.accepts text) eqn:Haccepts; [done|].
  intros [= <-]. by apply HE.
Qed.

Lemma throws_castActivityType env value (E : Error → Prop) :
  (isActivityType env value = false → E (InvalidEnumValue "activityType" value)) →
  throws (Backup.castActivityType env value) E.
Proof.
  intros HE s e. unfold Backup.castActivityType.
  destruct (isActivityType env value); [done|]. intros [= <-]. by apply HE.
Qed.

Lemma throws_createExpense env groupId expense warnings (E : Error → Prop) :
  (∀ table, ¬ unconstrained env → E (ConstraintViolation table)) →
  (∀ e, decimalError [expense] e → E e) →
  (∀ e, castError [expense] e → E e) →
  throws (Backup.createExpense env groupId expense warnings) E.
Proof.
  intros Hstore Hrate Hcast. unfold Backup.createExpense.
  assert (expense ∈ [expense]) as Hin by (apply elem_of_cons; by left).
  apply throws_bind.
  { apply throws_decimalOrNull. intros text Htext Haccepts. apply Hrate.
    by exists expense, text. }
  intros rate. apply throws_bind.
  { apply throws_castSplitMode. intros Hm. apply Hcast. exists expense. split; [done|].
    by left. }
  intros splitMode. apply throws_bind.
  { apply throws_castRecurrenceRule. intros v Hv Hr. apply Hcast. exists expense.
    split; [done|]. right. by exists v. }
  intros recurrenceRule.
  apply throws_bind; [apply throws_create; by auto|]. intros _.
  apply throws_bind; [apply throws_forOf; intros pf _; apply throws_create; by auto|].
  intros _. apply throws_forOfAcc. intros ws doc _.
  apply throws_bind; [intros ? ?; done|].
  intros []; [|apply throws_ret].
  apply throws_bind; [by apply throws_expenseDocument_upsert|intros; apply throws_ret].
Qed.

Lemma castError_mono xs ys e :
  (∀ x, x ∈ xs → x ∈ ys) → castError xs e → castError ys e.
Proof. intros Hsub (x & Hx & Hcase). exists x. split; [by apply Hsub|done]. Qed.

Lemma decimalError_mono xs ys e :
  (∀ x, x ∈ xs → x ∈ ys) → decimalError xs e → decimalError ys e.
Proof.
  intros Hsub (x & text & Hx & Hcase). exists x, text. split; [by apply Hsub|done].
Qed.

Lemma backup_rollback_absent env backupData s :
  storedGroup (BackupGroup.id (BackupData.group backupData)) (db s) = None →
  Backup.restoreGroupFromBackup env backupData rollback s = Err RecordToUpdateNotFound.
Proof.
  intros Habsent.
  unfold Backup.restoreGroupFromBackup, bind,
    prisma.expense_deleteMany, prisma.participant_deleteMany,
    prisma.activity_deleteMany, prisma.modify,
    prisma.group_update, prisma.group_findUnique, prisma.query, bind. simpl.
  unfold storedGroup in Habsent. by rewrite Habsent.
Qed.

Lemma backup_restore_Err env backupData mode s err :
  Backup.restoreGroupFromBackup env backupData mode s = Err err →
  (err = RecordToUpdateNotFound ∧ mode = rollback
   ∧ storedGroup (BackupGroup.id (BackupData.group backupData)) (db s) = None)
  ∨ (¬ unconstrained env ∧ ∃ table, err = ConstraintViolation table)
  ∨ decimalError (backupExpensesToWrite mode backupData (db s)) err
  ∨ castError (backupExpensesToWrite mode backupData (db s)) err
  ∨ (mode ≠ update ∧ activityTypeError env (BackupData.activities backupData) err).
Proof.
  set (groupId := BackupGroup.id (BackupData.group backupData)).
  set (E := λ (m : Mode) (xs : list BackupExpense.t) (e : Error),
              (¬ unconstrained env ∧ ∃ table, e = ConstraintViolation table)
              ∨ decimalError xs e
              ∨ castError xs e
              ∨ (m ≠ update
                 ∧ activityTypeError env (BackupData.activities backupData) e)).
  assert (∀ m xs table, ¬ unconstrained env → E m xs (ConstraintViolation table)) as Hstore
    by (intros m xs table Hc; left; split; [done|by exists table]).
  assert (∀ m xs ws x, x ∈ xs →
                       throws (Backup.createExpense env groupId x ws) (E m xs)) as Hexpense.
  { intros m xs ws x Hx. apply throws_createExpense; [by auto|..].
    - intros e He. right; left. revert He. apply decimalError_mono.
      by intros y ->%list_elem_of_singleton.
    - intros e He. right; right; left. revert He. apply castError_mono.
      by intros y ->%list_elem_of_singleton. }
  assert (∀ m xs, m ≠ update →
            throws (forOf (BackupData.activities backupData) (λ activity,
              let* activityType :=
                Backup.castActivityType env (BackupActivity.activityType activity) in
              prisma.create env (ActivityRow
                (Activity.mk (BackupActivity.id activity) groupId
                   (BackupActivity.time activity) activityType
                   (BackupActivity.participantId activity)
                   (BackupActivity.expenseId activity) (BackupActivity.data activity)))))
              (E m xs)) as Hactivities.
  { intros m xs Hm. apply throws_forOf. intros a Ha. apply throws_bind.
    - apply throws_castActivityType. intros Htype. right; right; right.
      split; [done|]. by exists a.
    - intros activityType. apply throws_create; by auto. }
  assert (∀ m xs,
            throws (forOf (BackupData.participants backupData) (λ participant,
              prisma.create env
                (ParticipantRow (Backup.participantRow groupId participant))))
              (E m xs)) as Hparticipants
    by (intros m xs; apply throws_forOf; intros p _; apply throws_create; by auto).
  assert (∀ m,
            throws (forOfAcc (BackupData.expenses backupData) ([] : list string)
              (λ warnings expense,
                 let* warnings := Backup.createExpense env groupId expense warnings in
                 run Backup.createRecurringExpenseLink env groupId expense then
                 ret warnings)) (E m (BackupData.expenses backupData))) as Hexpenses.
  { intros m. apply throws_forOfAcc. intros ws x Hx.
    apply throws_bind; [by apply Hexpense|].
    intros ws'. apply throws_bind; [|intros; apply throws_ret].
    unfold Backup.createRecurringExpenseLink.
    destruct (BackupExpense.recurringExpenseLink x); [|apply throws_ret].
    apply throws_create; by auto. }
  assert (∀ e, Backup.restoreGroupFromBackup env backupData mode s = Err e →
               (e = RecordToUpdateNotFound ∧ mode = rollback
                ∧ storedGroup groupId (db s) = None)
               ∨ E mode (backupExpensesToWrite mode backupData (db s)) e) as Hclass.
  { intros e Herr. destruct mode.
    - right. revert Herr. unfold Backup.restoreGroupFromBackup.
      apply throws_bind; [apply throws_create; by auto|]. intros _.
      apply throws_bind; [done|]. intros _.
      apply throws_bind; [apply Hexpenses|]. intros ws.
      apply throws_bind; [by apply Hactivities|intros; apply throws_ret].
    - right. unfold Backup.restoreGroupFromBackup in Herr.
      apply bind_Err in Herr as [?|([] & s1 & [_ ->]%ret_Ok & Herr)]; [done|].
      apply bind_Err in Herr as [Herr|([] & s2 & Hps & Herr)].
      { revert Herr. apply throws_bind; [apply throws_nothing_query|]. intros existing.
        apply throws_forOf. intros p _. case_decide; [|apply throws_ret].
        apply throws_create; by auto. }
      apply bind_Ok in Hps as (existingParticipants & s2' & [-> ->]%query_Ok & Hps).
      rewrite forOf_filter in Hps.
      apply createParticipants_Ok in Hps as (_ & _ & He2).
      apply bind_Err in Herr as [Herr|(ws & s3 & _ & Herr)].
      + apply bind_Err in Herr as [?|(existingExpenses & s3' & [-> ->]%query_Ok & Herr)];
          [done|].
        rewrite forOfAcc_filter in Herr.
        unfold backupExpensesToWrite, storedExpenseIds, prisma.expensesOf.
        rewrite <- He2. revert Herr. apply throws_forOfAcc. intros ws x Hx.
        by apply Hexpense.
      + by apply bind_Err in Herr as [?|([] & s4 & _ & ?)].
    - destruct (storedGroup groupId (db s)) as [g|] eqn:Hg.
      + right. unfold Backup.restoreGroupFromBackup in Herr.
        apply bind_Err in Herr as [Herr|([] & s1 & _ & Herr)].
        { apply bind_Err in Herr as [?|([] & s1 & Hdel1 & Herr)]; [done|].
          apply bind_Err in Herr as [?|([] & s2 & Hdel2 & Herr)]; [done|].
          apply bind_Err in Herr as [?|([] & s3 & Hdel3 & Herr)]; [done|].
          apply modify_Ok in Hdel1, Hdel2, Hdel3.
          edestruct (group_update_progress groupId) as [s4 Hs4];
            [|by rewrite Hs4 in Herr].
          rewrite Hdel3, Hdel2, Hdel1. simpl. unfold storedGroup in Hg.
          rewrite Hg. by eexists. }
        revert Herr.
        apply throws_bind; [done|]. intros _.
        apply throws_bind; [apply Hexpenses|]. intros ws.
        apply throws_bind; [by apply Hactivities|intros; apply throws_ret].
      + left. rewrite backup_rollback_absent in Herr by done. by injection Herr as <-. }
  intros Herr. destruct (Hclass _ Herr) as [?|[?|[?|[?|?]]]]; auto 10.
Qed.

Lemma backup_restore_notGroupError env backupData mode s e :
  mode ≠ rollback
  ∨ is_Some (storedGroup (BackupGroup.id (BackupData.group backupData)) (db s)) →
  Backup.restoreGroupFromBackup env backupData mode s = Err e →
  notGroupError e.
Proof.
  intros Hgroup
    [(-> & -> & Habsent)
    |[[_ [table ->]]
     |[(x & text & _ & _ & _ & ->)
      |[(x & _ & [[_ ->]|(v & _ & _ & ->)])
       |[_ (a & _ & _ & ->)]]]]]%backup_restore_Err; try by split.
  destruct Hgroup as [?|[g Hg]]; [done|]. by rewrite Hg in Habsent.
Qed.

(** X3. The errors of the full-backup Restore Engine.  It throws the
    store's 'Record to update not found.' exactly in rollback mode on a store
    without the Group of the backup.  Every other error is one of four: a
    rejection of a row by the schema; the decimal constructor's rejection of
    the conversion rate of an expense the restore is to write; the rejection
    of the split-mode or recurrence-rule text of such an expense, which is no
    member of its enumeration; or, in create and rollback mode, the rejection
    of the type of an activity of the backup, which is no member of the
    enumeration of activity types.  It never reports a missing Group in update
    mode, and never a payer or split participant that is not in the backup.
    The decimal constructor's error does arise: under a schema without
    constraints (and with the Group stored, in rollback mode) a restore whose
    first expense to write has a conversion rate the constructor rejects
    throws that error, whatever the split-mode text of the expense. *)
Theorem backup_restore_errors env backupData mode s :
  let groupId := BackupGroup.id (BackupData.group backupData) in
  (Backup.restoreGroupFromBackup env backupData mode s = Err RecordToUpdateNotFound
   ↔ mode = rollback ∧ storedGroup groupId (db s) = None)
  ∧ (∀ e, Backup.restoreGroupFromBackup env backupData mode s = Err e →
          e = RecordToUpdateNotFound
          ∨ (¬ unconstrained env ∧ ∃ table, e = ConstraintViolation table)
          ∨ decimalError (backupExpensesToWrite mode backupData (db s)) e
          ∨ castError (backupExpensesToWrite mode backupData (db s)) e
          ∨ (mode ≠ update
             ∧ activityTypeError env (BackupData.activities backupData) e))
  ∧ (∀ expense rest text,
       unconstrained env →
       (mode = rollback → is_Some (storedGroup groupId (db s))) →
       backupExpensesToWrite mode backupData (db s) = expense :: rest →
       truthy (BackupExpense.conversionRate expense) = Some text →
       Decimal.accepts text = false →
       Backup.restoreGroupFromBackup env backupData mode s = Err (DecimalError text)).
Proof.
  intros groupId. split; [split|split].
  - intros [(_ & -> & Habsent)
           |[[_ [table ?]]
            |[(x & text & _ & _ & _ & ?)
             |[(x & _ & [[_ ?]|(v & _ & _ & ?)])
              |[_ (a & _ & _ & ?)]]]]]%backup_restore_Err; done.
  - intros [-> Habsent]. by apply backup_rollback_absent.
  - intros e [(-> & _)|?]%backup_restore_Err; [by left|by right].
  - intros expense rest text Hall Hgroup Hwrite Htext Hrejected. subst groupId.
    set (groupId := BackupGroup.id (BackupData.group backupData)) in Hgroup.
    assert (∀ ws t, Backup.createExpense env groupId expense ws t
                    = Err (DecimalError text)) as Hfirst.
    { intros ws t.
      unfold Backup.createExpense, bind, Backup.decimalOrNull, Backup.newDecimal.
      rewrite Htext. unfold bind. by rewrite Hrejected. }
    assert (succeeds (forOf (BackupData.participants backupData) (λ participant,
              prisma.create env
                (ParticipantRow (Backup.participantRow groupId participant)))))
      as Hparticipants
      by (apply succeeds_forOf; intros p _; by apply succeeds_create).
    destruct mode; unfold Backup.restoreGroupFromBackup; subst groupId.
    + simpl in Hwrite. rewrite Hwrite.
      edestruct (succeeds_create env) as (u1 & s1 & H1); [done|].
      rewrite (bind_step _ _ _ _ _ H1).
      destruct (Hparticipants s1) as (u2 & s2 & H2).
      rewrite (bind_step _ _ _ _ _ H2).
      cbn [forOfAcc]. unfold bind. by rewrite Hfirst.
    + rewrite (bind_step _ _ s tt s) by done.
      match goal with
      | |- bind ?loop _ _ = _ => assert (succeeds loop) as Hloop
      end.
      { apply succeeds_bind; [apply succeeds_query|]. intros existing.
        apply succeeds_forOf. intros p _. case_decide; [|apply succeeds_ret].
        by apply succeeds_create. }
      destruct (Hloop s) as (u2 & s2 & Hps).
      rewrite (bind_step _ _ _ _ _ Hps).
      apply bind_Ok in Hps as (existingParticipants & s2' & [-> ->]%query_Ok & Hps).
      rewrite forOf_filter in Hps.
      apply createParticipants_Ok in Hps as (_ & _ & He2).
      apply bind_Err. left. apply bind_Err. right.
      eexists _, _. split; [reflexivity|].
      rewrite forOfAcc_filter.
      unfold backupExpensesToWrite, storedExpenseIds, prisma.expensesOf in Hwrite.
      rewrite <- He2 in Hwrite. unfold prisma.expensesOf. rewrite Hwrite.
      cbn [forOfAcc]. unfold bind. by rewrite Hfirst.
    + simpl in Hwrite. rewrite Hwrite.
      match goal with
      | |- bind ?first _ _ = _ =>
          assert (∃ u1 s1, first s = Ok (u1, s1)) as (u1 & s1 & H1)
      end.
      { eapply bind_returns; [reflexivity|].
        eapply bind_returns; [reflexivity|].
        eapply bind_returns; [reflexivity|].
        match goal with
        | |- ∃ _ _, prisma.group_update ?id ?data ?s0 = _ =>
            destruct (group_update_progress id data s0) as (s1 & Hupd);
              [by apply Hgroup|]
        end.
        by exists tt, s1. }
      rewrite (bind_step _ _ _ _ _ H1).
      destruct (Hparticipants s1) as (u2 & s2 & H2).
      rewrite (bind_step _ _ _ _ _ H2).
      cbn [forOfAcc]. unfold bind. by rewrite Hfirst.
Qed.

Lemma backup_restore_errors_witness :
  Backup.restoreGroupFromBackup Examples.env MoreExamples.oddBackup create
    (mkTx emptyStore 0) = Err (DecimalError "abc")
  ∧ (DecimalError "abc" = RecordToUpdateNotFound
     ∨ (¬ unconstrained Examples.env
        ∧ ∃ table, DecimalError "abc" = ConstraintViolation table)
     ∨ decimalError (backupExpensesToWrite create MoreExamples.oddBackup emptyStore)
         (DecimalError "abc")
     ∨ castError (backupExpensesToWrite create MoreExamples.oddBackup emptyStore)
         (DecimalError "abc")
     ∨ (create ≠ update
        ∧ activityTypeError Examples.env (BackupData.activities MoreExamples.oddBackup)
            (DecimalError "abc"))).
Proof.
  split.
  - apply (proj2 (proj2 (backup_restore_errors Examples.env MoreExamples.oddBackup
                           create (mkTx emptyStore 0))) MoreExamples.oddExpense [] "abc").
    + intros s r. reflexivity.
    + intros Hmode. discriminate Hmode.
    + reflexivity.
    + vm_compute. reflexivity.
    + vm_compute. reflexivity.
  - apply (proj1 (proj2 (backup_restore_errors Examples.env MoreExamples.oddBackup
                           create (mkTx emptyStore 0)))).
    vm_compute. reflexivity.
Defined.

Lemma Error_message_group e :
  (Error_message e = "Group not found" → e = GroupNotFound)
  ∧ (Error_message e = "Record to update not found." → e = RecordToUpdateNotFound).
Proof. destruct e; simpl; split; intros H; done || discriminate. Qed.

Lemma Error_message_notGroupError e :
  notGroupError e →
  Error_message e ≠ "Group not found" ∧ Error_message e ≠ "Record to update not found.".
Proof.
  intros [Hfound Hrecord]. split; intros Hmessage.
  - by apply Hfound, Error_message_group.
  - by apply Hrecord, Error_message_group.
Qed.

(** X4. The import routes choose the mode so that the Restore Engine finds
    the Group it needs: create when the Group is not stored, update or
    rollback only when it is.  So no answer of either route carries the
    details 'Group not found' or 'Record to update not found.'. *)
Theorem import_routes_find_their_group env action s status error details :
  (∀ file, (JsonRoute.POST env file action s).1 = ErrorResponse status error (Some details) →
           details ≠ "Group not found" ∧ details ≠ "Record to update not found.")
  ∧ (∀ file, (BackupRoute.POST env file action s).1
             = ErrorResponse status error (Some details) →
             details ≠ "Group not found" ∧ details ≠ "Record to update not found.").
Proof.
  split.
  - intros [jsonData|]; [|done]. unfold JsonRoute.POST, JsonRoute.POST_with.
    case_decide; [done|]. case_decide; [done|]. case_decide; [|done].
    assert (∀ mode,
      mode = create ∨ is_Some (storedGroup (JSONImportData.id jsonData) (db s)) →
      (JsonRoute.executeRestore (JsonImport.restoreGroupFromJSON env) jsonData mode s).1
      = ErrorResponse status error (Some details) →
      details ≠ "Group not found" ∧ details ≠ "Record to update not found.") as Hrun.
    { intros mode Hmode. unfold JsonRoute.executeRestore, transaction.
      destruct (JsonImport.restoreGroupFromJSON env jsonData mode s) as [[u s']|e] eqn:Hrestore;
        [done|].
      simpl. intros [= _ _ <-]. eapply Error_message_notGroupError, json_restore_notGroupError;
        done. }
    unfold JsonRoute.findExistingGroup, storedGroup in *.
    destruct (List.find _ (groups (db s))) as [g|] eqn:Hg; simpl.
    + unfold JsonImport.compareJSONVersions.
      repeat (case_decide; simpl; try done); apply Hrun; right; by eexists.
    + apply Hrun. by left.
  - intros [backupData|]; [|done]. unfold BackupRoute.POST, BackupRoute.POST_with.
    case_decide; [done|]. case_decide; [done|]. case_decide; [|done].
    assert (∀ mode,
      mode = create
      ∨ is_Some (storedGroup (BackupGroup.id (BackupData.group backupData)) (db s)) →
      (BackupRoute.executeRestore (Backup.restoreGroupFromBackup env) backupData mode s).1
      = ErrorResponse status error (Some details) →
      details ≠ "Group not found" ∧ details ≠ "Record to update not found.") as Hrun.
    { intros mode Hmode. unfold BackupRoute.executeRestore, transaction.
      destruct (Backup.restoreGroupFromBackup env backupData mode s) as [[u s']|e] eqn:Hrestore;
        [done|].
      simpl. intros [= _ _ <-].
      eapply Error_message_notGroupError, backup_restore_notGroupError; [|done].
      destruct Hmode as [->|?]; [by left|by right]. }
    unfold BackupRoute.findExistingGroup, storedGroup in *.
    destruct (List.find _ (groups (db s))) as [g|] eqn:Hg; simpl.
    + unfold Backup.compareVersions.
      repeat (case_decide; simpl; try done); apply Hrun; right; by eexists.
    + apply Hrun. by left.
Qed.

Lemma import_routes_find_their_group_witness :
  Error_message (InvalidPaidById "p3" "Dinner" true) ≠ "Group not found"
  ∧ Error_message (InvalidPaidById "p3" "Dinner" true) ≠ "Record to update not found.".
Proof.
  apply (proj1 (import_routes_find_their_group Examples.env "restore" (mkTx emptyStore 0)
                  500 "Failed to process JSON file"
                  (Error_message (InvalidPaidById "p3" "Dinner" true)))
           (Some Examples.dangling)).
  vm_compute. reflexivity.
Defined.

(** ** Other groups *)

Lemma filter_app_one {A} (P : A → Prop) `{∀ x, Decision (P x)} (l : list A) x :
  ¬ P x → filter P (l ++ [x])%list = filter P l.
Proof.
  intros Hx. rewrite filter_app, filter_cons_False by done.
  by rewrite filter_nil, app_nil_r.
Qed.

Lemma filter_filter_neg {A} (P Q : A → Prop) `{∀ x, Decision (P x)} `{∀ x, Decision (Q x)}
    (l : list A) :
  (∀ x, P x → Q x) → filter P (filter Q l) = filter P l.
Proof.
  intros HPQ. rewrite list_filter_filter. apply list_filter_iff.
  intros x. split; [by intros [? _]|by auto].
Qed.

Lemma preserves_forOf_elem {A T} (π : Store → T) (body : A → Tx unit) xs :
  (∀ x, x ∈ xs → preserves π (body x)) → preserves π (forOf xs body).
Proof.
  induction xs as [|x xs IH]; intros Hbody; simpl.
  - apply preserves_ret.
  - apply preserves_bind; [apply Hbody, elem_of_cons; by left|].
    intros _. apply IH. intros y Hy. apply Hbody, elem_of_cons. by right.
Qed.

Lemma preserves_forOfAcc_elem {A B T} (π : Store → T) (body : B → A → Tx B) xs acc :
  (∀ b x, x ∈ xs → preserves π (body b x)) → preserves π (forOfAcc xs acc body).
Proof.
  revert acc. induction xs as [|x xs IH]; intros acc Hbody; simpl.
  - apply preserves_ret.
  - apply preserves_bind; [apply Hbody, elem_of_cons; by left|].
    intros acc'. apply IH. intros b y Hy. apply Hbody, elem_of_cons. by right.
Qed.

Lemma otherRows_insert groupId own ids r d :
  match r with
  | GroupRow g => Group.id g = groupId
  | ParticipantRow p => Participant.groupId p = groupId
  | ExpenseRow e => Expense.groupId e = groupId
  | ActivityRow a => Activity.groupId a = groupId
  | RecurringExpenseLinkRow l => RecurringExpenseLink.groupId l = groupId
  | ExpenseDocumentRow doc => ExpenseDocument.id doc ∈ ids
  | _ => True
  end →
  otherRows groupId own ids (insertRow r d) = otherRows groupId own ids d.
Proof.
  intros Hr. unfold otherRows, otherGroups, otherDocuments.
  destruct r; simpl; try done; rewrite filter_app_one; try done; try by intros ?.
  by intros [_ ?].
Qed.

Lemma preserves_otherRows_group_update groupId own ids data :
  (∀ g, Group.id (data g) = Group.id g) →
  preserves (otherRows groupId own ids) (prisma.group_update groupId data).
Proof.
  intros Hid. apply preserves_bind; [apply preserves_query|].
  intros [g|]; [|by intros ? ? ?].
  apply preserves_modify. intros d. unfold otherRows, otherGroups. simpl.
  f_equal. f_equal. f_equal. f_equal.
  f_equal. induction (groups d) as [|g' gs IH]; [done|]. rewrite fmap_cons.
  case_decide as Hg'.
  - rewrite !filter_cons_False; [done|by intros ?|].
    rewrite Hid. by intros ?.
  - by rewrite !filter_cons_True, IH.
Qed.

Lemma preserves_otherRows_deletes groupId own ids :
  preserves (otherRows groupId own ids)
    (prisma.expensePaidFor_deleteMany (λ e, Expense.groupId e = groupId))
  ∧ preserves (otherRows groupId own ids)
      (prisma.expense_deleteMany (λ e, Expense.groupId e = groupId))
  ∧ preserves (otherRows groupId own ids)
      (prisma.participant_deleteMany (λ p, Participant.groupId p = groupId))
  ∧ preserves (otherRows groupId own ids)
      (prisma.activity_deleteMany (λ a, Activity.groupId a = groupId)).
Proof.
  repeat split; apply preserves_modify; intros d; unfold otherRows, otherGroups; simpl;
    try done; by rewrite filter_filter_neg by auto.
Qed.

Lemma preserves_otherRows_importExpense env verbose jsonData importTime
    (participantIds : gset string) own ids expense :
  preserves (otherRows (JSONImportData.id jsonData) own ids)
    (JsonImport.importExpense env verbose jsonData importTime participantIds expense).
Proof.
  unfold JsonImport.importExpense. case_decide; [by intros ? ? ?|].
  apply preserves_bind.
  { apply preserves_forOf. intros pf. case_decide; [by intros ? ? ?|apply preserves_ret]. }
  intros _. apply preserves_bind.
  { destruct (JSONExpense.category expense) as [c|]; [|apply preserves_ret].
    apply preserves_bind; [apply preserves_query|]. intros found.
    apply preserves_bind; [|intros; apply preserves_ret].
    destruct found; [apply preserves_ret|].
    apply preserves_bind; [apply preserves_query|]. intros nextId.
    apply preserves_bind; [|intros; apply preserves_ret].
    apply preserves_create. intros d. by apply otherRows_insert. }
  intros categoryId. apply preserves_bind; [apply preserves_randomUUID|].
  intros expenseId. apply preserves_bind.
  { apply preserves_bind; [apply preserves_nextTick|intros; apply preserves_ret]. }
  intros createdAt. apply preserves_bind.
  { apply preserves_create. intros d. by apply otherRows_insert. }
  intros _. apply preserves_bind.
  { apply preserves_forOf. intros pf. apply preserves_create. intros d.
    by apply otherRows_insert. }
  intros _. apply preserves_bind; [apply preserves_randomUUID|].
  intros activityId. apply preserves_create. intros d. by apply otherRows_insert.
Qed.

Lemma preserves_now {T} (π : Store → T) env : preserves π (prisma.now env).
Proof. apply preserves_bind; [apply preserves_nextTick|intros; apply preserves_ret]. Qed.

Lemma preserves_otherRows_markImportStart env jsonData mode importTime own ids :
  preserves (otherRows (JSONImportData.id jsonData) own ids)
    (JsonImport.markImportStart env jsonData mode importTime).
Proof.
  apply preserves_bind; [apply preserves_randomUUID|]. intros id.
  apply preserves_create. intros d. by apply otherRows_insert.
Qed.

Lemma preserves_otherRows_json env jsonData mode own ids :
  preserves (otherRows (JSONImportData.id jsonData) own ids)
    (JsonImport.restoreGroupFromJSON env jsonData mode).
Proof.
  destruct (preserves_otherRows_deletes (JSONImportData.id jsonData) own ids)
    as (Hdel1 & Hdel2 & Hdel3 & Hdel4).
  unfold JsonImport.restoreGroupFromJSON.
  apply preserves_bind; [apply preserves_now|]. intros importTime. destruct mode.
  - apply preserves_bind; [apply preserves_now|]. intros createdAt.
    apply preserves_bind.
    { apply preserves_create. intros d. by apply otherRows_insert. }
    intros _. apply preserves_bind.
    { apply preserves_forOf. intros p. apply preserves_create. intros d.
      by apply otherRows_insert. }
    intros _. apply preserves_bind; [apply preserves_otherRows_markImportStart|].
    intros _. apply preserves_forOf. intros x. apply preserves_otherRows_importExpense.
  - apply preserves_bind; [apply preserves_query|]. intros existingGroup.
    apply preserves_bind; [apply preserves_query|]. intros existingParticipants.
    apply preserves_bind; [apply preserves_query|]. intros existingExpenses.
    destruct existingGroup; [|by intros ? ? ?].
    apply preserves_bind; [apply preserves_otherRows_markImportStart|]. intros _.
    apply preserves_bind; [by apply preserves_otherRows_group_update|]. intros _.
    apply preserves_bind.
    { apply preserves_forOfAcc. intros known p. case_decide; [|apply preserves_ret].
      apply preserves_bind; [|intros; apply preserves_ret].
      apply preserves_create. intros d. by apply otherRows_insert. }
    intros known. apply preserves_forOf. intros x. case_decide; [|apply preserves_ret].
    apply preserves_otherRows_importExpense.
  - apply preserves_bind; [done|]. intros _.
    apply preserves_bind; [done|]. intros _.
    apply preserves_bind; [done|]. intros _.
    apply preserves_bind; [done|]. intros _.
    apply preserves_bind; [by apply preserves_otherRows_group_update|]. intros _.
    apply preserves_bind; [apply preserves_otherRows_markImportStart|]. intros _.
    apply preserves_bind.
    { apply preserves_forOfAcc. intros known p.
      apply preserves_bind; [|intros; apply preserves_ret].
      apply preserves_create. intros d. by apply otherRows_insert. }
    intros known. apply preserves_forOf. intros x. apply preserves_otherRows_importExpense.
Qed.

Lemma preserves_castSplitMode {T} (π : Store → T) value :
  preserves π (Backup.castSplitMode value).
Proof. intros s m s' ->%castSplitMode_Ok. done. Qed.

Lemma preserves_castRecurrenceRule {T} (π : Store → T) value :
  preserves π (Backup.castRecurrenceRule value).
Proof. intros s m s' ->%castRecurrenceRule_Ok. done. Qed.

Lemma preserves_decimalOrNull {T} (π : Store → T) value :
  preserves π (Backup.decimalOrNull value).
Proof. by intros s rate s' (_ & -> & _)%decimalOrNull_Ok. Qed.

Lemma preserves_castActivityType {T} (π : Store → T) env value :
  preserves π (Backup.castActivityType env value).
Proof. by intros s t s' (_ & -> & _)%castActivityType_Ok. Qed.

Lemma preserves_otherRows_upsert env groupId own ids doc :
  ExpenseDocument.id doc ∈ ids →
  preserves (otherRows groupId own ids) (prisma.expenseDocument_upsert env doc).
Proof.
  intros Hdoc. apply preserves_bind; [apply preserves_query|].
  intros []; [|apply preserves_create; intros d; by apply otherRows_insert].
  apply preserves_modify. intros d. unfold otherRows, otherDocuments. simpl. f_equal.
  induction (expenseDocuments d) as [|x xs IH]; [done|]. rewrite fmap_cons.
  case_decide as Hx.
  - rewrite !filter_cons_False; [done| |by intros [_ ?]].
    rewrite Hx. by intros [_ ?].
  - rewrite !filter_cons. case_decide; by rewrite IH.
Qed.

Lemma preserves_otherRows_createExpense env groupId own ids expense warnings :
  (∀ doc, doc ∈ BackupExpense.documents expense → BackupDocument.id doc ∈ ids) →
  preserves (otherRows groupId own ids)
    (Backup.createExpense env groupId expense warnings).
Proof.
  intros Hdocs. unfold Backup.createExpense.
  apply preserves_bind; [apply preserves_decimalOrNull|]. intros rate.
  apply preserves_bind; [apply preserves_castSplitMode|]. intros splitMode.
  apply preserves_bind; [apply preserves_castRecurrenceRule|]. intros recurrenceRule.
  apply preserves_bind.
  { apply preserves_create. intros d. by apply otherRows_insert. }
  intros _. apply preserves_bind.
  { apply preserves_forOf. intros pf. apply preserves_create. intros d.
    by apply otherRows_insert. }
  intros _. apply preserves_forOfAcc_elem. intros ws doc Hdoc.
  apply preserves_bind; [apply preserves_checkUrlExists|].
  intros []; [|apply preserves_ret].
  apply preserves_bind; [|intros; apply preserves_ret].
  apply preserves_otherRows_upsert. by apply Hdocs.
Qed.

Lemma backupDocumentIds_elem_of backupData expense doc :
  expense ∈ BackupData.expenses backupData →
  doc ∈ BackupExpense.documents expense →
  BackupDocument.id doc ∈ backupDocumentIds backupData.
Proof.
  intros Hexpense Hdoc. unfold backupDocumentIds.
  apply elem_of_list_to_set, list_elem_of_fmap. exists doc. split; [done|].
  apply list_elem_of_bind. by exists expense.
Qed.

Lemma preserves_otherRows_backup env backupData mode own :
  preserves (otherRows (BackupGroup.id (BackupData.group backupData)) own
               (backupDocumentIds backupData))
    (Backup.restoreGroupFromBackup env backupData mode).
Proof.
  set (groupId := BackupGroup.id (BackupData.group backupData)).
  set (ids := backupDocumentIds backupData).
  destruct (preserves_otherRows_deletes groupId own ids) as (Hdel1 & Hdel2 & Hdel3 & Hdel4).
  assert (∀ x ws, x ∈ BackupData.expenses backupData →
            preserves (otherRows groupId own ids)
              (Backup.createExpense env groupId x ws)) as Hexpense.
  { intros x ws Hx. apply preserves_otherRows_createExpense. intros doc Hdoc.
    by apply (backupDocumentIds_elem_of backupData x). }
  unfold Backup.restoreGroupFromBackup. fold groupId.
  apply preserves_bind.
  { destruct mode.
    - apply preserves_create. intros d. by apply otherRows_insert.
    - apply preserves_ret.
    - apply preserves_bind; [done|]. intros _.
      apply preserves_bind; [done|]. intros _.
      apply preserves_bind; [done|]. intros _.
      by apply preserves_otherRows_group_update. }
  intros _. apply preserves_bind.
  { destruct mode.
    - apply preserves_forOf. intros p. apply preserves_create. intros d.
      by apply otherRows_insert.
    - apply preserves_bind; [apply preserves_query|]. intros existing.
      apply preserves_forOf. intros p. case_decide; [|apply preserves_ret].
      apply preserves_create. intros d. by apply otherRows_insert.
    - apply preserves_forOf. intros p. apply preserves_create. intros d.
      by apply otherRows_insert. }
  intros _.
  assert (∀ ws, preserves (otherRows groupId own ids)
            (forOfAcc (BackupData.expenses backupData) ws (λ warnings expense,
               let* warnings := Backup.createExpense env groupId expense warnings in
               run Backup.createRecurringExpenseLink env groupId expense then
               ret warnings))) as Hexpenses.
  { intros ws. apply preserves_forOfAcc_elem. intros ws' x Hx.
    apply preserves_bind; [by apply Hexpense|]. intros ws''.
    apply preserves_bind; [|intros; apply preserves_ret].
    unfold Backup.createRecurringExpenseLink.
    destruct (BackupExpense.recurringExpenseLink x); [|apply preserves_ret].
    apply preserves_create. intros d. by apply otherRows_insert. }
  assert (preserves (otherRows groupId own ids)
            (forOf (BackupData.activities backupData) (λ activity,
               let* activityType :=
                 Backup.castActivityType env (BackupActivity.activityType activity) in
               prisma.create env (ActivityRow
                 (Activity.mk (BackupActivity.id activity) groupId
                    (BackupActivity.time activity) activityType
                    (BackupActivity.participantId activity)
                    (BackupActivity.expenseId activity) (BackupActivity.data activity))))))
    as Hactivities.
  { apply preserves_forOf. intros a.
    apply preserves_bind; [apply preserves_castActivityType|]. intros activityType.
    apply preserves_create. intros d. by apply otherRows_insert. }
  apply preserves_bind.
  { destruct mode; [done| |done].
    apply preserves_bind; [apply preserves_query|]. intros existing.
    apply preserves_forOfAcc_elem. intros ws x Hx. case_decide; [|apply preserves_ret].
    by apply Hexpense. }
  intros ws. apply preserves_bind; [|intros; apply preserves_ret].
  destruct mode; [done|apply preserves_ret|done].
Qed.

Lemma preserves_otherRows_undoImport groupId own ids lastImport :
  preserves (otherRows groupId own ids) (UndoRoute.undoImport groupId lastImport).
Proof.
  unfold UndoRoute.undoImport.
  apply preserves_bind; [by apply preserves_modify|]. intros _.
  apply preserves_bind; apply preserves_modify || intros _.
  - intros d. unfold otherRows, otherGroups. simpl.
    by rewrite filter_filter_neg by (intros e Hother [Hgroup _]; done).
  - apply preserves_modify. intros d. unfold otherRows, otherGroups. simpl.
    by rewrite filter_filter_neg by (intros a Hother [Hgroup _]; done).
Qed.

Lemma transaction_preserves {A T} (π : Store → T) (m : Tx A) s :
  preserves π m → π (db (transaction m s).2) = π (db s).
Proof.
  intros Hm. unfold transaction. destruct (m s) as [[a s']|e] eqn:Hrun; [|done].
  by eapply Hm.
Qed.

(** X5. What a restore leaves of the rows of other groups.  Whatever the
    mode, and whether the transaction commits or rolls back, both Restore
    Engines leave the Group, Participant, Expense, Activity and
    recurring-expense-link rows of every other group as they were, and so does
    the undo of an import.  Of the documents attached to expenses that are not
    the group's, the lightweight engine and the undo leave all as they were;
    the full-backup engine leaves those stored under an identifier that no
    document of the backup has.  A document stored under an identifier of the
    backup is not protected: the example restores [receiptBackup], group g1,
    into a store where its document identifier is that of a document of an
    expense of group g2, and the stored document is replaced by one attached
    to the restored expense of g1. *)
Theorem restore_leaves_other_groups :
  (∀ env mode s jsonData,
     let groupId := JSONImportData.id jsonData in
     let own := storedExpenseIds groupId (db s) in
     let s' := (transaction (JsonImport.restoreGroupFromJSON env jsonData mode) s).2 in
     otherGroups groupId (db s') = otherGroups groupId (db s)
     ∧ otherDocuments own ∅ (db s') = otherDocuments own ∅ (db s))
  ∧ (∀ env mode s backupData,
       let groupId := BackupGroup.id (BackupData.group backupData) in
       let own := storedExpenseIds groupId (db s) in
       let s' := (transaction (Backup.restoreGroupFromBackup env backupData mode) s).2 in
       otherGroups groupId (db s') = otherGroups groupId (db s)
       ∧ otherDocuments own (backupDocumentIds backupData) (db s')
         = otherDocuments own (backupDocumentIds backupData) (db s))
  ∧ (∀ s groupId lastImport,
       let own := storedExpenseIds groupId (db s) in
       let s' := (transaction (UndoRoute.undoImport groupId lastImport) s).2 in
       otherGroups groupId (db s') = otherGroups groupId (db s)
       ∧ otherDocuments own ∅ (db s') = otherDocuments own ∅ (db s))
  ∧ (let s := mkTx MoreExamples.flatStore 0 in
     let s' := (transaction (Backup.restoreGroupFromBackup Examples.env
                               MoreExamples.receiptBackup create) s).2 in
     let stored := ExpenseDocument.mk "d1" "https://files.example/lease.png" 800 600 "x1" in
     let restored :=
       ExpenseDocument.mk "d1" "https://files.example/receipt.png" 640 480 "e1" in
     expenseDocuments (db s) = [stored]
     ∧ Expense.groupId <$> filter (λ e, Expense.id e = "x1") (expenses (db s)) = ["g2"]
     ∧ expenseDocuments (db s') = [restored]
     ∧ Expense.groupId <$> filter (λ e, Expense.id e = "e1") (expenses (db s')) = ["g1"]).
Proof.
  split; [|split; [|split]].
  - intros env mode s jsonData groupId own s'.
    apply pair_equal_spec.
    apply (transaction_preserves (otherRows groupId own ∅)), preserves_otherRows_json.
  - intros env mode s backupData groupId own s'.
    apply pair_equal_spec.
    apply (transaction_preserves (otherRows groupId own (backupDocumentIds backupData))),
      preserves_otherRows_backup.
  - intros s groupId lastImport own s'.
    apply pair_equal_spec.
    apply (transaction_preserves (otherRows groupId own ∅)),
      preserves_otherRows_undoImport.
  - vm_compute. repeat split.
Qed.

(** ** The trace of an import *)

Lemma quiet_refl s : quiet s s.
Proof. by repeat split. Qed.

Lemma quiet_trans s1 s2 s3 : quiet s1 s2 → quiet s2 s3 → quiet s1 s3.
Proof.
  intros (Ht1 & He1 & Ha1) (Ht2 & He2 & Ha2). repeat split; [lia|congruence|congruence].
Qed.

Lemma evolves_ret {A} (a : A) : evolves quiet (ret a).
Proof. intros s b s' [_ ->]%ret_Ok. apply quiet_refl. Qed.

Lemma evolves_bind {A B} (m : Tx A) (k : A → Tx B) :
  evolves quiet m → (∀ a, evolves quiet (k a)) → evolves quiet (bind m k).
Proof.
  intros Hm Hk s b s' (a & s1 & Ha & Hb)%bind_Ok.
  eapply quiet_trans; [by eapply Hm|by eapply Hk].
Qed.

Lemma evolves_forOf {A} (body : A → Tx unit) xs :
  (∀ x, evolves quiet (body x)) → evolves quiet (forOf xs body).
Proof.
  intros Hbody. induction xs as [|x rest IH]; simpl; [apply evolves_ret|].
  apply evolves_bind; [apply Hbody|done].
Qed.

Lemma evolves_forOfAcc {A B} (body : B → A → Tx B) xs acc :
  (∀ b x, evolves quiet (body b x)) → evolves quiet (forOfAcc xs acc body).
Proof.
  intros Hbody. revert acc. induction xs as [|x rest IH]; intros acc; simpl;
    [apply evolves_ret|].
  apply evolves_bind; [apply Hbody|done].
Qed.

Lemma evolves_query {A} (f : Store → A) : evolves quiet (prisma.query f).
Proof. intros s a s' [_ ->]%query_Ok. apply quiet_refl. Qed.

Lemma evolves_nextTick : evolves quiet prisma.nextTick.
Proof. intros s a s'. unfold prisma.nextTick. intros [= _ <-]. repeat split. simpl. lia. Qed.

Lemma evolves_randomUUID env : evolves quiet (prisma.randomUUID env).
Proof. apply evolves_bind; [apply evolves_nextTick|intros; apply evolves_ret]. Qed.

Lemma evolves_now env : evolves quiet (prisma.now env).
Proof. apply evolves_bind; [apply evolves_nextTick|intros; apply evolves_ret]. Qed.

Lemma evolves_create env r :
  match r with ExpenseRow _ | ActivityRow _ => False | _ => True end →
  evolves quiet (prisma.create env r).
Proof.
  intros Hr s u s' (_ & Hdb & Htick)%create_Ok. unfold quiet. rewrite Hdb, Htick.
  by destruct r.
Qed.

Lemma evolves_modify f :
  (∀ d, expenses (f d) = expenses d ∧ activities (f d) = activities d) →
  evolves quiet (prisma.modify f).
Proof.
  intros Hf s u s'. unfold prisma.modify. intros Hs. injection Hs as Hs. subst s'.
  unfold quiet. simpl. by destruct (Hf (db s)) as [-> ->].
Qed.

Lemma evolves_group_update id data : evolves quiet (prisma.group_update id data).
Proof.
  apply evolves_bind; [apply evolves_query|].
  intros [g|]; [|by intros ? ? ?]. by apply evolves_modify.
Qed.

Lemma markImportStart_Ok env jsonData mode importTime s u s' :
  JsonImport.markImportStart env jsonData mode importTime s = Ok (u, s') →
  (tick s ≤ tick s')%nat
  ∧ expenses (db s') = expenses (db s)
  ∧ ∃ marker, activities (db s') = (activities (db s) ++ [marker])%list
              ∧ importMarker env jsonData mode importTime marker.
Proof.
  unfold JsonImport.markImportStart.
  intros (id & s1 & Hid & (_ & Hdb & Htick)%create_Ok)%bind_Ok.
  pose proof (evolves_randomUUID env _ _ _ Hid) as (Ht1 & He1 & Ha1).
  apply randomUUID_Ok in Hid as [-> _].
  rewrite Hdb, Htick. simpl. rewrite He1, Ha1.
  repeat split; [done|]. eexists. split; [done|]. by eexists.
Qed.

Lemma importExpense_log env verbose jsonData importTime participantIds expense s u s' :
  JsonImport.importExpense env verbose jsonData importTime participantIds expense s
    = Ok (u, s') →
  (tick s ≤ tick s')%nat
  ∧ ∃ row a, expenses (db s') = (expenses (db s) ++ [row])%list
             ∧ activities (db s') = (activities (db s) ++ [a])%list
             ∧ Expense.groupId row = JSONImportData.id jsonData
             ∧ Expense.title row = JSONExpense.title expense
             ∧ createdFrom env (tick s) row
             ∧ loggedAs env importTime row a.
Proof.
  unfold JsonImport.importExpense. case_decide as Hpayer; [done|].
  intros (u1 & s1 & Hrefs & Hrun)%bind_Ok.
  apply referencesLoop_Ok in Hrefs as [-> Hrefs].
  apply bind_Ok in Hrun as (categoryId & s2 & Hcat & Hrun).
  assert (quiet s s2) as (Ht2 & He2 & Ha2).
  { revert Hcat. generalize s categoryId s2.
    destruct (JSONExpense.category expense) as [c|]; [|apply evolves_ret].
    apply evolves_bind; [apply evolves_query|]. intros found.
    apply evolves_bind; [|intros; apply evolves_ret].
    destruct found; [apply evolves_ret|].
    apply evolves_bind; [apply evolves_query|]. intros nextId.
    apply evolves_bind; [by apply evolves_create|intros; apply evolves_ret]. }
  apply bind_Ok in Hrun as (expenseId & s3 & Hid & Hrun).
  pose proof (evolves_randomUUID env _ _ _ Hid) as (Ht3 & He3 & Ha3).
  apply randomUUID_Ok in Hid as [-> _].
  apply bind_Ok in Hrun as (createdAt & s4 & Hnow & Hrun).
  pose proof (evolves_now env _ _ _ Hnow) as (Ht4 & He4 & Ha4).
  apply now_Ok in Hnow as [-> _].
  apply bind_Ok in Hrun as (u5 & s5 & (_ & Hdb5 & Htick5)%create_Ok & Hrun).
  apply bind_Ok in Hrun as (u6 & s6 & Hshares & Hrun).
  assert (quiet s5 s6) as (Ht6 & He6 & Ha6).
  { revert Hshares. generalize s5 u6 s6.
    apply evolves_forOf. intros pf. by apply evolves_create. }
  apply bind_Ok in Hrun as (activityId & s7 & Hid & (_ & Hdb & Htick)%create_Ok).
  pose proof (evolves_randomUUID env _ _ _ Hid) as (Ht7 & He7 & Ha7).
  apply randomUUID_Ok in Hid as [-> _].
  split; [lia|]. rewrite Hdb. simpl. rewrite He7, Ha7, He6, Ha6, Hdb5. simpl.
  rewrite He4, Ha4, He3, Ha3, He2, Ha2.
  eexists _, _. split; [done|]. split; [done|]. simpl.
  split; [done|]. split; [done|]. split.
  { exists (tick s3). split; [lia|done]. }
  unfold loggedAs. simpl. repeat split; try done. by eexists.
Qed.

Lemma importLoop_log env verbose jsonData importTime participantIds xs s u s' :
  forOf xs (JsonImport.importExpense env verbose jsonData importTime participantIds) s
    = Ok (u, s') →
  (tick s ≤ tick s')%nat
  ∧ ∃ rows acts, expenses (db s') = (expenses (db s) ++ rows)%list
                 ∧ activities (db s') = (activities (db s) ++ acts)%list
                 ∧ Forall2 (λ x row, Expense.title row = JSONExpense.title x) xs rows
                 ∧ Forall (λ row, Expense.groupId row = JSONImportData.id jsonData
                                  ∧ createdFrom env (tick s) row) rows
                 ∧ Forall2 (loggedAs env importTime) rows acts.
Proof.
  revert s. induction xs as [|x rest IH]; intros s; simpl.
  - intros [_ ->]%ret_Ok. split; [done|]. exists [], [].
    rewrite !app_nil_r. repeat split; by constructor.
  - intros (u1 & s1 & Hx & Hrest)%bind_Ok.
    apply importExpense_log in Hx
      as (Ht1 & row & a & He1 & Ha1 & Hgroup & Htitle & Hcreated & Hlogged).
    apply IH in Hrest as (Ht & rows & acts & He & Ha & Htitles & Hrows & Hacts).
    split; [lia|]. exists (row :: rows), (a :: acts).
    rewrite He, Ha, He1, Ha1, <- !app_assoc. repeat split; try done.
    + by constructor.
    + constructor; [done|]. eapply Forall_impl; [done|]. simpl.
      intros r [? (n & ? & ?)]. split; [done|]. exists n. split; [lia|done].
    + by constructor.
Qed.
Lemma now_tick env s t s' :
  prisma.now env s = Ok (t, s') →
  t = clockAt env (tick s) ∧ db s' = db s ∧ tick s' = S (tick s).
Proof. unfold prisma.now, prisma.nextTick, bind, ret. by intros [= <- <-]. Qed.

Lemma modify_tick f s u s' :
  prisma.modify f s = Ok (u, s') → db s' = f (db s) ∧ tick s' = tick s.
Proof. unfold prisma.modify. intros Hs. injection Hs as Hs. by subst s'. Qed.

Lemma evolves_createParticipants env groupId (ps : list SnapshotParticipant.t) :
  evolves quiet
    (forOf ps (λ p, prisma.create env (ParticipantRow (JsonImport.participantRow groupId p)))).
Proof. apply evolves_forOf. intros p. by apply evolves_create. Qed.

Lemma createdFrom_mono env t t' row :
  (t ≤ t')%nat → createdFrom env t' row → createdFrom env t row.
Proof. intros Ht (n & Hn & Hrow). exists n. split; [lia|done]. Qed.

(** The Expense and Activity tables after a restore of the lightweight
    format. *)
Lemma json_restore_log env jsonData mode s u s' :
  JsonImport.restoreGroupFromJSON env jsonData mode s = Ok (u, s') →
  ∃ marker rows acts,
    expenses (db s')
    = (survivingExpenses mode (JSONImportData.id jsonData) (db s) ++ rows)%list
    ∧ activities (db s')
      = (survivingActivities mode (JSONImportData.id jsonData) (db s)
           ++ marker :: acts)%list
    ∧ importMarker env jsonData mode (clockAt env (tick s)) marker
    ∧ Forall2 (λ x row, Expense.title row = JSONExpense.title x)
        (jsonExpensesToWrite mode jsonData (db s)) rows
    ∧ Forall (λ row, Expense.groupId row = JSONImportData.id jsonData
                     ∧ createdFrom env (S (tick s)) row) rows
    ∧ Forall2 (loggedAs env (clockAt env (tick s))) rows acts.
Proof.
  assert (∀ verbose participantIds xs (kept : list Expense.t) s1 marker u0 s2
            (old : list Activity.t),
    (S (tick s) ≤ tick s1)%nat →
    activities (db s1) = (old ++ [marker])%list →
    forOf xs (JsonImport.importExpense env verbose jsonData (clockAt env (tick s))
                participantIds) s1 = Ok (u0, s2) →
    expenses (db s1) = kept →
    ∃ rows acts,
      expenses (db s2) = (kept ++ rows)%list
      ∧ activities (db s2) = (old ++ marker :: acts)%list
      ∧ Forall2 (λ x row, Expense.title row = JSONExpense.title x) xs rows
      ∧ Forall (λ row, Expense.groupId row = JSONImportData.id jsonData
                       ∧ createdFrom env (S (tick s)) row) rows
      ∧ Forall2 (loggedAs env (clockAt env (tick s))) rows acts) as Hloop.
  { intros verbose participantIds xs kept s1 marker u0 s2 old Htick Hold Hrun Hexp.
    apply importLoop_log in Hrun as (_ & rows & acts & He & Ha & Htitles & Hrows & Hacts).
    exists rows, acts. rewrite He, Ha, Hold, Hexp, <- app_assoc.
    repeat split; try done.
    eapply Forall_impl; [done|]. simpl. intros row [? ?]. split; [done|].
    by eapply createdFrom_mono. }
  unfold JsonImport.restoreGroupFromJSON.
  intros (importTime & s1 & (-> & Hdb1 & Htick1)%now_tick & Hrun)%bind_Ok.
  destruct mode.
  - apply bind_Ok in Hrun as (createdAt & s2 & (Ht2 & He2 & Ha2)%evolves_now & Hrun).
    apply bind_Ok in Hrun as (u3 & s3 & (Ht3 & He3 & Ha3)%evolves_create & Hrun); [|done].
    apply bind_Ok in Hrun
      as (u4 & s4 & (Ht4 & He4 & Ha4)%evolves_createParticipants & Hrun).
    apply bind_Ok in Hrun
      as (u5 & s5 & (Ht5 & He5 & marker & Ha5 & Hmarker)%markImportStart_Ok & Hrun).
    eapply (Hloop _ _ _ (expenses (db s)) _ marker _ _ (activities (db s))) in Hrun
      as (rows & acts & He & Ha & Hrest);
      [|lia|by rewrite Ha5, Ha4, Ha3, Ha2, Hdb1|by rewrite He5, He4, He3, He2, Hdb1].
    by exists marker, rows, acts.
  - apply bind_Ok in Hrun as (existingGroup & s2 & [-> ->]%group_findUnique_Ok & Hrun).
    apply bind_Ok in Hrun as (existingParticipants & s2 & [-> ->]%query_Ok & Hrun).
    apply bind_Ok in Hrun as (existingExpenses & s2 & [-> ->]%query_Ok & Hrun).
    rewrite Hdb1 in Hrun.
    destruct (List.find _ (groups (db s))) as [g|] eqn:Hfind; [|done].
    apply bind_Ok in Hrun
      as (u3 & s3 & (Ht3 & He3 & marker & Ha3 & Hmarker)%markImportStart_Ok & Hrun).
    apply bind_Ok in Hrun as (u4 & s4 & (Ht4 & He4 & Ha4)%evolves_group_update & Hrun).
    apply bind_Ok in Hrun as (known & s5 & Hadd & Hrun).
    assert (quiet s4 s5) as (Ht5 & He5 & Ha5).
    { revert Hadd. generalize s4 known s5. apply evolves_forOfAcc. intros ids p.
      case_decide; [|apply evolves_ret].
      apply evolves_bind; [by apply evolves_create|intros; apply evolves_ret]. }
    rewrite forOf_filter in Hrun.
    eapply (Hloop _ _ _ (expenses (db s)) _ marker _ _ (activities (db s))) in Hrun
      as (rows & acts & He & Ha & Hrest);
      [|lia|by rewrite Ha5, Ha4, Ha3, Hdb1|by rewrite He5, He4, He3, Hdb1].
    by exists marker, rows, acts.
  - apply bind_Ok in Hrun as (u2 & s2 & [Hdb2 Ht2]%modify_tick & Hrun).
    apply bind_Ok in Hrun as (u3 & s3 & [Hdb3 Ht3]%modify_tick & Hrun).
    apply bind_Ok in Hrun as (u4 & s4 & [Hdb4 Ht4]%modify_tick & Hrun).
    apply bind_Ok in Hrun as (u5 & s5 & [Hdb5 Ht5]%modify_tick & Hrun).
    apply bind_Ok in Hrun as (u6 & s6 & (Ht6 & He6 & Ha6)%evolves_group_update & Hrun).
    apply bind_Ok in Hrun
      as (u7 & s7 & (Ht7 & He7 & marker & Ha7 & Hmarker)%markImportStart_Ok & Hrun).
    apply bind_Ok in Hrun as (known & s8 & Hadd & Hrun).
    assert (quiet s7 s8) as (Ht8 & He8 & Ha8).
    { revert Hadd. generalize s7 known s8. apply evolves_forOfAcc. intros ids p.
      apply evolves_bind; [by apply evolves_create|intros; apply evolves_ret]. }
    eapply (Hloop _ _ _ (survivingExpenses rollback (JSONImportData.id jsonData) (db s))
              _ marker _ _
              (survivingActivities rollback (JSONImportData.id jsonData) (db s))) in Hrun
      as (rows & acts & He & Ha & Hrest);
      [|lia
       |by rewrite Ha8, Ha7, Ha6, Hdb5, Hdb4, Hdb3, Hdb2, Hdb1
       |by rewrite He8, He7, He6, Hdb5, Hdb4, Hdb3, Hdb2, Hdb1].
    by exists marker, rows, acts.
Qed.

(** X6. The activity log of an import of the lightweight format.  A
    restore that returns has appended to the Activity table (from which
    rollback has first removed the group's records) one marker record,
    carrying the mode and the number of expenses of the snapshot, and after it
    one CREATE_EXPENSE record per Expense row it wrote, in the same order,
    naming that row; all of them carry the time read at the start of the
    restore. *)
Theorem json_restore_activity_log env jsonData mode s u s' :
  JsonImport.restoreGroupFromJSON env jsonData mode s = Ok (u, s') →
  let groupId := JSONImportData.id jsonData in
  let importTime := clockAt env (tick s) in
  ∃ marker rows acts,
    expenses (db s') = (survivingExpenses mode groupId (db s) ++ rows)%list
    ∧ length rows = length (jsonExpensesToWrite mode jsonData (db s))
    ∧ activities (db s') = (survivingActivities mode groupId (db s) ++ marker :: acts)%list
    ∧ Activity.groupId marker = groupId
    ∧ Activity.time marker = importTime
    ∧ Activity.activityType marker = "UPDATE_GROUP"
    ∧ Activity.data marker
      = Some (JsonImport.importStartMarker mode (length (JSONImportData.expenses jsonData)))
    ∧ Forall2 (loggedAs env importTime) rows acts.
Proof.
  intros (marker & rows & acts & He & Ha & [n ->] & Htitles & _ & Hacts)%json_restore_log.
  exists (Activity.mk (uuidAt env n) (JSONImportData.id jsonData) (clockAt env (tick s))
            "UPDATE_GROUP" None None
            (Some (JsonImport.importStartMarker mode
                     (length (JSONImportData.expenses jsonData))))), rows, acts.
  simpl. repeat split; try done. symmetry. by eapply Forall2_length.
Qed.

Lemma json_restore_activity_log_witness :
  ∃ marker rows acts,
    expenses (db Examples.afterJsonCreate) = ([] ++ rows)%list
    ∧ length rows = 3%nat
    ∧ activities (db Examples.afterJsonCreate) = ([] ++ marker :: acts)%list
    ∧ Activity.groupId marker = "g1"
    ∧ Activity.time marker = 1000
    ∧ Activity.activityType marker = "UPDATE_GROUP"
    ∧ Activity.data marker = Some "JSON_IMPORT_START:create:3 expenses"
    ∧ Forall2 (loggedAs Examples.env 1000) rows acts.
Proof.
  apply (json_restore_activity_log Examples.env Examples.trip create (mkTx emptyStore 0) tt
           Examples.afterJsonCreate).
  vm_compute. reflexivity.
Defined.

(** ** The import-marker probe *)

Lemma GET_true groupId s :
  MarkerRoute.GET groupId s = true
  ↔ ∃ a, a ∈ activities s ∧ Activity.groupId a = groupId
         ∧ UndoRoute.isImportMarker a = true.
Proof.
  unfold MarkerRoute.GET. split.
  - destruct (List.find _ _) as [a|] eqn:Hfind; [|done]. intros _.
    apply find_some in Hfind as [Hin [Hgroup Hmarker]%andb_prop].
    exists a. rewrite list_elem_of_In. by apply bool_decide_eq_true in Hgroup.
  - intros (a & Hin & Hgroup & Hmarker).
    destruct (List.find _ _) as [a'|] eqn:Hfind; [done|].
    apply list_elem_of_In in Hin. eapply find_none in Hfind; [|done].
    simpl in Hfind. rewrite Hmarker, bool_decide_eq_true_2 in Hfind; done.
Qed.

Lemma importMarker_isImportMarker env jsonData mode importTime marker :
  importMarker env jsonData mode importTime marker →
  Activity.groupId marker = JSONImportData.id jsonData
  ∧ Activity.time marker = importTime
  ∧ UndoRoute.isImportMarker marker = true.
Proof. intros [n ->]. by destruct mode. Qed.

(** X7. The probe and the undo route agree: for a stored group the probe
    answers [false] exactly when an undo request is refused with 'No import
    found to undo'; and after an import of the lightweight format that
    returned, in any mode, the probe answers [true] for the group of the
    snapshot. *)
Theorem marker_probe_agrees_with_undo :
  (∀ groupId s,
     is_Some (storedGroup groupId (db s)) →
     (MarkerRoute.GET groupId (db s) = false
      ↔ UndoRoute.POST groupId "undo-import" s
        = (ErrorResponse 400 "No import found to undo" None, s)))
  ∧ (∀ env jsonData mode s u s',
       JsonImport.restoreGroupFromJSON env jsonData mode s = Ok (u, s') →
       MarkerRoute.GET (JSONImportData.id jsonData) (db s') = true).
Proof.
  split.
  - intros groupId s [g Hg]. unfold UndoRoute.POST. unfold storedGroup in Hg. rewrite Hg.
    rewrite decide_True by done.
    destruct (UndoRoute.includedActivities groupId (db s) !! 0%nat) as [marker|] eqn:Hlast.
    + apply includedActivities_latest in Hlast as (Hin & Hgroup & Hmarker & _).
      assert (MarkerRoute.GET groupId (db s) = true) as ->
        by (apply GET_true; by exists marker).
      split; [done|]. unfold transaction.
      by destruct (UndoRoute.undoImport groupId marker s) as [[[] ?]|?].
    + split; [done|]. intros _. apply not_true_is_false.
      intros (a & Hin & Hgroup & Hmarker)%GET_true.
      destruct (includedActivities_some groupId (db s) a) as [marker Hsome]; try done.
      by rewrite Hsome in Hlast.
  - intros env jsonData mode s u s'
      (marker & rows & acts & _ & Ha & Hmarker & _)%json_restore_log.
    apply importMarker_isImportMarker in Hmarker as (Hgroup & _ & Hmarker).
    apply GET_true. exists marker. split; [|done].
    rewrite Ha. apply elem_of_app. right. apply elem_of_cons. by left.
Qed.

Lemma marker_probe_agrees_with_undo_witness :
  MarkerRoute.GET "g1" (db Examples.afterJsonCreate) = true.
Proof.
  apply (proj2 marker_probe_agrees_with_undo Examples.env Examples.trip create
           (mkTx emptyStore 0) tt Examples.afterJsonCreate).
  vm_compute. reflexivity.
Defined.

(** ** Undoing an import *)

Lemma storedGroup_is_Some groupId s :
  is_Some (storedGroup groupId s) ↔ groupId ∈ Group.id <$> groups s.
Proof.
  unfold storedGroup. split.
  - intros [g Hg]. apply find_some in Hg as [Hin Hid%bool_decide_eq_true].
    apply list_elem_of_fmap. exists g. by rewrite list_elem_of_In.
  - intros (g & -> & Hin)%list_elem_of_fmap. by eapply find_group_some.
Qed.

(** After a restore of the lightweight format that returned, the Group of
    the snapshot is stored. *)
Lemma json_restore_group_stored env jsonData mode s u s' :
  JsonImport.restoreGroupFromJSON env jsonData mode s = Ok (u, s') →
  is_Some (storedGroup (JSONImportData.id jsonData) (db s')).
Proof.
  intros Hrun. apply storedGroup_is_Some. destruct mode.
  - apply json_create_Ok in Hrun as ((g & -> & <-) & _).
    rewrite fmap_app. apply elem_of_app. right. apply elem_of_cons. by left.
  - apply json_update_Ok in Hrun as (-> & Hfound & _). by apply storedGroup_is_Some.
  - apply json_rollback_Ok in Hrun as (-> & Hfound & _). by apply storedGroup_is_Some.
Qed.

Lemma filter_all {A} (P : A → Prop) `{∀ x, Decision (P x)} (l : list A) :
  (∀ x, x ∈ l → P x) → filter P l = l.
Proof.
  induction l as [|x l IH]; intros Hall; [done|].
  rewrite filter_cons_True by (apply Hall, elem_of_cons; by left).
  rewrite IH; [done|]. intros y Hy. apply Hall, elem_of_cons. by right.
Qed.

Lemma loggedAs_group_time env importTime groupId rows acts :
  Forall2 (loggedAs env importTime) rows acts →
  Forall (λ row, Expense.groupId row = groupId) rows →
  Forall (λ a, Activity.groupId a = groupId ∧ Activity.time a = importTime) acts.
Proof.
  induction 1 as [|row a rows acts (_ & Hgroup & Htime & _) _ IH]; intros Hrows;
    [by constructor|].
  apply Forall_cons in Hrows as [Hrow Hrows].
  constructor; [|by apply IH]. split; [congruence|done].
Qed.

Lemma undoImport_Ok groupId lastImport s :
  ∃ s', UndoRoute.undoImport groupId lastImport s = Ok (tt, s')
        ∧ expenses (db s')
          = filter (λ e, ¬ (Expense.groupId e = groupId
                            ∧ Activity.time lastImport ≤ Expense.createdAt e))
              (expenses (db s))
        ∧ activities (db s')
          = filter (λ a, ¬ (Activity.groupId a = groupId
                            ∧ Activity.time lastImport ≤ Activity.time a))
              (activities (db s))
        ∧ participants (db s') = participants (db s)
        ∧ groups (db s') = groups (db s).
Proof. by eexists. Qed.

(** X8. Undo after an import of the lightweight format.  When the clock
    never goes back and the Expenses and Activities the import left of the
    group are older than its start, the undo request that follows a restore is
    answered with success and removes exactly what the restore appended: the
    Expense and Activity tables are those the restore started from (less what
    a rollback deleted).  The Participants the import added and the Group row
    it wrote or renamed stay. *)
Theorem undo_reverts_import env jsonData mode s u s1 :
  let groupId := JSONImportData.id jsonData in
  let importTime := clockAt env (tick s) in
  monotoneClock env →
  JsonImport.restoreGroupFromJSON env jsonData mode s = Ok (u, s1) →
  (∀ e, e ∈ survivingExpenses mode groupId (db s) → Expense.groupId e = groupId →
        Expense.createdAt e < importTime) →
  (∀ a, a ∈ survivingActivities mode groupId (db s) → Activity.groupId a = groupId →
        Activity.time a < importTime) →
  ∃ s2,
    UndoRoute.POST groupId "undo-import" s1 = (Success "Successfully undid last import", s2)
    ∧ expenses (db s2) = survivingExpenses mode groupId (db s)
    ∧ activities (db s2) = survivingActivities mode groupId (db s)
    ∧ participants (db s2) = participants (db s1)
    ∧ groups (db s2) = groups (db s1).
Proof.
  intros groupId importTime Hclock Hrun Holder Holder'.
  pose proof (json_restore_group_stored _ _ _ _ _ _ Hrun) as [g Hg].
  apply json_restore_log in Hrun
    as (marker & rows & acts & He & Ha & Hmarker & _ & Hrows & Hacts).
  apply importMarker_isImportMarker in Hmarker as (Hmgroup & Hmtime & Hmmarker).
  assert (Forall (λ a, Activity.groupId a = groupId ∧ Activity.time a = importTime)
            (marker :: acts)) as Hnew.
  { constructor; [done|]. eapply loggedAs_group_time; [done|].
    eapply Forall_impl; [done|]. by intros row [? _]. }
  assert (marker ∈ activities (db s1)) as Hin.
  { rewrite Ha. apply elem_of_app. right. apply elem_of_cons. by left. }
  destruct (includedActivities_some groupId (db s1) marker Hin Hmgroup Hmmarker)
    as [lastImport Hlast].
  destruct (includedActivities_latest groupId (db s1) lastImport Hlast)
    as (Hlin & Hlgroup & _ & Hmax).
  assert (Activity.time lastImport = importTime) as Hltime.
  { rewrite Ha in Hlin. apply elem_of_app in Hlin as [Hold|Hlnew].
    - specialize (Holder' _ Hold Hlgroup). specialize (Hmax _ Hin Hmgroup Hmmarker). lia.
    - rewrite Forall_forall in Hnew. by apply Hnew. }
  destruct (undoImport_Ok groupId lastImport s1) as (s2 & Hundo & He2 & Ha2 & Hp2 & Hg2).
  exists s2. unfold UndoRoute.POST. unfold storedGroup in Hg. fold groupId in Hg.
  rewrite Hg, decide_True, Hlast by done.
  rewrite (transaction_Ok _ _ _ _ Hundo). split; [done|].
  rewrite He2, Ha2, He, Ha, !filter_app, Hltime. repeat split; try done.
  - rewrite filter_all, (filter_none _ rows), app_nil_r; [done| |].
    + intros row Hrow Hkept. apply Hkept. rewrite Forall_forall in Hrows.
      destruct (Hrows _ Hrow) as [Hgroup (n & Hn & Hcreated)]. split; [done|].
      rewrite Hcreated. apply Hclock. lia.
    + intros e Hold [Hgroup Htime]. specialize (Holder _ Hold Hgroup). lia.
  - rewrite filter_all, (filter_none _ (marker :: acts)), app_nil_r; [done| |].
    + intros a Hnewa Hkept. apply Hkept. rewrite Forall_forall in Hnew.
      destruct (Hnew _ Hnewa) as [Hgroup Hatime]. split; [done|lia].
    + intros a Hold [Hgroup Htime]. specialize (Holder' _ Hold Hgroup). lia.
Qed.

Lemma undo_reverts_import_witness :
  ∃ s2,
    UndoRoute.POST "g1" "undo-import" MoreExamples.afterLunchUpdate
    = (Success "Successfully undid last import", s2)
    ∧ expenses (db s2) = expenses MoreExamples.olderStore
    ∧ activities (db s2) = activities MoreExamples.olderStore
    ∧ participants (db s2) = participants (db MoreExamples.afterLunchUpdate)
    ∧ groups (db s2) = groups (db MoreExamples.afterLunchUpdate).
Proof.
  apply (undo_reverts_import Examples.env Examples.lunch update
           (mkTx MoreExamples.olderStore 0) tt MoreExamples.afterLunchUpdate).
  - intros m n Hmn. simpl. lia.
  - vm_compute. reflexivity.
  - intros e [->|Hin%elem_of_nil]%elem_of_cons _; [reflexivity|done].
  - intros a [->|Hin%elem_of_nil]%elem_of_cons _; [reflexivity|done].
Defined.

(** ** Analysing a snapshot after its restore *)

Lemma backup_restore_covers env backupData mode s result s' :
  Backup.restoreGroupFromBackup env backupData mode s = Ok (result, s') →
  (∀ p, p ∈ BackupData.participants backupData →
        SnapshotParticipant.id p
        ∈ storedParticipantIds (BackupGroup.id (BackupData.group backupData)) (db s'))
  ∧ (∀ e, e ∈ BackupData.expenses backupData →
          BackupExpense.id e
          ∈ storedExpenseIds (BackupGroup.id (BackupData.group backupData)) (db s')).
Proof.
  intros Hrun.
  assert (mode = update ∨ (backupParticipantsToWrite mode backupData (db s)
                           = BackupData.participants backupData
                           ∧ backupExpensesToWrite mode backupData (db s)
                             = BackupData.expenses backupData)) as [->|[Hps Hes]]
    by (destruct mode; auto).
  { by apply backup_update_covers in Hrun. }
  apply backup_restore_Ok in Hrun as (_ & Hp & rows & He & Hrows).
  rewrite Hps in Hp. rewrite Hes in Hrows.
  set (groupId := BackupGroup.id (BackupData.group backupData)) in *. split.
  - intros p Hin. unfold storedParticipantIds, prisma.participantsOf.
    rewrite Hp, filter_app, fmap_app, list_to_set_app, elem_of_union. right.
    rewrite elem_of_list_to_set, list_elem_of_fmap.
    exists (Backup.participantRow groupId p). split; [done|].
    apply list_elem_of_filter. split; [done|].
    apply list_elem_of_fmap. by exists p.
  - intros e Hin. unfold storedExpenseIds, prisma.expensesOf.
    rewrite He, filter_app, fmap_app, list_to_set_app, elem_of_union. right.
    destruct (Forall2_elem_of_l _ _ _ _ Hrows Hin) as (row & Hrow & Hid & Hgid & _).
    rewrite elem_of_list_to_set, list_elem_of_fmap.
    exists row. split; [done|].
    apply list_elem_of_filter. done.
Qed.

Lemma filter_eq_filter_ne {A} (f : A → string) (x : string) (l : list A) :
  filter (λ a, f a = x) (filter (λ a, f a ≠ x) l) = [].
Proof. apply filter_none. by intros a [? _]%list_elem_of_filter. Qed.

Lemma backup_rollback_only env backupData s result s' :
  Backup.restoreGroupFromBackup env backupData rollback s = Ok (result, s') →
  let groupId := BackupGroup.id (BackupData.group backupData) in
  Participant.id <$> prisma.participantsOf groupId (db s')
  = SnapshotParticipant.id <$> BackupData.participants backupData
  ∧ Expense.id <$> prisma.expensesOf groupId (db s')
    = BackupExpense.id <$> BackupData.expenses backupData.
Proof.
  intros (_ & Hp & rows & He & Hrows)%backup_restore_Ok groupId. simpl in *.
  fold groupId in Hp, He, Hrows. unfold prisma.participantsOf, prisma.expensesOf.
  rewrite Hp, He, !filter_app.
  rewrite (filter_eq_filter_ne Participant.groupId), (filter_eq_filter_ne Expense.groupId).
  simpl. split.
  - rewrite filter_all.
    + rewrite <- list_fmap_compose. by apply list_fmap_ext.
    + by intros p (q & -> & _)%list_elem_of_fmap.
  - rewrite filter_all.
    + clear He. induction Hrows as [|x row xs rows (Hid & _) _ IH]; [done|].
      by rewrite !fmap_cons, Hid, IH.
    + intros row Hrow.
      by destruct (Forall2_elem_of_r _ _ _ _ Hrows Hrow) as (x & _ & _ & Hgid & _).
Qed.

(** X9. Analysing a full backup against the group its restore has just
    written: whatever the mode, no expense and no participant of the backup is
    reported as added; after a rollback none is reported as removed either. *)
Theorem backup_differences_after_restore env backupData mode s result s' existing :
  Backup.restoreGroupFromBackup env backupData mode s = Ok (result, s') →
  BackupRoute.findExistingGroup (BackupGroup.id (BackupData.group backupData)) (db s')
  = Some existing →
  let differences := Backup.calculateDifferences backupData existing in
  Differences.addedExpenses differences = 0%nat
  ∧ Differences.addedParticipants differences = 0%nat
  ∧ (mode = rollback →
     Differences.removedExpenses differences = 0%nat
     ∧ Differences.removedParticipants differences = 0%nat).
Proof.
  intros Hrun Hexisting. unfold BackupRoute.findExistingGroup in Hexisting.
  destruct (List.find _ _) as [g|]; [|done]. injection Hexisting as <-.
  unfold Backup.calculateDifferences. simpl. rewrite <- list_fmap_compose.
  change (Backup.ExistingExpense.id ∘ _) with Expense.id.
  pose proof (backup_restore_covers _ _ _ _ _ _ Hrun) as [Hparticipants Hexpenses].
  repeat split.
  - rewrite filter_none; [done|]. intros e He Hnew. by apply Hnew, Hexpenses.
  - rewrite filter_none; [done|]. intros p Hp Hnew. by apply Hnew, Hparticipants.
  - subst mode. apply backup_rollback_only in Hrun as [_ Hes].
    rewrite filter_none; [done|]. intros e He Hgone. simpl in Hgone. apply Hgone.
    rewrite elem_of_list_to_set, <- Hes. apply list_elem_of_fmap.
    apply list_elem_of_fmap in He as (row & -> & Hrow). by exists row.
  - subst mode. apply backup_rollback_only in Hrun as [Hps _].
    rewrite filter_none; [done|]. intros p Hp Hgone. apply Hgone.
    by rewrite elem_of_list_to_set, <- Hps.
Qed.

Lemma backup_differences_after_restore_witness :
  let existing :=
    Backup.ExistingGroup.mk 1000 ["p1"; "p2"]
      [Backup.ExistingExpense.mk "e1" 50; Backup.ExistingExpense.mk "e2" 20] [60] in
  let differences := Backup.calculateDifferences Examples.tripBackup existing in
  Differences.addedExpenses differences = 0%nat
  ∧ Differences.addedParticipants differences = 0%nat
  ∧ (update = rollback →
     Differences.removedExpenses differences = 0%nat
     ∧ Differences.removedParticipants differences = 0%nat).
Proof.
  apply (backup_differences_after_restore Examples.env Examples.tripBackup update
           (mkTx Examples.liveStore 0) (Backup.RestoreResult.mk true [])
           Examples.afterBackupUpdate).
  - vm_compute. reflexivity.
  - vm_compute. reflexivity.
Defined.

Lemma json_restore_covers env jsonData mode s u s' :
  JsonImport.restoreGroupFromJSON env jsonData mode s = Ok (u, s') →
  (∀ p, p ∈ JSONImportData.participants jsonData →
        SnapshotParticipant.id p ∈ storedParticipantIds (JSONImportData.id jsonData) (db s'))
  ∧ (∀ e, e ∈ JSONImportData.expenses jsonData →
          JsonImport.expenseKey (JSONExpense.expenseDate e) (JSONExpense.title e)
          ∈ storedExpenseKeys (JSONImportData.id jsonData) (db s')).
Proof.
  intros Hrun.
  assert (mode = update ∨ (jsonParticipantsToWrite mode jsonData (db s)
                           = JSONImportData.participants jsonData
                           ∧ jsonExpensesToWrite mode jsonData (db s)
                             = JSONImportData.expenses jsonData)) as [->|[Hps Hes]]
    by (destruct mode; auto).
  { by apply json_update_covers in Hrun. }
  apply json_restore_Ok in Hrun as (rows & Hp & He & Hrows & _).
  rewrite Hps in Hp. rewrite Hes in Hrows.
  set (groupId := JSONImportData.id jsonData) in *. split.
  - intros p Hin. unfold storedParticipantIds, prisma.participantsOf.
    rewrite Hp, filter_app, fmap_app, list_to_set_app, elem_of_union. right.
    rewrite elem_of_list_to_set, list_elem_of_fmap.
    exists (JsonImport.participantRow groupId p). split; [done|].
    apply list_elem_of_filter. split; [done|].
    apply list_elem_of_fmap. by exists p.
  - intros e Hin. unfold storedExpenseKeys, prisma.expensesOf.
    rewrite He, filter_app, fmap_app, list_to_set_app, elem_of_union. right.
    destruct (Forall2_elem_of_l _ _ _ _ Hrows Hin)
      as (row & Hrow & _ & Hgid & Hdate & Htitle & _).
    rewrite elem_of_list_to_set, list_elem_of_fmap.
    exists row. split; [by rewrite Hdate, Htitle|].
    apply list_elem_of_filter. done.
Qed.

Lemma json_rollback_only env jsonData s u s' :
  JsonImport.restoreGroupFromJSON env jsonData rollback s = Ok (u, s') →
  let groupId := JSONImportData.id jsonData in
  Participant.id <$> prisma.participantsOf groupId (db s')
  = SnapshotParticipant.id <$> JSONImportData.participants jsonData
  ∧ Expense.expenseDate <$> prisma.expensesOf groupId (db s')
    = JSONExpense.expenseDate <$> JSONImportData.expenses jsonData.
Proof.
  intros (rows & Hp & He & Hrows & _)%json_restore_Ok groupId. simpl in *.
  fold groupId in Hp, He, Hrows. unfold prisma.participantsOf, prisma.expensesOf.
  rewrite Hp, He, !filter_app.
  rewrite (filter_eq_filter_ne Participant.groupId), (filter_eq_filter_ne Expense.groupId).
  simpl. split.
  - rewrite filter_all.
    + rewrite <- list_fmap_compose. by apply list_fmap_ext.
    + by intros p (q & -> & _)%list_elem_of_fmap.
  - rewrite filter_all.
    + clear He. induction Hrows as [|x row xs rows (_ & _ & Hdate & _) _ IH]; [done|].
      by rewrite !fmap_cons, Hdate, IH.
    + intros row Hrow.
      by destruct (Forall2_elem_of_r _ _ _ _ Hrows Hrow) as (x & _ & _ & Hgid & _).
Qed.

(** X10. Analysing a JSON snapshot against the group its restore has just
    written: whatever the mode, no expense and no participant of the snapshot
    is reported as added; after a rollback none is reported as removed
    either. *)
Theorem json_differences_after_restore env jsonData mode s u s' existing :
  JsonImport.restoreGroupFromJSON env jsonData mode s = Ok (u, s') →
  JsonRoute.findExistingGroup (JSONImportData.id jsonData) (db s') = Some existing →
  let differences := JsonImport.calculateJSONDifferences jsonData existing in
  Differences.addedExpenses differences = 0%nat
  ∧ Differences.addedParticipants differences = 0%nat
  ∧ (mode = rollback →
     Differences.removedExpenses differences = 0%nat
     ∧ Differences.removedParticipants differences = 0%nat).
Proof.
  intros Hrun Hexisting. unfold JsonRoute.findExistingGroup in Hexisting.
  destruct (List.find _ _) as [g|]; [|done]. injection Hexisting as <-.
  unfold JsonImport.calculateJSONDifferences. simpl. rewrite <- list_fmap_compose.
  pose proof (json_restore_covers _ _ _ _ _ _ Hrun) as [Hparticipants Hexpenses].
  repeat split.
  - rewrite filter_none; [done|]. intros e He Hnew. apply Hnew.
    specialize (Hexpenses _ He). unfold storedExpenseKeys in Hexpenses.
    apply elem_of_list_to_set, list_elem_of_fmap in Hexpenses as (row & [= Hdate _] & Hrow).
    apply elem_of_list_to_set, list_elem_of_fmap. exists row. simpl. by rewrite Hdate.
  - rewrite filter_none; [done|]. intros p Hp Hnew. by apply Hnew, Hparticipants.
  - subst mode. apply json_rollback_only in Hrun as [_ Hes].
    rewrite filter_none; [done|]. intros e He Hgone. simpl in Hgone. apply Hgone.
    apply list_elem_of_fmap in He as (row & -> & Hrow). simpl.
    assert (Expense.expenseDate row
            ∈ JSONExpense.expenseDate <$> JSONImportData.expenses jsonData)
      as (x & Hdate & Hx)%list_elem_of_fmap
      by (rewrite <- Hes; apply list_elem_of_fmap; by exists row).
    apply elem_of_list_to_set, list_elem_of_fmap. exists x. by rewrite Hdate.
  - subst mode. apply json_rollback_only in Hrun as [Hps _].
    rewrite filter_none; [done|]. intros p Hp Hgone. apply Hgone.
    rewrite Hps in Hp. apply list_elem_of_fmap in Hp as (jp & -> & Hjp).
    apply Exists_exists. by exists jp.
Qed.

Lemma json_differences_after_restore_witness :
  let existing :=
    JsonImport.ExistingGroup.mk 1001 ["p1"; "p2"]
      [JsonImport.ExistingExpense.mk "uuid-3" 1004 10;
       JsonImport.ExistingExpense.mk "uuid-6" 1007 20;
       JsonImport.ExistingExpense.mk "uuid-9" 1010 90000000]
      [1000; 1000; 1000; 1000] in
  let differences := JsonImport.calculateJSONDifferences Examples.trip existing in
  Differences.addedExpenses differences = 0%nat
  ∧ Differences.addedParticipants differences = 0%nat
  ∧ (create = rollback →
     Differences.removedExpenses differences = 0%nat
     ∧ Differences.removedParticipants differences = 0%nat).
Proof.
  apply (json_differences_after_restore Examples.env Examples.trip create
           (mkTx emptyStore 0) tt Examples.afterJsonCreate).
  - vm_compute. reflexivity.
  - vm_compute. reflexivity.
Defined.

(** ** When a restore returns *)

Lemma json_create_progress env jsonData s :
  unconstrained env →
  Forall (validReferences
            (list_to_set (SnapshotParticipant.id <$> JSONImportData.participants jsonData)))
    (JSONImportData.expenses jsonData) →
  ∃ u s', JsonImport.restoreGroupFromJSON env jsonData create s = Ok (u, s').
Proof.
  intros Hall Hvalid. revert s. change (succeeds (JsonImport.restoreGroupFromJSON env jsonData create)).
  unfold JsonImport.restoreGroupFromJSON.
  apply succeeds_bind; [apply succeeds_now|]. intros importTime.
  apply succeeds_bind; [apply succeeds_now|]. intros createdAt.
  apply succeeds_bind; [by apply succeeds_create|]. intros _.
  apply succeeds_bind.
  { apply succeeds_forOf. intros p _. by apply succeeds_create. }
  intros _. apply succeeds_bind; [by apply succeeds_markImportStart|]. intros _.
  apply succeeds_forOf. intros x Hx. apply succeeds_importExpense; [done|].
  rewrite Forall_forall in Hvalid. by apply Hvalid.
Qed.

Lemma json_rollback_progress env jsonData s :
  unconstrained env →
  is_Some (storedGroup (JSONImportData.id jsonData) (db s)) →
  Forall (validReferences
            (list_to_set (SnapshotParticipant.id <$> JSONImportData.participants jsonData)))
    (JSONImportData.expenses jsonData) →
  ∃ u s', JsonImport.restoreGroupFromJSON env jsonData rollback s = Ok (u, s').
Proof.
  intros Hall Hfound Hvalid. unfold JsonImport.restoreGroupFromJSON.
  eapply bind_returns; [reflexivity|].
  eapply bind_returns; [reflexivity|].
  eapply bind_returns; [reflexivity|].
  eapply bind_returns; [reflexivity|].
  eapply bind_returns; [reflexivity|].
  match goal with
  | |- ∃ _ _, bind (prisma.group_update ?id ?data) _ ?s0 = _ =>
      destruct (group_update_progress id data s0) as (s6 & Hupd); [done|]
  end.
  eapply bind_returns; [exact Hupd|].
  destruct (succeeds_markImportStart env jsonData rollback (clockAt env (tick s)) Hall s6)
    as (u7 & s7 & Hmark).
  eapply bind_returns; [exact Hmark|].
  match goal with
  | |- ∃ _ _, bind ?loop _ _ = _ => assert (succeeds loop) as Hloop
  end.
  { apply succeeds_forOfAcc. intros known p _.
    apply succeeds_bind; [by apply succeeds_create|intros; apply succeeds_ret]. }
  destruct (Hloop s7) as (known & s8 & Hps).
  eapply bind_returns; [exact Hps|].
  apply recreateParticipants_Ok in Hps as (_ & _ & _ & ->).
  rewrite union_empty_r_L.
  assert (succeeds (forOf (JSONImportData.expenses jsonData)
                      (JsonImport.importExpense env false jsonData (clockAt env (tick s))
                         (list_to_set (SnapshotParticipant.id
                                         <$> JSONImportData.participants jsonData)))))
    as Hexpenses.
  { apply succeeds_forOf. intros x Hx. apply succeeds_importExpense; [done|].
    rewrite Forall_forall in Hvalid. by apply Hvalid. }
  apply (Hexpenses s8).
Qed.

(** X11. When the lightweight Restore Engine returns.  Under a schema
    without constraints a restore returns exactly when the Group it needs is
    stored (update and rollback; create needs none) and the payer and every
    split participant of each expense it is to write is in the pool it checks
    against: the participants of the snapshot, in update mode together with the
    participants stored for the group.  Expenses an update skips are not
    checked. *)
Theorem json_restore_returns_iff env jsonData mode s :
  unconstrained env →
  (∃ u s', JsonImport.restoreGroupFromJSON env jsonData mode s = Ok (u, s'))
  ↔ (mode = create ∨ is_Some (storedGroup (JSONImportData.id jsonData) (db s)))
    ∧ Forall (validReferences (referencePool mode jsonData (db s)))
        (jsonExpensesToWrite mode jsonData (db s)).
Proof.
  intros Hall. split.
  - intros (u & s' & Hrun). destruct mode.
    + apply json_create_Ok in Hrun as (_ & _ & _ & Hvalid). split; [by left|done].
    + apply json_update_Ok in Hrun as (_ & Hfound & _ & _ & Hvalid). split; [by right|done].
    + apply json_rollback_Ok in Hrun as (_ & Hfound & _ & _ & Hvalid).
      split; [by right|done].
  - intros [Hgroup Hvalid]. destruct mode.
    + by apply json_create_progress.
    + destruct Hgroup as [?|Hfound]; [done|]. by apply json_update_progress.
    + destruct Hgroup as [?|Hfound]; [done|]. by apply json_rollback_progress.
Qed.

Lemma json_restore_returns_iff_witness :
  (∃ u s', JsonImport.restoreGroupFromJSON Examples.env Examples.trip create
             (mkTx emptyStore 0) = Ok (u, s'))
  ↔ (create = create ∨ is_Some (storedGroup "g1" emptyStore))
    ∧ Forall (validReferences (referencePool create Examples.trip emptyStore))
        (jsonExpensesToWrite create Examples.trip emptyStore).
Proof.
  apply (json_restore_returns_iff Examples.env Examples.trip create (mkTx emptyStore 0)).
  intros s r. reflexivity.
Defined.





Lemma succeeds_restoreTail env backupData :
  unconstrained env →
  Forall writableExpense (BackupData.expenses backupData) →
  Forall (knownActivityType env) (BackupData.activities backupData) →
  let groupId := BackupGroup.id (BackupData.group backupData) in
  succeeds
    (run forOf (BackupData.participants backupData) (λ participant,
           prisma.create env (ParticipantRow (Backup.participantRow groupId participant))) then
     let* warnings :=
       forOfAcc (BackupData.expenses backupData) ([] : list string)
         (λ warnings expense,
            let* warnings := Backup.createExpense env groupId expense warnings in
            run Backup.createRecurringExpenseLink env groupId expense then
            ret warnings) in
     run forOf (BackupData.activities backupData) (λ activity,
           let* activityType :=
             Backup.castActivityType env (BackupActivity.activityType activity) in
           prisma.create env (ActivityRow
             (Activity.mk (BackupActivity.id activity) groupId
                (BackupActivity.time activity) activityType
                (BackupActivity.participantId activity)
                (BackupActivity.expenseId activity) (BackupActivity.data activity)))) then
     ret (Backup.RestoreResult.mk true warnings)).
Proof.
  intros Hall Hcast Hknown groupId.
  apply succeeds_bind.
  { apply succeeds_forOf. intros p _. by apply succeeds_create. }
  intros _. apply succeeds_bind.
  { apply succeeds_forOfAcc. intros ws x Hx. apply succeeds_bind.
    - apply succeeds_createExpense; [done|]. rewrite Forall_forall in Hcast. by apply Hcast.
    - intros ws'. apply succeeds_bind; [|intros; apply succeeds_ret].
      unfold Backup.createRecurringExpenseLink.
      destruct (BackupExpense.recurringExpenseLink x); [|apply succeeds_ret].
      by apply succeeds_create. }
  intros ws. apply succeeds_bind; [|intros; apply succeeds_ret].
  apply succeeds_forOf. intros a Ha. apply succeeds_bind.
  - intros t. unfold Backup.castActivityType.
    rewrite Forall_forall in Hknown. rewrite (Hknown a Ha). by eexists _, _.
  - intros activityType. by apply succeeds_create.
Qed.

Lemma backup_create_progress env backupData s :
  unconstrained env →
  Forall writableExpense (BackupData.expenses backupData) →
  Forall (knownActivityType env) (BackupData.activities backupData) →
  ∃ result s', Backup.restoreGroupFromBackup env backupData create s = Ok (result, s').
Proof.
  intros Hall Hcast Hknown. revert s.
  change (succeeds (Backup.restoreGroupFromBackup env backupData create)).
  unfold Backup.restoreGroupFromBackup.
  apply succeeds_bind; [by apply succeeds_create|]. intros _.
  by apply succeeds_restoreTail.
Qed.




(** ** Categories *)

Lemma category_findFirst_Ok grouping name s found s' :
  prisma.category_findFirst grouping name s = Ok (found, s') →
  s' = s
  ∧ match found with
    | Some category => category ∈ categories (db s) ∧ categoryKey category = (grouping, name)
    | None => (grouping, name) ∉ categoryKey <$> categories (db s)
    end.
Proof.
  intros [-> ->]%query_Ok. split; [done|].
  destruct (List.find _ _) as [category|] eqn:Hfind.
  - apply find_some in Hfind as [Hin [Hg Hn]%bool_decide_eq_true].
    split; [by apply list_elem_of_In|]. unfold categoryKey. by rewrite Hg, Hn.
  - intros (category & Hkey & Hin)%list_elem_of_fmap.
    apply list_elem_of_In in Hin. eapply find_none in Hfind; [|done].
    apply bool_decide_eq_false in Hfind. apply Hfind.
    unfold categoryKey in Hkey. by injection Hkey as -> ->.
Qed.

Lemma importExpense_categories env verbose jsonData importTime participantIds expense
    s u s' :
  JsonImport.importExpense env verbose jsonData importTime participantIds expense s
    = Ok (u, s') →
  ∃ row new,
    expenses (db s') = (expenses (db s) ++ [row])%list
    ∧ categories (db s') = (categories (db s) ++ new)%list
    ∧ categorised (categories (db s')) expense row
    ∧ Forall (categoryOf [expense]) new
    ∧ (NoDup (categoryKey <$> categories (db s)) →
       NoDup (categoryKey <$> categories (db s'))).
Proof.
  unfold JsonImport.importExpense. case_decide as Hpayer; [done|].
  intros (u1 & s1 & Hrefs & Hrun)%bind_Ok.
  apply referencesLoop_Ok in Hrefs as [-> Hrefs].
  apply bind_Ok in Hrun as (categoryId & s2 & Hcat & Hrun).
  pose proof Hcat as (Hg2 & Hp2 & He2)%preserves_categoryStep%coreTables_eq.
  apply bind_Ok in Hrun as (expenseId & s3 & [_ Hdb3]%randomUUID_Ok & Hrun).
  apply bind_Ok in Hrun as (createdAt & s4 & [_ Hdb4]%now_Ok & Hrun).
  apply bind_Ok in Hrun as (u5 & s5 & (_ & Hdb5 & _)%create_Ok & Hrun).
  assert (∀ m : Tx unit, m s5 = Ok (u, s') →
            preserves (λ d, (expenses d, categories d)) m →
            expenses (db s') = expenses (db s5) ∧ categories (db s') = categories (db s5))
    as Hkeep.
  { intros m Hm Hpreserves. specialize (Hpreserves _ _ _ Hm). simpl in Hpreserves.
    by injection Hpreserves as -> ->. }
  apply Hkeep in Hrun as [He Hc].
  2:{ apply preserves_bind.
      - apply preserves_forOf. intros pf. by apply preserves_create.
      - intros _. apply preserves_bind; [apply preserves_randomUUID|].
        intros activityId. by apply preserves_create. }
  rewrite He, Hc, Hdb5. simpl. rewrite Hdb4, Hdb3, He2.
  eexists _. unfold categorised. simpl.
  destruct (JSONExpense.category expense) as [c|] eqn:Hcategory.
  - apply bind_Ok in Hcat as (found & s6 & [-> Hfound]%category_findFirst_Ok & Hcat).
    apply bind_Ok in Hcat as (category & s6 & Hcat & [-> ->]%ret_Ok).
    destruct found as [category'|].
    + apply ret_Ok in Hcat as [-> ->]. destruct Hfound as [Hin Hkey].
      exists []. rewrite app_nil_r. repeat split; try done.
      by exists category'.
    + unfold prisma.category_create in Hcat.
      apply bind_Ok in Hcat as (nextId & s7 & [-> ->]%query_Ok & Hcat).
      apply bind_Ok in Hcat as (u8 & s8 & (_ & Hdb8 & _)%create_Ok & [-> ->]%ret_Ok).
      rewrite Hdb8. simpl.
      eexists [_]. repeat split; try done.
      * eexists. split; [apply elem_of_app; right; apply elem_of_cons; by left|done].
      * constructor; [|done]. exists expense, c. split; [apply elem_of_cons; by left|done].
      * intros Hnodup. rewrite fmap_app. apply NoDup_app. split; [done|].
        split; [|apply NoDup_singleton].
        intros key Hkey ->%list_elem_of_singleton. done.
  - apply ret_Ok in Hcat as [-> ->]. exists []. rewrite app_nil_r. repeat split; done.
Qed.

Lemma categorised_mono categories new expense row :
  categorised categories expense row → categorised (categories ++ new) expense row.
Proof.
  unfold categorised. destruct (JSONExpense.category expense); [|done].
  intros (category & Hin & Hrest). exists category. split; [|done].
  apply elem_of_app. by left.
Qed.

Lemma categoryOf_mono xs ys category :
  (∀ x, x ∈ xs → x ∈ ys) → categoryOf xs category → categoryOf ys category.
Proof. intros Hsub (x & c & Hx & Hc). exists x, c. split; [by apply Hsub|done]. Qed.

Lemma importLoop_categories env verbose jsonData importTime participantIds xs s u s' :
  forOf xs (JsonImport.importExpense env verbose jsonData importTime participantIds) s
    = Ok (u, s') →
  ∃ rows new,
    expenses (db s') = (expenses (db s) ++ rows)%list
    ∧ categories (db s') = (categories (db s) ++ new)%list
    ∧ Forall2 (categorised (categories (db s'))) xs rows
    ∧ Forall (categoryOf xs) new
    ∧ (NoDup (categoryKey <$> categories (db s)) →
       NoDup (categoryKey <$> categories (db s'))).
Proof.
  revert s. induction xs as [|x rest IH]; intros s; simpl.
  - intros [_ ->]%ret_Ok. exists [], []. rewrite !app_nil_r.
    repeat split; try done; constructor.
  - intros (u1 & s1 & Hx & Hrest)%bind_Ok.
    apply importExpense_categories in Hx as (row & new1 & He1 & Hc1 & Hrow & Hnew1 & Hnodup1).
    apply IH in Hrest as (rows & new & He & Hc & Hrows & Hnew & Hnodup).
    exists (row :: rows), (new1 ++ new)%list.
    rewrite He, Hc, He1, Hc1, <- !app_assoc. repeat split; try done.
    + rewrite app_assoc, <- Hc1. constructor; [by apply categorised_mono|]. by rewrite <- Hc.
    + apply Forall_app. split; (eapply Forall_impl; [done|]); intros category;
        apply categoryOf_mono; intros y Hy; apply elem_of_cons; [left|by right].
      by apply list_elem_of_singleton in Hy.
    + intros H0. rewrite app_assoc, <- Hc1, <- Hc. auto.
Qed.
Lemma preserves_categories_group_update id data :
  preserves categories (prisma.group_update id data).
Proof.
  apply preserves_bind; [apply preserves_query|].
  intros [g|]; [by apply preserves_modify|by intros ? ? ?].
Qed.

Lemma preserves_categories_markImportStart env jsonData mode importTime :
  preserves categories (JsonImport.markImportStart env jsonData mode importTime).
Proof.
  apply preserves_bind; [apply preserves_randomUUID|]. intros id. by apply preserves_create.
Qed.

(** The expense loop a restore of the lightweight format ends with, and the
    state it starts from. *)
Lemma json_restore_loop env jsonData mode s u s' :
  JsonImport.restoreGroupFromJSON env jsonData mode s = Ok (u, s') →
  ∃ s0 verbose,
    forOf (jsonExpensesToWrite mode jsonData (db s))
      (JsonImport.importExpense env verbose jsonData (clockAt env (tick s))
         (referencePool mode jsonData (db s))) s0 = Ok (tt, s')
    ∧ categories (db s0) = categories (db s)
    ∧ expenses (db s0) = survivingExpenses mode (JSONImportData.id jsonData) (db s).
Proof.
  unfold JsonImport.restoreGroupFromJSON.
  intros (importTime & s1 & (-> & Hdb1 & Htick1)%now_tick & Hrun)%bind_Ok.
  destruct u. destruct mode.
  - apply bind_Ok in Hrun as (createdAt & s2 & [_ Hdb2]%now_Ok & Hrun).
    apply bind_Ok in Hrun as (u3 & s3 & (_ & Hdb3 & _)%create_Ok & Hrun).
    apply bind_Ok in Hrun as (u4 & s4 & Hps & Hrun).
    pose proof (evolves_createParticipants _ _ _ _ _ _ Hps) as (_ & He4 & _).
    eapply (preserves_forOf categories) in Hps as Hc4;
      [|intros p; by apply preserves_create].
    apply bind_Ok in Hrun as (u5 & s5 & Hmark & Hrun).
    pose proof (markImportStart_Ok _ _ _ _ _ _ _ Hmark) as (_ & He5 & _).
    apply preserves_categories_markImportStart in Hmark as Hc5.
    exists s5, true. split; [done|].
    rewrite Hc5, Hc4, He5, He4, Hdb3, Hdb2, Hdb1. done.
  - apply bind_Ok in Hrun as (existingGroup & s2 & [-> ->]%group_findUnique_Ok & Hrun).
    apply bind_Ok in Hrun as (existingParticipants & s2 & [-> ->]%query_Ok & Hrun).
    apply bind_Ok in Hrun as (existingExpenses & s2 & [-> ->]%query_Ok & Hrun).
    rewrite Hdb1 in Hrun.
    destruct (List.find _ (groups (db s))) as [g|] eqn:Hfind; [|done].
    apply bind_Ok in Hrun as (u3 & s3 & Hmark & Hrun).
    pose proof (markImportStart_Ok _ _ _ _ _ _ _ Hmark) as (_ & He3 & _).
    apply preserves_categories_markImportStart in Hmark as Hc3.
    apply bind_Ok in Hrun as (u4 & s4 & Hupd & Hrun).
    pose proof (evolves_group_update _ _ _ _ _ Hupd) as (_ & He4 & _).
    apply preserves_categories_group_update in Hupd as Hc4.
    apply bind_Ok in Hrun as (known & s5 & Hadd & Hrun).
    pose proof (addParticipants_Ok _ _ _ _ _ _ _ Hadd) as (_ & _ & He5 & ->).
    eapply (preserves_forOfAcc categories) in Hadd as Hc5.
    2:{ intros ids p. case_decide; [|apply preserves_ret].
        apply preserves_bind; [by apply preserves_create|intros; apply preserves_ret]. }
    rewrite forOf_filter in Hrun.
    exists s5, false. split; [done|].
    rewrite Hc5, Hc4, Hc3, He5, He4, He3, Hdb1. done.
  - apply bind_Ok in Hrun as (u2 & s2 & [Hdb2 _]%modify_tick & Hrun).
    apply bind_Ok in Hrun as (u3 & s3 & [Hdb3 _]%modify_tick & Hrun).
    apply bind_Ok in Hrun as (u4 & s4 & [Hdb4 _]%modify_tick & Hrun).
    apply bind_Ok in Hrun as (u5 & s5 & [Hdb5 _]%modify_tick & Hrun).
    apply bind_Ok in Hrun as (u6 & s6 & Hupd & Hrun).
    pose proof (evolves_group_update _ _ _ _ _ Hupd) as (_ & He6 & _).
    apply preserves_categories_group_update in Hupd as Hc6.
    apply bind_Ok in Hrun as (u7 & s7 & Hmark & Hrun).
    pose proof (markImportStart_Ok _ _ _ _ _ _ _ Hmark) as (_ & He7 & _).
    apply preserves_categories_markImportStart in Hmark as Hc7.
    apply bind_Ok in Hrun as (known & s8 & Hadd & Hrun).
    pose proof (recreateParticipants_Ok _ _ _ _ _ _ _ Hadd) as (_ & _ & He8 & ->).
    eapply (preserves_forOfAcc categories) in Hadd as Hc8.
    2:{ intros ids p.
        apply preserves_bind; [by apply preserves_create|intros; apply preserves_ret]. }
    rewrite union_empty_r_L in Hrun.
    exists s8, false. split; [done|].
    rewrite Hc8, Hc7, Hc6, He8, He7, He6, Hdb5, Hdb4, Hdb3, Hdb2, Hdb1. done.
Qed.

(** X13. Categories under an import of the lightweight format.  A restore
    that returns has only appended to the Category table, and only categories
    that some expense it wrote names by grouping and name; if no two stored
    categories shared grouping and name before, none do after; and each
    Expense row it wrote carries the identifier of a stored Category with the
    grouping and name of its expense, or [0] when the expense has no
    category. *)
Theorem json_restore_categories env jsonData mode s u s' :
  JsonImport.restoreGroupFromJSON env jsonData mode s = Ok (u, s') →
  ∃ rows new,
    expenses (db s')
    = (survivingExpenses mode (JSONImportData.id jsonData) (db s) ++ rows)%list
    ∧ categories (db s') = (categories (db s) ++ new)%list
    ∧ Forall (categoryOf (jsonExpensesToWrite mode jsonData (db s))) new
    ∧ Forall2 (categorised (categories (db s')))
        (jsonExpensesToWrite mode jsonData (db s)) rows
    ∧ (NoDup (categoryKey <$> categories (db s)) →
       NoDup (categoryKey <$> categories (db s'))).
Proof.
  intros (s0 & verbose & Hloop & Hc0 & He0)%json_restore_loop.
  apply importLoop_categories in Hloop as (rows & new & He & Hc & Hrows & Hnew & Hnodup).
  exists rows, new. rewrite <- He0, <- Hc0. done.
Qed.

Lemma json_restore_categories_witness :
  ∃ rows new,
    expenses (db MoreExamples.afterPicnicCreate) = ([] ++ rows)%list
    ∧ categories (db MoreExamples.afterPicnicCreate)
      = ([Category.mk 1 "Food" "Groceries"] ++ new)%list
    ∧ Forall (categoryOf (JSONImportData.expenses MoreExamples.picnic)) new
    ∧ Forall2 (categorised (categories (db MoreExamples.afterPicnicCreate)))
        (JSONImportData.expenses MoreExamples.picnic) rows
    ∧ (NoDup (categoryKey <$> [Category.mk 1 "Food" "Groceries"]) →
       NoDup (categoryKey <$> categories (db MoreExamples.afterPicnicCreate))).
Proof.
  apply (json_restore_categories Examples.env MoreExamples.picnic create
           (mkTx MoreExamples.pantry 0) tt MoreExamples.afterPicnicCreate).
  vm_compute. reflexivity.
Defined.

(** ** The rows of a full-backup restore *)

Lemma createExpense_rows env groupId expense warnings s warnings' s' :
  Backup.createExpense env groupId expense warnings s = Ok (warnings', s') →
  plainTables (db s') = plainTables (db s)
  ∧ ∃ row, restoredAs groupId expense row
           ∧ expenses (db s') = (expenses (db s) ++ [row])%list
           ∧ expensePaidFors (db s')
             = (expensePaidFors (db s) ++ restoredPaidFor expense)%list.
Proof.
  unfold Backup.createExpense.
  intros (rate & s0 & (-> & -> & _)%decimalOrNull_Ok & Hrun)%bind_Ok.
  apply bind_Ok in Hrun as (m & s1 & Hm & Hrun).
  pose proof (castSplitMode_Ok _ _ _ _ Hm) as ->.
  apply bind_Ok in Hrun as (r & s2 & Hr & Hrun).
  pose proof (castRecurrenceRule_Ok _ _ _ _ Hr) as ->.
  apply bind_Ok in Hrun as (u3 & s3 & (_ & Hdb3 & _)%create_Ok & Hrun).
  apply bind_Ok in Hrun as (u4 & s4 & Hshares & Hdocs).
  assert (plainTables (db s4) = plainTables (db s3)
          ∧ expenses (db s4) = expenses (db s3)
          ∧ expensePaidFors (db s4)
            = (expensePaidFors (db s3) ++ restoredPaidFor expense)%list)
    as (Hplain4 & He4 & Hpf4).
  { clear Hdocs Hdb3. unfold restoredPaidFor. revert s3 Hshares.
    induction (BackupExpense.paidFor expense) as [|pf rest IH]; intros s3; simpl.
    - intros [_ ->]%ret_Ok. by rewrite app_nil_r.
    - intros (u5 & s5 & (_ & Hdb5 & _)%create_Ok & Hrest%IH)%bind_Ok.
      destruct Hrest as (-> & -> & ->). rewrite Hdb5. simpl.
      by rewrite <- app_assoc. }
  assert ((plainTables (db s'), expenses (db s'), expensePaidFors (db s'))
          = (plainTables (db s4), expenses (db s4), expensePaidFors (db s4))) as Hrest.
  { revert Hdocs. generalize s4 warnings' s'.
    apply (preserves_forOfAcc (λ d, (plainTables d, expenses d, expensePaidFors d))).
    intros ws doc.
    apply preserves_bind; [apply preserves_checkUrlExists|].
    intros []; [|apply preserves_ret].
    apply preserves_bind; [|intros; apply preserves_ret].
    apply preserves_bind; [apply preserves_query|].
    intros []; [by apply preserves_modify|by apply preserves_create]. }
  apply pair_equal_spec in Hrest as [[-> ->]%pair_equal_spec ->].
  rewrite Hplain4, He4, Hpf4, Hdb3. simpl.
  split; [done|]. eexists. split; [|done].
  exists m, r. split; [by eapply castSplitMode_total|].
  split; [by eapply castRecurrenceRule_total|done].
Qed.

Lemma restoreExpenses_rows env groupId xs warnings s warnings' s' :
  forOfAcc xs warnings (λ warnings expense,
    let* warnings := Backup.createExpense env groupId expense warnings in
    run Backup.createRecurringExpenseLink env groupId expense then
    ret warnings) s = Ok (warnings', s') →
  plainTables (db s') = plainTables (db s)
  ∧ ∃ rows, Forall2 (restoredAs groupId) xs rows
            ∧ expenses (db s') = (expenses (db s) ++ rows)%list
            ∧ expensePaidFors (db s')
              = (expensePaidFors (db s) ++ xs ≫= restoredPaidFor)%list.
Proof.
  revert warnings s. induction xs as [|x xs IH]; intros warnings s; simpl.
  - intros [_ ->]%ret_Ok. split; [done|]. exists []. by rewrite !app_nil_r.
  - intros (w1 & s1 & Hx & Hrest)%bind_Ok.
    apply bind_Ok in Hx as (w0 & s0 & (Hplain0 & row & Hrow & He0 & Hpf0)%createExpense_rows
                              & Hlink).
    apply bind_Ok in Hlink as (u2 & s2 & Hlink & [-> ->]%ret_Ok).
    assert ((plainTables (db s2), expenses (db s2), expensePaidFors (db s2))
            = (plainTables (db s0), expenses (db s0), expensePaidFors (db s0))) as Hkeep.
    { revert Hlink. generalize s0 u2 s2. unfold Backup.createRecurringExpenseLink.
      change (preserves (λ d, (plainTables d, expenses d, expensePaidFors d))
                match BackupExpense.recurringExpenseLink x with
                | Some link =>
                    prisma.create env (RecurringExpenseLinkRow
                      (RecurringExpenseLink.mk (BackupRecurringLink.id link) groupId
                         (BackupExpense.id x)
                         (BackupRecurringLink.nextExpenseCreatedAt link)
                         (BackupRecurringLink.nextExpenseDate link)))
                | None => ret tt
                end).
      destruct (BackupExpense.recurringExpenseLink x); [|apply preserves_ret].
      by apply preserves_create. }
    apply pair_equal_spec in Hkeep as [[Hplain1 He1]%pair_equal_spec Hpf1].
    apply IH in Hrest as (Hplain & rows & Hrows & He & Hpf).
    split; [congruence|]. exists (row :: rows). split; [by constructor|].
    rewrite He, Hpf, He1, Hpf1, He0, Hpf0, <- !app_assoc. done.
Qed.

Lemma restoreActivities_rows env groupId (acts : list BackupActivity.t) s u s' :
  forOf acts (λ activity,
    let* activityType :=
      Backup.castActivityType env (BackupActivity.activityType activity) in
    prisma.create env (ActivityRow
      (Activity.mk (BackupActivity.id activity) groupId
         (BackupActivity.time activity) activityType
         (BackupActivity.participantId activity)
         (BackupActivity.expenseId activity) (BackupActivity.data activity)))) s
    = Ok (u, s') →
  activities (db s') = (activities (db s) ++ (restoredActivity groupId <$> acts))%list
  ∧ expensePaidFors (db s') = expensePaidFors (db s).
Proof.
  revert s. induction acts as [|a rest IH]; intros s; simpl.
  - intros [_ ->]%ret_Ok. by rewrite app_nil_r.
  - intros (u1 & s1 & Ha & [-> ->]%IH)%bind_Ok.
    apply bind_Ok in Ha
      as (t & s0 & (-> & -> & _)%castActivityType_Ok & (_ & Hdb1 & _)%create_Ok).
    rewrite Hdb1. simpl. by rewrite <- app_assoc.
Qed.

Lemma createParticipants_rows env groupId (ps : list SnapshotParticipant.t) s u s' :
  forOf ps (λ p, prisma.create env (ParticipantRow (Backup.participantRow groupId p))) s
    = Ok (u, s') →
  activities (db s') = activities (db s)
  ∧ expensePaidFors (db s') = expensePaidFors (db s).
Proof.
  revert s. induction ps as [|p rest IH]; intros s; simpl.
  - by intros [_ ->]%ret_Ok.
  - intros (u1 & s1 & (_ & Hdb1 & _)%create_Ok & [-> ->]%IH)%bind_Ok.
    by rewrite Hdb1.
Qed.

(** Everything a create of a full backup appends. *)
Lemma backup_create_rows env backupData s result s' :
  Backup.restoreGroupFromBackup env backupData create s = Ok (result, s') →
  let group := BackupData.group backupData in
  let groupId := BackupGroup.id group in
  Backup.RestoreResult.success result = true
  ∧ groups (db s')
    = (groups (db s)
         ++ [Group.mk groupId (BackupGroup.name group) (BackupGroup.information group)
               (BackupGroup.currency group) (BackupGroup.currencyCode group)
               (BackupGroup.createdAt group)])%list
  ∧ participants (db s')
    = (participants (db s)
         ++ (Backup.participantRow groupId <$> BackupData.participants backupData))%list
  ∧ activities (db s')
    = (activities (db s)
         ++ (restoredActivity groupId <$> BackupData.activities backupData))%list
  ∧ expensePaidFors (db s')
    = (expensePaidFors (db s) ++ BackupData.expenses backupData ≫= restoredPaidFor)%list
  ∧ ∃ rows, Forall2 (restoredAs groupId) (BackupData.expenses backupData) rows
            ∧ expenses (db s') = (expenses (db s) ++ rows)%list.
Proof.
  unfold Backup.restoreGroupFromBackup.
  intros (u1 & s1 & (_ & Hdb1 & _)%create_Ok & Hrun)%bind_Ok.
  apply bind_Ok in Hrun as (u2 & s2 & Hps & Hrun).
  pose proof (createParticipants_rows _ _ _ _ _ _ Hps) as [Ha2 Hpf2].
  apply createParticipants_Ok in Hps as (Hg2 & Hp2 & He2).
  apply bind_Ok in Hrun
    as (w3 & s3 & (Hplain3 & rows & Hrows & He3 & Hpf3)%restoreExpenses_rows & Hrun).
  apply pair_equal_spec in Hplain3 as [[Hg3 Hp3]%pair_equal_spec Ha3].
  apply bind_Ok in Hrun as (u4 & s4 & Hact & [-> ->]%ret_Ok).
  pose proof (restoreActivities_rows _ _ _ _ _ _ Hact) as [Ha4 Hpf4].
  apply preserves_restoreActivities, coreTables_eq in Hact as (Hg4 & Hp4 & He4).
  rewrite Hg4, Hp4, He4, Ha4, Hpf4, Hg3, Hp3, He3, Ha3, Hpf3, Hg2, Hp2, He2, Ha2, Hpf2, Hdb1.
  simpl. repeat split; try done. by exists rows.
Qed.

(** ** Export *)

#[local] Instance byExpenseDate_total : Total ExportRoute.byExpenseDate.
Proof. intros a b. unfold ExportRoute.byExpenseDate. lia. Qed.

#[local] Instance byTime_total : Total ExportRoute.byTime.
Proof. intros a b. unfold ExportRoute.byTime. lia. Qed.

Lemma GET_Ok env groupId s response s' :
  ExportRoute.GET env groupId s = Ok (response, s') →
  db s' = db s
  ∧ match storedGroup groupId (db s) with
    | None => response = ExportRoute.NotFound "Invalid group ID"
    | Some group =>
        ∃ filename,
          response
          = ExportRoute.Archive
              (BackupData.mk "1.0.0" (clockAt env (tick s))
                 (BackupGroup.mk groupId (Group.name group) (Group.information group)
                    (Group.currency group) (Group.currencyCode group)
                    (Group.createdAt group))
                 (ExportRoute.exportParticipant <$> prisma.participantsOf groupId (db s))
                 (ExportRoute.exportExpense (db s)
                    <$> merge_sort ExportRoute.byExpenseDate
                          (prisma.expensesOf groupId (db s)))
                 (ExportRoute.exportActivity
                    <$> merge_sort ExportRoute.byTime (prisma.activitiesOf groupId (db s))))
              (ExportRoute.Metadata.mk "1.0.0" (clockAt env (tick s)) groupId
                 (Group.name group))
              filename
    end.
Proof.
  unfold ExportRoute.GET, storedGroup.
  intros (store & s0 & [-> ->]%query_Ok & Hrun)%bind_Ok. unfold id in *.
  destruct (List.find _ (groups (db s))) as [group|] eqn:Hfind.
  - apply find_some in Hfind as [_ Hid%bool_decide_eq_true].
    apply bind_Ok in Hrun as (exportedAt & s1 & (-> & Hdb1 & _)%now_tick & Hrun).
    apply bind_Ok in Hrun as (date & s2 & (-> & Hdb2 & _)%now_tick & [-> ->]%ret_Ok).
    split; [congruence|]. eexists. by rewrite Hid.
  - by apply ret_Ok in Hrun as [-> ->].
Qed.

Lemma list_fmap_id_on {A} (f : A → A) (l : list A) :
  (∀ x, x ∈ l → f x = x) → f <$> l = l.
Proof.
  induction l as [|x l IH]; intros Hf; [done|].
  rewrite fmap_cons, Hf, IH; [done| |apply elem_of_cons; by left].
  intros y Hy. apply Hf, elem_of_cons. by right.
Qed.

Lemma exportExpense_castable s e : castableExpense (ExportRoute.exportExpense s e).
Proof.
  split; simpl.
  - exists (Expense.splitMode e). intros t. by destruct (Expense.splitMode e).
  - exists (Expense.recurrenceRule e). intros t. by destruct (Expense.recurrenceRule e) as [[]|].
Qed.

Lemma restoredAs_exportExpense s groupId e row :
  Expense.groupId e = groupId →
  Expense.conversionRate e ≠ Some EmptyString →
  Expense.categoryId e = 0 ∨ Expense.categoryId e ∈ Category.id <$> categories s →
  restoredAs groupId (ExportRoute.exportExpense s e) row →
  row = e.
Proof.
  intros <- Hrate Hcategory (m & r & Hm & Hr & ->).
  specialize (Hm (mkTx emptyStore 0)). specialize (Hr (mkTx emptyStore 0)).
  unfold restoredExpense. simpl in *.
  assert (m = Expense.splitMode e) as ->
    by (destruct (Expense.splitMode e); by injection Hm as <-).
  assert (r = Expense.recurrenceRule e) as ->
    by (destruct (Expense.recurrenceRule e) as [[]|]; by injection Hr as <-).
  assert (truthy (Expense.conversionRate e) = Expense.conversionRate e) as ->.
  { unfold truthy. destruct (Expense.conversionRate e) as [rate|]; [|done].
    case_decide; [by subst|done]. }
  assert (default 0 (BackupCategory.id
                       <$> ((λ c, BackupCategory.mk (Category.id c) (Category.name c)
                                    (Category.grouping c))
                              <$> List.find (λ c, bool_decide (Category.id c
                                                               = Expense.categoryId e))
                                    (categories s)))
          = Expense.categoryId e) as ->.
  { destruct (List.find _ _) as [c|] eqn:Hfind; simpl.
    - by apply find_some in Hfind as [_ Hid%bool_decide_eq_true].
    - destruct Hcategory as [->|(c & Hid & Hin)%list_elem_of_fmap]; [done|].
      apply list_elem_of_In in Hin. eapply find_none in Hfind; [|done].
      by apply bool_decide_eq_false in Hfind. }
  by destruct e.
Qed.

Lemma restoredPaidFor_exportExpense s e :
  restoredPaidFor (ExportRoute.exportExpense s e)
  = filter (λ pf, ExpensePaidFor.expenseId pf = Expense.id e) (expensePaidFors s).
Proof.
  unfold restoredPaidFor. simpl. rewrite <- list_fmap_compose.
  apply list_fmap_id_on. intros pf [<- _]%list_elem_of_filter. by destruct pf.
Qed.

Lemma restoredAs_export_rows s groupId es rows :
  Forall (λ e, Expense.groupId e = groupId
               ∧ Expense.conversionRate e ≠ Some EmptyString
               ∧ (Expense.categoryId e = 0
                  ∨ Expense.categoryId e ∈ Category.id <$> categories s)) es →
  Forall2 (restoredAs groupId) (ExportRoute.exportExpense s <$> es) rows →
  rows = es.
Proof.
  revert rows. induction es as [|e es IH]; intros rows Hes Hrows.
  - by apply Forall2_nil_inv_l in Hrows.
  - rewrite fmap_cons in Hrows.
    apply Forall2_cons_inv_l in Hrows as (row & rows' & Hrow & Hrows & ->).
    apply Forall_cons in Hes as [(Hgroup & Hrate & Hcategory) Hes].
    apply restoredAs_exportExpense in Hrow as ->; [|done..].
    f_equal. by apply IH.
Qed.

Lemma restoredPaidFor_export_rows s (es : list Expense.t) :
  (ExportRoute.exportExpense s <$> es) ≫= restoredPaidFor
  = es ≫= λ e, filter (λ pf, ExpensePaidFor.expenseId pf = Expense.id e) (expensePaidFors s).
Proof.
  induction es as [|e es IH]; [done|].
  by rewrite fmap_cons, !bind_cons, restoredPaidFor_exportExpense, IH.
Qed.

(** X14. Export, then create.  An export of a stored group, restored in
    create mode into any store under a schema without constraints, returns
    success and appends: the Group row as it was, the group's Participants as
    they were, its Expenses as they were, ordered by expense date and then
    creation time, their ExpensePaidFor rows, and its Activities as they were,
    ordered by time.  This is provided the stored rows are what their columns
    can hold: every conversion rate of the group's Expenses is a text the
    decimal constructor takes, every type of its Activities is a member of the
    enumeration of activity types, and every Expense names a stored Category
    (or category [0]). *)
Theorem export_create_round_trip env env' groupId s backup metadata filename s1 t :
  ExportRoute.GET env groupId s = Ok (ExportRoute.Archive backup metadata filename, s1) →
  unconstrained env' →
  Forall (λ e, (∀ rate, Expense.conversionRate e = Some rate → Decimal.accepts rate = true)
               ∧ (Expense.categoryId e = 0
                  ∨ Expense.categoryId e ∈ Category.id <$> categories (db s)))
    (prisma.expensesOf groupId (db s)) →
  Forall (λ a, isActivityType env' (Activity.activityType a) = true)
    (prisma.activitiesOf groupId (db s)) →
  ∃ result t' g es acts,
    Backup.restoreGroupFromBackup env' backup create t = Ok (result, t')
    ∧ Backup.RestoreResult.success result = true
    ∧ storedGroup groupId (db s) = Some g
    ∧ groups (db t') = (groups (db t) ++ [g])%list
    ∧ participants (db t') = (participants (db t) ++ prisma.participantsOf groupId (db s))%list
    ∧ expenses (db t') = (expenses (db t) ++ es)%list
    ∧ es ≡ₚ prisma.expensesOf groupId (db s)
    ∧ Sorted ExportRoute.byExpenseDate es
    ∧ expensePaidFors (db t')
      = (expensePaidFors (db t)
           ++ es ≫= λ e, filter (λ pf, ExpensePaidFor.expenseId pf = Expense.id e)
                           (expensePaidFors (db s)))%list
    ∧ activities (db t') = (activities (db t) ++ acts)%list
    ∧ acts ≡ₚ prisma.activitiesOf groupId (db s)
    ∧ Sorted ExportRoute.byTime acts.
Proof.
  intros [_ Hexport]%GET_Ok Hall Hstored Hknown.
  destruct (storedGroup groupId (db s)) as [g|] eqn:Hg; [|done].
  destruct Hexport as (filename' & [= -> _ _]).
  pose proof Hg as [_ Hid%bool_decide_eq_true]%find_some.
  set (es := merge_sort ExportRoute.byExpenseDate (prisma.expensesOf groupId (db s))).
  set (acts := merge_sort ExportRoute.byTime (prisma.activitiesOf groupId (db s))).
  assert (es ≡ₚ prisma.expensesOf groupId (db s)) as Hes by apply merge_sort_Permutation.
  assert (acts ≡ₚ prisma.activitiesOf groupId (db s)) as Hacts
    by apply merge_sort_Permutation.
  match goal with
  | |- ∃ _ _ _ _ _, Backup.restoreGroupFromBackup _ ?b _ _ = _ ∧ _ =>
      destruct (backup_create_progress env' b t) as (result & t' & Hrun); [done|..]
  end.
  { simpl. apply Forall_fmap, Forall_forall. intros e He. rewrite Hes in He.
    rewrite Forall_forall in Hstored. destruct (Hstored _ He) as [Hrate _].
    split; [|apply exportExpense_castable].
    intros text Htext. apply Hrate. simpl in Htext. unfold truthy in Htext.
    destruct (Expense.conversionRate e) as [rate|]; [|done].
    by case_decide. }
  { simpl. apply Forall_fmap, Forall_forall. intros a Ha. rewrite Hacts in Ha.
    rewrite Forall_forall in Hknown. by apply Hknown. }
  exists result, t', g, es, acts. split; [done|].
  apply backup_create_rows in Hrun
    as (Hsuccess & Hgroups & Hparticipants & Hactivities & Hshares & rows & Hrows & Hexpenses).
  simpl in *.
  assert (rows = es) as ->.
  { eapply restoredAs_export_rows; [|done]. apply Forall_forall. intros e He.
    rewrite Hes in He. rewrite Forall_forall in Hstored.
    destruct (Hstored _ He) as [Hrate Hcategory].
    apply list_elem_of_filter in He as [Hgroup _].
    split; [done|]. split; [|done].
    intros Hempty. by specialize (Hrate _ Hempty). }
  repeat split; try done.
  - rewrite Hgroups. f_equal. f_equal. destruct g. simpl in *. by subst.
  - rewrite Hparticipants. f_equal. rewrite <- list_fmap_compose.
    apply list_fmap_id_on. intros p [<- _]%list_elem_of_filter. by destruct p.
  - apply Sorted_merge_sort; apply _.
  - rewrite Hshares. f_equal. apply restoredPaidFor_export_rows.
  - rewrite Hactivities. f_equal. fold acts. rewrite <- list_fmap_compose.
    apply list_fmap_id_on. intros a Ha. rewrite Hacts in Ha.
    apply list_elem_of_filter in Ha as [<- _]. by destruct a.
  - apply Sorted_merge_sort; apply _.
Qed.

Lemma export_create_round_trip_witness :
  ∃ result t' g es acts,
    Backup.restoreGroupFromBackup Examples.env MoreExamples.abroadBackup create
      (mkTx emptyStore 0) = Ok (result, t')
    ∧ Backup.RestoreResult.success result = true
    ∧ storedGroup "g1" MoreExamples.abroadStore = Some g
    ∧ groups (db t') = ([] ++ [g])%list
    ∧ participants (db t')
      = ([] ++ prisma.participantsOf "g1" MoreExamples.abroadStore)%list
    ∧ expenses (db t') = ([] ++ es)%list
    ∧ es ≡ₚ prisma.expensesOf "g1" MoreExamples.abroadStore
    ∧ Sorted ExportRoute.byExpenseDate es
    ∧ expensePaidFors (db t')
      = ([] ++ es ≫= λ e, filter (λ pf, ExpensePaidFor.expenseId pf = Expense.id e)
                            (expensePaidFors MoreExamples.abroadStore))%list
    ∧ activities (db t') = ([] ++ acts)%list
    ∧ acts ≡ₚ prisma.activitiesOf "g1" MoreExamples.abroadStore
    ∧ Sorted ExportRoute.byTime acts.
Proof.
  apply (export_create_round_trip Examples.env Examples.env "g1"
           (mkTx MoreExamples.abroadStore 0) MoreExamples.abroadBackup
           (ExportRoute.Metadata.mk "1.0.0" 1000 "g1" "Trip")
           "Spliit-Backup-Trip-.zip" (mkTx MoreExamples.abroadStore 2) (mkTx emptyStore 0)).
  - vm_compute. reflexivity.
  - intros s r. reflexivity.
  - apply Forall_forall. intros e [_ He]%list_elem_of_filter. simpl in He.
    apply elem_of_cons in He as [->|He].
    { split; [|by left]. intros rate [= <-]. vm_compute. reflexivity. }
    apply elem_of_cons in He as [->|He]; [split; [done|by left]|].
    by apply elem_of_nil in He.
  - apply Forall_forall. intros a [_ Ha]%list_elem_of_filter. simpl in Ha.
    apply elem_of_cons in Ha as [->|Ha]; [vm_compute; reflexivity|].
    apply elem_of_cons in Ha as [->|Ha]; [vm_compute; reflexivity|].
    by apply elem_of_nil in Ha.
Defined.

Lemma forOf_skip {A} (P : A → Prop) `{∀ x, Decision (P x)} (body : A → Tx unit) xs s :
  (∀ x, x ∈ xs → ¬ P x) →
  forOf xs (λ x, if decide (P x) then body x else ret tt) s = Ok (tt, s).
Proof. intros Hnone. by rewrite forOf_filter, filter_none. Qed.

Lemma forOfAcc_skip {A B} (P : A → Prop) `{∀ x, Decision (P x)}
    (body : B → A → Tx B) xs acc s :
  (∀ x, x ∈ xs → ¬ P x) →
  forOfAcc xs acc (λ a x, if decide (P x) then body a x else ret a) s = Ok (acc, s).
Proof. intros Hnone. by rewrite forOfAcc_filter, filter_none. Qed.

(** X15. An export against the store it was taken from.  Analysing the
    archive reports no difference at all, and restoring it in update mode
    returns success without warnings and leaves the state exactly as it was,
    whatever the schema. *)
Theorem export_against_its_source env env' groupId s backup metadata filename s1 tick' :
  ExportRoute.GET env groupId s = Ok (ExportRoute.Archive backup metadata filename, s1) →
  (∃ comparison groupName,
     BackupRoute.POST env' (Some backup) "analyze" (mkTx (db s) tick')
     = (Analysis comparison (Some (Differences.mk 0 0 0 0 0)) groupName [],
        mkTx (db s) tick'))
  ∧ Backup.restoreGroupFromBackup env' backup update (mkTx (db s) tick')
    = Ok (Backup.RestoreResult.mk true [], mkTx (db s) tick').
Proof.
  intros [_ Hexport]%GET_Ok.
  destruct (storedGroup groupId (db s)) as [g|] eqn:Hg; [|done].
  destruct Hexport as (filename' & [= -> _ _]).
  set (es := merge_sort ExportRoute.byExpenseDate (prisma.expensesOf groupId (db s))).
  assert (es ≡ₚ prisma.expensesOf groupId (db s)) as Hes by apply merge_sort_Permutation.
  assert (BackupExpense.id <$> (ExportRoute.exportExpense (db s) <$> es)
          ≡ₚ Expense.id <$> prisma.expensesOf groupId (db s)) as Hids.
  { rewrite <- list_fmap_compose, <- Hes. by erewrite list_fmap_ext. }
  assert (SnapshotParticipant.id
            <$> (ExportRoute.exportParticipant <$> prisma.participantsOf groupId (db s))
          = Participant.id <$> prisma.participantsOf groupId (db s)) as Hpids.
  { rewrite <- list_fmap_compose. by apply list_fmap_ext. }
  split.
  - unfold BackupRoute.POST, BackupRoute.POST_with.
    rewrite decide_False by done. rewrite decide_True by done.
    unfold BackupRoute.findExistingGroup. unfold storedGroup in Hg.
    cbn [BackupData.group BackupGroup.id db]. rewrite Hg. cbn [fmap option_fmap option_map].
    match goal with
    | |- context [Backup.calculateDifferences ?B ?E] =>
        assert (Backup.calculateDifferences B E = Differences.mk 0 0 0 0 0) as ->
    end; [|by eexists _, _].
    unfold Backup.calculateDifferences. simpl. fold es.
    rewrite <- (list_fmap_compose _ Backup.ExistingExpense.id).
    change (Backup.ExistingExpense.id ∘ _) with Expense.id.
    rewrite Hpids.
    rewrite !filter_none; [done|..].
    + intros p Hp Hgone. apply Hgone, elem_of_list_to_set. done.
    + intros p Hp Hnew. apply Hnew, elem_of_list_to_set, list_elem_of_fmap.
      apply list_elem_of_fmap in Hp as (row & -> & Hrow). by exists row.
    + intros e He Hgone. apply Hgone, elem_of_list_to_set. rewrite Hids.
      apply list_elem_of_fmap in He as (row & -> & Hrow).
      apply list_elem_of_fmap. by exists row.
    + intros e He Hnew. apply Hnew, elem_of_list_to_set. rewrite <- Hids.
      apply list_elem_of_fmap. by exists e.
  - unfold Backup.restoreGroupFromBackup. simpl. fold es.
    rewrite (bind_step _ _ _ tt (mkTx (db s) tick')) by done.
    rewrite (bind_step _ _ _ tt (mkTx (db s) tick')).
    2:{ rewrite (bind_step _ _ _ _ (mkTx (db s) tick')) by done.
        apply forOf_skip. intros p Hp Hnew. apply Hnew, elem_of_list_to_set. simpl.
        apply list_elem_of_fmap in Hp as (row & -> & Hrow).
        apply list_elem_of_fmap. by exists row. }
    rewrite (bind_step _ _ _ [] (mkTx (db s) tick')).
    2:{ rewrite (bind_step _ _ _ _ (mkTx (db s) tick')) by done.
        apply forOfAcc_skip. intros e He Hnew. apply Hnew, elem_of_list_to_set. simpl.
        rewrite <- Hids. apply list_elem_of_fmap. by exists e. }
    by rewrite (bind_step _ _ _ tt (mkTx (db s) tick')).
Qed.

Lemma export_against_its_source_witness :
  (∃ comparison groupName,
     BackupRoute.POST Examples.env (Some MoreExamples.exportedBackup) "analyze"
       (mkTx Examples.importedStore 7)
     = (Analysis comparison (Some (Differences.mk 0 0 0 0 0)) groupName [],
        mkTx Examples.importedStore 7))
  ∧ Backup.restoreGroupFromBackup Examples.env MoreExamples.exportedBackup update
      (mkTx Examples.importedStore 7)
    = Ok (Backup.RestoreResult.mk true [], mkTx Examples.importedStore 7).
Proof.
  apply (export_against_its_source Examples.env Examples.env "g1"
           (mkTx Examples.importedStore 0) MoreExamples.exportedBackup
           (ExportRoute.Metadata.mk "1.0.0" 1000 "g1" "Trip")
           "Spliit-Backup-Trip-.zip" (mkTx Examples.importedStore 2) 7%nat).
  vm_compute. reflexivity.
Defined.

(** ** The handlers and the store *)

(** X16. The three handlers change the state only together with an answer
    that reports success: whenever the answer of an import route is not
    'restored', or the answer of the undo route is not 'success', the state is
    exactly the one before the request; and a request with action 'analyze' is
    never answered 'restored'. *)
Theorem handlers_change_state_only_on_success env action s :
  (∀ file, committed (JsonRoute.POST env file action s).1 = false →
           (JsonRoute.POST env file action s).2 = s)
  ∧ (∀ file, committed (BackupRoute.POST env file action s).1 = false →
             (BackupRoute.POST env file action s).2 = s)
  ∧ (∀ groupId, committed (UndoRoute.POST groupId action s).1 = false →
                (UndoRoute.POST groupId action s).2 = s)
  ∧ (action = "analyze" →
     ∀ file file', committed (JsonRoute.POST env file action s).1 = false
                   ∧ committed (BackupRoute.POST env file' action s).1 = false).
Proof.
  repeat split.
  - intros [jsonData|]; [|done]. unfold JsonRoute.POST, JsonRoute.POST_with.
    repeat (case_decide; try done);
      unfold JsonRoute.executeRestore, transaction;
      by destruct (JsonImport.restoreGroupFromJSON _ _ _ _) as [[? ?]|?].
  - intros [backupData|]; [|done]. unfold BackupRoute.POST, BackupRoute.POST_with.
    repeat (case_decide; try done);
      unfold BackupRoute.executeRestore, transaction;
      by destruct (Backup.restoreGroupFromBackup _ _ _ _) as [[? ?]|?].
  - intros groupId. unfold UndoRoute.POST.
    destruct (List.find _ _); [|done]. case_decide; [|done].
    destruct (_ !! 0%nat); [|done]. unfold transaction.
    by destruct (UndoRoute.undoImport _ _ _) as [[? ?]|?].
  - destruct file as [jsonData|]; [|done]. unfold JsonRoute.POST, JsonRoute.POST_with.
    case_decide; [done|]. by rewrite decide_True.
  - destruct file' as [backupData|]; [|done]. unfold BackupRoute.POST, BackupRoute.POST_with.
    case_decide; [done|]. by rewrite decide_True.
Qed.

Lemma handlers_change_state_only_on_success_witness :
  (JsonRoute.POST Examples.env (Some Examples.dangling) "restore" (mkTx emptyStore 0)).2
  = mkTx emptyStore 0.
Proof.
  apply (proj1 (handlers_change_state_only_on_success Examples.env "restore"
                  (mkTx emptyStore 0)) (Some Examples.dangling)).
  vm_compute. reflexivity.
Defined.

(** ** Warnings of the full-backup Restore Engine *)

Lemma sameTick_ret {A} (a : A) : evolves sameTick (ret a).
Proof. by intros s b s' [_ ->]%ret_Ok. Qed.

Lemma sameTick_bind {A B} (m : Tx A) (k : A → Tx B) :
  evolves sameTick m → (∀ a, evolves sameTick (k a)) → evolves sameTick (bind m k).
Proof.
  intros Hm Hk s b s' (a & s1 & Ha & Hb)%bind_Ok. unfold sameTick.
  rewrite (Hk _ _ _ _ Hb). by apply (Hm _ _ _ Ha).
Qed.

Lemma sameTick_forOf {A} (body : A → Tx unit) xs :
  (∀ x, evolves sameTick (body x)) → evolves sameTick (forOf xs body).
Proof.
  intros Hbody. induction xs as [|x rest IH]; simpl; [apply sameTick_ret|].
  apply sameTick_bind; [apply Hbody|done].
Qed.

Lemma sameTick_forOfAcc {A B} (body : B → A → Tx B) xs acc :
  (∀ b x, evolves sameTick (body b x)) → evolves sameTick (forOfAcc xs acc body).
Proof.
  intros Hbody. revert acc. induction xs as [|x rest IH]; intros acc; simpl;
    [apply sameTick_ret|].
  apply sameTick_bind; [apply Hbody|done].
Qed.

Lemma sameTick_query {A} (f : Store → A) : evolves sameTick (prisma.query f).
Proof. by intros s a s' [_ ->]%query_Ok. Qed.

Lemma sameTick_create env r : evolves sameTick (prisma.create env r).
Proof. by intros s u s' (_ & _ & Htick)%create_Ok. Qed.

Lemma sameTick_modify f : evolves sameTick (prisma.modify f).
Proof. by intros s u s' [_ Htick]%modify_tick. Qed.

Lemma sameTick_group_update id data : evolves sameTick (prisma.group_update id data).
Proof.
  apply sameTick_bind; [apply sameTick_query|].
  intros [g|]; [apply sameTick_modify|by intros ? ? ?].
Qed.

Lemma sameTick_upsert env doc : evolves sameTick (prisma.expenseDocument_upsert env doc).
Proof.
  apply sameTick_bind; [apply sameTick_query|].
  intros []; [apply sameTick_modify|apply sameTick_create].
Qed.

Lemma documentLoop_warnings env expense docs warnings s warnings' s' :
  forOfAcc docs warnings (λ warnings doc,
    let* urlExists := prisma.checkUrlExists env (BackupDocument.url doc) in
    if urlExists : bool
    then
      run prisma.expenseDocument_upsert env
            (ExpenseDocument.mk (BackupDocument.id doc) (BackupDocument.url doc)
               (BackupDocument.width doc) (BackupDocument.height doc)
               (BackupExpense.id expense)) then
      ret warnings
    else ret (warnings ++ [Backup.documentWarning (BackupExpense.title expense)
                             (BackupDocument.url doc)])%list) s = Ok (warnings', s') →
  warnings' = (warnings ++ probeDocuments env (tick s) (BackupExpense.title expense) docs)%list
  ∧ tick s' = (tick s + length docs)%nat.
Proof.
  revert warnings s. induction docs as [|doc rest IH]; intros warnings s; simpl.
  - intros [-> ->]%ret_Ok. rewrite app_nil_r. split; [done|lia].
  - intros (w1 & s1 & Hdoc & Hrest)%bind_Ok.
    apply bind_Ok in Hdoc as (urlExists & s0 & Hprobe & Hdoc).
    unfold prisma.checkUrlExists, prisma.nextTick, bind, ret in Hprobe.
    injection Hprobe as <- <-.
    destruct (urlReachableAt env (tick s) (BackupDocument.url doc)).
    + apply bind_Ok in Hdoc as (u2 & s2 & Hupsert%sameTick_upsert & [-> ->]%ret_Ok).
      apply IH in Hrest as [-> ->]. unfold sameTick in Hupsert. rewrite Hupsert. simpl.
      split; [done|lia].
    + apply ret_Ok in Hdoc as [-> ->]. apply IH in Hrest as [-> ->]. simpl.
      rewrite <- app_assoc. split; [done|lia].
Qed.

Lemma createExpense_warnings env groupId expense warnings s warnings' s' :
  Backup.createExpense env groupId expense warnings s = Ok (warnings', s') →
  warnings' = (warnings ++ probeDocuments env (tick s) (BackupExpense.title expense)
                             (BackupExpense.documents expense))%list
  ∧ tick s' = (tick s + length (BackupExpense.documents expense))%nat.
Proof.
  unfold Backup.createExpense.
  intros (rate & s0 & (_ & -> & _)%decimalOrNull_Ok & Hrun)%bind_Ok.
  apply bind_Ok in Hrun as (m & s1 & ->%castSplitMode_Ok & Hrun).
  apply bind_Ok in Hrun as (r & s2 & ->%castRecurrenceRule_Ok & Hrun).
  apply bind_Ok in Hrun as (u3 & s3 & Ht3%sameTick_create & Hrun).
  apply bind_Ok in Hrun as (u4 & s4 & Hshares & Hdocs).
  assert (sameTick s3 s4) as Ht4.
  { revert Hshares. generalize s3 u4 s4. apply sameTick_forOf. intros pf.
    apply sameTick_create. }
  apply documentLoop_warnings in Hdocs as [-> ->].
  unfold sameTick in *. by rewrite Ht4, Ht3.
Qed.

Lemma addExpenses_warnings env groupId xs warnings s warnings' s' :
  forOfAcc xs warnings (λ warnings expense,
    Backup.createExpense env groupId expense warnings) s = Ok (warnings', s') →
  warnings' = (warnings ++ documentWarnings env (tick s) xs)%list
  ∧ tick s' = (tick s + length (xs ≫= BackupExpense.documents))%nat.
Proof.
  revert warnings s. induction xs as [|x xs IH]; intros warnings s.
  - intros [-> ->]%ret_Ok. simpl. rewrite app_nil_r. split; [done|lia].
  - cbn [forOfAcc documentWarnings]. rewrite bind_cons, length_app.
    intros (w1 & s1 & [-> Ht1]%createExpense_warnings & [-> ->]%IH)%bind_Ok.
    rewrite Ht1, <- app_assoc. split; [done|lia].
Qed.

Lemma restoreExpenses_warnings env groupId xs warnings s warnings' s' :
  forOfAcc xs warnings (λ warnings expense,
    let* warnings := Backup.createExpense env groupId expense warnings in
    run Backup.createRecurringExpenseLink env groupId expense then
    ret warnings) s = Ok (warnings', s') →
  warnings' = (warnings ++ documentWarnings env (tick s) xs)%list
  ∧ tick s' = (tick s + length (xs ≫= BackupExpense.documents))%nat.
Proof.
  revert warnings s. induction xs as [|x xs IH]; intros warnings s.
  - intros [-> ->]%ret_Ok. simpl. rewrite app_nil_r. split; [done|lia].
  - cbn [forOfAcc documentWarnings]. rewrite bind_cons, length_app.
    intros (w1 & s1 & Hx & [-> ->]%IH)%bind_Ok.
    apply bind_Ok in Hx as (w0 & s0 & [-> Ht0]%createExpense_warnings & Hlink).
    apply bind_Ok in Hlink as (u2 & s2 & Hlink & [-> ->]%ret_Ok).
    assert (sameTick s0 s2) as Ht2.
    { revert Hlink. generalize s0 u2 s2. unfold Backup.createRecurringExpenseLink.
      change (evolves sameTick
                match BackupExpense.recurringExpenseLink x with
                | Some link =>
                    prisma.create env (RecurringExpenseLinkRow
                      (RecurringExpenseLink.mk (BackupRecurringLink.id link) groupId
                         (BackupExpense.id x)
                         (BackupRecurringLink.nextExpenseCreatedAt link)
                         (BackupRecurringLink.nextExpenseDate link)))
                | None => ret tt
                end).
      destruct (BackupExpense.recurringExpenseLink x);
        [apply sameTick_create|apply sameTick_ret]. }
    unfold sameTick in Ht2. rewrite Ht2, Ht0, <- app_assoc. split; [done|lia].
Qed.

(** X17. The result of the full-backup Restore Engine.  A restore that
    returns reports success, and its warnings are exactly one 'Document not
    found' line for each document of an expense it wrote whose URL probe
    failed, in the order of the backup; it reads the environment once per such
    document and not otherwise. *)
Theorem backup_restore_warnings env backupData mode s result s' :
  Backup.restoreGroupFromBackup env backupData mode s = Ok (result, s') →
  let written := backupExpensesToWrite mode backupData (db s) in
  result = Backup.RestoreResult.mk true (documentWarnings env (tick s) written)
  ∧ tick s' = (tick s + length (written ≫= BackupExpense.documents))%nat.
Proof.
  set (groupId := BackupGroup.id (BackupData.group backupData)).
  assert (∀ s1 u s2,
    forOf (BackupData.participants backupData) (λ participant,
      prisma.create env (ParticipantRow (Backup.participantRow groupId participant))) s1
    = Ok (u, s2) → sameTick s1 s2) as Hparticipants.
  { apply sameTick_forOf. intros p. apply sameTick_create. }
  assert (∀ s1 u s2,
    forOf (BackupData.activities backupData) (λ activity,
      let* activityType :=
        Backup.castActivityType env (BackupActivity.activityType activity) in
      prisma.create env (ActivityRow
        (Activity.mk (BackupActivity.id activity) groupId
           (BackupActivity.time activity) activityType
           (BackupActivity.participantId activity)
           (BackupActivity.expenseId activity) (BackupActivity.data activity)))) s1
    = Ok (u, s2) → sameTick s1 s2) as Hactivities.
  { apply sameTick_forOf. intros a.
    apply sameTick_bind; [|intros; apply sameTick_create].
    by intros s1 t s2 (_ & -> & _)%castActivityType_Ok. }
  unfold Backup.restoreGroupFromBackup. fold groupId. destruct mode.
  - intros (u1 & s1 & Ht1%sameTick_create & Hrun)%bind_Ok.
    apply bind_Ok in Hrun as (u2 & s2 & Ht2%Hparticipants & Hrun).
    apply bind_Ok in Hrun as (w3 & s3 & [-> Ht3]%restoreExpenses_warnings & Hrun).
    apply bind_Ok in Hrun as (u4 & s4 & Ht4%Hactivities & [-> ->]%ret_Ok).
    unfold sameTick in *. simpl. rewrite Ht4, Ht3, Ht2, Ht1. done.
  - intros (u1 & s1 & [_ ->]%ret_Ok & Hrun)%bind_Ok.
    apply bind_Ok in Hrun as (u2 & s2 & Hps & Hrun).
    apply bind_Ok in Hps as (existingParticipants & s2' & [-> ->]%query_Ok & Hps).
    rewrite forOf_filter in Hps.
    pose proof (createParticipants_Ok _ _ _ _ _ _ Hps) as (_ & _ & He2).
    assert (sameTick s s2) as Ht2.
    { refine (sameTick_forOf _ _ _ _ _ _ Hps). intros p. apply sameTick_create. }
    apply bind_Ok in Hrun as (w3 & s3 & Hes & Hrun).
    apply bind_Ok in Hes as (existingExpenses & s3' & [-> ->]%query_Ok & Hes).
    rewrite forOfAcc_filter in Hes.
    apply addExpenses_warnings in Hes as [-> Ht3].
    apply bind_Ok in Hrun as (u4 & s4 & [_ ->]%ret_Ok & [-> ->]%ret_Ok).
    unfold backupExpensesToWrite, storedExpenseIds, prisma.expensesOf, sameTick in *.
    fold groupId. rewrite Ht3, Ht2, He2. done.
  - intros (u1 & s1 & Hdel & Hrun)%bind_Ok.
    assert (sameTick s s1) as Ht1.
    { revert Hdel. generalize s u1 s1.
      apply sameTick_bind; [apply sameTick_modify|]. intros _.
      apply sameTick_bind; [apply sameTick_modify|]. intros _.
      apply sameTick_bind; [apply sameTick_modify|]. intros _.
      apply sameTick_group_update. }
    apply bind_Ok in Hrun as (u2 & s2 & Ht2%Hparticipants & Hrun).
    apply bind_Ok in Hrun as (w3 & s3 & [-> Ht3]%restoreExpenses_warnings & Hrun).
    apply bind_Ok in Hrun as (u4 & s4 & Ht4%Hactivities & [-> ->]%ret_Ok).
    unfold sameTick in *. simpl. rewrite Ht4, Ht3, Ht2, Ht1. done.
Qed.

Lemma backup_restore_warnings_witness :
  let written := backupExpensesToWrite create MoreExamples.receiptBackup emptyStore in
  Backup.RestoreResult.mk true
    [Backup.documentWarning "Dinner" "https://files.example/receipt.png"]
  = Backup.RestoreResult.mk true (documentWarnings MoreExamples.offlineEnv 0 written)
  ∧ tick MoreExamples.afterReceiptCreate
    = (0 + length (written ≫= BackupExpense.documents))%nat.
Proof.
  apply (backup_restore_warnings MoreExamples.offlineEnv MoreExamples.receiptBackup create
           (mkTx emptyStore 0)
           (Backup.RestoreResult.mk true
              [Backup.documentWarning "Dinner" "https://files.example/receipt.png"])
           MoreExamples.afterReceiptCreate).
  vm_compute. reflexivity.
Defined.

(** ** Categories under a full-backup restore *)

Lemma addExpenses_rows env groupId xs warnings s warnings' s' :
  forOfAcc xs warnings (λ warnings expense,
    Backup.createExpense env groupId expense warnings) s = Ok (warnings', s') →
  ∃ rows, Forall2 (restoredAs groupId) xs rows
          ∧ expenses (db s') = (expenses (db s) ++ rows)%list.
Proof.
  revert warnings s. induction xs as [|x xs IH]; intros warnings s; simpl.
  - intros [_ ->]%ret_Ok. exists []. by rewrite app_nil_r.
  - intros (w1 & s1 & (_ & row & Hrow & He1 & _)%createExpense_rows & Hrest)%bind_Ok.
    apply IH in Hrest as (rows & Hrows & He).
    exists (row :: rows). split; [by constructor|].
    by rewrite He, He1, <- app_assoc.
Qed.

Lemma backup_restore_rows env backupData mode s result s' :
  Backup.restoreGroupFromBackup env backupData mode s = Ok (result, s') →
  let groupId := BackupGroup.id (BackupData.group backupData) in
  ∃ rows, Forall2 (restoredAs groupId) (backupExpensesToWrite mode backupData (db s)) rows
          ∧ expenses (db s') = (survivingExpenses mode groupId (db s) ++ rows)%list.
Proof.
  intros Hrun groupId.
  pose proof (backup_restore_Ok _ _ _ _ _ _ Hrun) as (_ & _ & rows' & He & Hrows').
  fold groupId in He, Hrows'.
  assert (∃ s0 s1 rows,
            Forall2 (restoredAs groupId) (backupExpensesToWrite mode backupData (db s)) rows
            ∧ expenses (db s1) = (expenses (db s0) ++ rows)%list
            ∧ expenses (db s') = expenses (db s1)) as (s0 & s1 & rows & Hrows & He1 & He').
  { revert Hrun. unfold Backup.restoreGroupFromBackup. fold groupId. destruct mode.
    - intros (u1 & s1 & _ & Hrun)%bind_Ok.
      apply bind_Ok in Hrun as (u2 & s2 & _ & Hrun).
      apply bind_Ok in Hrun as (w3 & s3 & (_ & rows & Hrows & He3 & _)%restoreExpenses_rows
                                  & Hrun).
      apply bind_Ok in Hrun as (u4 & s4 & Hact & [_ ->]%ret_Ok).
      apply preserves_restoreActivities, coreTables_eq in Hact as (_ & _ & He4).
      by exists s2, s3, rows.
    - intros (u1 & s1 & [_ ->]%ret_Ok & Hrun)%bind_Ok.
      apply bind_Ok in Hrun as (u2 & s2 & Hps & Hrun).
      apply bind_Ok in Hps as (existingParticipants & s2' & [-> ->]%query_Ok & Hps).
      rewrite forOf_filter in Hps.
      apply createParticipants_Ok in Hps as (_ & _ & He2).
      apply bind_Ok in Hrun as (w3 & s3 & Hes & Hrun).
      apply bind_Ok in Hes as (existingExpenses & s3' & [-> ->]%query_Ok & Hes).
      rewrite forOfAcc_filter in Hes.
      apply addExpenses_rows in Hes as (rows & Hrows & He3).
      apply bind_Ok in Hrun as (u4 & s4 & [_ ->]%ret_Ok & [_ ->]%ret_Ok).
      exists s2, s3, rows. split; [|done].
      unfold backupExpensesToWrite, storedExpenseIds, prisma.expensesOf in *.
      by rewrite <- He2.
    - intros (u1 & s1 & _ & Hrun)%bind_Ok.
      apply bind_Ok in Hrun as (u2 & s2 & _ & Hrun).
      apply bind_Ok in Hrun as (w3 & s3 & (_ & rows & Hrows & He3 & _)%restoreExpenses_rows
                                  & Hrun).
      apply bind_Ok in Hrun as (u4 & s4 & Hact & [_ ->]%ret_Ok).
      apply preserves_restoreActivities, coreTables_eq in Hact as (_ & _ & He4).
      by exists s2, s3, rows. }
  exists rows. split; [done|]. rewrite He. f_equal.
  apply Forall2_length in Hrows, Hrows'.
  assert (length rows = length rows') as Hlength by congruence.
  rewrite He', He1 in He.
  assert (drop (length (expenses (db s0))) (expenses (db s0) ++ rows)
          = drop (length (expenses (db s0))) (survivingExpenses mode groupId (db s) ++ rows'))
    as Hdrop by (by rewrite He).
  rewrite drop_app_length in Hdrop.
  assert (length (expenses (db s0)) = length (survivingExpenses mode groupId (db s)))
    as Hsame.
  { apply (f_equal length) in He. rewrite !length_app in He. lia. }
  rewrite Hsame, drop_app_length in Hdrop. done.
Qed.

Lemma preserves_categories_backup env backupData mode :
  preserves categories (Backup.restoreGroupFromBackup env backupData mode).
Proof.
  set (groupId := BackupGroup.id (BackupData.group backupData)).
  assert (∀ x ws, preserves categories (Backup.createExpense env groupId x ws)) as Hexpense.
  { intros x ws. unfold Backup.createExpense.
    apply preserves_bind; [apply preserves_decimalOrNull|]. intros rate.
    apply preserves_bind; [apply preserves_castSplitMode|]. intros m.
    apply preserves_bind; [apply preserves_castRecurrenceRule|]. intros r.
    apply preserves_bind; [by apply preserves_create|]. intros _.
    apply preserves_bind; [apply preserves_forOf; intros pf; by apply preserves_create|].
    intros _. apply preserves_forOfAcc. intros ws' doc.
    apply preserves_bind; [apply preserves_checkUrlExists|].
    intros []; [|apply preserves_ret].
    apply preserves_bind; [|intros; apply preserves_ret].
    apply preserves_bind; [apply preserves_query|].
    intros []; [by apply preserves_modify|by apply preserves_create]. }
  unfold Backup.restoreGroupFromBackup. fold groupId.
  apply preserves_bind.
  { destruct mode; [by apply preserves_create|apply preserves_ret|].
    apply preserves_bind; [by apply preserves_modify|]. intros _.
    apply preserves_bind; [by apply preserves_modify|]. intros _.
    apply preserves_bind; [by apply preserves_modify|]. intros _.
    apply preserves_categories_group_update. }
  intros _. apply preserves_bind.
  { destruct mode.
    - apply preserves_forOf. intros p. by apply preserves_create.
    - apply preserves_bind; [apply preserves_query|]. intros existing.
      apply preserves_forOf. intros p. case_decide; [|apply preserves_ret].
      by apply preserves_create.
    - apply preserves_forOf. intros p. by apply preserves_create. }
  intros _.
  assert (∀ ws, preserves categories
            (forOfAcc (BackupData.expenses backupData) ws (λ warnings expense,
               let* warnings := Backup.createExpense env groupId expense warnings in
               run Backup.createRecurringExpenseLink env groupId expense then
               ret warnings))) as Hexpenses.
  { intros ws. apply preserves_forOfAcc. intros ws' x.
    apply preserves_bind; [apply Hexpense|]. intros ws''.
    apply preserves_bind; [|intros; apply preserves_ret].
    unfold Backup.createRecurringExpenseLink.
    destruct (BackupExpense.recurringExpenseLink x); [|apply preserves_ret].
    by apply preserves_create. }
  assert (preserves categories
            (forOf (BackupData.activities backupData) (λ activity,
               let* activityType :=
                 Backup.castActivityType env (BackupActivity.activityType activity) in
               prisma.create env (ActivityRow
                 (Activity.mk (BackupActivity.id activity) groupId
                    (BackupActivity.time activity) activityType
                    (BackupActivity.participantId activity)
                    (BackupActivity.expenseId activity) (BackupActivity.data activity))))))
    as Hactivities.
  { apply preserves_forOf. intros a.
    apply preserves_bind; [apply preserves_castActivityType|].
    intros activityType. by apply preserves_create. }
  apply preserves_bind.
  { destruct mode; [done| |done].
    apply preserves_bind; [apply preserves_query|]. intros existing.
    apply preserves_forOfAcc. intros ws x. case_decide; [|apply preserves_ret].
    apply Hexpense. }
  intros ws. apply preserves_bind; [|intros; apply preserves_ret].
  destruct mode; [done|apply preserves_ret|done].
Qed.

(** X18. Categories under a restore of a full backup.  The Category table
    is left as it was, in every mode, and each Expense row written carries the
    category identifier of the backup as it is ([0] when the expense has no
    category): unlike the lightweight format, nothing is looked up or created,
    so the identifier may name no stored Category or one with another name. *)
Theorem backup_restore_categories env backupData mode s result s' :
  Backup.restoreGroupFromBackup env backupData mode s = Ok (result, s') →
  let groupId := BackupGroup.id (BackupData.group backupData) in
  categories (db s') = categories (db s)
  ∧ ∃ rows,
      expenses (db s') = (survivingExpenses mode groupId (db s) ++ rows)%list
      ∧ Forall2 (λ expense row,
                   Expense.id row = BackupExpense.id expense
                   ∧ Expense.categoryId row
                     = default 0 (BackupCategory.id <$> BackupExpense.category expense))
          (backupExpensesToWrite mode backupData (db s)) rows.
Proof.
  intros Hrun groupId. split; [by eapply preserves_categories_backup|].
  apply backup_restore_rows in Hrun as (rows & Hrows & He).
  exists rows. split; [done|].
  eapply Forall2_impl; [done|]. by intros x row (m & r & _ & _ & ->).
Qed.

Lemma backup_restore_categories_witness :
  categories (db Examples.afterBackupUpdate) = categories Examples.liveStore
  ∧ ∃ rows,
      expenses (db Examples.afterBackupUpdate)
      = (survivingExpenses update "g1" Examples.liveStore ++ rows)%list
      ∧ Forall2 (λ expense row,
                   Expense.id row = BackupExpense.id expense
                   ∧ Expense.categoryId row
                     = default 0 (BackupCategory.id <$> BackupExpense.category expense))
          (backupExpensesToWrite update Examples.tripBackup Examples.liveStore) rows.
Proof.
  apply (backup_restore_categories Examples.env Examples.tripBackup update
           (mkTx Examples.liveStore 0) (Backup.RestoreResult.mk true [])
           Examples.afterBackupUpdate).
  vm_compute. reflexivity.
Defined.

(** ** The calculator display *)

Lemma split_nonempty (text : list N) : AmountCalculator.split text ≠ [].
Proof.
  destruct text as [|c rest]; simpl; [done|].
  destruct (AmountCalculator.isOperator [c]); [done|].
  by destruct (AmountCalculator.split rest).
Qed.

Lemma split_snoc (text : list N) c :
  AmountCalculator.split (text ++ [c])%list
  = if AmountCalculator.isOperator [c]
    then (AmountCalculator.split text ++ [[]])%list
    else (removelast (AmountCalculator.split text)
            ++ [(AmountCalculator.currentNumber text ++ [c])%list])%list.
Proof.
  unfold AmountCalculator.currentNumber.
  induction text as [|a text IH]; simpl.
  - by destruct (AmountCalculator.isOperator [c]).
  - rewrite IH. pose proof (split_nonempty text) as Hne.
    destruct (AmountCalculator.isOperator [c]), (AmountCalculator.isOperator [a]);
      destruct (AmountCalculator.split text) as [|p [|p2 ps]]; try done.
Qed.

Lemma currentNumber_snoc (text : list N) c :
  AmountCalculator.currentNumber (text ++ [c])%list
  = if AmountCalculator.isOperator [c] then []
    else (AmountCalculator.currentNumber text ++ [c])%list.
Proof.
  unfold AmountCalculator.currentNumber at 1. rewrite split_snoc.
  destruct (AmountCalculator.isOperator [c]); by rewrite last_snoc.
Qed.

Lemma split_last (text : list N) :
  AmountCalculator.split text
  = (removelast (AmountCalculator.split text) ++ [AmountCalculator.currentNumber text])%list.
Proof.
  unfold AmountCalculator.currentNumber. pose proof (split_nonempty text) as Hne.
  destruct (exists_last Hne) as (parts & part & ->).
  by rewrite removelast_last, last_snoc.
Qed.

Lemma sliceLast_snoc (text : list N) c :
  AmountCalculator.sliceLast (text ++ [c])%list = [c]
  ∧ AmountCalculator.sliceInit (text ++ [c])%list = text.
Proof.
  unfold AmountCalculator.sliceLast, AmountCalculator.sliceInit.
  by rewrite last_snoc, removelast_last.
Qed.

Lemma slice_snoc (text : list N) :
  text ≠ [] →
  ∃ c, text = (AmountCalculator.sliceInit text ++ [c])%list
       ∧ AmountCalculator.sliceLast text = [c].
Proof.
  intros Hne. destruct (exists_last Hne) as (init & c & ->). exists c.
  by destruct (sliceLast_snoc init c) as [-> ->].
Qed.

Lemma noAdjacentOperators_snoc (text : list N) c :
  AmountCalculator.noAdjacentOperators (text ++ [c])%list
  ↔ AmountCalculator.noAdjacentOperators text
    ∧ ¬ (AmountCalculator.isOperator (AmountCalculator.sliceLast text) = true
         ∧ AmountCalculator.isOperator [c] = true).
Proof.
  induction text as [|a [|b text] IH].
  - simpl. split; [|done]. intros _. split; [done|]. by intros [? _].
  - simpl. tauto.
  - change (AmountCalculator.noAdjacentOperators ((a :: b :: text) ++ [c])%list)
      with (¬ (AmountCalculator.isOperator [a] = true
               ∧ AmountCalculator.isOperator [b] = true)
            ∧ AmountCalculator.noAdjacentOperators ((b :: text) ++ [c])%list).
    change (AmountCalculator.noAdjacentOperators (a :: b :: text))
      with (¬ (AmountCalculator.isOperator [a] = true
               ∧ AmountCalculator.isOperator [b] = true)
            ∧ AmountCalculator.noAdjacentOperators (b :: text)).
    change (AmountCalculator.sliceLast (a :: b :: text))
      with (AmountCalculator.sliceLast (b :: text)).
    rewrite IH. tauto.
Qed.

Lemma decimalPoints_app (a b : list N) :
  AmountCalculator.decimalPoints (a ++ b)%list
  = (AmountCalculator.decimalPoints a + AmountCalculator.decimalPoints b)%nat.
Proof. unfold AmountCalculator.decimalPoints. by rewrite filter_app, length_app. Qed.

Lemma decimalPoints_zero (part : list N) :
  AmountCalculator.decimalPoints part = 0%nat ↔ AmountCalculator.dot ∉ part.
Proof.
  unfold AmountCalculator.decimalPoints. split.
  - intros Hnone Hin.
    assert (AmountCalculator.dot ∈ filter (λ c, c = AmountCalculator.dot) part) as Hfiltered
      by (by apply list_elem_of_filter).
    destruct (filter _ part); [by apply elem_of_nil in Hfiltered|done].
  - intros Hnot. rewrite filter_none; [done|]. by intros x Hx ->.
Qed.

Lemma oneDecimalPoint_snoc (text : list N) c :
  AmountCalculator.oneDecimalPoint (text ++ [c])%list
  ↔ AmountCalculator.oneDecimalPoint text
    ∧ (c = AmountCalculator.dot →
       AmountCalculator.dot ∉ AmountCalculator.currentNumber text).
Proof.
  unfold AmountCalculator.oneDecimalPoint. rewrite split_snoc, (split_last text) at 1.
  destruct (AmountCalculator.isOperator [c]) eqn:Hop.
  - rewrite <- split_last, Forall_app, Forall_singleton.
    assert (c ≠ AmountCalculator.dot) by (by intros ->).
    split; intros [Hparts _]; (split; [done|]); [done|].
    unfold AmountCalculator.decimalPoints. simpl. lia.
  - rewrite (split_last text) at 2. rewrite !Forall_app, !Forall_singleton.
    rewrite decimalPoints_app, <- decimalPoints_zero.
    destruct (decide (c = AmountCalculator.dot)) as [->|Hdot].
    + assert (AmountCalculator.decimalPoints [AmountCalculator.dot] = 1%nat) as -> by done.
      split; [intros [Hparts Hcount]|intros [[Hparts Hcount] Hnone]].
      * split; [split; [done|lia]|intros _; lia].
      * split; [done|]. rewrite Hnone; [lia|done].
    + assert (AmountCalculator.decimalPoints [c] = 0%nat) as ->
        by (by apply decimalPoints_zero; intros <-%list_elem_of_singleton).
      rewrite Nat.add_0_r. split; [by intros []|by intros [[] _]].
Qed.
Lemma wellFormed_snoc (text : list N) c :
  AmountCalculator.wellFormed (text ++ [c])%list
  ↔ AmountCalculator.noAdjacentOperators text
    ∧ AmountCalculator.oneDecimalPoint text
    ∧ ¬ (AmountCalculator.isOperator (AmountCalculator.sliceLast text) = true
         ∧ AmountCalculator.isOperator [c] = true)
    ∧ (c = AmountCalculator.dot →
       AmountCalculator.dot ∉ AmountCalculator.currentNumber text).
Proof.
  unfold AmountCalculator.wellFormed.
  rewrite noAdjacentOperators_snoc, oneDecimalPoint_snoc.
  assert ((text ++ [c])%list ≠ []) by (by destruct text). tauto.
Qed.

Lemma wellFormed_single c : AmountCalculator.wellFormed [c].
Proof.
  apply (wellFormed_snoc [] c). split; [done|]. split; [|split].
  - apply Forall_singleton. unfold AmountCalculator.decimalPoints. simpl. lia.
  - by intros [? _].
  - intros _ Hin. by apply elem_of_nil in Hin.
Qed.

Lemma wellFormed_act st action :
  AmountCalculator.isKey action →
  AmountCalculator.wellFormed (AmountCalculator.display st) →
  AmountCalculator.wellFormed (AmountCalculator.display (AmountCalculator.act st action)).
Proof.
  intros Hkey Hwf. destruct action as [value| |]; simpl.
  - destruct Hkey as [c ->]. unfold AmountCalculator.appendToDisplay.
    destruct (AmountCalculator.hasResult st && negb (AmountCalculator.isOperator [c])).
    { simpl. case_decide; [|apply wellFormed_single].
      apply (wellFormed_snoc [AmountCalculator.zero] AmountCalculator.dot).
      split; [done|]. split; [|split].
      - apply Forall_singleton. unfold AmountCalculator.decimalPoints. simpl. lia.
      - by intros [? _].
      - intros _ Hin. by apply list_elem_of_singleton in Hin. }
    case_decide; [apply wellFormed_single|].
    destruct (slice_snoc (AmountCalculator.display st)) as (l & Hdisplay & Hlast);
      [by destruct Hwf|].
    rewrite Hdisplay in Hwf. apply wellFormed_snoc in Hwf as (Hadj & Hdots & Hops & Hdot).
    destruct (AmountCalculator.isOperator [c]
              && AmountCalculator.isOperator
                   (AmountCalculator.sliceLast (AmountCalculator.display st))) eqn:Hreplace.
    { simpl. apply andb_prop in Hreplace as [Hc Hl]. rewrite Hlast in Hl.
      apply wellFormed_snoc. repeat split; try done.
      - intros [Hinit _]. apply Hops. done.
      - by intros ->. }
    case_decide as Hrefuse; simpl.
    { rewrite Hdisplay at 1. apply wellFormed_snoc. done. }
    apply wellFormed_snoc.
    rewrite Hdisplay at 1 2. rewrite noAdjacentOperators_snoc, oneDecimalPoint_snoc.
    repeat split; try done.
    + intros [Hl Hc]. by rewrite Hc, Hl in Hreplace.
    + intros ->. intros Hin. apply Hrefuse. done.
  - unfold AmountCalculator.backspace. case_decide as Hshort; [apply wellFormed_single|].
    simpl. destruct (slice_snoc (AmountCalculator.display st)) as (l & Hdisplay & Hlast);
      [by destruct Hwf|].
    rewrite Hdisplay in Hwf. apply wellFormed_snoc in Hwf as (Hadj & Hdots & _).
    repeat split; try done.
    intros Hempty. apply Hshort. left. by rewrite Hdisplay, Hempty.
  - apply wellFormed_single.
Qed.

(** X19. The display of the calculator.  Starting from ['0'] or from any
    display that is not empty, has no two operators in a row and at most one
    decimal point per number, every sequence of keys (each a string of one
    character), backspaces and clears leaves such a display. *)
Theorem calculator_display_well_formed :
  AmountCalculator.wellFormed
    (AmountCalculator.display (AmountCalculator.initialState None))
  ∧ ∀ st actions,
      AmountCalculator.wellFormed (AmountCalculator.display st) →
      Forall AmountCalculator.isKey actions →
      AmountCalculator.wellFormed
        (AmountCalculator.display (foldl AmountCalculator.act st actions)).
Proof.
  split; [apply wellFormed_single|].
  intros st actions. revert st. induction actions as [|action actions IH]; intros st Hwf Hkeys.
  - done.
  - apply Forall_cons in Hkeys as [Hkey Hkeys]. simpl.
    apply IH; [|done]. by apply wellFormed_act.
Qed.

Lemma calculator_display_well_formed_witness :
  AmountCalculator.wellFormed
    (AmountCalculator.display
       (foldl AmountCalculator.act (AmountCalculator.initialState None)
          [AmountCalculator.Append [49%N]; AmountCalculator.Append [AmountCalculator.plus];
           AmountCalculator.Append [AmountCalculator.times];
           AmountCalculator.Append [AmountCalculator.dot];
           AmountCalculator.Append [AmountCalculator.dot];
           AmountCalculator.Append [53%N]; AmountCalculator.Backspace])).
Proof.
  apply (proj2 calculator_display_well_formed).
  - apply (proj1 calculator_display_well_formed).
  - repeat constructor; by eexists.
Defined.

(** ** The same snapshot a second time *)

Lemma Math_max_fmap_ge {A} (f : A → Z) (x : A) (xs : list A) (y : A) :
  y ∈ x :: xs → f y ≤ Math_max (f x) (f <$> xs).
Proof.
  intros Hy. apply Math_max_upper_bound. rewrite <- fmap_cons.
  apply list_elem_of_fmap. by exists y.
Qed.

Lemma json_updatedAt_ge_expense (existing : JsonImport.ExistingGroup.t) e :
  e ∈ JsonImport.ExistingGroup.expenses existing →
  JsonImport.ExistingExpense.expenseDate e ≤ JsonImport.existingGroupUpdatedAt existing.
Proof.
  intros He. unfold JsonImport.existingGroupUpdatedAt, JsonImport.latestExpense,
    JsonImport.latestActivity.
  destruct (JsonImport.ExistingGroup.expenses existing) as [|x xs] eqn:Hexpenses;
    [by apply elem_of_nil in He|].
  rewrite fmap_cons.
  pose proof (Math_max_fmap_ge JsonImport.ExistingExpense.expenseDate x xs e He) as Hle.
  destruct (JsonImport.ExistingGroup.activities existing) as [|a acts]; [done|].
  etrans; [exact Hle|]. apply Math_max_ge_init.
Qed.

Lemma json_updatedAt_ge_activity (existing : JsonImport.ExistingGroup.t) time :
  time ∈ JsonImport.ExistingGroup.activities existing →
  time ≤ JsonImport.existingGroupUpdatedAt existing.
Proof.
  intros Ha. unfold JsonImport.existingGroupUpdatedAt, JsonImport.latestExpense,
    JsonImport.latestActivity.
  destruct (JsonImport.ExistingGroup.activities existing) as [|a acts] eqn:Hactivities;
    [by apply elem_of_nil in Ha|].
  pose proof (Math_max_upper_bound a acts time Ha) as Hle.
  destruct (JsonImport.ExistingExpense.expenseDate
              <$> JsonImport.ExistingGroup.expenses existing) as [|x xs]; [done|].
  etrans; [exact Hle|]. apply Math_max_upper_bound.
  apply elem_of_cons. right. apply elem_of_cons. by left.
Qed.

(** X20. The same JSON snapshot a second time.  After a restore of the
    lightweight format that returned, the comparator never classifies the same
    snapshot as newer than the group (its expenses are stored, and the import
    marker is at least as recent as an empty snapshot's date [0] when the clock
    is past the epoch); so a second 'restore' request with the same file is
    refused with 'JSON export is not newer than existing group ...' and leaves
    the state as it is: only 'rollback' is left. *)
Theorem json_restore_not_repeatable env env' jsonData mode s u s1 tick' :
  JsonImport.restoreGroupFromJSON env jsonData mode s = Ok (u, s1) →
  JSONImportData.expenses jsonData ≠ [] ∨ 0 ≤ clockAt env (tick s) →
  JSONImportData.id jsonData ≠ EmptyString → JSONImportData.name jsonData ≠ EmptyString →
  JsonImport.VersionComparison.result
    (JsonImport.compareJSONVersions jsonData
       (JsonRoute.findExistingGroup (JSONImportData.id jsonData) (db s1))) ≠ NEWER
  ∧ JsonRoute.POST env' (Some jsonData) "restore" (mkTx (db s1) tick')
    = (ErrorResponse 400
         "JSON export is not newer than existing group. Use rollback to restore older version."
         None, mkTx (db s1) tick').
Proof.
  intros Hrun Hdated Hid Hname.
  pose proof (json_restore_group_stored _ _ _ _ _ _ Hrun) as [g Hg].
  pose proof (json_restore_covers _ _ _ _ _ _ Hrun) as [_ Hcovers].
  apply json_restore_log in Hrun as (marker & rows & acts & _ & Ha & Hmarker & _).
  apply importMarker_isImportMarker in Hmarker as (Hmgroup & Hmtime & _).
  unfold storedGroup in Hg.
  assert (JsonRoute.findExistingGroup (JSONImportData.id jsonData) (db s1)
          = Some (JsonImport.ExistingGroup.mk (Group.createdAt g)
                    (Participant.id <$> prisma.participantsOf (JSONImportData.id jsonData)
                                          (db s1))
                    ((λ e, JsonImport.ExistingExpense.mk (Expense.id e) (Expense.createdAt e)
                             (Expense.expenseDate e))
                       <$> prisma.expensesOf (JSONImportData.id jsonData) (db s1))
                    (Activity.time <$> prisma.activitiesOf (JSONImportData.id jsonData)
                                         (db s1)))) as Hexisting
    by (unfold JsonRoute.findExistingGroup; by rewrite Hg).
  set (existing := JsonImport.ExistingGroup.mk _ _ _ _) in Hexisting.
  assert (JsonImport.latestExpenseDate jsonData ≤ JsonImport.existingGroupUpdatedAt existing)
    as Hle.
  { unfold JsonImport.latestExpenseDate.
    destruct (JSONImportData.expenses jsonData) as [|x xs] eqn:Hexpenses.
    - destruct Hdated as [?|Hclock]; [done|]. simpl.
      etrans; [exact Hclock|]. apply json_updatedAt_ge_activity. simpl.
      apply list_elem_of_fmap. exists marker. split; [done|].
      apply list_elem_of_filter. split; [done|]. rewrite Ha.
      apply elem_of_app. right. apply elem_of_cons. by left.
    - rewrite fmap_cons.
      pose proof (Math_max_elem_of (JSONExpense.expenseDate x)
                    (JSONExpense.expenseDate <$> xs)) as Hmax.
      rewrite <- fmap_cons in Hmax. apply list_elem_of_fmap in Hmax as (e & Hdate & He).
      rewrite Hdate. specialize (Hcovers e He).
      apply elem_of_list_to_set, list_elem_of_fmap in Hcovers as (row & [= Hrowdate _] & Hrow).
      rewrite Hrowdate.
      apply (json_updatedAt_ge_expense existing
               (JsonImport.ExistingExpense.mk (Expense.id row) (Expense.createdAt row)
                  (Expense.expenseDate row))).
      simpl. apply list_elem_of_fmap. by exists row. }
  assert (JsonImport.VersionComparison.result
            (JsonImport.compareJSONVersions jsonData (Some existing)) ≠ NEWER
          ∧ JsonImport.VersionComparison.result
              (JsonImport.compareJSONVersions jsonData (Some existing)) ≠ NOT_FOUND)
    as [Hnewer Hfound].
  { unfold JsonImport.compareJSONVersions. repeat case_decide; simpl; try done; lia. }
  split; [by rewrite Hexisting|].
  unfold JsonRoute.POST, JsonRoute.POST_with. cbn [db]. rewrite Hexisting.
  repeat case_decide; try done; tauto.
Qed.

Lemma json_restore_not_repeatable_witness :
  JsonImport.VersionComparison.result
    (JsonImport.compareJSONVersions Examples.trip
       (JsonRoute.findExistingGroup "g1" (db Examples.afterJsonCreate))) ≠ NEWER
  ∧ JsonRoute.POST Examples.env (Some Examples.trip) "restore"
      (mkTx (db Examples.afterJsonCreate) 40)
    = (ErrorResponse 400
         "JSON export is not newer than existing group. Use rollback to restore older version."
         None, mkTx (db Examples.afterJsonCreate) 40).
Proof.
  apply (json_restore_not_repeatable Examples.env Examples.env Examples.trip create
           (mkTx emptyStore 0) tt Examples.afterJsonCreate 40%nat).
  - vm_compute. reflexivity.
  - by left.
  - done.
  - done.
Defined.

Lemma backup_update_noop env backupData s :
  let groupId := BackupGroup.id (BackupData.group backupData) in
  (∀ p, p ∈ BackupData.participants backupData →
        SnapshotParticipant.id p ∈ storedParticipantIds groupId (db s)) →
  (∀ e, e ∈ BackupData.expenses backupData →
        BackupExpense.id e ∈ storedExpenseIds groupId (db s)) →
  Backup.restoreGroupFromBackup env backupData update s
  = Ok (Backup.RestoreResult.mk true [], s).
Proof.
  intros groupId Hparticipants Hexpenses. unfold Backup.restoreGroupFromBackup.
  rewrite (bind_step _ _ _ tt s) by done.
  rewrite (bind_step _ _ _ tt s).
  2:{ rewrite (bind_step _ _ _ _ s) by done.
      apply forOf_skip. intros p Hp Hnew. by apply Hnew, Hparticipants. }
  rewrite (bind_step _ _ _ [] s).
  2:{ rewrite (bind_step _ _ _ _ s) by done.
      apply forOfAcc_skip. intros e He Hnew. by apply Hnew, Hexpenses. }
  by rewrite (bind_step _ _ _ tt s).
Qed.

(** X21. The same full backup a second time.  After a restore of a full
    backup that returned (in update mode: on a stored Group, as the route
    ensures), a 'restore' request with the same file never changes the state:
    it is either refused, or runs in update mode, which finds every
    participant and expense stored and writes nothing. *)
Theorem backup_restore_request_repeatable env env' backupData mode s result s1 tick' :
  Backup.restoreGroupFromBackup env backupData mode s = Ok (result, s1) →
  (mode = update →
   is_Some (storedGroup (BackupGroup.id (BackupData.group backupData)) (db s))) →
  let response := BackupRoute.POST env' (Some backupData) "restore" (mkTx (db s1) tick') in
  response.2 = mkTx (db s1) tick'
  ∧ (response.1
     = ErrorResponse 400
         "Backup is not newer than existing group. Use rollback to restore older version."
         None
     ∨ response.1
       = Restored (restoredMessage update) (BackupGroup.id (BackupData.group backupData))
           update []
     ∨ response.1 = ErrorResponse 400 "Invalid backup file format" None).
Proof.
  intros Hrun Hstored.
  pose proof (backup_restore_covers _ _ _ _ _ _ Hrun) as [Hparticipants Hexpenses].
  assert (is_Some (storedGroup (BackupGroup.id (BackupData.group backupData)) (db s1)))
    as [g Hg].
  { apply storedGroup_is_Some.
    apply backup_restore_Ok in Hrun as (Hgroups & _). destruct mode.
    - destruct Hgroups as (g & -> & <-). rewrite fmap_app.
      apply elem_of_app. right. apply elem_of_cons. by left.
    - rewrite Hgroups. apply storedGroup_is_Some. by apply Hstored.
    - destruct Hgroups as [-> Hfound]. by apply storedGroup_is_Some. }
  simpl. unfold BackupRoute.POST, BackupRoute.POST_with.
  case_decide; [by auto|]. cbn [db].
  unfold BackupRoute.findExistingGroup. unfold storedGroup in Hg. rewrite Hg.
  set (existing := Backup.ExistingGroup.mk _ _ _ _).
  unfold Backup.compareVersions.
  repeat case_decide; simpl; try done; try by auto.
  all: unfold BackupRoute.executeRestore;
    rewrite (transaction_Ok _ _ _ _ (backup_update_noop env' backupData (mkTx (db s1) tick')
                                       Hparticipants Hexpenses));
    by auto.
Qed.

Lemma backup_restore_request_repeatable_witness :
  let response := BackupRoute.POST Examples.env (Some Examples.tripBackup) "restore"
                    (mkTx (db Examples.afterBackupUpdate) 9) in
  response.2 = mkTx (db Examples.afterBackupUpdate) 9
  ∧ (response.1
     = ErrorResponse 400
         "Backup is not newer than existing group. Use rollback to restore older version."
         None
     ∨ response.1 = Restored (restoredMessage update) "g1" update []
     ∨ response.1 = ErrorResponse 400 "Invalid backup file format" None).
Proof.
  apply (backup_restore_request_repeatable Examples.env Examples.env Examples.tripBackup
           update (mkTx Examples.liveStore 0) (Backup.RestoreResult.mk true [])
           Examples.afterBackupUpdate 9%nat).
  - vm_compute. reflexivity.
  - intros _. by eexists.
Defined.
